(* ===== verification/_CoqProject ===== *)
-Q . S2P
Prelude.v
Effects.v
Resp.v
RedisMux.v
WebSocket.v
Routing.v
Includes.v
Urls.v
Exceptions.v
Teardown.v
Middleware.v
AsyncWorker.v
Lifespan.v
Workers.v
Templates.v
Mounts.v
Door.v
Drive.v
Sessions.v
Guards.v
Streams.v
WsDeps.v
Frontend.v
AsgiShim.v
Adapter.v
Bridge.v
Background.v
WsEndpoint.v
Dicts.v
HostRouting.v
Register.v
BuildHandler.v
StreamHandler.v
TestStream.v
TestClient.v
TestWs.v
Proxy.v
LifespanChain.v
WsChain.v
ServerArgs.v
JsonPaths.v
Sentry.v
Shim.v
Helpers.v
Requests.v
OpenApi.v
Params.v
AppIncludes.v
ResponseModel.v
ParamModels.v
Registration.v
TestSessions.v
SentryEvents.v
Construct.v
SyncCaller.v
Views.v
