(* ===== verification/Prelude.v ===== *)
(** * A verification development for fastapi-turbo

    fastapi-turbo serves FastAPI applications from a Rust HTTP server (the
    "door").  The Python package under [src/python/fastapi_turbo] keeps the
    FastAPI programming model: it registers routers, flattens them into the
    route dicts the door registers, wraps endpoints with middlewares and
    exception handlers, runs coroutines on one worker loop, tears down [yield]
    dependencies, drives WebSocket sessions and ships a multiplexed Redis
    client.  This library models that Python code and proves what makes each
    part correct, or, where it is not, what the code does instead.

    ** Files

    - [Prelude]: text, bytes and Python's sequence operations (slices, [find],
      [strip], [split], [int], ["%d"]), results with exceptions, tactics, and
      the lemmas the components share.
    - [Effects]: a monad of state, log and exceptions with Python's control
      structures, its laws and its equivalence, for [Lifespan].
    - [Resp] (contrib_redis.py: [_PyReader], [_encode_command]): the RESP2
      parser over its byte buffer and the command encoder.
    - [RedisMux] (contrib_redis.py: [RedisMux], [_MuxProtocol]): the connection
      object as a record, each method as a function on it, coroutines cut at
      their [await]s; a closed system adds the server and the network.
    - [WebSocket] (websockets.py, _ws_support.py, applications.py): the
      connection object over ASGI or the Rust socket, the end of a session
      ([_ws_entry], [_handle_ws_exc]) and the in-process door [_asgi_ws_door].
    - [Routing] (applications.py, routing.py, _route_helpers.py): the flatten
      [_collect_routes_from_router] and [_collect_all_routes], the include
      context given to real FastAPI, the arguments [_openapi_real_routes]
      rebuilds routes with.
    - [Includes] (routing.py, _route_helpers.py): [APIRouter] objects on a heap,
      [include_router], [_append_included_router], [_normalize_gen_ids]; the
      heap unfolds to the trees of [Routing].
    - [Urls] (applications.py, routing.py): [url_path_for] and the proxy of a
      mounted ASGI application.
    - [Exceptions] (applications.py): handler look-up, the ways of running a
      handler, the wrappers around endpoints.
    - [Teardown] (applications.py, _ws_support.py): [_run_pending_teardowns],
      [_door_wrap_stream_teardown], [_teardown_generators] and the exit stacks
      of the delegated handler.
    - [Middleware] (applications.py, _middleware_wrap.py, background.py):
      registration and order of middlewares, the synchronous chain around an
      endpoint, its event-loop fallback and final drain; it calls [Exceptions]
      and [Teardown] where the code does.
    - [AsyncWorker] (_async_worker.py): the start of the worker loop under
      racing threads, and [submit_fast] with its pool of gates, as transition
      systems.
    - [Lifespan] (applications.py): hooks and lifespan managers, their
      collection, both variants of start-up and shutdown, the ASGI protocol, the
      first request and the life of a worker process, written in [Effects].
    - [Workers] (applications.py): [_resolve_worker_count] and the parent of
      [_run_multiworker] with an environment of processes and a clock.
    - [Templates], [Mounts], [Door] (applications.py): path templates and their
      matching, mounted applications and their scopes, [__call__], registration
      and its fingerprint, one request through the engine and the chains of raw
      ASGI middlewares.
    - [Drive] (_door_support.py): driving [async def] handlers without a loop,
      names of parameter types, validation of bodies.
    - [Sessions] (middleware/sessions.py), [Guards] (middleware/trustedhost.py,
      middleware/httpsredirect.py, authentication.py, _ws_support.py): signed
      cookies and the session object, host checks, redirects, authentication
      and [requires].
    - [Streams] (responses.py, requests.py): driving a streaming body by hand.
    - [WsDeps], [WsEndpoint] (_ws_support.py): parameters and dependencies of
      WebSocket endpoints with the whole course of [_ws_entry], and class-based
      endpoints.
    - [Frontend] (_frontend.py, applications.py): the fallback for requests the
      door did not match.
    - [AsgiShim] (_middleware_wrap.py): ASGI middleware classes run inside the
      middleware chain.
    - [Adapter] (_introspect_from_real_fastapi.py; the loop over the parameters
      of router.rs): the flat list of parameters a route becomes, with its keys
      and cache keys, and what the engine computes from it.
    - [Bridge] (_introspect_from_real_fastapi.py): asynchronous [yield]
      dependencies shown to the engine as synchronous ones.
    - [Background] (background.py): the drains of background tasks.
    - [HostRouting] (applications.py): applications mounted by host, the
      dispatch to their routes, and running an ASGI application to a response.
    - [Register] (applications.py: [_build_server_args] and what it calls): which
      handler a route is registered with (adapter, delegation or raw), the
      middlewares around it, and the route of the OpenAPI schema.
    - [BuildHandler] (_introspect_from_real_fastapi.py, _route_helpers.py,
      applications.py): the handler the adapter builds, the endpoint of a custom
      route class and the engine's call of a validation handler.
    - [StreamHandler] (applications.py: [_oa_stream_info],
      [_build_stream_handler]): server-sent events and JSON lines.
    - [TestStream], [TestClient], [TestWs] (testclient.py): the streaming
      client, the life of test clients and their servers, and both WebSocket
      test sessions.
    - [Proxy] (applications.py): the loopback proxy to the Rust server.
    - [Dicts]: dicts of strings in insertion order, for the components that send
      headers, cookies and contexts.
    - [LifespanChain] (applications.py: [_start_lifespan_mw_chain],
      [_stop_lifespan_mw_chain]): the lifespan as a task behind the raw ASGI
      middlewares, its messages and the waiting caller, over [Lifespan].
    - [WsChain] (_ws_support.py): the middlewares around a WebSocket connection,
      through the bridge to the [WebSocket] object and through the raw chain.
    - [ServerArgs] (applications.py; the documentation routes of server.rs): the
      documentation routes of both kinds of server, content types of static
      files, the disconnect watch, the stamping of route contexts.
    - [JsonPaths] (responses.py, responses.rs): [_json_default] under [orjson]
      and the Rust writer it falls back to.
    - [Sentry] (_sentry_compat.py): the bridge of outer Sentry scopes, naming of
      transactions, installation of the middleware.
    - [Shim] (compat/__init__.py): [install] with its table, and [uninstall].
    - [Helpers] (concurrency.py, templating.py): thread pool iteration and
      [TemplateResponse].
    - [Requests] (requests.py, _middleware_wrap.py, websockets.py, exceptions.py):
      the requests the door builds for Python code and their shared dicts.
    - [OpenApi] (applications.py, routing.py): the document, its cache, servers
      and callbacks, and the construction of a route, over [StreamHandler].
    - [Params] (param_functions.py, _ws_support.py,
      _introspect_from_real_fastapi.py, applications.py): markers, annotations
      and uploaded files; it gives [WsDeps] its parameters.
    - [AppIncludes] (applications.py: [FastAPI.include_router]): the includes of
      an application over the heap of [Includes].
    - [ResponseModel] (_route_helpers.py: [_apply_response_model],
      [_model_needs_full_dump]): filtering a result through a response model, its
      errors, and the verdict cached on the classes.
    - [ParamModels] (_introspect_from_real_fastapi.py): the builders of parameter
      models, and the handlers of [Exceptions] their errors reach.
    - [Registration] (routing.py, applications.py, _ws_support.py,
      _route_helpers.py): the decorators and methods that register routes, over
      [OpenApi] and [WsDeps]; event and exception handlers; customised classes.
    - [TestSessions] (testclient.py, _ws_support.py): targets of WebSocket
      sessions, the contexts and exceptions that pass through the application,
      default headers, and [AsyncTestClient].
    - [SentryEvents] (_sentry_compat.py): the event processor, the active thread.
    - [Construct] (applications.py, _async_worker.py): what the constructor of an
      application does, over [Middleware] and [AsyncWorker], and the genuine
      classes behind the patches of [Shim].
    - [SyncCaller] (_door_support.py): driving a coroutine by one step on the
      calling thread and the rest on the worker loop.
    - [Views] (websockets.py, _frontend.py, middleware/sessions.py,
      contrib_redis.py): what objects show of the scope they are made from.

    ** Modelling choices

    State is explicit: a record per object, a [gmap] for a heap or a dict
    without order, an association list for a dict whose order matters.  Raising
    is a value ([res], an option, or a constructor of the outcome).  Code of the
    user (handlers, middlewares, generators) is a program: an inductive type
    whose constructors are what such code can do with the framework, so that the
    theorems quantify over all of it.  Code outside the repository (real
    FastAPI, Starlette, hiredis, the Rust extension) is a section variable;
    what is assumed of it is a hypothesis of the theorem ([_contains_router]
    follows the markers; a class comes first in its own MRO).  Integers are
    Python's, hence unbounded, but for the 64-bit cache keys of [Adapter].

    ** What the theorems show

    - Redis: however the bytes of well-formed replies are cut and whenever the
      reader is asked, it answers the next complete reply or none; a command is
      read back as its arguments; under every interleaving of sends, flushes,
      deliveries and cancellations each future gets the reply to its own
      command, and every answered, uncancelled one has it once all bytes are
      delivered; losing the connection fails every waiter.
    - WebSocket: whatever a handler does and however it ends, the messages sent
      obey the ASGI protocol (and the calls on the Rust socket their order);
      disconnection is final.
    - Routing: the flatten and the include context agree on every route of an
      application without mounts (the refinement between the two descriptions of
      one tree); excluded routes have their fallback; includes cannot form a
      cycle, so every walk ends within as many levels as there are routers, and
      inclusions by the application keep it so (although they can close a cycle
      of markers).
    - Endpoints: driving the middlewares without a loop equals the event loop's
      run as long as nothing in it waits or uses the running loop (what uses it
      without waiting fails); middlewares that call on once and do not suspend
      are an onion; what exception wrappers answer, re-raise and record; the
      order of teardowns and that each runs.
    - Worker: at most one loop is started; a caller of [submit_fast] gets its
      own coroutine's result although gates are reused; a timed-out coroutine
      is closed, ended or cancelled.
    - Lifecycle: start-up, requests and shutdown, failures of hooks and lifespans
      included, follow a specification automaton (cancellation and shutdown hooks
      that start the application up are excluded); the parent of the workers
      reaps each of them in bounded time, unless a fork fails.
    - The door: one response at most goes out, complete when it is declared
      complete; additions the fingerprint covers are registered by the next request;
      a mount gets its own subtree; paths built from values match with exactly
      these values; an unmatched request is answered in a fixed order of
      fallbacks.
    - Parameters: the flat list the adapter emits computes exactly the arguments
      the tree of dependencies means, with caching; WebSocket dependencies run
      once and in order, and the check of their scopes is exact; a bridged
      dependency behaves like a synchronous one and lends its context variables
      to the request's thread, which gets its own back when the dependency is
      ended in the same [Context] (after a streamed body it is not).
    - Bodies and tasks: driving a stream by hand is [async for]; every chunk is
      delivered or the generator closed; a drain of background tasks runs each
      once; a class-based WebSocket endpoint is told of the end once.
    - Middleware classes: a session that is not empty survives its cookie, an
      emptied one does or does not clear it, and only signed cookies are accepted; hosts and scopes are checked exactly; a middleware class
      that passes everything on is invisible behind the shim.
    - Registration: an HTTP route is never served from its raw parameters, and
      a route the adapter takes has its endpoint called with exactly its own
      signature, by [Adapter]'s theorem about the flat list; a route object
      shared by applications keeps its provider; each raw middleware runs once.
    - Host mounts: the cached expressions never show, and a path built from a
      template reaches its endpoint with the values it was built from.
    - Streaming endpoints: events are delivered in order under every
      interleaving, and the stream ends; the lines of a JSON-lines body are its
      items.
    - Test client: a streamed body is read in full; a starting client reaches its
      own application whatever clients and servers came before; a WebSocket
      session is a pipe to the application, however far the application has got
      at each operation of the test; redirects never replay a body.
    - Middleware chains: a lifespan behind observing middlewares is the lifespan
      itself, under every interleaving with its caller; whatever a middleware
      sends around a WebSocket endpoint, the client sees a legal ASGI sequence.
    - JSON: the fast path and its fallback write the same tree, but for members of
      plain enumerations, subclasses of [tuple], objects that only convert to
      numbers and slotted dataclasses, where they are shown to differ.
    - Shim: uninstalling takes every assignment off again after any sequence of
      installations, failed ones included (the submodules that imports bound in
      their packages stay bound); installing sets every entry point.
    - Requests: those built from one scope are one request, with a state of its
      own; a route included several times gets the context of the inclusion that
      matched; the server is read off the [Host] header.
    - Documents and parameters: the document is generated once and the served one
      never stale, callbacks are rebuilt at every depth, the search for framework
      types in a signature is exact, what is written to an upload is read back.
    - Results and models: the shortcut for a response model is the long way where
      no class inside the value is aliased; only framework errors leave it; the
      error of a parameter model takes the handlers of an HTTP exception.
    - Registration calls: the routes are those of the successful calls in their
      order, the version counts them, a refused call leaves no trace; a handler
      registered last is the one that is found.
    - Around the application: genuine classes are loaded whatever the shim did
      before; contexts reach WebSocket connections by rank.
    - Divergences: the places where the code does not do what its comments
      promise are theorems too (a suspending middleware runs the endpoint twice
      or fails, a reconnect forgets waiters, a failing function-scope teardown
      leaks the request scope, and others).

    ** Bounds and fuel

    [Resp._parse] and [Includes._walk] take the recursion depth the interpreter
    still allows; running out is [RecursionError], as in Python, and the theorems
    ask for the nesting depth of the reply and the number of routers
    respectively.  [Includes.unfold_router] is proved total for as much fuel as
    there are routers, and independent of more.  [WebSocket.iterate] takes fuel
    for the iterations of [iter_text] and its kin; more than the number of
    incoming messages is proved enough.  [Workers.reap_loop] takes the number of
    polls, of which the deadline allows boundedly many; [Streams.drive_with] one
    more than the chunks of the body; [Drive.scan] the size of the syntax tree;
    [WsDeps._resolve_dep_async] the recursion the interpreter allows, and
    [WsDeps._walk] is proved to return with as much as there are functions;
    [Background.run_sync] the number of tasks, added ones included, proved
    enough.  [TestStream.redirect_loop] and [TestStream.auth_loop] count the
    source's own limits down (eleven requests, five rounds); the steps of a
    [StreamHandler] stream decrease a measure, and every schedule of
    [LifespanChain] is finite.  [Helpers.async_for] takes one more than the items;
    [TestSessions.wait_for_server] the 201 attempts ten seconds allow, proved enough.
    [RedisMux.drain] recurses on the waiters; no other definition needs a bound.

    ** Not modelled

    The Rust core (but for the loop over the parameters, the JSON writer and the
    documentation routes), Pydantic validation and the classification of
    parameters by real FastAPI, entering the scopes of the Sentry SDK, static
    files, settings that are only stored, and the thin wrappers around Starlette
    classes.  [_apply_response_model] is called by tests only.  The benchmark and
    comparison applications of the repository use the package and are no part of
    it. *)

From Stdlib Require Export ZArith NArith Ascii String.
From Stdlib Require Import DecimalFacts DecimalPos DecimalN.
From stdpp Require Export base numbers list gmap strings.

#[global] Open Scope Z_scope.

(** * Text and bytes

    A Python [bytes] value is a list of 8-bit characters, and so is a [str]
    whose code points are below 256 (Latin-1, what ASGI header decoding
    produces).  String literals are coerced to lists. *)

Abbreviation bytes := (list ascii) (only parsing).
Abbreviation text := (list ascii) (only parsing).

Definition lit (s : string) : list ascii := String.list_ascii_of_string s.
Coercion lit : string >-> list.

Definition CR : ascii := "013"%char.
Definition LF : ascii := "010"%char.
Definition crlf : bytes := [CR; LF].

Definition zlen {A} (l : list A) : Z := Z.of_nat (length l).

(** * Python exceptions, as far as the modelled code raises or catches them *)

Inductive exn :=
| ValueError
| TypeError
| IndexError
| KeyError (k : text)
| LookupError
| AttributeError
| AssertionError
| RecursionError
| NotImplementedError
| UnicodeDecodeError
| UnicodeEncodeError
| RuntimeError (msg : text)
| ConnectionError (msg : text)
| RedisMuxError (msg : text)
| TimeoutError
| CancelledError
| FastAPIError (msg : text)
| UserError (class : nat) (tag : nat).

#[export] Instance exn_eq_dec : EqDecision exn.
Proof. solve_decision. Defined.

(** * Results: a value or a raised exception *)

Inductive res (A : Type) :=
| Ok (a : A)
| Raise (e : exn).
Arguments Ok {A} a.
Arguments Raise {A} e.

Definition res_bind {A B} (m : res A) (k : A -> res B) : res B :=
  match m with
  | Ok a => k a
  | Raise e => Raise e
  end.

Declare Scope res_scope.
Delimit Scope res_scope with res.
Notation "x <-- m ;; k" := (res_bind m (fun x => k))
  (at level 100, m at next level, right associativity) : res_scope.

Lemma res_bind_Ok {A B} (m : res A) (k : A -> res B) b :
  res_bind m k = Ok b <-> exists a, m = Ok a /\ k a = Ok b.
Proof. destruct m; simpl; naive_solver. Qed.

(** * Sequence operations of Python *)

(** Python's index normalisation: a negative index counts from the end. *)
Definition norm_index (len i : Z) : Z :=
  if i <? 0 then Z.max 0 (i + len) else Z.min i len.

(** [l[i:j]] *)
Definition slice {A} (l : list A) (i j : Z) : list A :=
  let a := norm_index (zlen l) i in
  let b := norm_index (zlen l) j in
  take (Z.to_nat (b - a)) (drop (Z.to_nat a) l).

(** [del l[:j]] *)
Definition del_prefix {A} (l : list A) (j : Z) : list A :=
  drop (Z.to_nat (norm_index (zlen l) j)) l.

Fixpoint starts_with (p l : text) : bool :=
  match p, l with
  | [], _ => true
  | a :: p', b :: l' => bool_decide (a = b) && starts_with p' l'
  | _ :: _, [] => false
  end.

Definition ends_with (s l : text) : bool := starts_with (reverse s) (reverse l).

Fixpoint find_at (sub l : text) (i : Z) : Z :=
  if starts_with sub l then i
  else match l with
       | [] => -1
       | _ :: l' => find_at sub l' (i + 1)
       end.

(** [l.find(sub, start)] *)
Definition find (sub l : text) (start : Z) : Z :=
  let s := if start <? 0 then Z.max 0 (start + zlen l) else start in
  if zlen l <? s then -1 else find_at sub (drop (Z.to_nat s) l) s.

(** [l.partition(c)] without the separator, for a one-character separator. *)
Fixpoint partition_at (c : ascii) (l : text) : text * text :=
  match l with
  | [] => ([], [])
  | a :: l' => if bool_decide (a = c) then ([], l')
               else let '(x, y) := partition_at c l' in (a :: x, y)
  end.

(** [l.split(c)] *)
Fixpoint split_on (c : ascii) (l : text) : list text :=
  match l with
  | [] => [[]]
  | a :: l' => if bool_decide (a = c) then [] :: split_on c l'
               else match split_on c l' with
                    | [] => [[a]]
                    | w :: ws => (a :: w) :: ws
                    end
  end.

Fixpoint join (sep : text) (ws : list text) : text :=
  match ws with
  | [] => []
  | [w] => w
  | w :: ws' => w ++ sep ++ join sep ws'
  end.

Fixpoint lstrip_by (p : ascii -> bool) (l : text) : text :=
  match l with
  | [] => []
  | c :: l' => if p c then lstrip_by p l' else l
  end.

Definition rstrip_by (p : ascii -> bool) (l : text) : text :=
  reverse (lstrip_by p (reverse l)).

Definition strip_by (p : ascii -> bool) (l : text) : text :=
  rstrip_by p (lstrip_by p l).

Definition code (c : ascii) : N := N_of_ascii c.

(** [str.lower] on a Latin-1 character: the ASCII capitals and the capitals of
    the range 0xC0..0xDE (0xD7 is the multiplication sign). *)
Definition lower_char (c : ascii) : ascii :=
  let n := code c in
  if ((65 <=? n) && (n <=? 90) || (192 <=? n) && (n <=? 222) && negb (n =? 215))%N
  then ascii_of_N (n + 32) else c.

Definition lower (t : text) : text := lower_char <$> t.

(** * Decimal integers: ["%d" % z] and [int(t)] *)

Fixpoint uint_text (u : Decimal.uint) : text :=
  match u with
  | Decimal.Nil => []
  | Decimal.D0 u => "0"%char :: uint_text u
  | Decimal.D1 u => "1"%char :: uint_text u
  | Decimal.D2 u => "2"%char :: uint_text u
  | Decimal.D3 u => "3"%char :: uint_text u
  | Decimal.D4 u => "4"%char :: uint_text u
  | Decimal.D5 u => "5"%char :: uint_text u
  | Decimal.D6 u => "6"%char :: uint_text u
  | Decimal.D7 u => "7"%char :: uint_text u
  | Decimal.D8 u => "8"%char :: uint_text u
  | Decimal.D9 u => "9"%char :: uint_text u
  end.

Definition cons_digit (c : ascii) (u : Decimal.uint) : option Decimal.uint :=
  match c with
  | "0"%char => Some (Decimal.D0 u)
  | "1"%char => Some (Decimal.D1 u)
  | "2"%char => Some (Decimal.D2 u)
  | "3"%char => Some (Decimal.D3 u)
  | "4"%char => Some (Decimal.D4 u)
  | "5"%char => Some (Decimal.D5 u)
  | "6"%char => Some (Decimal.D6 u)
  | "7"%char => Some (Decimal.D7 u)
  | "8"%char => Some (Decimal.D8 u)
  | "9"%char => Some (Decimal.D9 u)
  | _ => None
  end.

Fixpoint digits_uint (t : text) : option Decimal.uint :=
  match t with
  | [] => Some Decimal.Nil
  | c :: t' => match digits_uint t' with
               | Some u => cons_digit c u
               | None => None
               end
  end.

(** Single underscores may separate digits; [prev] says the previous character
    was not an underscore (and there was one). *)
Fixpoint drop_underscores (prev : bool) (t : text) : option text :=
  match t with
  | [] => if prev then Some [] else None
  | c :: t' =>
      if bool_decide (c = "_"%char) then
        if prev then drop_underscores false t' else None
      else match drop_underscores true t' with
           | Some r => Some (c :: r)
           | None => None
           end
  end.

Definition parse_digits (t : text) : option Z :=
  match drop_underscores false t with
  | Some d => match digits_uint d with
              | Some u => Some (Z.of_N (N.of_uint u))
              | None => None
              end
  | None => None
  end.

(** [int(t)], base 10; [None] is [ValueError].  [sp] tells which characters
    are white space: the two argument types of [int] differ in that. *)
Definition py_int (sp : ascii -> bool) (t : text) : option Z :=
  match strip_by sp t with
  | c :: d =>
      if bool_decide (c = "-"%char) then Z.opp <$> parse_digits d
      else if bool_decide (c = "+"%char) then parse_digits d
      else parse_digits (c :: d)
  | [] => None
  end.

Definition is_space_bytes (c : ascii) : bool :=
  let n := code c in ((9 <=? n) && (n <=? 13) || (n =? 32))%N.

Definition is_space_latin1 (c : ascii) : bool :=
  let n := code c in
  (is_space_bytes c || (28 <=? n) && (n <=? 31) || (n =? 133) || (n =? 160))%N.

(** ["%d" % z] *)
Definition dec (z : Z) : text :=
  match z with
  | Z0 => "0"
  | Zpos p => uint_text (Pos.to_uint p)
  | Zneg p => "-"%char :: uint_text (Pos.to_uint p)
  end.

(** * Automation *)

Create HintDb turbo.
Create HintDb zlen.

(** Split boolean tests and [decide]s of the goal and hypotheses. *)
Ltac bool_cases :=
  repeat first
    [ case_bool_decide
    | match goal with
      | |- context [if ?b then _ else _] =>
          lazymatch type of b with bool => let E := fresh "E" in destruct b eqn:E end
      | H : context [if ?b then _ else _] |- _ =>
          lazymatch type of b with bool => let E := fresh "E" in destruct b eqn:E end
      end ].

(** Destruct the scrutinee of every [match] in the goal, then simplify. *)
Ltac crush_match := repeat (case_match; simplify_eq/=; try done).

(** Linear arithmetic with division by constants. *)
Ltac div_lia := zify; Z.to_euclidean_division_equations; lia.

(** * Generic lemmas *)

Lemma zlen_app {A} (l k : list A) : zlen (l ++ k) = zlen l + zlen k.
Proof. unfold zlen. rewrite length_app. lia. Qed.

Lemma zlen_cons {A} (x : A) l : zlen (x :: l) = 1 + zlen l.
Proof. unfold zlen. simpl. lia. Qed.

Lemma zlen_nil {A} : zlen (@nil A) = 0.
Proof. done. Qed.

Lemma zlen_nonneg {A} (l : list A) : 0 <= zlen l.
Proof. unfold zlen. lia. Qed.

#[export] Hint Rewrite @zlen_app @zlen_cons @zlen_nil : zlen.
#[export] Hint Resolve zlen_nonneg : turbo.

Ltac zlen_lia :=
  autorewrite with zlen in *;
  repeat match goal with
         | l : list ?A |- _ =>
             lazymatch goal with
             | _ : 0 <= zlen l |- _ => fail
             | _ => pose proof (zlen_nonneg l)
             end
         end; lia.

Lemma drop_zlen_app {A} (l k : list A) : drop (Z.to_nat (zlen l)) (l ++ k) = k.
Proof. unfold zlen. rewrite Nat2Z.id. apply drop_app_length. Qed.

(** A slice between two known cut points. *)
Lemma slice_middle {A} (l m r : list A) i j :
  i = zlen l -> j = zlen l + zlen m -> slice (l ++ m ++ r) i j = m.
Proof.
  intros -> ->. unfold slice, norm_index.
  pose proof (zlen_nonneg l). pose proof (zlen_nonneg m). pose proof (zlen_nonneg r).
  rewrite !zlen_app.
  destruct (Z.ltb_spec (zlen l) 0); [lia|].
  destruct (Z.ltb_spec (zlen l + zlen m) 0); [lia|].
  rewrite !Z.min_l by lia. rewrite drop_zlen_app.
  replace (Z.to_nat (zlen l + zlen m - zlen l)) with (length m) by (unfold zlen; lia).
  apply take_app_length.
Qed.

Lemma slice_suffix {A} (l m : list A) i : i = zlen l -> slice (l ++ m) i (zlen (l ++ m)) = m.
Proof.
  intros Hi. rewrite <-(app_nil_r m) at 1. apply slice_middle; [done|]. by rewrite zlen_app.
Qed.

Lemma starts_with_app p l : starts_with p (p ++ l) = true.
Proof. induction p; simpl; [done|]. by rewrite bool_decide_eq_true_2. Qed.

Lemma starts_with_spec p l : starts_with p l = true <-> exists r, l = p ++ r.
Proof.
  split; [|intros [r ->]; apply starts_with_app].
  revert l; induction p as [|a p IH]; intros [|b l]; simpl; try naive_solver.
  intros [->%bool_decide_eq_true (r & ->)%IH]%andb_true_iff. by exists r.
Qed.

Lemma ends_with_spec s l : ends_with s l = true <-> exists r, l = r ++ s.
Proof.
  unfold ends_with. rewrite starts_with_spec. split; intros [r Hr].
  - exists (reverse r). apply (f_equal reverse) in Hr.
    by rewrite reverse_involutive, reverse_app, reverse_involutive in Hr.
  - exists (reverse r). by rewrite Hr, reverse_app.
Qed.

(** Scanning for CR LF: a line without CR is found whole, and an incomplete
    line is not found. *)
Lemma find_at_crlf l r i :
  CR ∉ l -> find_at crlf (l ++ crlf ++ r) i = i + zlen l.
Proof.
  revert i; induction l as [|c l IH]; intros i Hl; simpl.
  - rewrite ?bool_decide_eq_true_2 by done. simpl. rewrite zlen_nil. lia.
  - apply not_elem_of_cons in Hl as [Hc Hl].
    rewrite bool_decide_eq_false_2 by done. simpl.
    rewrite IH by done. rewrite zlen_cons. lia.
Qed.

Lemma find_at_crlf_none l i : CR ∉ l -> find_at crlf l i = -1.
Proof.
  revert i; induction l as [|c l IH]; intros i Hl; simpl; [done|].
  apply not_elem_of_cons in Hl as [Hc Hl].
  rewrite bool_decide_eq_false_2 by done. by apply IH.
Qed.

Lemma find_at_crlf_none_cr l i : CR ∉ l -> find_at crlf (l ++ [CR]) i = -1.
Proof.
  revert i; induction l as [|c l IH]; intros i Hl; simpl; [done|].
  apply not_elem_of_cons in Hl as [Hc Hl].
  rewrite bool_decide_eq_false_2 by done. by apply IH.
Qed.

Lemma find_at_pos sub l i : i < 0 \/ find_at sub l i = -1 \/ i <= find_at sub l i.
Proof.
  revert i; induction l as [|c l IH]; intros i; simpl.
  - destruct (starts_with sub []); lia.
  - destruct (starts_with sub (c :: l)); [lia|]. specialize (IH (i + 1)). lia.
Qed.

Lemma find_app sub l k : find sub (l ++ k) (zlen l) = find_at sub k (zlen l).
Proof.
  unfold find. pose proof (zlen_nonneg l). pose proof (zlen_nonneg k).
  destruct (Z.ltb_spec (zlen l) 0); [lia|].
  destruct (Z.ltb_spec (zlen (l ++ k)) (zlen l)); [zlen_lia|].
  by rewrite drop_zlen_app.
Qed.

(** ** Printing and reading integers *)

Definition is_digit (c : ascii) : Prop :=
  c ∈ ["0"; "1"; "2"; "3"; "4"; "5"; "6"; "7"; "8"; "9"]%char.

Lemma uint_text_digits u c : c ∈ uint_text u -> is_digit c.
Proof. unfold is_digit. induction u; simpl; set_solver. Qed.

Lemma digits_uint_text u : digits_uint (uint_text u) = Some u.
Proof. induction u; simpl; [done|..]; by rewrite IHu. Qed.

Lemma drop_underscores_digits prev t :
  (forall c, c ∈ t -> is_digit c) -> (prev = true \/ t <> []) ->
  drop_underscores prev t = Some t.
Proof.
  revert prev; induction t as [|c t IH]; intros prev Ht Hp; simpl.
  - destruct Hp as [->|?]; done.
  - assert (is_digit c) as Hc by (apply Ht; left).
    rewrite bool_decide_eq_false_2 by (intros ->; unfold is_digit in Hc; set_solver).
    rewrite IH; [done| |by left]. intros c' ?. apply Ht. by right.
Qed.

Lemma pos_to_uint_nonnil p : Pos.to_uint p <> Decimal.Nil.
Proof. apply (DecimalPos.Unsigned.to_uint_nonnil p). Qed.

Lemma uint_text_nil u : uint_text u = [] -> u = Decimal.Nil.
Proof. by destruct u. Qed.

Lemma parse_digits_pos p : parse_digits (uint_text (Pos.to_uint p)) = Some (Zpos p).
Proof.
  unfold parse_digits. rewrite drop_underscores_digits.
  - rewrite digits_uint_text. change (Pos.to_uint p) with (N.to_uint (Npos p)).
    by rewrite DecimalN.Unsigned.of_to.
  - apply uint_text_digits.
  - right. intros H%uint_text_nil. by apply (pos_to_uint_nonnil p).
Qed.

Lemma lstrip_by_id p t : (forall c, c ∈ t -> p c = false) -> lstrip_by p t = t.
Proof. destruct t as [|c t]; simpl; [done|]. intros H. by rewrite (H c) by left. Qed.

Lemma strip_by_id p t : (forall c, c ∈ t -> p c = false) -> strip_by p t = t.
Proof.
  intros H. unfold strip_by, rstrip_by. rewrite (lstrip_by_id p t) by done.
  rewrite lstrip_by_id; [apply reverse_involutive|].
  intros c Hc. apply H. by rewrite <-elem_of_reverse.
Qed.

Lemma dec_chars z c : c ∈ dec z -> is_digit c \/ c = "-"%char.
Proof.
  destruct z; simpl.
  - intros ->%list_elem_of_singleton. left. unfold is_digit. set_solver.
  - intros H. left. eapply uint_text_digits, H.
  - intros [->|H]%elem_of_cons; [by right|]. left. eapply uint_text_digits, H.
Qed.

Lemma py_int_dec (sp : ascii -> bool) z :
  (forall c, is_digit c \/ c = "-"%char -> sp c = false) ->
  py_int sp (dec z) = Some z.
Proof.
  intros Hsp. unfold py_int.
  rewrite strip_by_id by (intros c Hc; apply Hsp, (dec_chars z c Hc)).
  destruct z as [|p|p]; simpl; [done|..].
  - pose proof (parse_digits_pos p) as HP.
    destruct (uint_text (Pos.to_uint p)) as [|c d] eqn:E; [done|].
    assert (is_digit c) as Hc by (apply (uint_text_digits (Pos.to_uint p)); rewrite E; left).
    unfold is_digit in Hc.
    rewrite !bool_decide_eq_false_2 by (intros ->; set_solver). done.
  - by rewrite parse_digits_pos.
Qed.

Lemma digit_not_space_bytes c : is_digit c \/ c = "-"%char -> is_space_bytes c = false.
Proof. unfold is_digit. set_unfold. naive_solver. Qed.

Lemma digit_not_space_latin1 c : is_digit c \/ c = "-"%char -> is_space_latin1 c = false.
Proof. unfold is_digit. set_unfold. naive_solver. Qed.

Lemma dec_no_cr z : CR ∉ dec z.
Proof. intros [H|H]%dec_chars; [unfold is_digit in H; set_solver|done]. Qed.

Lemma dec_nonempty z : dec z <> [].
Proof.
  destruct z as [|p|p]; simpl; try done.
  intros H%uint_text_nil. by apply (pos_to_uint_nonnil p).
Qed.

#[export] Hint Resolve digit_not_space_bytes digit_not_space_latin1 dec_no_cr dec_nonempty : turbo.

Lemma NoDup_take_drop {A} (l : list A) a k : NoDup l -> NoDup (take k (drop a l)).
Proof.
  intros H. rewrite <-(take_drop a l) in H. apply NoDup_app in H as (_ & _ & H).
  rewrite <-(take_drop k (drop a l)) in H. by apply NoDup_app in H as (? & _ & _).
Qed.

Lemma filter_ext_in {A} (P Q : A -> Prop) `{!forall x, Decision (P x), !forall x, Decision (Q x)} (l : list A) :
  (forall x, x ∈ l -> P x <-> Q x) -> filter P l = filter Q l.
Proof.
  induction l as [|x l IH]; intros Hl; [done|]. rewrite !filter_cons, IH by (intros; apply Hl; by right).
  pose proof (Hl x ltac:(left)). repeat case_decide; naive_solver.
Qed.

Lemma filter_all {A} (P : A -> Prop) `{!forall x, Decision (P x)} (l : list A) :
  (forall x, x ∈ l -> P x) -> filter P l = l.
Proof.
  induction l as [|x l IH]; intros Hl; [done|]. rewrite filter_cons, decide_True by (apply Hl; left).
  by rewrite IH by (intros; apply Hl; by right).
Qed.

(** ** Splitting and joining *)

Lemma partition_at_app c l r :
  c ∉ l -> partition_at c (l ++ c :: r) = (l, r).
Proof.
  induction l as [|a l IH]; intros Hl; simpl.
  - by rewrite bool_decide_eq_true_2.
  - apply not_elem_of_cons in Hl as [? ?].
    rewrite bool_decide_eq_false_2 by congruence. by rewrite IH.
Qed.

Lemma split_on_no c l : c ∉ l -> split_on c l = [l].
Proof.
  induction l as [|a l IH]; intros Hl; simpl; [done|].
  apply not_elem_of_cons in Hl as [? ?].
  rewrite bool_decide_eq_false_2 by congruence. by rewrite IH.
Qed.

Lemma split_on_app c l r : c ∉ l -> split_on c (l ++ c :: r) = l :: split_on c r.
Proof.
  induction l as [|a l IH]; intros Hl; simpl.
  - by rewrite bool_decide_eq_true_2.
  - apply not_elem_of_cons in Hl as [? ?].
    rewrite bool_decide_eq_false_2 by congruence. by rewrite IH.
Qed.
(** ** Stripping *)

Lemma lstrip_by_suffix p t : exists l, t = l ++ lstrip_by p t /\ Forall (fun c => p c = true) l.
Proof.
  induction t as [|c t [l [Hl HF]]]; simpl; [by exists []|].
  destruct (p c) eqn:E; [|by exists []].
  exists (c :: l). split; [by rewrite Hl at 1|by constructor].
Qed.

Lemma lstrip_by_app p l t :
  Forall (fun c => p c = true) l -> lstrip_by p (l ++ t) = lstrip_by p t.
Proof. induction 1 as [|c l Hc _ IH]; simpl; [done|]. by rewrite Hc. Qed.

Lemma lstrip_by_head p t c t' : lstrip_by p t = c :: t' -> p c = false.
Proof.
  induction t as [|d t IH]; simpl; [done|].
  destruct (p d) eqn:E; [done|]. by intros [= -> ->].
Qed.

Lemma lstrip_by_fixed p t :
  match t with [] => True | c :: _ => p c = false end -> lstrip_by p t = t.
Proof. destruct t as [|c t]; simpl; [done|]. by intros ->. Qed.

Lemma lstrip_by_idemp p t : lstrip_by p (lstrip_by p t) = lstrip_by p t.
Proof. apply lstrip_by_fixed. destruct (lstrip_by p t) eqn:E; [done|]. by eapply lstrip_by_head. Qed.

Lemma rstrip_by_prefix p t : exists l, t = rstrip_by p t ++ l /\ Forall (fun c => p c = true) l.
Proof.
  unfold rstrip_by. destruct (lstrip_by_suffix p (reverse t)) as (l & Hl & HF).
  exists (reverse l). split; [|by apply Forall_reverse].
  by rewrite <-reverse_app, <-Hl, reverse_involutive.
Qed.

Lemma rstrip_by_app p t l :
  Forall (fun c => p c = true) l -> rstrip_by p (t ++ l) = rstrip_by p t.
Proof.
  intros HF. unfold rstrip_by. rewrite reverse_app, lstrip_by_app; [done|].
  by apply Forall_reverse.
Qed.

Lemma rstrip_by_idemp p t : rstrip_by p (rstrip_by p t) = rstrip_by p t.
Proof. unfold rstrip_by. by rewrite reverse_involutive, lstrip_by_idemp. Qed.

Lemma lstrip_rstrip_fixed p t :
  lstrip_by p t = t -> lstrip_by p (rstrip_by p t) = rstrip_by p t.
Proof.
  intros Ht. apply lstrip_by_fixed.
  destruct (rstrip_by_prefix p t) as (l & Hl & _).
  destruct (rstrip_by p t) as [|c u]; [done|]. simpl in Hl. subst t.
  simpl in Ht. destruct (p c) eqn:E; [|done].
  destruct (lstrip_by_suffix p (u ++ l)) as (k & Hk & _).
  apply (f_equal length) in Ht, Hk. rewrite (length_app k) in Hk. cbn [length] in Ht. lia.
Qed.

Lemma strip_by_idemp p t : strip_by p (strip_by p t) = strip_by p t.
Proof.
  unfold strip_by. rewrite lstrip_rstrip_fixed by apply lstrip_by_idemp.
  apply rstrip_by_idemp.
Qed.

(** Characters to strip around a stripped text are stripped again. *)
Lemma strip_by_wrap p l t r :
  Forall (fun c => p c = true) l -> Forall (fun c => p c = true) r ->
  strip_by p t = t -> strip_by p (l ++ t ++ r) = t.
Proof.
  intros Hl Hr Ht. unfold strip_by. rewrite lstrip_by_app by done.
  assert (lstrip_by p t = t) as Hlt.
  { rewrite <-Ht at 1. unfold strip_by.
    by rewrite lstrip_rstrip_fixed by apply lstrip_by_idemp. }
  destruct t as [|c t].
  - simpl. rewrite <-(app_nil_r r), lstrip_by_app by done. done.
  - replace (lstrip_by p ((c :: t) ++ r)) with ((c :: t) ++ r).
    + rewrite rstrip_by_app by done. unfold strip_by in Ht. by rewrite Hlt in Ht.
    + symmetry. apply lstrip_by_fixed. simpl. by eapply (lstrip_by_head p (c :: t)).
Qed.
