(* ===== verification/Effects.v ===== *)
(** Effectful code: computations over an explicit state that may raise and
    leave a log of observable events, with Python's control structures
    ([for], [try]/[except], [try]/[finally]).

    Two computations are equivalent, [≡m], when they agree from every state;
    the structures respect it, so that programs can be rewritten. *)

From S2P Require Import Prelude.

Module Effects.

(** ** The monad *)

Definition M (S E A : Type) : Type := S -> list E * S * res A.

Section Monad.

Context {S E : Type}.

Definition ret {A} (a : A) : M S E A := fun s => ([], s, Ok a).

Definition raise {A} (e : exn) : M S E A := fun s => ([], s, Raise e).

Definition bind {A B} (m : M S E A) (k : A -> M S E B) : M S E B := fun s =>
  match m s with
  | (t, s', Ok a) => let '(t', s'', r) := k a s' in (t ++ t', s'', r)
  | (t, s', Raise e) => (t, s', Raise e)
  end.

Definition get : M S E S := fun s => ([], s, Ok s).

Definition modify (f : S -> S) : M S E unit := fun s => ([], f s, Ok tt).

Definition tell (t : list E) : M S E unit := fun s => (t, s, Ok tt).

(** [try: m except <those e with p e>: h e]; other exceptions pass. *)
Definition try_except {A} (m : M S E A) (p : exn -> bool) (h : exn -> M S E A) : M S E A := fun s =>
  match m s with
  | (t, s', Raise e) =>
      if p e then let '(t', s'', r) := h e s' in (t ++ t', s'', r) else (t, s', Raise e)
  | r => r
  end.

(** [try: m finally: f]: an exception of [f] replaces the one of [m]. *)
Definition try_finally {A} (m : M S E A) (f : M S E unit) : M S E A := fun s =>
  let '(t, s', r) := m s in
  match f s' with
  | (t', s'', Ok _) => (t ++ t', s'', r)
  | (t', s'', Raise e) => (t ++ t', s'', Raise e)
  end.

(** [for x in l: f x] *)
Fixpoint for_ {A} (l : list A) (f : A -> M S E unit) : M S E unit :=
  match l with
  | [] => ret tt
  | x :: l' => bind (f x) (fun _ => for_ l' f)
  end.

Definition meq {A} (m m' : M S E A) : Prop := forall s, m s = m' s.

End Monad.

Declare Scope eff_scope.
Delimit Scope eff_scope with eff.
Notation "'let!' x ':=' m 'in' k" := (bind m (fun x => k))
  (at level 200, x name, m at level 100, k at level 200, right associativity) : eff_scope.
Notation "m ;; k" := (bind m (fun _ => k))
  (at level 100, k at level 200, right associativity) : eff_scope.
Infix "≡m" := meq (at level 70, no associativity) : eff_scope.

(** [except Exception]: everything but a cancellation, which is a bare
    [BaseException]. *)
Definition is_exception (e : exn) : bool := match e with CancelledError => false | _ => true end.

(** ** Laws *)

Section Laws.

Context {S E : Type}.
Open Scope eff_scope.

#[global] Instance meq_equivalence {A} : Equivalence (@meq S E A).
Proof. split; [by intros m s|by intros m m' H s|]. intros m1 m2 m3 H1 H2 s. by rewrite H1. Qed.

#[global] Instance bind_proper {A B} :
  Proper (meq ==> pointwise_relation A meq ==> meq) (@bind S E A B).
Proof.
  intros m m' Hm k k' Hk s. unfold bind. rewrite Hm.
  destruct (m' s) as [[t s'] [a|e]]; [|done]. by rewrite Hk.
Qed.

#[global] Instance for_proper {A} :
  Proper ((=) ==> pointwise_relation A meq ==> meq) (@for_ S E A).
Proof.
  intros l l' <- f f' Hf. induction l as [|x l IH]; [done|]. simpl.
  apply bind_proper; [apply Hf|intros _; apply IH].
Qed.

Lemma bind_ret_l {A B} (a : A) (k : A -> M S E B) : bind (ret a) k ≡m k a.
Proof. intros s. unfold bind, ret. by destruct (k a s) as [[t s'] r]. Qed.

Lemma bind_raise_l {A B} e (k : A -> M S E B) : bind (raise e) k ≡m raise e.
Proof. done. Qed.

Lemma bind_assoc {A B C} (m : M S E A) (k : A -> M S E B) (h : B -> M S E C) :
  bind (bind m k) h ≡m bind m (fun a => bind (k a) h).
Proof.
  intros s. unfold bind. destruct (m s) as [[t s'] [a|e]]; [|done].
  destruct (k a s') as [[t' s''] [b|e]]; [|done].
  destruct (h b s'') as [[t'' s3] r]. by rewrite app_assoc.
Qed.

Lemma for_app {A} (l l' : list A) (f : A -> M S E unit) :
  for_ (l ++ l') f ≡m (for_ l f ;; for_ l' f).
Proof.
  induction l as [|x l IH]; simpl.
  - symmetry. apply (bind_ret_l tt (fun _ => for_ l' f)).
  - rewrite bind_assoc. apply bind_proper; [done|intros _; apply IH].
Qed.

(** Inversion of a computation that returned. *)
Lemma bind_Ok {A B} (m : M S E A) (k : A -> M S E B) s t s' b :
  bind m k s = (t, s', Ok b) <->
  exists t1 s1 a t2, m s = (t1, s1, Ok a) /\ k a s1 = (t2, s', Ok b) /\ t = t1 ++ t2.
Proof.
  unfold bind. split.
  - destruct (m s) as [[t1 s1] [a|e]]; [|done]. destruct (k a s1) as [[t2 s2] r] eqn:Ek.
    intros [= <- <- ->]. eauto 10.
  - intros (t1 & s1 & a & t2 & -> & -> & ->). done.
Qed.

(** A [for] whose bodies all return, adding a log of their own and changing the
    state one after the other. *)
Lemma for_all_Ok {A} (l : list A) (f : A -> M S E unit) (log : A -> list E) (g : A -> S -> S) s :
  (forall x s, x ∈ l -> f x s = (log x, g x s, Ok tt)) ->
  for_ l f s = (l ≫= log, foldl (fun s x => g x s) s l, Ok tt).
Proof.
  revert s. induction l as [|x l IH]; intros s H; simpl; [done|].
  unfold bind. rewrite H by (left). rewrite IH by (intros; apply H; by right). done.
Qed.

(** The first body that raises ends a [for]. *)
Lemma for_Raise {A} (l1 l2 : list A) x (f : A -> M S E unit) s t1 s1 t s2 e :
  for_ l1 f s = (t1, s1, Ok tt) -> f x s1 = (t, s2, Raise e) ->
  for_ (l1 ++ x :: l2) f s = (t1 ++ t, s2, Raise e).
Proof.
  intros H1 Hx. rewrite (for_app l1 (x :: l2) f s). unfold bind. rewrite H1. simpl.
  unfold bind. by rewrite Hx.
Qed.

End Laws.

End Effects.
