(* ===== verification/Resp.v ===== *)
(** The RESP2 codec of [contrib_redis.py]: the incremental parser [_PyReader]
    and the command encoder [_encode_command].

    [reply] is what [_PyReader.gets] returns; [wire] is the RESP2 grammar of a
    server's replies, the reference the parser is proved against.  The depth
    argument of [_parse] is the recursion the interpreter still allows:
    exhausting it is [RecursionError], as in Python. *)

From S2P Require Import Prelude.

Module Resp.

(** ** UTF-8, for [bytes.decode()] and [str.encode()] *)

Definition is_cont (c : ascii) : bool := ((128 <=? code c) && (code c <=? 191))%N.

Definition in_range (lo hi : N) (c : ascii) : bool := ((lo <=? code c) && (code c <=? hi))%N.

Fixpoint utf8_valid (l : bytes) : bool :=
  match l with
  | [] => true
  | a :: r =>
      if (code a <? 128)%N then utf8_valid r
      else match r with
           | b :: r1 =>
               if in_range 194 223 a then is_cont b && utf8_valid r1
               else match r1 with
                    | c :: r2 =>
                        if in_range 224 224 a then in_range 160 191 b && is_cont c && utf8_valid r2
                        else if in_range 237 237 a then in_range 128 159 b && is_cont c && utf8_valid r2
                        else if in_range 225 239 a then is_cont b && is_cont c && utf8_valid r2
                        else match r2 with
                             | d :: r3 =>
                                 let tail := is_cont c && is_cont d && utf8_valid r3 in
                                 if in_range 240 240 a then in_range 144 191 b && tail
                                 else if in_range 241 243 a then is_cont b && tail
                                 else if in_range 244 244 a then in_range 128 143 b && tail
                                 else false
                             | [] => false
                             end
                    | [] => false
                    end
           | [] => false
           end
  end.

Definition byte_of (z : Z) : ascii := ascii_of_N (Z.to_N z).

(** UTF-8 of one code point; a surrogate is not encodable. *)
Definition utf8_cp (c : Z) : option bytes :=
  if c <? 128 then Some [byte_of c]
  else if c <? 2048 then
    Some [byte_of (192 + c / 64); byte_of (128 + c mod 64)]
  else if (55296 <=? c) && (c <=? 57343) then None
  else if c <? 65536 then
    Some [byte_of (224 + c / 4096); byte_of (128 + c / 64 mod 64); byte_of (128 + c mod 64)]
  else Some [byte_of (240 + c / 262144); byte_of (128 + c / 4096 mod 64);
             byte_of (128 + c / 64 mod 64); byte_of (128 + c mod 64)].

(** [s.encode()] of a string given by its code points. *)
Fixpoint str_encode (cps : list Z) : res bytes :=
  match cps with
  | [] => Ok []
  | c :: cps' => match utf8_cp c, str_encode cps' with
                 | Some b, Ok r => Ok (b ++ r)
                 | None, _ => Raise UnicodeEncodeError
                 | _, Raise e => Raise e
                 end
  end.

(** ** The parser *)

(** A parsed reply: status lines and bulk strings are both [bytes]. *)
Inductive reply :=
| RBytes (b : bytes)
| RInt (z : Z)
| RError (msg : bytes)
| RNone
| RList (l : list reply).

(** What [_parse] does: [None], a pair of value and consumed length, or an
    exception. *)
Inductive parse_result :=
| Incomplete
| Parsed (v : reply) (consumed : Z)
| PRaise (e : exn).

Inductive items_result :=
| IIncomplete
| IDone (items : list reply) (cursor : Z)
| IRaise (e : exn).

(** The [for _ in range(n)] loop of the array case. *)
Fixpoint parse_items (parse : Z -> parse_result) (n : nat) (items : list reply)
    (cursor : Z) : items_result :=
  match n with
  | O => IDone items cursor
  | S n' => match parse cursor with
            | Incomplete => IIncomplete
            | PRaise e => IRaise e
            | Parsed v consumed => parse_items parse n' (items ++ [v]) (cursor + consumed)
            end
  end.

(** The branches of [_parse] after the header line was found. *)
Definition parse_kind (parse : Z -> parse_result) (buf : bytes) (pos : Z)
    (kind line : bytes) (head_end : Z) : parse_result :=
  if bool_decide (kind = lit "+") then Parsed (RBytes line) (head_end - pos)
  else if bool_decide (kind = lit ":") then
    match py_int is_space_bytes line with
    | Some z => Parsed (RInt z) (head_end - pos)
    | None => PRaise ValueError
    end
  else if bool_decide (kind = lit "-") then
    if utf8_valid line then Parsed (RError line) (head_end - pos)
    else PRaise UnicodeDecodeError
  else if bool_decide (kind = lit "$") then
    match py_int is_space_bytes line with
    | None => PRaise ValueError
    | Some n =>
        if n =? -1 then Parsed RNone (head_end - pos)
        else if zlen buf <? head_end + n + 2 then Incomplete
        else Parsed (RBytes (slice buf head_end (head_end + n))) (head_end + n + 2 - pos)
    end
  else if bool_decide (kind = lit "*") then
    match py_int is_space_bytes line with
    | None => PRaise ValueError
    | Some n =>
        if n =? -1 then Parsed RNone (head_end - pos)
        else match parse_items parse (Z.to_nat n) [] head_end with
             | IIncomplete => Incomplete
             | IRaise e => PRaise e
             | IDone items cursor => Parsed (RList items) (cursor - pos)
             end
    end
  else PRaise (ConnectionError (lit "unexpected RESP type byte")).

Fixpoint _parse (depth : nat) (buf : bytes) (pos : Z) : parse_result :=
  match depth with
  | O => PRaise RecursionError
  | S depth' =>
      let nl := find crlf buf pos in
      if nl <? 0 then Incomplete
      else parse_kind (_parse depth' buf) buf pos
             (slice buf pos (pos + 1)) (slice buf (pos + 1) nl) (nl + 2)
  end.

(** [feed] appends; [gets] returns [False] (here [GFalse]) on an incomplete
    reply and leaves the buffer alone. *)
Definition feed (buf data : bytes) : bytes := buf ++ data.

Inductive gets_result :=
| GFalse
| GValue (v : reply) (buf : bytes)
| GRaise (e : exn).

Definition gets (depth : nat) (buf : bytes) : gets_result :=
  match _parse depth buf 0 with
  | Incomplete => GFalse
  | PRaise e => GRaise e
  | Parsed v consumed => GValue v (del_prefix buf consumed)
  end.

(** ** The command encoder *)

(** Argument types: [bool] is an [int] in Python; a [float] is given by its
    [repr]. *)
Inductive arg :=
| ABytes (b : bytes)
| AStr (cps : list Z)
| AInt (z : Z)
| AFloat (repr : text)
| AOther.

Definition arg_bytes (a : arg) : res bytes :=
  match a with
  | ABytes b => Ok b
  | AStr s => str_encode s
  | AInt z => Ok (dec z)
  | AFloat r => Ok r
  | AOther => Raise TypeError
  end.

Definition bulk (b : bytes) : bytes := "$"%char :: dec (zlen b) ++ crlf ++ b ++ crlf.

Fixpoint encode_args (args : list arg) (out : bytes) : res bytes :=
  match args with
  | [] => Ok out
  | a :: args' => (b <-- arg_bytes a ;; encode_args args' (out ++ bulk b))%res
  end.

Definition _encode_command (args : list arg) : res bytes :=
  encode_args args ("*"%char :: dec (zlen args) ++ crlf).

(** [key.encode() if isinstance(key, str) else key], for the two shortcuts;
    a key that is neither fails in [len] or in the [%s] conversion. *)
Definition key_bytes (a : arg) : res bytes :=
  match a with
  | ABytes b => Ok b
  | AStr s => str_encode s
  | _ => Raise TypeError
  end.

Definition get_command (key : arg) : res bytes :=
  (k <-- key_bytes key ;;
   Ok (lit "*2" ++ crlf ++ lit "$3" ++ crlf ++ lit "GET" ++ crlf
       ++ "$"%char :: dec (zlen k) ++ crlf ++ k ++ crlf))%res.

Definition set_command (key value : arg) : res bytes :=
  (k <-- key_bytes key ;; v <-- key_bytes value ;;
   Ok (lit "*3" ++ crlf ++ lit "$3" ++ crlf ++ lit "SET" ++ crlf
       ++ ("$"%char :: dec (zlen k) ++ crlf ++ k ++ crlf)
       ++ ("$"%char :: dec (zlen v) ++ crlf ++ v ++ crlf)))%res.

(** ** The RESP2 reply grammar (reference) *)

Inductive wire :=
| WSimple (line : bytes)
| WError (line : bytes)
| WInt (z : Z)
| WBulk (b : bytes)
| WNilBulk
| WNilArray
| WArray (l : list wire).

Fixpoint wire_bytes (w : wire) : bytes :=
  match w with
  | WSimple l => "+"%char :: l ++ crlf
  | WError l => "-"%char :: l ++ crlf
  | WInt z => ":"%char :: dec z ++ crlf
  | WBulk b => bulk b
  | WNilBulk => lit "$-1" ++ crlf
  | WNilArray => lit "*-1" ++ crlf
  | WArray l => "*"%char :: dec (zlen l) ++ crlf ++ concat (map wire_bytes l)
  end.

Fixpoint wire_value (w : wire) : reply :=
  match w with
  | WSimple l => RBytes l
  | WError l => RError l
  | WInt z => RInt z
  | WBulk b => RBytes b
  | WNilBulk | WNilArray => RNone
  | WArray l => RList (map wire_value l)
  end.

(** Lines of simple strings and errors contain no CR; error text is UTF-8. *)
Fixpoint wire_ok (w : wire) : bool :=
  match w with
  | WSimple l => bool_decide (CR ∉ l)
  | WError l => bool_decide (CR ∉ l) && utf8_valid l
  | WArray l => forallb wire_ok l
  | _ => true
  end.

Fixpoint wire_depth (w : wire) : nat :=
  match w with
  | WArray l => S (fold_right (fun w n => wire_depth w `max` n)%nat O l)
  | _ => 1
  end.

Section WireInd.
Variable P : wire -> Prop.
Hypothesis Hleaf : forall w, (forall l, w <> WArray l) -> P w.
Hypothesis Harr : forall l, Forall P l -> P (WArray l).

Fixpoint wire_ind' (w : wire) : P w.
Proof.
  destruct w as [| | | | | |l]; try (apply Hleaf; congruence).
  apply Harr. induction l as [|w l IH]; constructor; [apply wire_ind'|exact IH].
Defined.
End WireInd.

(** ** One header line *)

Lemma parse_line d pre k line post :
  k <> CR -> CR ∉ line ->
  _parse (S d) (pre ++ k :: line ++ crlf ++ post) (zlen pre) =
  parse_kind (_parse d (pre ++ k :: line ++ crlf ++ post)) (pre ++ k :: line ++ crlf ++ post)
    (zlen pre) [k] line (zlen pre + 1 + zlen line + 2).
Proof.
  intros Hk Hl.
  assert (CR ∉ k :: line) as Hkl by (apply not_elem_of_cons; done).
  cbn [_parse]. rewrite find_app.
  pose proof (find_at_crlf (k :: line) post (zlen pre) Hkl) as HF.
  cbn [app] in HF. rewrite HF. rewrite zlen_cons.
  pose proof (zlen_nonneg pre). pose proof (zlen_nonneg line).
  destruct (Z.ltb_spec (zlen pre + (1 + zlen line)) 0); [lia|].
  replace (zlen pre + (1 + zlen line) + 2) with (zlen pre + 1 + zlen line + 2) by lia.
  f_equal.
  - apply (slice_middle pre [k] (line ++ crlf ++ post)); [done|]. by rewrite zlen_cons.
  - replace (pre ++ k :: line ++ crlf ++ post) with ((pre ++ [k]) ++ line ++ crlf ++ post)
      by (by rewrite <-app_assoc).
    apply slice_middle; rewrite zlen_app, zlen_cons, zlen_nil; lia.
Qed.

Lemma parse_line_app d pre k line post :
  k <> CR -> CR ∉ line ->
  _parse (S d) (pre ++ (k :: line ++ crlf) ++ post) (zlen pre) =
  parse_kind (_parse d (pre ++ (k :: line ++ crlf) ++ post)) (pre ++ (k :: line ++ crlf) ++ post)
    (zlen pre) [k] line (zlen pre + 1 + zlen line + 2).
Proof. simpl. rewrite <-app_assoc. apply parse_line. Qed.

Lemma parse_no_line d pre p :
  CR ∉ p -> _parse (S d) (pre ++ p) (zlen pre) = Incomplete.
Proof. intros Hp. cbn [_parse]. rewrite find_app. by rewrite find_at_crlf_none. Qed.

Lemma parse_half_line d pre p :
  CR ∉ p -> _parse (S d) (pre ++ p ++ [CR]) (zlen pre) = Incomplete.
Proof. intros Hp. cbn [_parse]. rewrite find_app. by rewrite find_at_crlf_none_cr. Qed.

(** A proper prefix of [k :: line ++ CR LF] has no complete line. *)
Lemma parse_short_line d pre k line p q :
  k <> CR -> CR ∉ line -> p ++ q = k :: line ++ crlf -> q <> [] ->
  _parse (S d) (pre ++ p) (zlen pre) = Incomplete.
Proof.
  intros Hk Hl Hpq Hq.
  assert (CR ∉ k :: line) as Hkl by (apply not_elem_of_cons; done).
  change (k :: line ++ crlf) with ((k :: line) ++ crlf) in Hpq.
  apply app_eq_app in Hpq as (s & [[-> Hs]|[Hkl' Hs]]).
  - destruct s as [|a [|b s]]; inversion Hs; subst.
    + rewrite app_nil_r. by apply parse_no_line.
    + by apply parse_half_line.
    + destruct s; done.
  - rewrite Hkl' in Hkl. apply parse_no_line. set_solver.
Qed.

Lemma py_int_dec_bytes z : py_int is_space_bytes (dec z) = Some z.
Proof. apply py_int_dec. auto with turbo. Qed.

(** A loop over complete items. *)
Lemma parse_items_wires d pre l post items :
  Forall (fun w => forall pre post,
    _parse d (pre ++ wire_bytes w ++ post) (zlen pre)
      = Parsed (wire_value w) (zlen (wire_bytes w))) l ->
  parse_items (_parse d (pre ++ concat (map wire_bytes l) ++ post)) (length l) items (zlen pre)
  = IDone (items ++ map wire_value l) (zlen pre + zlen (concat (map wire_bytes l))).
Proof.
  intros Hl. revert pre items. induction Hl as [|w l Hw Hl IH]; intros pre items; simpl.
  - rewrite app_nil_r, zlen_nil, Z.add_0_r. done.
  - rewrite <-app_assoc, Hw. specialize (IH (pre ++ wire_bytes w) (items ++ [wire_value w])).
    rewrite <-app_assoc, zlen_app in IH. rewrite IH. rewrite <-app_assoc. simpl.
    f_equal. zlen_lia.
Qed.

(** ** Branches of [parse_kind] *)

Section Kinds.
Variables (parse : Z -> parse_result) (buf : bytes) (pos he : Z).

Lemma kind_simple line : parse_kind parse buf pos ["+"%char] line he = Parsed (RBytes line) (he - pos).
Proof. reflexivity. Qed.

Lemma kind_int z : parse_kind parse buf pos [":"%char] (dec z) he = Parsed (RInt z) (he - pos).
Proof. unfold parse_kind. simpl. by rewrite py_int_dec_bytes. Qed.

Lemma kind_error line :
  utf8_valid line = true -> parse_kind parse buf pos ["-"%char] line he = Parsed (RError line) (he - pos).
Proof. intros H. unfold parse_kind. simpl. by rewrite H. Qed.

Lemma kind_nil_bulk : parse_kind parse buf pos ["$"%char] (dec (-1)) he = Parsed RNone (he - pos).
Proof. reflexivity. Qed.

Lemma kind_nil_array : parse_kind parse buf pos ["*"%char] (dec (-1)) he = Parsed RNone (he - pos).
Proof. reflexivity. Qed.

Lemma kind_bulk n :
  0 <= n ->
  parse_kind parse buf pos ["$"%char] (dec n) he =
  if zlen buf <? he + n + 2 then Incomplete
  else Parsed (RBytes (slice buf he (he + n))) (he + n + 2 - pos).
Proof.
  intros Hn. unfold parse_kind. simpl. rewrite py_int_dec_bytes.
  destruct (Z.eqb_spec n (-1)); [lia|done].
Qed.

Lemma kind_array n :
  0 <= n ->
  parse_kind parse buf pos ["*"%char] (dec n) he =
  match parse_items parse (Z.to_nat n) [] he with
  | IIncomplete => Incomplete
  | IRaise e => PRaise e
  | IDone items cursor => Parsed (RList items) (cursor - pos)
  end.
Proof.
  intros Hn. unfold parse_kind. simpl. rewrite py_int_dec_bytes.
  destruct (Z.eqb_spec n (-1)); [lia|done].
Qed.
End Kinds.

Lemma zlen_crlf : zlen crlf = 2.
Proof. done. Qed.
#[local] Hint Rewrite zlen_crlf : zlen.

(** ** Complete replies parse to their value *)

Lemma parse_bulk d pre b post :
  _parse (S d) (pre ++ bulk b ++ post) (zlen pre) = Parsed (RBytes b) (zlen (bulk b)).
Proof.
  unfold bulk.
  replace (pre ++ ("$"%char :: dec (zlen b) ++ crlf ++ b ++ crlf) ++ post)
    with (pre ++ "$"%char :: dec (zlen b) ++ crlf ++ (b ++ crlf ++ post))
    by (simpl; rewrite <-!app_assoc; simpl; by rewrite <-app_assoc).
  rewrite parse_line by (done || auto with turbo).
  rewrite kind_bulk by auto with turbo.
  destruct (Z.ltb_spec (zlen (pre ++ "$"%char :: dec (zlen b) ++ crlf ++ b ++ crlf ++ post))
                       (zlen pre + 1 + zlen (dec (zlen b)) + 2 + zlen b + 2)); [zlen_lia|].
  f_equal; [|zlen_lia]. f_equal.
  replace (pre ++ "$"%char :: dec (zlen b) ++ crlf ++ b ++ crlf ++ post)
    with ((pre ++ "$"%char :: dec (zlen b) ++ crlf) ++ b ++ crlf ++ post)
    by (by rewrite <-app_assoc; simpl; rewrite <-app_assoc).
  apply slice_middle; zlen_lia.
Qed.

Lemma depth_items l d : (wire_depth (WArray l) <= S d)%nat -> Forall (fun w => (wire_depth w <= d)%nat) l.
Proof.
  simpl. intros H%le_S_n. induction l as [|w l IH]; constructor; simpl in H; [lia|]. apply IH. lia.
Qed.

Lemma wire_nil_bulk : wire_bytes WNilBulk = "$"%char :: dec (-1) ++ crlf.
Proof. done. Qed.

Lemma wire_nil_array : wire_bytes WNilArray = "*"%char :: dec (-1) ++ crlf.
Proof. done. Qed.

Lemma parse_wire w : wire_ok w = true -> forall d pre post,
  (wire_depth w <= d)%nat ->
  _parse d (pre ++ wire_bytes w ++ post) (zlen pre) = Parsed (wire_value w) (zlen (wire_bytes w)).
Proof.
  induction w as [w Hw|l IH] using wire_ind'; intros Hok d pre post Hd;
    (destruct d as [|d]; [destruct w || idtac; simpl in Hd; lia|]).
  - destruct w as [s|s|z|b| | |l].
    + simpl in Hok. apply bool_decide_eq_true in Hok. simpl wire_bytes.
      rewrite parse_line_app by done. rewrite kind_simple. f_equal. zlen_lia.
    + simpl in Hok. apply andb_true_iff in Hok as [Hs%bool_decide_eq_true Hu].
      simpl wire_bytes. rewrite parse_line_app by done. rewrite kind_error by done.
      f_equal. zlen_lia.
    + simpl wire_bytes. rewrite parse_line_app by (done || auto with turbo).
      rewrite kind_int. f_equal. zlen_lia.
    + apply parse_bulk.
    + rewrite wire_nil_bulk. rewrite parse_line_app by (done || auto with turbo).
      rewrite kind_nil_bulk. f_equal. zlen_lia.
    + rewrite wire_nil_array. rewrite parse_line_app by (done || auto with turbo).
      rewrite kind_nil_array. f_equal. zlen_lia.
    + by destruct (Hw l).
  - change (wire_bytes (WArray l))
      with ("*"%char :: dec (zlen l) ++ crlf ++ concat (map wire_bytes l)).
    replace (pre ++ ("*"%char :: dec (zlen l) ++ crlf ++ concat (map wire_bytes l)) ++ post)
      with (pre ++ "*"%char :: dec (zlen l) ++ crlf ++ (concat (map wire_bytes l) ++ post))
      by (simpl; rewrite <-!app_assoc; simpl; by rewrite <-?app_assoc).
    rewrite parse_line by (done || auto with turbo).
    rewrite kind_array by auto with turbo.
    set (hd := pre ++ "*"%char :: dec (zlen l) ++ crlf).
    replace (pre ++ "*"%char :: dec (zlen l) ++ crlf ++ concat (map wire_bytes l) ++ post)
      with (hd ++ concat (map wire_bytes l) ++ post)
      by (unfold hd; rewrite <-app_assoc; simpl; by rewrite <-app_assoc).
    replace (zlen pre + 1 + zlen (dec (zlen l)) + 2) with (zlen hd) by (unfold hd; zlen_lia).
    replace (Z.to_nat (zlen l)) with (length l) by (unfold zlen; lia).
    rewrite parse_items_wires.
    + simpl. f_equal. unfold hd. zlen_lia.
    + apply depth_items in Hd. simpl in Hok. rewrite forallb_forall in Hok.
      rewrite Forall_forall in IH, Hd |- *. intros w Hw pre' post'.
      apply IH; [done|apply Hok; by apply list_elem_of_In|by apply Hd].
Qed.

(** ** Truncated replies are reported incomplete *)

Lemma parse_items_short d pre l p q :
  Forall (fun w => forall pre post,
    _parse d (pre ++ wire_bytes w ++ post) (zlen pre)
      = Parsed (wire_value w) (zlen (wire_bytes w))) l ->
  Forall (fun w => forall pre p q, p ++ q = wire_bytes w -> q <> [] ->
    _parse d (pre ++ p) (zlen pre) = Incomplete) l ->
  p ++ q = concat (map wire_bytes l) -> q <> [] ->
  forall items, parse_items (_parse d (pre ++ p)) (length l) items (zlen pre) = IIncomplete.
Proof.
  intros Hl. revert pre p. induction Hl as [|w l Hw Hl IH]; intros pre p Hs Hpq Hq items; simpl.
  { destruct p, q; done. }
  apply Forall_cons_1 in Hs as [Hsw Hs]. simpl in Hpq.
  apply app_eq_app in Hpq as (s & [[-> Hs']|[Hw' ->]]).
  - rewrite Hw. specialize (IH (pre ++ wire_bytes w) s Hs (eq_sym Hs') Hq (items ++ [wire_value w])).
    rewrite <-app_assoc, zlen_app in IH. done.
  - destruct s as [|a s].
    + rewrite app_nil_r in Hw'. subst p. specialize (Hw pre []). rewrite app_nil_r in Hw. rewrite Hw.
      specialize (IH (pre ++ wire_bytes w) [] Hs eq_refl Hq (items ++ [wire_value w])).
      rewrite app_nil_r, zlen_app in IH. done.
    + by rewrite (Hsw pre p (a :: s)).
Qed.

Lemma cut_header (p q h body : bytes) :
  p ++ q = h ++ body ->
  (exists s, s <> [] /\ p ++ s = h) \/ (exists p', p = h ++ p' /\ p' ++ q = body).
Proof.
  intros (s & [[-> ->]|[-> ->]])%app_eq_app.
  - right. by exists s.
  - destruct s as [|a s].
    + right. exists []. by rewrite !app_nil_r.
    + left. by exists (a :: s).
Qed.

Lemma parse_bulk_short d pre b p q :
  p ++ q = bulk b -> q <> [] -> _parse (S d) (pre ++ p) (zlen pre) = Incomplete.
Proof.
  intros Hpq Hq.
  assert (p ++ q = ("$"%char :: dec (zlen b) ++ crlf) ++ (b ++ crlf)) as Hc
    by (rewrite Hpq; unfold bulk; simpl; by rewrite <-!app_assoc).
  apply cut_header in Hc as [(s & Hs & Hps)|(p' & -> & Hp')].
  - eapply parse_short_line, Hs; [| |exact Hps]; [done|auto with turbo].
  - rewrite parse_line_app by (done || auto with turbo). rewrite kind_bulk by auto with turbo.
    apply (f_equal zlen) in Hp'. assert (0 < zlen q) by (destruct q; [done|zlen_lia]).
    match goal with |- (if ?b then _ else _) = _ => destruct b eqn:E; [done|] end.
    apply Z.ltb_ge in E. zlen_lia.
Qed.

Lemma parse_wire_short w : wire_ok w = true -> forall d pre p q,
  (wire_depth w <= d)%nat -> p ++ q = wire_bytes w -> q <> [] ->
  _parse d (pre ++ p) (zlen pre) = Incomplete.
Proof.
  induction w as [w Hw|l IH] using wire_ind'; intros Hok d pre p q Hd Hpq Hq;
    (destruct d as [|d]; [destruct w || idtac; simpl in Hd; lia|]).
  - destruct w as [s|s|z|b| | |l]; simpl in Hok.
    + apply bool_decide_eq_true in Hok. by eapply parse_short_line, Hq; [| |exact Hpq].
    + apply andb_true_iff in Hok as [Hs%bool_decide_eq_true _].
      by eapply parse_short_line, Hq; [| |exact Hpq].
    + eapply parse_short_line, Hq; [| |exact Hpq]; [done|auto with turbo].
    + by eapply parse_bulk_short.
    + rewrite wire_nil_bulk in Hpq.
      eapply parse_short_line, Hq; [| |exact Hpq]; [done|auto with turbo].
    + rewrite wire_nil_array in Hpq.
      eapply parse_short_line, Hq; [| |exact Hpq]; [done|auto with turbo].
    + by destruct (Hw l).
  - change (wire_bytes (WArray l))
      with ("*"%char :: dec (zlen l) ++ (crlf ++ concat (map wire_bytes l))) in Hpq.
    rewrite (app_assoc (dec _)), app_comm_cons in Hpq.
    apply cut_header in Hpq as [(s & Hs & Hps)|(p' & -> & Hp')].
    + eapply parse_short_line, Hs; [| |exact Hps]; [done|auto with turbo].
    + rewrite parse_line_app by (done || auto with turbo). rewrite kind_array by auto with turbo.
      set (hd := "*"%char :: dec (zlen l) ++ crlf).
      replace (zlen pre + 1 + zlen (dec (zlen l)) + 2) with (zlen (pre ++ hd)) by (unfold hd; zlen_lia).
      replace (Z.to_nat (zlen l)) with (length l) by (unfold zlen; lia).
      apply depth_items in Hd. simpl in Hok. rewrite forallb_forall in Hok.
      rewrite Forall_forall in IH, Hd. rewrite (app_assoc pre hd p').
      rewrite (parse_items_short d (pre ++ hd) l p' q); try done; apply Forall_forall; intros w Hw;
        assert (wire_ok w = true) by (apply Hok; by apply list_elem_of_In).
      * intros pre' post'. apply parse_wire; auto.
      * intros pre' p1 q1. apply IH; auto.
Qed.

(** ** The theorems about the reader *)

Lemma gets_wire w depth rest :
  wire_ok w = true -> (wire_depth w <= depth)%nat ->
  gets depth (wire_bytes w ++ rest) = GValue (wire_value w) rest.
Proof.
  intros Hok Hdepth.
  unfold gets. pose proof (parse_wire w Hok depth [] rest Hdepth) as HP.
  simpl in HP. rewrite zlen_nil in HP. rewrite HP. f_equal.
  pose proof (zlen_nonneg (wire_bytes w)). unfold del_prefix, norm_index.
  destruct (Z.ltb_spec (zlen (wire_bytes w)) 0); [lia|]. rewrite Z.min_l by zlen_lia. apply drop_zlen_app.
Qed.

Lemma gets_wire_short w depth p q :
  wire_ok w = true -> (wire_depth w <= depth)%nat -> p ++ q = wire_bytes w -> q <> [] ->
  gets depth p = GFalse.
Proof.
  intros Hok Hdepth Hsplit Hmissing.
  unfold gets. pose proof (parse_wire_short w Hok depth [] p q Hdepth Hsplit Hmissing) as HP.
  simpl in HP. rewrite zlen_nil in HP. by rewrite HP.
Qed.

(** on a reply that has not fully arrived (a proper prefix of its bytes)
    [gets] answers [False]: it never raises and never returns a wrong value on
    partial input. *)
Theorem gets_incomplete_reply (w : wire) (depth : nat) (p q : bytes)
  (Hok : wire_ok w = true) (Hdepth : (wire_depth w <= depth)%nat)
  (Hsplit : p ++ q = wire_bytes w) (Hmissing : q <> []) :
  gets depth p = GFalse.
Proof. by eapply gets_wire_short. Qed.

(** A use of the reader: each [Some chunk] is a [feed(chunk)], each [None] a
    [gets()]; the answers are in the order of the calls.  A raising [gets]
    leaves the buffer alone. *)
Inductive answer :=
| AnsFalse
| AnsValue (v : reply)
| AnsRaise (e : exn).

Fixpoint use_reader (depth : nat) (buf : bytes) (calls : list (option bytes)) : list answer * bytes :=
  match calls with
  | [] => ([], buf)
  | Some chunk :: calls' => use_reader depth (feed buf chunk) calls'
  | None :: calls' =>
      let '(a, buf') := match gets depth buf with
                        | GFalse => (AnsFalse, buf)
                        | GValue v buf' => (AnsValue v, buf')
                        | GRaise e => (AnsRaise e, buf)
                        end in
      let '(l, end_buf) := use_reader depth buf' calls' in (a :: l, end_buf)
  end.

Definition fed (calls : list (option bytes)) : bytes := concat (omap id calls).

(** What the caller should see when the server sends the replies [ws]: the
    reference only counts the bytes that have arrived and not been consumed.
    The next reply is handed out as soon as it is there in full. *)
Fixpoint ideal_reader (ws : list wire) (have : nat) (calls : list (option bytes))
  : list answer * (list wire * nat) :=
  match calls with
  | [] => ([], (ws, have))
  | Some chunk :: calls' => ideal_reader ws (have + length chunk)%nat calls'
  | None :: calls' =>
      match ws with
      | w :: ws' =>
          if (length (wire_bytes w) <=? have)%nat then
            let '(l, r) := ideal_reader ws' (have - length (wire_bytes w))%nat calls' in
            (AnsValue (wire_value w) :: l, r)
          else let '(l, r) := ideal_reader ws have calls' in (AnsFalse :: l, r)
      | [] => let '(l, r) := ideal_reader ws have calls' in (AnsFalse :: l, r)
      end
  end.

Lemma gets_nothing d : gets (S d) [] = GFalse.
Proof. reflexivity. Qed.

Section Reader.
Context (depth : nat) (Hpos : (0 < depth)%nat).

Definition readable (w : wire) : Prop := wire_ok w = true /\ (wire_depth w <= depth)%nat.

Lemma use_reader_ideal calls : forall ws buf later,
  Forall readable ws -> buf ++ fed calls ++ later = concat (map wire_bytes ws) ->
  let '(l, end_buf) := use_reader depth buf calls in
  let '(l', (ws', have)) := ideal_reader ws (length buf) calls in
  l = l' /\ end_buf ++ later = concat (map wire_bytes ws') /\ length end_buf = have.
Proof.
  induction calls as [|[chunk|] calls IH]; intros ws buf later Hws Hb; simpl.
  - done.
  - unfold feed. rewrite <-length_app. apply IH; [done|]. rewrite <-Hb.
    unfold fed. simpl. by rewrite <-!app_assoc.
  - change (fed (None :: calls)) with (fed calls) in Hb. destruct ws as [|w ws].
    + simpl in Hb. assert (buf = []) as -> by by destruct buf.
      destruct depth as [|d]; [lia|]. rewrite gets_nothing.
      specialize (IH [] [] later Hws Hb). simpl in IH.
      destruct (use_reader _ _ _), (ideal_reader _ _ _) as [? []]. naive_solver.
    + apply Forall_cons in Hws as [[Hok Hd] Hws]. simpl in Hb.
      destruct (Nat.leb_spec (length (wire_bytes w)) (length buf)) as [Hle|Hlt].
      * apply app_eq_app in Hb as (r & [[-> Hr]|[Hw Hr]]).
        -- rewrite (gets_wire w depth r Hok Hd), length_app, Nat.add_comm, Nat.add_sub.
           specialize (IH ws r later Hws (eq_sym Hr)).
           destruct (use_reader _ _ _), (ideal_reader _ _ _) as [? []]. naive_solver.
        -- assert (r = []) as -> by (apply (f_equal length) in Hw; rewrite length_app in Hw;
             destruct r; simpl in Hw; [done|lia]).
           rewrite app_nil_r in Hw. subst buf.
           pose proof (gets_wire w depth [] Hok Hd) as HG. rewrite app_nil_r in HG. rewrite HG.
           rewrite Nat.sub_diag. specialize (IH ws [] later Hws Hr).
           destruct (use_reader _ _ _), (ideal_reader _ _ _) as [? []]. naive_solver.
      * assert (exists q, buf ++ q = wire_bytes w /\ q <> []) as (q & Hq & Hne).
        { pose proof Hb as Hb'. apply app_eq_app in Hb as (r & [[-> Hr]|[Hw Hr]]).
          - rewrite length_app in Hlt. lia.
          - exists r. split; [done|]. intros ->. rewrite app_nil_r in Hw. rewrite Hw in Hlt. lia. }
        rewrite (gets_wire_short w depth buf q Hok Hd Hq Hne).
        specialize (IH (w :: ws) buf later (Forall_cons_2 _ _ _ (conj Hok Hd) Hws) Hb).
        destruct (use_reader _ _ _), (ideal_reader _ _ _) as [? []]. naive_solver.
Qed.

(** C6: let a server send the well-formed RESP2 replies [ws], none nested
    deeper than the recursion the interpreter allows, and let the bytes that
    have arrived so far be [feed] in arbitrary chunks, with [gets] called at
    arbitrary moments in between.  Every [gets] answers the value of the next
    reply in the server's order when that reply has arrived in full, and
    [False] when it has not; it never raises, and the buffer ends up holding
    exactly the bytes received and not yet handed out. *)
Theorem gets_complete_reply (ws : list wire) (calls : list (option bytes)) (later : bytes)
  (Hws : Forall readable ws) (Hfed : fed calls ++ later = concat (map wire_bytes ws)) :
  exists l end_buf ws',
    use_reader depth [] calls = (l, end_buf) /\
    ideal_reader ws 0 calls = (l, (ws', length end_buf)) /\
    end_buf ++ later = concat (map wire_bytes ws').
Proof.
  pose proof (use_reader_ideal calls ws [] later Hws Hfed) as H. simpl in H.
  destruct (use_reader _ _ _) as [l b], (ideal_reader _ _ _) as [l' [ws' n]].
  destruct H as (-> & Hb & <-). by exists l', b, ws'.
Qed.
End Reader.

Definition sample_wire : wire :=
  WArray [WBulk (lit "a" ++ crlf ++ lit "b"); WInt (-12); WNilBulk; WArray [WSimple (lit "OK")]].

Definition sample_calls : list (option bytes) :=
  [None; Some (lit ":7" ++ crlf ++ take 20 (wire_bytes sample_wire)); None; None;
   Some (drop 20 (wire_bytes sample_wire) ++ lit "+PO"); None; None].

Lemma gets_complete_reply_witness :
  exists l end_buf ws',
    use_reader 3 [] sample_calls = (l, end_buf) /\
    ideal_reader [WInt 7; sample_wire; WSimple (lit "PONG")] 0 sample_calls
      = (l, (ws', length end_buf)) /\
    end_buf ++ (lit "NG" ++ crlf) = concat (map wire_bytes ws').
Proof.
  apply (gets_complete_reply 3 ltac:(lia) [WInt 7; sample_wire; WSimple (lit "PONG")] sample_calls
           (lit "NG" ++ crlf)); [|vm_compute; reflexivity].
  repeat (apply Forall_cons_2; [split; [vm_compute; reflexivity|simpl; lia]|]). by apply Forall_nil.
Defined.

(** Those answers, evaluated. *)
Example sample_answers :
  use_reader 3 [] sample_calls
  = ([AnsFalse; AnsValue (RInt 7); AnsFalse; AnsValue (wire_value sample_wire); AnsFalse], lit "+PO").
Proof. vm_compute. reflexivity. Qed.

Lemma gets_incomplete_reply_witness : gets 3 (take 20 (wire_bytes sample_wire)) = GFalse.
Proof.
  apply (gets_incomplete_reply sample_wire 3 _ (drop 20 (wire_bytes sample_wire)));
    [reflexivity|simpl; lia|reflexivity|vm_compute; discriminate].
Defined.

(** ** The theorems about the encoder *)

Fixpoint args_bytes (args : list arg) : res (list bytes) :=
  match args with
  | [] => Ok []
  | a :: args' => (b <-- arg_bytes a ;; bs <-- args_bytes args' ;; Ok (b :: bs))%res
  end.

Lemma encode_args_spec args out :
  encode_args args out =
  (bs <-- args_bytes args ;; Ok (out ++ concat (map bulk bs)))%res.
Proof.
  revert out. induction args as [|a args IH]; intros out; simpl; [by rewrite app_nil_r|].
  destruct (arg_bytes a) as [b|e]; simpl; [|done].
  rewrite IH. destruct (args_bytes args); simpl; [|done]. by rewrite <-app_assoc.
Qed.

Lemma args_bytes_length args bs : args_bytes args = Ok bs -> length bs = length args.
Proof.
  revert bs. induction args as [|a args IH]; intros bs; simpl; [by intros [= <-]|].
  intros (b & Hb & Hr)%res_bind_Ok. apply res_bind_Ok in Hr as (bs' & Hbs & [= <-]).
  simpl. f_equal. by apply IH.
Qed.

Lemma encode_command_wire args :
  _encode_command args =
  (bs <-- args_bytes args ;; Ok (wire_bytes (WArray (map WBulk bs))))%res.
Proof.
  unfold _encode_command. rewrite encode_args_spec.
  destruct (args_bytes args) as [bs|e] eqn:E; simpl; [|done].
  f_equal. f_equal. unfold zlen. rewrite length_map, (args_bytes_length args bs E), map_map.
  by rewrite <-app_assoc.
Qed.

Lemma bulks_ok bs : wire_ok (WArray (map WBulk bs)) = true.
Proof. simpl. induction bs; simpl; auto. Qed.

Lemma bulks_depth bs : (wire_depth (WArray (map WBulk bs)) <= 2)%nat.
Proof. simpl. induction bs; simpl in *; lia. Qed.

(** The bytes [b] stand for the argument [a]: an integer is its decimal numeral,
    a string its UTF-8 form. *)
Definition stands_for (a : arg) (b : bytes) : Prop :=
  match a with
  | ABytes b' | AFloat b' => b = b'
  | AStr s => str_encode s = Ok b
  | AInt z => py_int is_space_bytes b = Some z
  | AOther => False
  end.

(** [a] is refused with [e]. *)
Definition refused_with (e : exn) (a : arg) : Prop :=
  match a with
  | AStr s => str_encode s = Raise e
  | AOther => e = TypeError
  | _ => False
  end.

Lemma args_bytes_stand args :
  match args_bytes args with
  | Ok bs => Forall2 stands_for args bs
  | Raise e => exists pre bs a rest, args = pre ++ a :: rest /\ Forall2 stands_for pre bs /\ refused_with e a
  end.
Proof.
  assert (forall a, match arg_bytes a with Ok b => stands_for a b | Raise e => refused_with e a end) as Ha.
  { intros [b|cps|z|r|]; simpl; try done; [by destruct (str_encode cps) | apply py_int_dec_bytes]. }
  induction args as [|a args IH]; simpl; [done|]. specialize (Ha a).
  destruct (arg_bytes a) as [b|e]; simpl; [|by exists [], [], a, args].
  destruct (args_bytes args) as [bs|e]; simpl; [by constructor|].
  destruct IH as (pre & bs & a' & rest & -> & HF & Hr). exists (a :: pre), (b :: bs), a', rest.
  split_and!; [done|by constructor|done].
Qed.

(** C17: what [_encode_command] writes is one RESP array of bulk strings: the
    parser reads it back, with nothing left over, as one string of bytes per
    argument, in order, that stands for that argument; arguments containing CR
    LF or arbitrary binary data included.  It raises only when an argument
    cannot be encoded, with the error of the first such. *)
Theorem encode_command_reads_back (args : list arg) :
  match _encode_command args with
  | Ok out => exists bs, Forall2 stands_for args bs /\ gets 2 out = GValue (RList (map RBytes bs)) []
  | Raise e => exists pre bs a rest, args = pre ++ a :: rest /\ Forall2 stands_for pre bs /\ refused_with e a
  end.
Proof.
  rewrite encode_command_wire. pose proof (args_bytes_stand args) as H.
  destruct (args_bytes args) as [bs|e]; simpl; [|done]. exists bs. split; [done|].
  pose proof (gets_wire (WArray (map WBulk bs)) 2 [] (bulks_ok bs) (bulks_depth bs)) as HG.
  rewrite app_nil_r in HG. simpl in HG. rewrite HG. by rewrite map_map.
Qed.

Example set_command_reads_back :
  _encode_command [AStr [83; 69; 84]; ABytes crlf; AInt (-7)] =
    Ok (lit "*3" ++ crlf ++ lit "$3" ++ crlf ++ lit "SET" ++ crlf ++ lit "$2" ++ crlf ++ crlf
        ++ crlf ++ lit "$2" ++ crlf ++ lit "-7" ++ crlf).
Proof. vm_compute. reflexivity. Qed.

Definition str_key_like (a : arg) : bool :=
  match a with ABytes _ | AStr _ => true | _ => false end.

Definition GET : arg := AStr [71; 69; 84].
Definition SET : arg := AStr [83; 69; 84].

(** the preformatted [get] and [set] shortcuts put on the wire the same
    bytes, and raise the same errors, as the generic [execute] encoding of the
    same command, for the key and value types they accept. *)
Theorem shortcut_commands_agree (key value : arg)
  (Hk : str_key_like key = true) (Hv : str_key_like value = true) :
  get_command key = _encode_command [GET; key] /\
  set_command key value = _encode_command [SET; key; value].
Proof.
  rewrite !encode_command_wire. unfold get_command, set_command.
  replace (key_bytes key) with (arg_bytes key) by (by destruct key).
  replace (key_bytes value) with (arg_bytes value) by (by destruct value).
  simpl. destruct (arg_bytes key) as [k|e]; simpl; [|done].
  destruct (arg_bytes value) as [v|e']; simpl; split; try done;
    unfold bulk; simpl; repeat (rewrite <-?app_assoc; simpl); by rewrite ?app_nil_r.
Qed.

Lemma shortcut_commands_agree_witness :
  get_command (ABytes (lit "k")) = _encode_command [GET; ABytes (lit "k")] /\
  set_command (ABytes (lit "k")) (AStr [233]) = _encode_command [SET; ABytes (lit "k"); AStr [233]].
Proof. apply shortcut_commands_agree; reflexivity. Defined.

End Resp.
