(* ===== verification/RedisMux.v ===== *)
(** The multiplexed Redis connection of [contrib_redis.py]: [RedisMux] and its
    [_MuxProtocol].

    The client state is the object's attributes together with what the event
    loop holds for it (futures, transports, scheduled [_flush] callbacks).
    Every method is a function on that state; a coroutine is cut at its
    [await]s.  The closed system at the end adds a server that answers each
    command after receiving all its bytes, and a network that delivers reply
    bytes in arbitrary chunks. *)

From S2P Require Import Prelude.
From S2P Require Import Resp.
Import Resp.

Module RedisMux.

(** ** State *)

Inductive fut :=
| FPending
| FResult (r : reply)
| FExn (e : exn)
| FCancelled.

Definition done (f : fut) : bool :=
  match f with FPending => false | _ => true end.

Record transport := Transport { tr_closing : bool; tr_written : bytes }.

Record st := St {
  _db : Z;
  _transport : option nat;
  _reader : bytes;
  _waiters : list nat;
  _wbuf : bytes;
  _flush_scheduled : bool;
  _connecting : option nat;
  _closed : bool;
  (* the event loop's part *)
  futs : gmap nat fut;
  next_fut : nat;
  transports : gmap nat transport;
  ready_flush : nat;
}.

Definition set_transport t s := St s.(_db) t s.(_reader) s.(_waiters) s.(_wbuf) s.(_flush_scheduled)
  s.(_connecting) s.(_closed) s.(futs) s.(next_fut) s.(transports) s.(ready_flush).
Definition set_reader r s := St s.(_db) s.(_transport) r s.(_waiters) s.(_wbuf) s.(_flush_scheduled)
  s.(_connecting) s.(_closed) s.(futs) s.(next_fut) s.(transports) s.(ready_flush).
Definition set_waiters w s := St s.(_db) s.(_transport) s.(_reader) w s.(_wbuf) s.(_flush_scheduled)
  s.(_connecting) s.(_closed) s.(futs) s.(next_fut) s.(transports) s.(ready_flush).
Definition set_wbuf b s := St s.(_db) s.(_transport) s.(_reader) s.(_waiters) b s.(_flush_scheduled)
  s.(_connecting) s.(_closed) s.(futs) s.(next_fut) s.(transports) s.(ready_flush).
Definition set_flush_scheduled b s := St s.(_db) s.(_transport) s.(_reader) s.(_waiters) s.(_wbuf) b
  s.(_connecting) s.(_closed) s.(futs) s.(next_fut) s.(transports) s.(ready_flush).
Definition set_connecting c s := St s.(_db) s.(_transport) s.(_reader) s.(_waiters) s.(_wbuf)
  s.(_flush_scheduled) c s.(_closed) s.(futs) s.(next_fut) s.(transports) s.(ready_flush).
Definition set_closed b s := St s.(_db) s.(_transport) s.(_reader) s.(_waiters) s.(_wbuf)
  s.(_flush_scheduled) s.(_connecting) b s.(futs) s.(next_fut) s.(transports) s.(ready_flush).
Definition set_futs f s := St s.(_db) s.(_transport) s.(_reader) s.(_waiters) s.(_wbuf)
  s.(_flush_scheduled) s.(_connecting) s.(_closed) f s.(next_fut) s.(transports) s.(ready_flush).
Definition set_next_fut n s := St s.(_db) s.(_transport) s.(_reader) s.(_waiters) s.(_wbuf)
  s.(_flush_scheduled) s.(_connecting) s.(_closed) s.(futs) n s.(transports) s.(ready_flush).
Definition set_transports t s := St s.(_db) s.(_transport) s.(_reader) s.(_waiters) s.(_wbuf)
  s.(_flush_scheduled) s.(_connecting) s.(_closed) s.(futs) s.(next_fut) t s.(ready_flush).
Definition set_ready_flush n s := St s.(_db) s.(_transport) s.(_reader) s.(_waiters) s.(_wbuf)
  s.(_flush_scheduled) s.(_connecting) s.(_closed) s.(futs) s.(next_fut) s.(transports) n.

(** [RedisMux.__init__] *)
Definition init (db : Z) : st :=
  St db None [] [] [] false None false ∅ O ∅ O.

(** [loop.create_future()] *)
Definition create_future (s : st) : nat * st :=
  (s.(next_fut), set_next_fut (S s.(next_fut)) (set_futs (<[s.(next_fut) := FPending]> s.(futs)) s)).

(** [transport.write(data)] *)
Definition tr_write (t : nat) (data : bytes) (s : st) : st :=
  set_transports
    (alter (fun tr => Transport tr.(tr_closing) (tr.(tr_written) ++ data)) t s.(transports)) s.

(** The negation of [_transport is None or _transport.is_closing()]. *)
Definition live (s : st) : bool :=
  match s.(_transport) with
  | None => false
  | Some t => match s.(transports) !! t with
              | Some tr => negb tr.(tr_closing)
              | None => false
              end
  end.

(** ** Commands *)

Definition _send (encoded : bytes) (s : st) : st * res nat :=
  let '(fut, s) := create_future s in
  if bool_decide (s.(_waiters) = []) && bool_decide (s.(_wbuf) = []) then
    let s := set_waiters (s.(_waiters) ++ [fut]) s in
    match s.(_transport) with
    | None => (s, Raise AttributeError)
    | Some t => (tr_write t encoded s, Ok fut)
    end
  else
    let s := set_waiters (s.(_waiters) ++ [fut]) s in
    let s := set_wbuf (s.(_wbuf) ++ encoded) s in
    let s := if s.(_flush_scheduled) then s
             else set_ready_flush (S s.(ready_flush)) (set_flush_scheduled true s) in
    (s, Ok fut).

(** The [call_soon]ed callback; running it takes it off the ready queue. *)
Definition _flush (s : st) : st :=
  let s := set_ready_flush (pred s.(ready_flush)) s in
  let s := set_flush_scheduled false s in
  match s.(_transport) with
  | Some t => if bool_decide (s.(_wbuf) = []) then s
              else tr_write t s.(_wbuf) (set_wbuf [] s)
  | None => s
  end.

(** ** Replies *)

Definition complete (f : nat) (v : reply) (fs : gmap nat fut) : gmap nat fut :=
  match fs !! f with
  | Some FPending =>
      <[f := match v with RError m => FExn (RedisMuxError m) | _ => FResult v end]> fs
  | _ => fs
  end.

(** The [while True] loop of [data_received]: each round pops a waiter, so the
    loop runs at most once more than there are waiters. *)
Fixpoint drain (depth : nat) (waiters : list nat) (buf : bytes) (fs : gmap nat fut)
  : list nat * bytes * gmap nat fut * option exn :=
  match gets depth buf with
  | GFalse => (waiters, buf, fs, None)
  | GRaise e => (waiters, buf, fs, Some e)
  | GValue v buf' =>
      match waiters with
      | [] => ([], buf', fs, Some IndexError)
      | f :: waiters' => drain depth waiters' buf' (complete f v fs)
      end
  end.

Definition data_received (depth : nat) (data : bytes) (s : st) : st * option exn :=
  let '(ws, buf, fs, e) := drain depth s.(_waiters) (feed s.(_reader) data) s.(futs) in
  (set_futs fs (set_waiters ws (set_reader buf s)), e).

(** [for fut in waiters: if not fut.done(): fut.set_exception(err)] *)
Definition fail_future (err : exn) (fs : gmap nat fut) (f : nat) : gmap nat fut :=
  match fs !! f with
  | Some FPending => <[f := FExn err]> fs
  | _ => fs
  end.

Definition lost_error : exn := ConnectionError (lit "redis connection lost").

Definition _on_connection_lost (s : st) : st :=
  let s := set_transport None s in
  set_futs (foldl (fail_future lost_error) s.(futs) s.(_waiters)) (set_waiters [] s).

Definition close (s : st) : st :=
  let s := set_closed true s in
  match s.(_transport) with
  | Some t => set_transport None
      (set_transports (alter (fun tr => Transport true tr.(tr_written)) t s.(transports)) s)
  | None => s
  end.

(** A caller that gives up cancels its future. *)
Definition cancel (f : nat) (s : st) : st :=
  match s.(futs) !! f with
  | Some FPending => set_futs (<[f := FCancelled]> s.(futs)) s
  | _ => s
  end.

(** ** Connecting *)

(** Where a call of [connect] goes before its first [await]. *)
Inductive connect_next :=
| ConnReady
| ConnWait (f : nat)
| ConnDial
| ConnRaise (e : exn).

Definition connect_start (s : st) : st * connect_next :=
  if live s then (s, ConnReady)
  else if s.(_closed) then (s, ConnRaise (ConnectionError (lit "RedisMux is closed")))
  else match s.(_connecting) with
       | Some f => (s, ConnWait f)
       | None => let '(f, s) := create_future s in (set_connecting (Some f) s, ConnDial)
       end.

(** The racer's check after the dialling task is done. *)
Definition connect_woken (s : st) : option exn :=
  if live s then None else Some (ConnectionError (lit "redis connect failed")).

(** The [finally] clause. *)
Definition connect_finally (s : st) : st :=
  match s.(_connecting) with
  | Some f => set_futs (<[f := FResult RNone]> s.(futs)) (set_connecting None s)
  | None => s
  end.

Definition SELECT : arg := AStr [83; 69; 76; 69; 67; 84].

(** [create_connection] returned transport [t] (open, nothing written): the
    assignments that follow it. *)
Definition dial_reset (t : nat) (s : st) : st :=
  let s := set_reader [] s in
  let s := set_waiters [] s in
  let s := set_wbuf [] s in
  let s := set_flush_scheduled false s in
  set_transport (Some t) (set_transports (<[t := Transport false []]> s.(transports)) s).

(** The rest of [connect] after the dial.  The result is the future of the
    [SELECT] command the caller now awaits. *)
Definition connect_dialed (t : nat) (s : st) : st * res (option nat) :=
  let s := dial_reset t s in
  if s.(_db) =? 0 then (connect_finally s, Ok None)
  else match _encode_command [SELECT; AInt s.(_db)] with
       | Raise e => (connect_finally s, Raise e)
       | Ok enc => match _send enc s with
                   | (s, Ok f) => (s, Ok (Some f))
                   | (s, Raise e) => (connect_finally s, Raise e)
                   end
       end.

(** Dialling failed. *)
Definition connect_failed (e : exn) (s : st) : st * exn := (connect_finally s, e).

(** The awaited [SELECT] future [f] is done: its exception leaves [connect],
    through the [finally]. *)
Definition connect_selected (f : nat) (s : st) : st * option exn :=
  let s' := connect_finally s in
  match s.(futs) !! f with
  | Some (FExn e) => (s', Some e)
  | Some FCancelled => (s', Some CancelledError)
  | _ => (s', None)
  end.

(** [execute] up to its first [await]: the command is sent at once when the
    connection is live, and otherwise [connect] runs first. *)
Inductive execute_next :=
| ExecSent (f : nat)
| ExecConnect (n : connect_next)
| ExecRaise (e : exn).

Definition execute_start (args : list arg) (s : st) : st * execute_next :=
  if live s then
    match _encode_command args with
    | Raise e => (s, ExecRaise e)
    | Ok enc => match _send enc s with
                | (s, Ok f) => (s, ExecSent f)
                | (s, Raise e) => (s, ExecRaise e)
                end
    end
  else let '(s, n) := connect_start s in (s, ExecConnect n).

(** ** Effects of [_send] and [cancel] *)

Lemma send_spec enc s t' :
  s.(_transport) = Some t' ->
  exists s', _send enc s = (s', Ok s.(next_fut)) /\
    s'.(_transport) = Some t' /\ s'.(futs) = <[s.(next_fut) := FPending]> s.(futs) /\
    s'.(next_fut) = S s.(next_fut) /\ s'.(_waiters) = s.(_waiters) ++ [s.(next_fut)] /\
    s'.(_reader) = s.(_reader) /\
    ((s'.(_wbuf) = [] /\ s.(_wbuf) = [] /\ s'.(_flush_scheduled) = s.(_flush_scheduled) /\
      s'.(ready_flush) = s.(ready_flush) /\
      s'.(transports) = (tr_write t' enc s).(transports)) \/
     (s'.(_wbuf) = s.(_wbuf) ++ enc /\ s'.(_flush_scheduled) = true /\
      s'.(transports) = s.(transports) /\
      (s.(_flush_scheduled) = true -> s'.(ready_flush) = s.(ready_flush)) /\
      (s.(_flush_scheduled) = false -> (0 < s'.(ready_flush))%nat))).
Proof.
  intros Ht. unfold _send, create_future. simpl.
  destruct (bool_decide (_waiters s = []) && bool_decide (_wbuf s = [])) eqn:E; simpl.
  - apply andb_true_iff in E as [_ Hw%bool_decide_eq_true]. rewrite Ht.
    eexists. split; [reflexivity|]. simpl. split_and!; auto.
    left. split_and!; auto.
  - eexists. split; [reflexivity|].
    destruct (_flush_scheduled s) eqn:Hf; simpl; rewrite ?Hf; split_and!; auto;
      right; split_and!; simpl; auto; try lia; done.
Qed.

Lemma cancel_spec f s :
  (cancel f s).(_transport) = s.(_transport) /\ (cancel f s).(transports) = s.(transports) /\
  (cancel f s).(_waiters) = s.(_waiters) /\ (cancel f s).(_wbuf) = s.(_wbuf) /\
  (cancel f s).(_reader) = s.(_reader) /\ (cancel f s).(_flush_scheduled) = s.(_flush_scheduled) /\
  (cancel f s).(ready_flush) = s.(ready_flush) /\ (cancel f s).(next_fut) = s.(next_fut) /\
  (forall g, (cancel f s).(futs) !! g = s.(futs) !! g \/
     (s.(futs) !! g = Some FPending /\ (cancel f s).(futs) !! g = Some FCancelled)).
Proof.
  unfold cancel. destruct (futs s !! f) as [[]|] eqn:E; simpl; split_and!; auto.
  intros g. destruct (decide (g = f)) as [->|]; [rewrite lookup_insert_eq; auto|].
  rewrite lookup_insert_ne; auto.
Qed.

Lemma send_idle enc s t' :
  s.(_transport) = Some t' -> s.(_waiters) = [] -> s.(_wbuf) = [] ->
  _send enc s = (tr_write t' enc (set_waiters [s.(next_fut)] (create_future s).2), Ok s.(next_fut)).
Proof. intros Ht Hw Hb. unfold _send, create_future. simpl. by rewrite Hw, Hb, Ht. Qed.

(** ** The closed system of one connection

    [issued] and [replies] are history: the commands in the order [_send] was
    called, and the replies in the order the server wrote them. *)

Record sys := Sys {
  client : st;
  net : bytes;
  replies : list wire;
  issued : list (nat * bytes);
}.

Section System.
Variables (depth : nat) (t : nat).

Definition written (s : st) : bytes :=
  match s.(transports) !! t with Some tr => tr.(tr_written) | None => [] end.

(** The server has received every byte of its next unanswered command. *)
Definition server_may_reply (y : sys) : Prop :=
  (length y.(replies) < length y.(issued))%nat /\
  exists r, written y.(client) = concat (take (S (length y.(replies))) (y.(issued).*2)) ++ r.

Inductive sys_step : sys -> sys -> Prop :=
| StepSend y enc c' f :
    live y.(client) = true -> enc <> [] ->
    _send enc y.(client) = (c', Ok f) ->
    sys_step y (Sys c' y.(net) y.(replies) (y.(issued) ++ [(f, enc)]))
| StepFlush y :
    (0 < y.(client).(ready_flush))%nat ->
    sys_step y (Sys (_flush y.(client)) y.(net) y.(replies) y.(issued))
| StepReply y w :
    wire_ok w = true -> (wire_depth w <= depth)%nat -> server_may_reply y ->
    sys_step y (Sys y.(client) (y.(net) ++ wire_bytes w) (y.(replies) ++ [w]) y.(issued))
| StepDeliver y chunk rest c' e :
    y.(net) = chunk ++ rest ->
    data_received depth chunk y.(client) = (c', e) ->
    sys_step y (Sys c' rest y.(replies) y.(issued))
| StepCancel y f :
    sys_step y (Sys (cancel f y.(client)) y.(net) y.(replies) y.(issued)).

(** A connection just established on transport [t]. *)
Definition sys_init (y : sys) : Prop :=
  y.(net) = [] /\ y.(replies) = [] /\ y.(issued) = [] /\
  y.(client).(_transport) = Some t /\
  y.(client).(transports) !! t = Some (Transport false []) /\
  y.(client).(_reader) = [] /\ y.(client).(_waiters) = [] /\ y.(client).(_wbuf) = [] /\
  y.(client).(_flush_scheduled) = false /\
  (forall f, is_Some (y.(client).(futs) !! f) -> (f < y.(client).(next_fut))%nat).

Definition sys_reachable (y : sys) : Prop := exists y0, sys_init y0 /\ rtc sys_step y0 y.

(** What the future of the command answered by [w] may hold. *)
Definition answered_by (w : wire) (x : fut) : Prop :=
  x = FCancelled \/
  x = match wire_value w with RError m => FExn (RedisMuxError m) | v => FResult v end.

(** The buffer holds no complete reply of [rs]. *)
Definition starved (buf : bytes) (rs : list wire) : Prop :=
  buf = [] \/ exists w rs' s, rs = w :: rs' /\ s <> [] /\ buf ++ s = wire_bytes w.

Record sys_inv (y : sys) (a : nat) : Prop := SysInv {
  inv_transport : y.(client).(_transport) = Some t;
  inv_open : exists b, y.(client).(transports) !! t = Some (Transport false b);
  inv_fresh : forall f, is_Some (y.(client).(futs) !! f) -> (f < y.(client).(next_fut))%nat;
  inv_nodup : NoDup (y.(issued).*1);
  inv_wire : written y.(client) ++ y.(client).(_wbuf) = concat (y.(issued).*2);
  inv_flush : y.(client).(_wbuf) <> [] ->
    y.(client).(_flush_scheduled) = true;
  inv_ready : y.(client).(_flush_scheduled) = true -> (0 < y.(client).(ready_flush))%nat;
  inv_count : (a <= length y.(replies) <= length y.(issued))%nat;
  inv_waiters : y.(client).(_waiters) = drop a (y.(issued).*1);
  inv_bytes : y.(client).(_reader) ++ y.(net) = concat (map wire_bytes (drop a y.(replies)));
  inv_starved : starved y.(client).(_reader) (drop a y.(replies));
  inv_ok : Forall (fun w => wire_ok w = true /\ (wire_depth w <= depth)%nat) y.(replies);
  inv_answered : forall i f w, (i < a)%nat -> y.(issued).*1 !! i = Some f ->
    y.(replies) !! i = Some w ->
    exists x, y.(client).(futs) !! f = Some x /\ answered_by w x;
  inv_waiting : forall i f, (a <= i)%nat -> y.(issued).*1 !! i = Some f ->
    y.(client).(futs) !! f = Some FPending \/ y.(client).(futs) !! f = Some FCancelled;
}.

Hypothesis Hdepth : (0 < depth)%nat.

(** *** Draining the reader *)

Fixpoint complete_all (l : list (nat * wire)) (fs : gmap nat fut) : gmap nat fut :=
  match l with
  | [] => fs
  | (f, w) :: l' => complete_all l' (complete f (wire_value w) fs)
  end.

Lemma complete_other f v fs g : g <> f -> complete f v fs !! g = fs !! g.
Proof. intros. unfold complete. destruct (fs !! f) as [[]|]; try done. by rewrite lookup_insert_ne. Qed.

Lemma complete_self f w fs :
  fs !! f = Some FPending \/ fs !! f = Some FCancelled ->
  exists x, complete f (wire_value w) fs !! f = Some x /\ answered_by w x.
Proof.
  unfold complete, answered_by. intros [H|H]; rewrite H;
    [|eexists; split; [exact H|by left]].
  rewrite lookup_insert_eq. eexists. split; [reflexivity|].
  right. by destruct (wire_value w).
Qed.

Lemma complete_all_other l fs g : g ∉ l.*1 -> complete_all l fs !! g = fs !! g.
Proof.
  revert fs. induction l as [|[f w] l IH]; intros fs Hg; simpl in *; [done|].
  apply not_elem_of_cons in Hg as [? ?]. rewrite IH by done. by apply complete_other.
Qed.

Lemma complete_all_in l fs i f w :
  NoDup l.*1 -> l !! i = Some (f, w) ->
  fs !! f = Some FPending \/ fs !! f = Some FCancelled ->
  exists x, complete_all l fs !! f = Some x /\ answered_by w x.
Proof.
  revert fs i. induction l as [|[g v] l IH]; intros fs i Hnd Hi Hf; [done|].
  simpl in Hnd. apply NoDup_cons in Hnd as [Hg Hnd].
  destruct i as [|i]; simplify_eq/=.
  - rewrite complete_all_other by done. by apply complete_self.
  - assert (g <> f).
    { intros ->. apply Hg. apply list_elem_of_lookup. exists i. by rewrite list_lookup_fmap, Hi. }
    apply IH with i; auto. by rewrite complete_other.
Qed.

Lemma gets_nil : gets depth [] = GFalse.
Proof. destruct depth; [lia|done]. Qed.

Lemma drain_spec rs : Forall (fun w => wire_ok w = true /\ (wire_depth w <= depth)%nat) rs ->
  forall ws buf rest fs,
  buf ++ rest = concat (map wire_bytes rs) -> (length rs <= length ws)%nat ->
  exists k buf', (k <= length rs)%nat /\
    drain depth ws buf fs = (drop k ws, buf', complete_all (zip (take k ws) (take k rs)) fs, None) /\
    buf' ++ rest = concat (map wire_bytes (drop k rs)) /\ starved buf' (drop k rs).
Proof.
  induction 1 as [|w rs [Hok Hd] Hrs IH]; intros ws buf rest fs Hbuf Hlen; simpl in *.
  - apply app_eq_nil in Hbuf as [-> ->]. exists O, []. split; [lia|].
    destruct ws; simpl; rewrite gets_nil; split_and!; auto; by left.
  - pose proof Hbuf as Hall.
    apply cut_header in Hbuf as [(s & Hs & Hbuf)|(buf1 & -> & Hbuf)].
    + exists O, buf. split; [lia|]. pose proof (gets_wire_short w depth buf s Hok Hd Hbuf Hs) as HG.
      destruct ws as [|f ws]; simpl in *; [lia|]. rewrite HG. split_and!; auto.
      right. by exists w, rs, s.
    + destruct ws as [|f ws]; simpl in *; [lia|]. rewrite gets_wire by done.
      destruct (IH ws buf1 rest (complete f (wire_value w) fs) Hbuf ltac:(lia))
        as (k & buf' & Hk & Hdr & Hb & Hst).
      exists (S k), buf'. split_and!; [lia|by rewrite Hdr|done|done].
Qed.

(** *** Preservation *)

Lemma written_write s data b :
  s.(transports) !! t = Some (Transport false b) ->
  (tr_write t data s).(transports) !! t = Some (Transport false (b ++ data)).
Proof. intros H. simpl. by rewrite lookup_alter_eq, H. Qed.

Lemma written_eq s b : s.(transports) !! t = Some (Transport false b) -> written s = b.
Proof. intros H. unfold written. by rewrite H. Qed.

Lemma step_send_inv y a enc c' f :
  sys_inv y a -> enc <> [] -> _send enc y.(client) = (c', Ok f) ->
  sys_inv (Sys c' y.(net) y.(replies) (y.(issued) ++ [(f, enc)])) a.
Proof.
  intros I Henc Hsend. destruct I.
  destruct (send_spec enc y.(client) t inv_transport0)
    as (s' & Hs & Ht & Hfut & Hnext & Hwait & Hrd & Hcase).
  rewrite Hs in Hsend. injection Hsend as <- <-. destruct inv_open0 as [b Hb].
  pose proof (written_eq _ _ Hb) as Hwb.
  assert (forall i g, y.(issued).*1 !! i = Some g -> g <> y.(client).(next_fut)) as Hold.
  { intros i g Hi ->. assert (is_Some (futs (client y) !! next_fut (client y))) as Hs'; [|
      apply inv_fresh0 in Hs'; lia].
    destruct (decide (i < a)%nat) as [Hlt|Hge].
    - destruct (lookup_lt_is_Some_2 (replies y) i ltac:(lia)) as [w Hw].
      destruct (inv_answered0 i _ w Hlt Hi Hw) as (x & Hx & _). eauto.
    - destruct (inv_waiting0 i _ ltac:(lia) Hi); eauto. }
  split; simpl; rewrite ?fmap_app; simpl; auto.
  - destruct Hcase as [(_ & _ & _ & _ & ->)|(_ & _ & -> & _)]; [|by eauto].
    exists (b ++ enc). by apply written_write.
  - intros g. rewrite Hfut, Hnext. destruct (decide (g = next_fut (client y))) as [->|Hne]; [lia|].
    rewrite lookup_insert_ne by done. intros ?%inv_fresh0. lia.
  - apply NoDup_app. split_and!; [done| |apply NoDup_singleton].
    intros g (i & Hi)%list_elem_of_lookup ->%list_elem_of_singleton. by eapply Hold.
  - rewrite concat_app. simpl. rewrite app_nil_r, <-inv_wire0.
    destruct Hcase as [(-> & Hw0 & _ & _ & Htr)|(-> & _ & Htr & _)].
    + erewrite (written_eq s'); [|by rewrite Htr; apply written_write]. by rewrite Hw0, !app_nil_r, Hwb.
    + unfold written in *. by rewrite Htr, app_assoc.
  - destruct Hcase as [(-> & _)|(_ & -> & _)]; done.
  - destruct Hcase as [(_ & _ & -> & -> & _)|(_ & Hf & _ & H1 & H2)]; [done|].
    intros _. destruct (_flush_scheduled (client y)); [rewrite H1 by done; auto|by apply H2].
  - rewrite length_app. simpl. lia.
  - rewrite Hwait, inv_waiters0, drop_app_le; [done|]. rewrite length_fmap. lia.
  - by rewrite Hrd.
  - by rewrite Hrd.
  - intros i g w Hlt Hi Hw. rewrite lookup_app_l in Hi by (rewrite length_fmap; lia).
    rewrite Hfut, lookup_insert_ne by (symmetry; by eapply Hold). eauto.
  - intros i g Hge Hi. rewrite Hfut. destruct (decide (g = next_fut (client y))) as [->|Hne].
    + left. apply lookup_insert_eq.
    + rewrite lookup_insert_ne by done. apply (inv_waiting0 i); [done|].
      apply lookup_app_Some in Hi as [?|[_ Hi]]; [done|].
      destruct (i - _)%nat; simplify_eq/=.
Qed.

Lemma step_flush_inv y a :
  sys_inv y a -> sys_inv (Sys (_flush y.(client)) y.(net) y.(replies) y.(issued)) a.
Proof.
  intros I. destruct I, inv_open0 as [b Hb]. pose proof (written_eq _ _ Hb) as Hwb.
  unfold _flush. simpl. rewrite inv_transport0. case_bool_decide as Hw; simpl.
  - split; simpl; eauto. intros; by rewrite Hw in *.
  - split; simpl; eauto; try done.
    + exists (b ++ _wbuf (client y)). by rewrite lookup_alter_eq, Hb.
    + unfold written. simpl. rewrite lookup_alter_eq, Hb. simpl. rewrite app_nil_r, <-inv_wire0.
      by rewrite Hwb.
Qed.

Lemma step_reply_inv y a w :
  sys_inv y a -> wire_ok w = true -> (wire_depth w <= depth)%nat -> server_may_reply y ->
  sys_inv (Sys y.(client) (y.(net) ++ wire_bytes w) (y.(replies) ++ [w]) y.(issued)) a.
Proof.
  intros I Hok Hd [Hlt _]. destruct I.
  split; simpl; rewrite ?length_app; simpl; eauto; try lia.
  - rewrite drop_app_le by lia. rewrite map_app, concat_app, app_assoc, inv_bytes0. simpl.
    by rewrite app_nil_r.
  - rewrite drop_app_le by lia. destruct inv_starved0 as [?|(w0 & rs & s & -> & ? & ?)]; [by left|].
    right. by exists w0, (rs ++ [w]), s.
  - apply Forall_app. by split; [|apply Forall_singleton].
  - intros i f w' Hi Hf Hw. rewrite lookup_app_l in Hw by lia. eauto.
Qed.

Lemma step_deliver_inv y a chunk rest c' e :
  sys_inv y a -> y.(net) = chunk ++ rest -> data_received depth chunk y.(client) = (c', e) ->
  e = None /\ exists a', (a <= a')%nat /\ sys_inv (Sys c' rest y.(replies) y.(issued)) a'.
Proof.
  intros I Hnet Hdr. destruct I. unfold data_received, feed in Hdr.
  assert (Forall (fun w => wire_ok w = true /\ (wire_depth w <= depth)%nat) (drop a y.(replies)))
    as Hoks by (by apply Forall_drop).
  rewrite Hnet, app_assoc in inv_bytes0.
  destruct (drain_spec _ Hoks (_waiters (client y)) _ rest (futs (client y)) inv_bytes0)
    as (k & buf' & Hk & Hd & Hb & Hst).
  { rewrite inv_waiters0, !length_drop, length_fmap. lia. }
  rewrite Hd in Hdr. injection Hdr as <- <-. split; [done|]. exists (a + k)%nat. split; [lia|].
  rewrite length_drop in Hk. rewrite !drop_drop in *.
  set (l := zip (take k (_waiters (client y))) (take k (drop a (replies y)))).
  assert (forall i f w, (issued y).*1 !! i = Some f -> replies y !! i = Some w ->
            (a <= i < a + k)%nat -> l !! (i - a)%nat = Some (f, w)) as Hin.
  { intros i f w Hf Hw Hi. unfold l. rewrite inv_waiters0, lookup_zip_with.
    rewrite !lookup_take, !lookup_drop. rewrite !decide_True by lia.
    replace (a + (i - a))%nat with i by lia. by rewrite Hf, Hw. }
  assert (l.*1 = take k (drop a ((issued y).*1))) as Hl1.
  { unfold l. rewrite inv_waiters0. apply fst_zip. rewrite !length_take, !length_drop, length_fmap. lia. }
  assert (forall i f, (issued y).*1 !! i = Some f -> ~ (a <= i < a + k)%nat -> f ∉ l.*1) as Hout.
  { intros i f Hf Hi. rewrite Hl1. intros (j & Hj)%list_elem_of_lookup.
    apply lookup_take_Some in Hj as [Hj Hjk]. rewrite lookup_drop in Hj.
    pose proof (NoDup_lookup _ _ _ _ inv_nodup0 Hf Hj). lia. }
  split; simpl; eauto.
  - intros g [x Hx]. apply inv_fresh0. destruct (decide (g ∈ l.*1)) as [Hg|Hg].
    + rewrite Hl1 in Hg. apply list_elem_of_lookup in Hg as (j & Hj).
      apply lookup_take_Some in Hj as [Hj _]. rewrite lookup_drop in Hj.
      destruct (inv_waiting0 (a + j)%nat g ltac:(lia) Hj); eauto.
    + rewrite complete_all_other in Hx by done. eauto.
  - lia.
  - by rewrite inv_waiters0, drop_drop.
  - intros i f w Hi Hf Hw. destruct (decide (i < a)%nat).
    + rewrite complete_all_other by (eapply Hout; [done|lia]). eauto.
    + apply complete_all_in with (i - a)%nat; [|apply Hin; auto; lia|apply (inv_waiting0 i); [lia|done]].
      rewrite Hl1. by apply NoDup_take_drop.
  - intros i f Hi Hf. rewrite complete_all_other by (eapply Hout; [done|lia]).
    apply (inv_waiting0 i); [lia|done].
Qed.

Lemma step_cancel_inv y a f :
  sys_inv y a -> sys_inv (Sys (cancel f y.(client)) y.(net) y.(replies) y.(issued)) a.
Proof.
  intros I. destruct I.
  destruct (cancel_spec f y.(client)) as (H1 & H2 & H3 & H4 & H5 & H6 & H7 & H8 & H9).
  split; simpl; unfold written; rewrite ?H1, ?H2, ?H3, ?H4, ?H5, ?H6, ?H7, ?H8; eauto.
  - intros g [x Hx]. apply inv_fresh0. destruct (H9 g) as [E|[E _]]; rewrite ?E in *; eauto.
  - intros i g w Hi Hg Hw. destruct (inv_answered0 i g w Hi Hg Hw) as (x & Hx & Ha).
    destruct (H9 g) as [->|[_ ->]]; eauto. eexists. split; [done|by left].
  - intros i g Hi Hg. destruct (H9 g) as [->|[_ ->]]; eauto.
Qed.

Lemma sys_init_inv y : sys_init y -> sys_inv y 0.
Proof.
  intros (Hn & Hr & Hi & Ht & Htr & Hrd & Hw & Hb & Hf & Hfr).
  split; rewrite ?Hn, ?Hr, ?Hi, ?Hrd, ?Hw, ?Hb, ?Hf; simpl; eauto; try done; try lia.
  - apply NoDup_nil. done.
  - rewrite (written_eq _ _ Htr). done.
  - by left.
Qed.

Lemma sys_step_inv y y' a :
  sys_inv y a -> sys_step y y' -> exists a', (a <= a')%nat /\ sys_inv y' a'.
Proof.
  intros I H. destruct H.
  - exists a. split; [lia|]. by eapply step_send_inv.
  - exists a. split; [lia|]. by apply step_flush_inv.
  - exists a. split; [lia|]. by apply step_reply_inv.
  - by eapply step_deliver_inv in H0 as [_ ?].
  - exists a. split; [lia|]. by apply step_cancel_inv.
Qed.

Lemma reachable_inv y : sys_reachable y -> exists a, sys_inv y a.
Proof.
  intros (y0 & H0%sys_init_inv & Hs). revert H0. generalize O.
  induction Hs as [y|y y1 y' H1 Hs IH]; intros a I; [by exists a|].
  destruct (sys_step_inv y y1 a I H1) as (a' & _ & I'). by eapply IH.
Qed.

(** *** What the invariant gives *)

Definition outcome (w : wire) : fut :=
  match wire_value w with RError m => FExn (RedisMuxError m) | v => FResult v end.

Lemma wire_bytes_nonempty w : wire_bytes w <> [].
Proof. by destruct w. Qed.

Lemma starved_all buf rs : buf = concat (map wire_bytes rs) -> starved buf rs -> rs = [].
Proof.
  intros -> [H|(w & rs' & s & -> & Hs & H)].
  - destruct rs as [|w rs]; [done|]. simpl in H. apply app_eq_nil in H as [H _].
    by apply wire_bytes_nonempty in H.
  - simpl in H. rewrite <-app_assoc in H. rewrite <-(app_nil_r (wire_bytes w)) in H at 2.
    apply app_inv_head in H. apply app_eq_nil in H as [_ ->]. done.
Qed.

(** C2: FIFO demultiplexing.  In every reachable state of the client, the
    server and the network, whatever the interleaving of sends, flushes,
    server replies, deliveries in arbitrary chunks and caller cancellations,
    the future of the [i]-th command is pending, cancelled by its caller, or
    holds exactly the outcome of the [i]-th reply. *)
Theorem fifo_demultiplexing y i f enc x
  (Hreach : sys_reachable y) (Hcmd : y.(issued) !! i = Some (f, enc))
  (Hfut : y.(client).(futs) !! f = Some x) :
  x = FPending \/ x = FCancelled \/
  exists w, y.(replies) !! i = Some w /\ x = outcome w.
Proof.
  apply reachable_inv in Hreach as (a & I). destruct I.
  assert ((issued y).*1 !! i = Some f) as Hi by (by rewrite list_lookup_fmap, Hcmd).
  destruct (decide (i < a)%nat).
  - destruct (lookup_lt_is_Some_2 (replies y) i ltac:(lia)) as [w Hw].
    destruct (inv_answered0 i f w ltac:(lia) Hi Hw) as (x' & Hx' & [->| ->]);
      rewrite Hfut in Hx'; injection Hx' as ->; eauto.
  - destruct (inv_waiting0 i f ltac:(lia) Hi) as [E|E]; rewrite Hfut in E; injection E as ->; auto.
Qed.

(** C38: no reply is lost, misplaced or left in the reader.  In a reachable
    state a delivery never raises; and when the network has delivered
    everything the server wrote, the reader buffer is empty, the future of every
    command the server has answered is done (it holds the outcome of that
    command's reply, unless its caller cancelled it), and exactly the
    commands issued but not answered yet are still in the queue, in order,
    pending or cancelled. *)
Theorem all_replies_delivered y
  (Hreach : sys_reachable y) :
  (forall chunk rest c' e, y.(net) = chunk ++ rest ->
     data_received depth chunk y.(client) = (c', e) -> e = None) /\
  (y.(net) = [] ->
     y.(client).(_reader) = [] /\
     y.(client).(_waiters) = drop (length y.(replies)) (y.(issued).*1) /\
     forall i f enc, y.(issued) !! i = Some (f, enc) ->
       match y.(replies) !! i with
       | Some w => y.(client).(futs) !! f = Some (outcome w) \/
                   y.(client).(futs) !! f = Some FCancelled
       | None => y.(client).(futs) !! f = Some FPending \/
                 y.(client).(futs) !! f = Some FCancelled
       end).
Proof.
  apply reachable_inv in Hreach as (a & I). split.
  - intros chunk rest c' e Hn Hd. by destruct (step_deliver_inv y a chunk rest c' e I Hn Hd).
  - destruct I. intros Hn. rewrite Hn, app_nil_r in inv_bytes0.
    pose proof (starved_all _ _ inv_bytes0 inv_starved0) as Hdrop. rewrite Hdrop in inv_bytes0.
    assert (a = length (replies y)) as ->.
    { apply (f_equal length) in Hdrop. rewrite length_drop in Hdrop. simpl in Hdrop. lia. }
    split_and!; [done|done|]. intros i f enc Hi.
    assert ((issued y).*1 !! i = Some f) as Hf by (by rewrite list_lookup_fmap, Hi).
    destruct (replies y !! i) as [w|] eqn:Hw.
    + apply lookup_lt_Some in Hw as Hlt.
      destruct (inv_answered0 i f w Hlt Hf Hw) as (x & -> & [->| ->]); auto.
    + apply lookup_ge_None in Hw. eauto.
Qed.

(** commands reach the wire in issue order and none is stuck.  What was
    written to the transport followed by the pending buffer is the
    concatenation of all issued commands; a non-empty buffer has a flush
    callback scheduled, and running it puts every issued command on the wire. *)
Theorem commands_in_order_and_flushed y
  (Hreach : sys_reachable y) :
  written y.(client) ++ y.(client).(_wbuf) = concat (y.(issued).*2) /\
  (y.(client).(_wbuf) <> [] -> (0 < y.(client).(ready_flush))%nat) /\
  written (_flush y.(client)) = concat (y.(issued).*2).
Proof.
  apply reachable_inv in Hreach as (a & I). destruct (step_flush_inv y a I).
  destruct I. split_and!; [done|auto|]. simpl in *.
  rewrite <-inv_wire0. unfold _flush. simpl. rewrite inv_transport1.
  case_bool_decide as Hw; simpl in *; [by rewrite Hw, app_nil_r|by rewrite app_nil_r].
Qed.
End System.

(** A concrete run: two commands, the first cancelled by its caller, the two
    replies delivered in two chunks. *)
Definition open_conn : st :=
  St 0 (Some 1%nat) [] [] [] false None false ∅ O {[1%nat := Transport false []]} O.

Definition c1 : st := (_send (lit "A") open_conn).1.
Definition c2 : st := (_send (lit "B") c1).1.
Definition c3 : st := _flush (cancel 0 c2).
Definition c4 : st := (data_received 5 (lit "+x") c3).1.
Definition c5 : st := (data_received 5 (crlf ++ wire_bytes (WInt 7)) c4).1.

Definition cmds : list (nat * bytes) := [(0%nat, lit "A"); (1%nat, lit "B")].
Definition sys_sample : sys := Sys c5 [] [WSimple (lit "x"); WInt 7] cmds.

Lemma sys_sample_reachable : sys_reachable 5 1 sys_sample.
Proof.
  exists (Sys open_conn [] [] []). split.
  { unfold sys_init. simpl. split_and!; try reflexivity. intros f [x Hx]. done. }
  eapply rtc_l; [apply (StepSend 5 1 (Sys open_conn [] [] []) (lit "A") c1 0);
    [vm_compute; reflexivity|discriminate|vm_compute; reflexivity]|].
  eapply rtc_l; [apply (StepSend 5 1 (Sys c1 [] [] [(0%nat, lit "A")]) (lit "B") c2 1);
    [vm_compute; reflexivity|discriminate|vm_compute; reflexivity]|].
  eapply rtc_l; [exact (StepCancel 5 1 (Sys c2 [] [] cmds) 0)|].
  eapply rtc_l; [apply (StepFlush 5 1 (Sys (cancel 0 c2) [] [] cmds)); vm_compute; lia|].
  eapply rtc_l; [apply (StepReply 5 1 (Sys c3 [] [] cmds) (WSimple (lit "x")));
    [reflexivity|simpl; lia|split; [simpl; lia|exists (lit "B"); vm_compute; reflexivity]]|].
  eapply rtc_l; [apply (StepReply 5 1 (Sys c3 (wire_bytes (WSimple (lit "x"))) [WSimple (lit "x")] cmds) (WInt 7));
    [reflexivity|simpl; lia|split; [simpl; lia|exists []; vm_compute; reflexivity]]|].
  eapply rtc_l; [apply (StepDeliver 5 1
      (Sys c3 (wire_bytes (WSimple (lit "x")) ++ wire_bytes (WInt 7)) [WSimple (lit "x"); WInt 7] cmds)
      (lit "+x") (crlf ++ wire_bytes (WInt 7)) c4 None); vm_compute; reflexivity|].
  eapply rtc_l; [apply (StepDeliver 5 1
      (Sys c4 (crlf ++ wire_bytes (WInt 7)) [WSimple (lit "x"); WInt 7] cmds)
      (crlf ++ wire_bytes (WInt 7)) [] c5 None); vm_compute; reflexivity|].
  apply rtc_refl.
Qed.

Lemma fifo_demultiplexing_witness :
  FResult (RInt 7) = FPending \/ FResult (RInt 7) = FCancelled \/
  exists w, sys_sample.(replies) !! 1%nat = Some w /\ FResult (RInt 7) = outcome w.
Proof.
  apply (fifo_demultiplexing 5 1 ltac:(lia) sys_sample 1 1 (lit "B"));
    [exact sys_sample_reachable|reflexivity|vm_compute; reflexivity].
Defined.

Lemma all_replies_delivered_witness :
  sys_sample.(client).(_reader) = [] /\
  sys_sample.(client).(_waiters) = drop (length sys_sample.(replies)) (sys_sample.(issued).*1) /\
  forall i f enc, sys_sample.(issued) !! i = Some (f, enc) ->
    match sys_sample.(replies) !! i with
    | Some w => sys_sample.(client).(futs) !! f = Some (outcome w) \/
                sys_sample.(client).(futs) !! f = Some FCancelled
    | None => sys_sample.(client).(futs) !! f = Some FPending \/
              sys_sample.(client).(futs) !! f = Some FCancelled
    end.
Proof.
  apply (proj2 (all_replies_delivered 5 1 ltac:(lia) sys_sample sys_sample_reachable)). reflexivity.
Defined.

Lemma commands_in_order_and_flushed_witness :
  written 1 (_flush sys_sample.(client)) = lit "AB".
Proof. apply (commands_in_order_and_flushed 5 1 ltac:(lia) sys_sample sys_sample_reachable). Defined.

(** ** Losing the connection *)

Lemma fail_future_other e fs f g : g <> f -> fail_future e fs f !! g = fs !! g.
Proof. intros. unfold fail_future. destruct (fs !! f) as [[]|]; try done. by rewrite lookup_insert_ne. Qed.

Lemma fail_all_other e ws fs g : g ∉ ws -> foldl (fail_future e) fs ws !! g = fs !! g.
Proof.
  revert fs. induction ws as [|f ws IH]; intros fs Hg; simpl; [done|].
  apply not_elem_of_cons in Hg as [? ?]. rewrite IH by done. by apply fail_future_other.
Qed.

Lemma fail_all_done e ws fs f x :
  fs !! f = Some x -> done x = true -> foldl (fail_future e) fs ws !! f = Some x.
Proof.
  revert fs. induction ws as [|g ws IH]; intros fs Hf Hx; simpl; [done|].
  apply IH; [|done]. destruct (decide (g = f)) as [->|Hne].
  - unfold fail_future. rewrite Hf. by destruct x.
  - by rewrite fail_future_other.
Qed.

Lemma fail_all_pending e ws fs f :
  fs !! f = Some FPending -> f ∈ ws -> foldl (fail_future e) fs ws !! f = Some (FExn e).
Proof.
  revert fs. induction ws as [|g ws IH]; intros fs Hf Hin; simpl; [set_solver|].
  destruct (decide (g = f)) as [->|Hne].
  - apply fail_all_done; [|done]. unfold fail_future. by rewrite Hf, lookup_insert_eq.
  - apply IH; [by rewrite fail_future_other|set_solver].
Qed.

(** when the connection is lost no caller is left hanging: every pending
    waiter fails with [ConnectionError], a future that was already done keeps
    its outcome, futures outside the queue are untouched, and the queue and the
    transport are cleared. *)
Theorem connection_lost_fails_waiters (s : st) :
  (_on_connection_lost s).(_waiters) = [] /\
  live (_on_connection_lost s) = false /\
  (forall f, f ∈ s.(_waiters) -> s.(futs) !! f = Some FPending ->
     (_on_connection_lost s).(futs) !! f = Some (FExn lost_error)) /\
  (forall f x, s.(futs) !! f = Some x -> done x = true ->
     (_on_connection_lost s).(futs) !! f = Some x) /\
  (forall f, f ∉ s.(_waiters) -> (_on_connection_lost s).(futs) !! f = s.(futs) !! f).
Proof.
  unfold _on_connection_lost. simpl. split_and!; try done; intros.
  - by apply fail_all_pending.
  - by apply fail_all_done.
  - by apply fail_all_other.
Qed.

(** ** Connecting *)

Definition select_bytes (db : Z) : bytes := wire_bytes (WArray (map WBulk [lit "SELECT"; dec db])).

Lemma select_encodes db : _encode_command [SELECT; AInt db] = Ok (select_bytes db).
Proof. rewrite encode_command_wire. reflexivity. Qed.

Lemma dialed_select t s :
  s.(_db) <> 0 ->
  exists s', connect_dialed t s = (s', Ok (Some s.(next_fut))) /\
    s'.(transports) !! t = Some (Transport false (select_bytes s.(_db))) /\
    s'.(_transport) = Some t /\ s'.(_waiters) = [s.(next_fut)] /\ s'.(_connecting) = s.(_connecting).
Proof.
  intros Hdb. unfold connect_dialed. change (_db (dial_reset t s)) with (_db s).
  destruct (Z.eqb_spec (_db s) 0); [done|]. cbv zeta. rewrite select_encodes.
  rewrite (send_idle (select_bytes (_db s)) (dial_reset t s) t) by done.
  eexists. split; [reflexivity|]. split_and!; try done.
  unfold tr_write. simpl. by rewrite lookup_alter_eq, lookup_insert_eq.
Qed.

(** The bytes written to transport [t] only grow along system steps. *)
Lemma written_grows depth t y y' :
  sys_step depth t y y' ->
  y.(client).(_transport) = Some t ->
  y'.(client).(_transport) = Some t /\
  exists r, written t y'.(client) = written t y.(client) ++ r.
Proof.
  intros Hs Ht. destruct Hs as [y enc c' f Hl He Hsend|y Hr|y w Hok Hd Hm|y ch rest c' e Hn Hdr|y f]; simpl.
  - destruct (send_spec enc y.(client) t Ht) as (s' & Hs & Ht' & _ & _ & _ & _ & Hcase).
    rewrite Hs in Hsend. injection Hsend as <- <-. split; [done|].
    destruct Hcase as [(_ & _ & _ & _ & Htr)|(_ & _ & Htr & _)]; unfold written; rewrite Htr.
    + simpl. rewrite lookup_alter_eq.
      destruct (transports (client y) !! t); simpl; [by eexists|by exists []].
    + exists []. by rewrite app_nil_r.
  - unfold _flush. simpl. rewrite Ht. case_bool_decide; simpl; (split; [done|]).
    + exists []. by rewrite app_nil_r.
    + unfold written. simpl. rewrite lookup_alter_eq.
      destruct (transports (client y) !! t); simpl; [by eexists|by exists []].
  - split; [done|]. exists []. by rewrite app_nil_r.
  - unfold data_received in Hdr. destruct (drain _ _ _ _) as [[[ws b] fs] e']. simplify_eq/=.
    split; [done|]. exists []. by rewrite app_nil_r.
  - destruct (cancel_spec f y.(client)) as (-> & H2 & _). split; [done|].
    exists []. unfold written. by rewrite H2, app_nil_r.
Qed.

(** on a connection configured with database [db <> 0], [SELECT db] is
    the first command on the wire: in every state reachable after the dial, by
    any interleaving, the bytes written to the transport start with it. *)
Theorem select_is_first depth t (s : st) y
  (Hdb : s.(_db) <> 0)
  (Hrun : rtc (sys_step depth t)
     (Sys (connect_dialed t s).1 [] [] [(s.(next_fut), select_bytes s.(_db))]) y) :
  exists r, written t y.(client) = select_bytes s.(_db) ++ r.
Proof.
  destruct (dialed_select t s Hdb) as (s' & Hd & Htr & Ht & _). rewrite Hd in Hrun. simpl in Hrun.
  set (y0 := Sys s' [] [] [(next_fut s, select_bytes (_db s))]) in *.
  assert (y0.(client).(_transport) = Some t /\
          exists r, written t y0.(client) = select_bytes s.(_db) ++ r) as H0.
  { split; [done|]. exists []. unfold written. simpl. by rewrite Htr, app_nil_r. }
  clearbody y0. induction Hrun as [y|y y1 y' Hs _ IH]; [apply H0|].
  apply IH. destruct H0 as [H1 [r Hr]].
  destruct (written_grows depth t y y1 Hs H1) as (H2 & r' & Hr'). split; [done|].
  exists (r ++ r'). by rewrite Hr', Hr, app_assoc.
Qed.

Definition sel0 : sys :=
  Sys (connect_dialed 4 (init 2)).1 [] [] [((init 2).(next_fut), select_bytes (init 2).(_db))].
Definition sel1 : sys :=
  Sys (_send (lit "A") sel0.(client)).1 sel0.(net) sel0.(replies) (sel0.(issued) ++ [(1%nat, lit "A")]).
Definition sel2 : sys := Sys (_flush sel1.(client)) sel1.(net) sel1.(replies) sel1.(issued).

Lemma select_is_first_witness :
  exists r, written 4 sel2.(client) = select_bytes (init 2).(_db) ++ r.
Proof.
  refine (select_is_first 9 4 (init 2) sel2 _ _); [discriminate|].
  refine (rtc_l _ sel0 sel1 sel2 _ (rtc_l _ sel1 sel2 sel2 _ (rtc_refl _ sel2))).
  - refine (StepSend 9 4 sel0 (lit "A") (_send (lit "A") sel0.(client)).1 1 _ _ _);
      [vm_compute; reflexivity|discriminate|vm_compute; reflexivity].
  - refine (StepFlush 9 4 sel1 _). vm_compute. lia.
Defined.

(** *** A refused [SELECT] *)

(** when the server refuses [SELECT] (for instance a database index out
    of range) [connect] raises the error but leaves the connection installed
    and live, so the next [execute] does not reconnect: it sends its command
    on that connection, whose selected database is not the configured one. *)
Theorem refused_select_keeps_connection (s : st) (f : nat) (e : exn) (args : list arg) (enc : bytes)
  (Hlive : live s = true) (Hrefused : s.(futs) !! f = Some (FExn e))
  (Henc : _encode_command args = Ok enc) :
  (connect_selected f s).2 = Some e /\
  exists g, (execute_start args (connect_selected f s).1).2 = ExecSent g.
Proof.
  unfold connect_selected. rewrite Hrefused. simpl. split; [done|].
  assert (live (connect_finally s) = true) as Hl
    by (unfold connect_finally; by destruct (_connecting s)).
  unfold execute_start. rewrite Hl, Henc.
  assert (exists t, (connect_finally s).(_transport) = Some t) as [t Ht].
  { unfold live in Hl. destruct (_transport (connect_finally s)); [by eexists|done]. }
  destruct (send_spec enc _ t Ht) as (s' & -> & _). by eexists.
Qed.

(** The server's answer to [SELECT 99] was an error. *)
Definition refused : st :=
  (data_received 5 (wire_bytes (WError (lit "ERR"))) (connect_dialed 1 (connect_start (init 99)).1).1).1.

Lemma refused_select_keeps_connection_witness :
  (connect_selected 1 refused).2 = Some (RedisMuxError (lit "ERR")) /\
  exists g, (execute_start [AInt 1] (connect_selected 1 refused).1).2 = ExecSent g.
Proof.
  refine (refused_select_keeps_connection refused 1 (RedisMuxError (lit "ERR")) [AInt 1]
           (lit "*1" ++ crlf ++ bulk (lit "1")) _ _ _); vm_compute; reflexivity.
Defined.

(** *** Reconnecting while the old connection is still closing *)

Inductive op :=
| OpSend (enc : bytes) | OpFlush | OpData (d : bytes) | OpLost | OpClose | OpCancel (f : nat)
| OpConnect | OpDialed (t : nat) | OpDialFailed | OpSelected (f : nat).

Definition run_op (depth : nat) (s : st) (o : op) : st :=
  match o with
  | OpSend enc => (_send enc s).1
  | OpFlush => _flush s
  | OpData d => (data_received depth d s).1
  | OpLost => _on_connection_lost s
  | OpClose => close s
  | OpCancel f => cancel f s
  | OpConnect => (connect_start s).1
  | OpDialed t => (connect_dialed t s).1
  | OpDialFailed => connect_finally s
  | OpSelected f => (connect_selected f s).1
  end.

(** [f] is pending but nothing the connection does can reach it. *)
Definition orphan (f : nat) (s : st) : Prop :=
  s.(futs) !! f = Some FPending /\ f ∉ s.(_waiters) /\ (f < s.(next_fut))%nat /\
  s.(_connecting) <> Some f.

Lemma drain_orphan depth f ws buf fs ws' buf' fs' e :
  drain depth ws buf fs = (ws', buf', fs', e) -> f ∉ ws ->
  fs' !! f = fs !! f /\ f ∉ ws'.
Proof.
  revert buf fs. induction ws as [|g ws IH]; intros buf fs; simpl;
    destruct (gets depth buf); intros H Hf; simplify_eq/=; try done.
  apply not_elem_of_cons in Hf as [Hne Hf]. apply IH in H as [H1 H2]; [|done].
  rewrite H1. by rewrite complete_other.
Qed.

Lemma send_orphan f enc s : orphan f s -> orphan f (_send enc s).1.
Proof.
  intros (H1 & H2 & H3 & H4). unfold _send, create_future. simpl.
  assert (orphan f (set_waiters (s.(_waiters) ++ [s.(next_fut)]) (create_future s).2)) as Ho.
  { unfold orphan. simpl. rewrite lookup_insert_ne by lia. split_and!; [done| |lia|done].
    apply not_elem_of_app. split; [done|]. intros ->%list_elem_of_singleton. lia. }
  destruct (_ && _); simpl; [by destruct (_transport s)|by destruct (_flush_scheduled s)].
Qed.

Lemma finally_orphan f s : orphan f s -> orphan f (connect_finally s).
Proof.
  intros (H1 & H2 & H3 & H4). unfold connect_finally, orphan.
  destruct (_connecting s) as [g|] eqn:E; simpl; rewrite ?E; auto.
  rewrite lookup_insert_ne by congruence. done.
Qed.

Lemma dialed_orphan f t s : orphan f (dial_reset t s) -> orphan f (connect_dialed t s).1.
Proof.
  intros Hd. unfold connect_dialed. cbv zeta.
  destruct (_ =? 0); [by apply finally_orphan|].
  destruct (_encode_command _) as [enc|]; [|by apply finally_orphan].
  pose proof (send_orphan f enc _ Hd) as Hs.
  destruct (_send enc _) as [s' [g|e]]; [done|by apply finally_orphan].
Qed.

Lemma run_op_orphan depth f s o : o <> OpCancel f -> orphan f s -> orphan f (run_op depth s o).
Proof.
  intros Ho H. pose proof H as (H1 & H2 & H3 & H4). destruct o; simpl.
  - by apply send_orphan.
  - unfold _flush. simpl. destruct (_transport s); [case_bool_decide|]; done.
  - unfold data_received. destruct (drain _ _ _ _) as [[[ws b] fs] e] eqn:E.
    destruct (drain_orphan _ f _ _ _ _ _ _ _ E H2) as [E1 E2].
    unfold orphan. simpl. by rewrite E1.
  - unfold orphan. simpl. rewrite fail_all_other by done. split_and!; [done|set_solver|done|done].
  - unfold close. simpl. by destruct (_transport s).
  - unfold cancel. destruct (futs s !! f0) as [[]|] eqn:E; try done.
    unfold orphan. simpl. by rewrite lookup_insert_ne by congruence.
  - unfold connect_start. destruct (live s); [done|]. destruct (_closed s); [done|].
    destruct (_connecting s) eqn:E; [done|]. unfold orphan. simpl.
    rewrite lookup_insert_ne by lia. split_and!; [done|done|lia|]. intros [= Heq]. lia.
  - apply dialed_orphan. unfold orphan, dial_reset. simpl. split_and!; [done|set_solver|done|done].
  - by apply finally_orphan.
  - unfold connect_selected. destruct (futs s !! f0) as [[]|]; by apply finally_orphan.
Qed.

(** a reconnect forgets the commands in flight on the previous
    connection.  If [connect] dials while a command is still queued (possible
    when the old transport is closing but has not reported its loss), its
    waiter is dropped from the queue without being completed, and no later
    operation completes it: its caller waits forever unless it cancels. *)
Theorem reconnect_orphans_waiter (depth t : nat) (s : st) (f : nat) (ops : list op)
  (Hwait : f ∈ s.(_waiters)) (Hpend : s.(futs) !! f = Some FPending)
  (Hold : (f < s.(next_fut))%nat) (Hconn : s.(_connecting) <> Some f)
  (Hops : OpCancel f ∉ ops) :
  (foldl (run_op depth) (run_op depth s (OpDialed t)) ops).(futs) !! f = Some FPending.
Proof.
  assert (orphan f (run_op depth s (OpDialed t))) as H0.
  { apply dialed_orphan. unfold orphan, dial_reset. simpl. split_and!; [done|set_solver|done|done]. }
  revert H0. generalize (run_op depth s (OpDialed t)). clear -Hops.
  induction ops as [|o ops IH]; intros s0 H0; simpl; [apply H0|].
  apply not_elem_of_cons in Hops as [Ho Hops]. apply IH; [done|]. apply run_op_orphan; [congruence|done].
Qed.

(** A command in flight on transport 1, which the peer has closed. *)
Definition closing_conn : st :=
  set_transports {[1%nat := Transport true (lit "A")]} (_send (lit "A") open_conn).1.

Lemma reconnect_orphans_waiter_witness :
  (foldl (run_op 9) (run_op 9 (connect_start closing_conn).1 (OpDialed 2))
     [OpSend (lit "B"); OpData (wire_bytes (WInt 1)); OpLost]).(futs) !! 0%nat = Some FPending.
Proof.
  apply (reconnect_orphans_waiter 9 2 (connect_start closing_conn).1 0
           [OpSend (lit "B"); OpData (wire_bytes (WInt 1)); OpLost]);
    [vm_compute; left|vm_compute; reflexivity|vm_compute; lia|vm_compute; discriminate|].
  intros H. repeat (apply elem_of_cons in H as [H|H]; [discriminate|]). by apply not_elem_of_nil in H.
Defined.

End RedisMux.
