(* ===== verification/WebSocket.v ===== *)
(** The WebSocket connection object of [websockets.py], and the end of a
    WebSocket session in [_ws_support.py] ([_ws_entry], [_handle_ws_exc]) and
    [applications.py] ([_asgi_ws_door]).

    A connection runs in one of two modes: over the ASGI channels
    ([_is_asgi]), where what it emits is the list of messages given to [send],
    or over the Rust socket, where what it does is the list of calls made on
    the Rust object.  The ASGI [send] callable and the Rust object are the
    environment: section variables that may refuse any call.  A user handler
    is a program over the connection's operations that sees each result. *)

From S2P Require Import Prelude.

Module WebSocket.

(** ** Data *)

Inductive WebSocketState := CONNECTING | CONNECTED | DISCONNECTED | RESPONSE.

#[export] Instance WebSocketState_eq_dec : EqDecision WebSocketState.
Proof. solve_decision. Defined.

(** A key of a message dict: missing, [None], or a value. *)
Inductive key (A : Type) := Absent | KNone | Val (a : A).
Arguments Absent {A}.
Arguments KNone {A}.
Arguments Val {A} a.

(** [msg.get(k, d)]; [None] is the Python [None]. *)
Definition get_or {A} (k : key A) (d : A) : option A :=
  match k with Absent => Some d | KNone => None | Val a => Some a end.

(** [msg.get(k)] *)
Definition get {A} (k : key A) : option A :=
  match k with Val a => Some a | _ => None end.

(** Messages the client's side delivers; a [code] key, when there, holds an
    integer. *)
Inductive in_msg :=
| InConnect
| InReceive (txt : key text) (bin : key bytes)
| InDisconnect (code : option Z) (reason : key text)
| InOther.

(** Messages sent over ASGI. *)
Inductive out_msg :=
| OutAccept (subprotocol : option text) (headers : list (text * text))
| OutText (t : text)
| OutBytes (b : bytes)
| OutClose (code : Z) (reason : text).

(** Calls made on the Rust socket. *)
Inductive rust_call :=
| RAccept (subprotocol : option text) (headers : list (text * text))
| RReject (status : Z)
| RCloseWait (code : Z) (reason : text)
| RClose (code : Z) (reason : text)
| RSendText (t : text)
| RSendBytes (b : bytes).

(** What [receive_async] of the Rust socket gives: a message or a
    [RuntimeError] with a text. *)
Inductive rust_event :=
| RMsg (m : in_msg)
| RErr (msg : text).

Inductive ws_exn :=
| WsRuntime
| WsAttribute
| WsDisconnect (code : Z) (reason : text)
| WsEnv (e : exn).

(** The result of an operation; [Block]: it awaits a message that has not come. *)
Inductive out (A : Type) := Ret (a : A) | Exc (e : ws_exn) | Block.
Arguments Ret {A} a.
Arguments Exc {A} e.
Arguments Block {A}.

Record ws := Ws {
  rust : bool;                          (* self._ws is not None *)
  has_receive : bool;
  has_send : bool;
  _app_state : WebSocketState;
  _asgi_pending_close : option (Z * text);
  _asgi_closed : bool;
  _last_close : option (Z * text);
  inbox : list in_msg;
  rust_inbox : list rust_event;
  sent : list out_msg;
  calls : list rust_call;
}.

Definition set_state x w := Ws w.(rust) w.(has_receive) w.(has_send) x w.(_asgi_pending_close)
  w.(_asgi_closed) w.(_last_close) w.(inbox) w.(rust_inbox) w.(sent) w.(calls).
Definition set_pending x w := Ws w.(rust) w.(has_receive) w.(has_send) w.(_app_state) x
  w.(_asgi_closed) w.(_last_close) w.(inbox) w.(rust_inbox) w.(sent) w.(calls).
Definition set_closed x w := Ws w.(rust) w.(has_receive) w.(has_send) w.(_app_state)
  w.(_asgi_pending_close) x w.(_last_close) w.(inbox) w.(rust_inbox) w.(sent) w.(calls).
Definition set_last x w := Ws w.(rust) w.(has_receive) w.(has_send) w.(_app_state)
  w.(_asgi_pending_close) w.(_asgi_closed) x w.(inbox) w.(rust_inbox) w.(sent) w.(calls).
Definition set_inbox x w := Ws w.(rust) w.(has_receive) w.(has_send) w.(_app_state)
  w.(_asgi_pending_close) w.(_asgi_closed) w.(_last_close) x w.(rust_inbox) w.(sent) w.(calls).
Definition set_rust_inbox x w := Ws w.(rust) w.(has_receive) w.(has_send) w.(_app_state)
  w.(_asgi_pending_close) w.(_asgi_closed) w.(_last_close) w.(inbox) x w.(sent) w.(calls).
Definition set_sent x w := Ws w.(rust) w.(has_receive) w.(has_send) w.(_app_state)
  w.(_asgi_pending_close) w.(_asgi_closed) w.(_last_close) w.(inbox) w.(rust_inbox) x w.(calls).
Definition set_calls x w := Ws w.(rust) w.(has_receive) w.(has_send) w.(_app_state)
  w.(_asgi_pending_close) w.(_asgi_closed) w.(_last_close) w.(inbox) w.(rust_inbox) w.(sent) x.

(** [WebSocket(scope, receive=..., send=...)], as the in-process door builds it,
    and [WebSocket(rust_ws)]. *)
Definition asgi_ws (q : list in_msg) : ws :=
  Ws false true true CONNECTING None false None q [] [] [].
Definition rust_ws (q : list rust_event) : ws :=
  Ws true false false CONNECTING None false None [] q [] [].

Definition _is_asgi (w : ws) : bool := negb w.(rust) && w.(has_send).

(** [_extract_close_info_from_error] *)
Definition ws_closed_prefix : text := lit "WS_CLOSED:".

Definition _extract_close_info_from_error (msg : text) : Z * text :=
  if starts_with ws_closed_prefix msg then
    let '(code_str, reason) := partition_at ":"%char (drop (length ws_closed_prefix) msg) in
    match py_int is_space_latin1 code_str with
    | Some code => (code, reason)
    | None => (1000, msg)
    end
  else (1000, msg).

Section Environment.

(** The ASGI [send] callable: given what was sent before, does sending this
    message raise?  The Rust object: does this call raise? *)
Variable send_raises : list out_msg -> out_msg -> option exn.
Variable rust_raises : list rust_call -> rust_call -> option exn.
(** [json.dumps] with the separators of the source, and [json.loads]. *)
Variable json : Type.
Variable dumps : json -> text.
Variable utf8 : text -> bytes.
Variable loads : text -> option json.
Variable loads_bytes : bytes -> option json.
(** The Rust awaitables of [receive_text] and [receive_bytes], and the state
    the Rust object reports. *)
Variable rust_receive_text : list rust_event -> list rust_event * out (option text).
Variable rust_receive_bytes : list rust_event -> list rust_event * out (option bytes).
Variable rust_state : list rust_call -> option WebSocketState.

Definition asgi_send (m : out_msg) (w : ws) : ws * option exn :=
  match send_raises w.(sent) m with
  | Some e => (w, Some e)
  | None => (set_sent (w.(sent) ++ [m]) w, None)
  end.

Definition rust_do (c : rust_call) (w : ws) : ws * option exn :=
  (set_calls (w.(calls) ++ [c]) w, rust_raises w.(calls) c).

Definition raised {A} (p : ws * option exn) (k : ws -> ws * out A) : ws * out A :=
  match p with
  | (w, Some e) => (w, Exc (WsEnv e))
  | (w, None) => k w
  end.

(** ** Operations *)

Definition _asgi_send_close (code : Z) (reason : text) (w : ws) : ws :=
  if w.(_asgi_closed) then w
  else (asgi_send (OutClose code reason) (set_closed true w)).1.

Definition _asgi_queue_close (code : Z) (reason : text) (w : ws) : ws :=
  if w.(_asgi_closed) || bool_decide (is_Some w.(_asgi_pending_close)) then w
  else set_pending (Some (code, reason)) w.

Definition accept (subprotocol : option text) (headers : list (text * text)) (w : ws)
  : ws * out unit :=
  if bool_decide (w.(_app_state) <> CONNECTING) then (w, Ret tt)
  else if w.(rust) then
    raised (rust_do (RAccept subprotocol headers) w) (fun w => (set_state CONNECTED w, Ret tt))
  else if _is_asgi w && w.(has_receive) then
    match w.(inbox) with
    | [] => (w, Block)
    | InConnect :: q =>
        raised (asgi_send (OutAccept subprotocol headers) (set_inbox q w))
          (fun w => (set_state CONNECTED w, Ret tt))
    | _ :: q => (set_state DISCONNECTED (set_inbox q w), Ret tt)
    end
  else (set_state CONNECTED w, Ret tt).

Definition _reject (status : Z) (w : ws) : ws :=
  let w := set_state DISCONNECTED w in
  if w.(rust) then (rust_do (RReject status) w).1
  else if _is_asgi w then _asgi_queue_close 1006 [] w
  else w.

Definition close (code : Z) (reason : option text) (w : ws) : ws :=
  if bool_decide (w.(_app_state) = DISCONNECTED) then w
  else
    let r := default [] reason in
    let pre_accept := bool_decide (w.(_app_state) = CONNECTING) in
    let w := set_last (Some (code, r)) w in
    if pre_accept then
      if _is_asgi w then _asgi_send_close code r (set_state DISCONNECTED w)
      else _reject 403 w
    else
      let w := set_state DISCONNECTED w in
      if w.(rust) then
        match rust_do (RCloseWait code r) w with
        | (w, None) => w
        | (w, Some _) => (rust_do (RClose code r) w).1
        end
      else if w.(has_send) then _asgi_send_close code r w
      else w.

(** [await ws.send_text(data)] and the like: the state is checked by the call,
    the message goes out when the returned awaitable is awaited, at once. *)
Definition send_text (data : text) (w : ws) : ws * out unit :=
  if bool_decide (w.(_app_state) <> CONNECTED) then (w, Exc WsRuntime)
  else if w.(rust) then raised (rust_do (RSendText data) w) (fun w => (w, Ret tt))
  else if w.(has_send) then raised (asgi_send (OutText data) w) (fun w => (w, Ret tt))
  else (w, Exc WsAttribute).

Definition send_bytes (data : bytes) (w : ws) : ws * out unit :=
  if bool_decide (w.(_app_state) <> CONNECTED) then (w, Exc WsRuntime)
  else if w.(rust) then raised (rust_do (RSendBytes data) w) (fun w => (w, Ret tt))
  else if w.(has_send) then raised (asgi_send (OutBytes data) w) (fun w => (w, Ret tt))
  else (w, Exc WsAttribute).

Definition _VALID_SEND_JSON_MODES : list text := [lit "text"; lit "binary"].

Definition send_json (data : json) (mode : text) (w : ws) : ws * out unit :=
  if bool_decide (mode ∉ _VALID_SEND_JSON_MODES) then (w, Exc WsRuntime)
  else if bool_decide (w.(_app_state) <> CONNECTED) then (w, Exc WsRuntime)
  else
    let t := dumps data in
    let is_text := bool_decide (mode = lit "text") in
    if w.(rust) then
      raised (rust_do (if is_text then RSendText t else RSendBytes (utf8 t)) w) (fun w => (w, Ret tt))
    else if w.(has_send) then
      raised (asgi_send (if is_text then OutText t else OutBytes (utf8 t)) w) (fun w => (w, Ret tt))
    else (w, Exc WsAttribute).

(** The argument of the low-level [send]. *)
Inductive send_arg :=
| SAccept (subprotocol : option text) (headers : list (text * text))
| SSend (txt : key text) (bin : key bytes)
| SClose (code : option Z) (reason : key text)
| SOther.

Definition send (m : send_arg) (w : ws) : ws * out unit :=
  match m with
  | SAccept p h => accept p h w
  | SSend txt bin =>
      if bool_decide (w.(_app_state) <> CONNECTED) then (w, Exc WsRuntime)
      else match get txt, get bin with
           | Some t, _ =>
               if w.(rust) then raised (rust_do (RSendText t) w) (fun w => (w, Ret tt))
               else (w, Exc WsAttribute)
           | None, Some b =>
               if w.(rust) then raised (rust_do (RSendBytes b) w) (fun w => (w, Ret tt))
               else (w, Exc WsAttribute)
           | None, None => (w, Ret tt)
           end
  | SClose code reason =>
      (close (default 1000 code) (get reason) w, Ret tt)
  | SOther => (w, Ret tt)
  end.

Definition receive (w : ws) : ws * out in_msg :=
  if bool_decide (w.(_app_state) = DISCONNECTED) then (w, Exc WsRuntime)
  else if w.(rust) then
    match w.(rust_inbox) with
    | [] => (w, Block)
    | RErr msg :: q =>
        let '(code, reason) := _extract_close_info_from_error msg in
        (set_state DISCONNECTED (set_rust_inbox q w), Ret (InDisconnect (Some code) (Val reason)))
    | RMsg m :: q =>
        let w := set_rust_inbox q w in
        (match m with InDisconnect _ _ => set_state DISCONNECTED w | _ => w end, Ret m)
    end
  else if w.(has_receive) then
    match w.(inbox) with
    | [] => (w, Block)
    | m :: q =>
        let w := set_inbox q w in
        (match m with InDisconnect _ _ => set_state DISCONNECTED w | _ => w end, Ret m)
    end
  else (w, Exc WsAttribute).

(** The common part of [_asgi_receive_text] and [_asgi_receive_bytes]: take a
    message, raise on a disconnect. *)
Definition asgi_take {A} (field : in_msg -> option A) (w : ws) : ws * out (option A) :=
  match w.(inbox) with
  | [] => (w, Block)
  | InDisconnect code reason :: q =>
      (set_state DISCONNECTED (set_inbox q w),
       Exc (WsDisconnect (default 1000 code) (default [] (get_or reason []))))
  | m :: q => (set_inbox q w, Ret (field m))
  end.

Definition text_field (m : in_msg) : option text :=
  match m with InReceive t _ => get_or t [] | _ => Some [] end.
Definition bytes_field (m : in_msg) : option bytes :=
  match m with InReceive _ b => get_or b [] | _ => Some [] end.

(** [rust_awaitable] is what the Rust socket's own awaitable gives. *)
Definition receive_with {A} (field : in_msg -> option A)
    (rust_awaitable : list rust_event -> list rust_event * out (option A)) (w : ws)
  : ws * out (option A) :=
  if bool_decide (w.(_app_state) = DISCONNECTED)
  then (w, Exc (WsDisconnect 1000 (lit "already disconnected")))
  else if w.(rust) then
    let '(q, r) := rust_awaitable w.(rust_inbox) in (set_rust_inbox q w, r)
  else if w.(has_receive) then asgi_take field w
  else (w, Exc WsAttribute).

Definition receive_text : ws -> ws * out (option text) := receive_with text_field rust_receive_text.
Definition receive_bytes : ws -> ws * out (option bytes) := receive_with bytes_field rust_receive_bytes.

(** [json.loads] of a received value; [loads None] is a [TypeError]. *)
Definition load_with {A} (l : A -> option json) (p : ws * out (option A)) : ws * out json :=
  match p with
  | (w, Ret (Some a)) => (w, match l a with Some j => Ret j | None => Exc (WsEnv ValueError) end)
  | (w, Ret None) => (w, Exc (WsEnv TypeError))
  | (w, Exc e) => (w, Exc e)
  | (w, Block) => (w, Block)
  end.

Definition receive_json (mode : text) (w : ws) : ws * out json :=
  if bool_decide (mode ∉ _VALID_SEND_JSON_MODES) then (w, Exc WsRuntime)
  else if bool_decide (mode = lit "text") then load_with loads (receive_text w)
  else load_with loads_bytes (receive_bytes w).

(** The async iterators: yield until [RuntimeError] or [WebSocketDisconnect].
    [fuel] bounds the rounds; running out is reported as such. *)
Inductive iter_end := IStopped | IBlocked | IRaised (e : ws_exn) | IOutOfFuel.

Definition stops_iter (e : ws_exn) : bool :=
  match e with
  | WsRuntime | WsDisconnect _ _ => true
  | WsEnv (RuntimeError _ | NotImplementedError | RecursionError) => true   (* [RuntimeError]s *)
  | _ => false
  end.

Fixpoint iterate {A} (step : ws -> ws * out A) (fuel : nat) (w : ws) : ws * list A * iter_end :=
  match fuel with
  | O => (w, [], IOutOfFuel)
  | S fuel' =>
      match step w with
      | (w, Ret a) => let '(w, l, e) := iterate step fuel' w in (w, a :: l, e)
      | (w, Exc e) => (w, [], if stops_iter e then IStopped else IRaised e)
      | (w, Block) => (w, [], IBlocked)
      end
  end.

Definition iter_text (fuel : nat) (w : ws) := iterate receive_text fuel w.
Definition iter_bytes (fuel : nat) (w : ws) := iterate receive_bytes fuel w.
Definition iter_json (mode : text) (fuel : nat) (w : ws) := iterate (receive_json mode) fuel w.

(** ** Handlers as programs *)

Inductive op :=
| OAccept (subprotocol : option text) (headers : list (text * text))
| OClose (code : Z) (reason : option text)
| OSendText (t : text)
| OSendBytes (b : bytes)
| OSendJson (j : json) (mode : text)
| OSend (m : send_arg)
| OReceive
| OReceiveText
| OReceiveBytes
| OReceiveJson (mode : text).

Inductive result :=
| ResUnit (r : out unit)
| ResMsg (r : out in_msg)
| ResText (r : out (option text))
| ResBytes (r : out (option bytes))
| ResJson (r : out json).

Definition do_op (o : op) (w : ws) : ws * result :=
  match o with
  | OAccept p h => let '(w, r) := accept p h w in (w, ResUnit r)
  | OClose c r => (close c r w, ResUnit (Ret tt))
  | OSendText t => let '(w, r) := send_text t w in (w, ResUnit r)
  | OSendBytes b => let '(w, r) := send_bytes b w in (w, ResUnit r)
  | OSendJson j m => let '(w, r) := send_json j m w in (w, ResUnit r)
  | OSend m => let '(w, r) := send m w in (w, ResUnit r)
  | OReceive => let '(w, r) := receive w in (w, ResMsg r)
  | OReceiveText => let '(w, r) := receive_text w in (w, ResText r)
  | OReceiveBytes => let '(w, r) := receive_bytes w in (w, ResBytes r)
  | OReceiveJson m => let '(w, r) := receive_json m w in (w, ResJson r)
  end.

Definition is_block {A} (r : out A) : bool := match r with Block => true | _ => false end.
Definition blocked (r : result) : bool :=
  match r with
  | ResUnit r => is_block r | ResMsg r => is_block r | ResText r => is_block r
  | ResBytes r => is_block r | ResJson r => is_block r
  end.

(** How a handler ends: it returns, raises [WebSocketException], raises
    [WebSocketRequestValidationError], or raises something else. *)
Inductive handler_end :=
| HReturn
| HWsException (code : option Z) (reason : option text)
| HValidation
| HRaise (e : nat).

Inductive prog :=
| Finish (r : handler_end)
| Do (o : op) (k : result -> prog).

(** [None]: the handler is suspended on a receive. *)
Fixpoint run_prog (p : prog) (w : ws) : ws * option handler_end :=
  match p with
  | Finish r => (w, Some r)
  | Do o k => let '(w, r) := do_op o w in
              if blocked r then (w, None) else run_prog (k r) w
  end.

(** ** The end of a session *)

(** [application_state]: the Rust object's state when it gives one. *)
Definition application_state (w : ws) : WebSocketState :=
  if w.(rust) then default w.(_app_state) (rust_state w.(calls)) else w.(_app_state).

(** Close from a synchronous error path: queue over ASGI, else refuse the
    handshake or close on the Rust socket. *)
Definition error_close (code : Z) (reason : text) (status : Z) (rust_code : Z) (w : ws) : ws :=
  if negb w.(rust) then _asgi_queue_close code reason w
  else if bool_decide (application_state w = CONNECTING) then _reject status w
  else (rust_do (RClose rust_code reason) w).1.

Definition _handle_ws_exc (code : option Z) (reason : option text) (w : ws) : ws :=
  let c := default 1000 code in
  let r := default [] reason in
  error_close c r 403 c w.

(** The [except] clauses of [_ws_entry].  [handlers]: the app has exception
    handlers; [on_validation]: one is registered for the validation error;
    [on_other]: the first whose class matches.  A suspended exception handler
    leaves the session suspended. *)
Definition ws_entry_end (handlers : bool) (on_validation on_other : option prog)
    (r : handler_end) (w : ws) : ws * bool :=
  let unhandled w := (error_close 1011 [] 500 1006 w, true) in
  let generic w :=
    match (if handlers then on_other else None) with
    | Some p => match run_prog p w with
                | (w, Some HReturn) => (w, true)
                | (w, Some _) => unhandled w
                | (w, None) => (w, false)
                end
    | None => unhandled w
    end in
  match r with
  | HReturn => (w, true)
  | HWsException c m => (_handle_ws_exc c m w, true)
  | HValidation =>
      if handlers then
        match on_validation with
        | Some p => match run_prog p w with
                    | (w, Some _) => (error_close 1008 (lit "validation error") 403 1008 w, true)
                    | (w, None) => (w, false)
                    end
        | None => (error_close 1008 (lit "validation error") 403 1008 w, true)
        end
      else generic w
  | HRaise _ => generic w
  end.

(** [_asgi_ws_door] for a matched route ([Some] handler) or none. *)
Definition _asgi_ws_door (handlers : bool) (on_validation on_other : option prog)
    (wrapped : option prog) (w : ws) : ws :=
  match wrapped with
  | None => (asgi_send (OutClose 1000 []) w).1
  | Some p =>
      match run_prog p w with
      | (w, None) => w
      | (w, Some r) =>
          match ws_entry_end handlers on_validation on_other r w with
          | (w, false) => w
          | (w, true) => match w.(_asgi_pending_close) with
                         | Some (c, m) => _asgi_send_close c m w
                         | None => w
                         end
          end
      end
  end.

(** ** The ASGI protocol *)

Inductive phase := PInit | POpen | PClosed.

(** Accept first, then data, then at most one close; a close may also come
    first, and refuses the connection. *)
Definition phase_step (p : phase) (m : out_msg) : option phase :=
  match p, m with
  | PInit, OutAccept _ _ => Some POpen
  | PInit, OutClose _ _ => Some PClosed
  | POpen, (OutText _ | OutBytes _) => Some POpen
  | POpen, OutClose _ _ => Some PClosed
  | _, _ => None
  end.

Fixpoint phases (p : phase) (l : list out_msg) : option phase :=
  match l with
  | [] => Some p
  | m :: l' => match phase_step p m with Some p' => phases p' l' | None => None end
  end.

Lemma phases_snoc l m p q r :
  phases p l = Some q -> phase_step q m = Some r -> phases p (l ++ [m]) = Some r.
Proof.
  revert p. induction l as [|x l IH]; intros p; simpl.
  - intros [= ->] ->. done.
  - destruct (phase_step p x); [apply IH|done].
Qed.

(** While a handler runs. *)
Definition asgi_inv (w : ws) : Prop :=
  w.(rust) = false /\ w.(has_send) = true /\ w.(has_receive) = true /\
  exists p, phases PInit w.(sent) = Some p /\
  match w.(_app_state) with
  | CONNECTING => w.(_asgi_closed) = false /\ p = PInit
  | CONNECTED => w.(_asgi_closed) = false /\ p = POpen
  | DISCONNECTED => w.(_asgi_closed) = false -> p <> PClosed
  | RESPONSE => False
  end.

Lemma asgi_send_ok m w w' e p q :
  asgi_send m w = (w', e) -> phases PInit w.(sent) = Some p -> phase_step p m = Some q ->
  (e = None /\ w' = set_sent (w.(sent) ++ [m]) w /\ phases PInit w'.(sent) = Some q) \/
  (w' = w /\ exists x, e = Some x).
Proof.
  unfold asgi_send. intros H Hp Hq.
  destruct (send_raises (sent w) m); simplify_eq/=; [right; eauto|].
  left. split_and!; auto. by eapply phases_snoc.
Qed.

Lemma close_step p c r : p <> PClosed -> phase_step p (OutClose c r) = Some PClosed.
Proof. by destruct p. Qed.

Lemma send_close_inv c r w :
  asgi_inv w -> w.(_app_state) = DISCONNECTED -> asgi_inv (_asgi_send_close c r w).
Proof.
  intros (H1 & H2 & H3 & p & Hp & Hst) Hd. unfold _asgi_send_close.
  rewrite Hd in Hst. destruct (_asgi_closed w) eqn:Ec; [|specialize (Hst eq_refl)].
  { split_and!; auto. exists p. rewrite Hd, Ec. done. }
  destruct (asgi_send _ _) as [w' e] eqn:E. simpl.
  apply (asgi_send_ok _ (set_closed true w) _ _ p PClosed) in E; [|done|by apply close_step].
  destruct E as [(-> & -> & Hq)|(-> & _)]; split_and!; auto; simpl.
  - exists PClosed. by rewrite Hd.
  - exists p. by rewrite Hd.
Qed.

(** Sending data on a connected socket. *)
Lemma data_inv m w w' e :
  asgi_inv w -> w.(_app_state) = CONNECTED -> phase_step POpen m = Some POpen ->
  asgi_send m w = (w', e) -> asgi_inv w'.
Proof.
  intros (H1 & H2 & H3 & p & Hp & Hst) Hc Hm E. rewrite Hc in Hst. destruct Hst as [Hcl ->].
  apply (asgi_send_ok _ _ _ _ POpen POpen) in E as [(-> & -> & Hq)|(-> & _)]; auto;
    split_and!; auto; simpl; exists POpen; by rewrite Hc.
Qed.

Ltac inv_case H := destruct H as (H1 & H2 & H3 & ph & Hp & Hst).

Lemma send_data_inv m w w' r :
  asgi_inv w -> w.(_app_state) = CONNECTED -> phase_step POpen m = Some POpen ->
  raised (asgi_send m w) (fun w => (w, Ret tt)) = (w', r) -> asgi_inv w'.
Proof.
  intros I Hc Hm. destruct (asgi_send m w) as [w1 e] eqn:E.
  pose proof (data_inv m w w1 e I Hc Hm E). destruct e; simpl; intros [= <- _]; done.
Qed.

Lemma accept_inv p h w : asgi_inv w -> asgi_inv (accept p h w).1.
Proof.
  intros I. unfold accept. case_bool_decide as Hs; [done|].
  pose proof I as I'. inv_case I. unfold _is_asgi. rewrite H1, H2, H3. simpl.
  rewrite Hs in Hst. destruct Hst as [Hcl ->].
  destruct (inbox w) as [|m q]; [done|]. destruct m; simpl;
    try (split_and!; auto; exists PInit; split; [done|]; simpl; done).
  destruct (asgi_send _ _) as [w' e] eqn:E.
  apply (asgi_send_ok _ (set_inbox q w) _ _ PInit POpen) in E as [(-> & -> & Hq)|(-> & x & ->)];
    simpl; [| |done|done]; split_and!; auto; simpl.
  - exists POpen. done.
  - exists PInit. by rewrite Hs.
Qed.

Lemma close_inv c r w : asgi_inv w -> asgi_inv (close c r w).
Proof.
  intros I. pose proof I as I'. inv_case I. unfold close.
  case_bool_decide as Hd; [done|]. unfold _is_asgi. simpl. rewrite H1, H2. simpl.
  assert (asgi_inv (set_state DISCONNECTED (set_last (Some (c, default [] r)) w))) as Hi.
  { split_and!; auto. exists ph. split; [done|]. simpl. intros _ ->.
    destruct (_app_state w); [destruct Hst..|]; done. }
  case_bool_decide; by apply send_close_inv.
Qed.

Lemma set_inbox_inv q w : asgi_inv w -> asgi_inv (set_inbox q w).
Proof. done. Qed.

Lemma disconnect_inv w : asgi_inv w -> asgi_inv (set_state DISCONNECTED w).
Proof.
  intros I. inv_case I. split_and!; auto. exists ph. split; [done|]. simpl. intros Hc ->.
  destruct (_app_state w); destruct Hst; congruence || done || auto.
Qed.

Lemma receive_with_inv {A} (f : in_msg -> option A) ra w :
  asgi_inv w -> asgi_inv (receive_with f ra w).1.
Proof.
  intros I. pose proof I as I'. inv_case I. unfold receive_with. case_bool_decide; [done|].
  rewrite H1, H3. unfold asgi_take. destruct (inbox w) as [|[] q]; try done.
  by apply disconnect_inv.
Qed.

Lemma receive_inv w : asgi_inv w -> asgi_inv (receive w).1.
Proof.
  intros I. pose proof I as I'. inv_case I. unfold receive. case_bool_decide; [done|].
  rewrite H1, H3. destruct (inbox w) as [|[] q]; try done. by apply disconnect_inv.
Qed.

Lemma load_with_ws {A} (l : A -> option json) p : (load_with l p).1 = p.1.
Proof. destruct p as [w [[a|]| |]]; done. Qed.

Lemma do_op_inv o w : asgi_inv w -> asgi_inv (do_op o w).1.
Proof.
  intros I. destruct o as [p h|c r|t|b|j m|m| | | |m]; simpl.
  - pose proof (accept_inv p h w I). by destruct (accept p h w).
  - by apply close_inv.
  - unfold send_text. case_bool_decide as Hs; [done|].
    pose proof I as I'. inv_case I. rewrite H1, H2. destruct (raised _ _) as [w' r] eqn:E.
    by eapply send_data_inv in E.
  - unfold send_bytes. case_bool_decide as Hs; [done|].
    pose proof I as I'. inv_case I. rewrite H1, H2. destruct (raised _ _) as [w' r] eqn:E.
    by eapply send_data_inv in E.
  - unfold send_json. case_bool_decide; [done|]. case_bool_decide as Hs; [done|].
    pose proof I as I'. inv_case I. rewrite H1, H2.
    destruct (raised _ _) as [w' r] eqn:E. eapply send_data_inv in E; try done. by case_bool_decide.
  - destruct m as [p h|t b|c r|]; simpl.
    + pose proof (accept_inv p h w I). by destruct (accept p h w).
    + case_bool_decide; [done|]. pose proof I as I'. inv_case I. rewrite H1.
      destruct (get t), (get b); done.
    + by apply close_inv.
    + done.
  - pose proof (receive_inv w I). by destruct (receive w).
  - pose proof (receive_with_inv text_field rust_receive_text w I). unfold receive_text.
    by destruct (receive_with _ _ _).
  - pose proof (receive_with_inv bytes_field rust_receive_bytes w I). unfold receive_bytes.
    by destruct (receive_with _ _ _).
  - assert (asgi_inv (receive_json m w).1) as H; [|by destruct (receive_json m w)].
    unfold receive_json. case_bool_decide; [done|].
    case_bool_decide; rewrite load_with_ws; by apply receive_with_inv.
Qed.

Lemma run_prog_inv p w : asgi_inv w -> asgi_inv (run_prog p w).1.
Proof.
  revert w. induction p as [r|o k IH]; intros w I; simpl; [done|].
  pose proof (do_op_inv o w I) as I'. destruct (do_op o w) as [w' r]. simpl in I'.
  destruct (blocked r); [done|]. by apply IH.
Qed.

Lemma queue_close_inv c r w : asgi_inv w -> asgi_inv (_asgi_queue_close c r w).
Proof. intros I. unfold _asgi_queue_close. by destruct (_ || _). Qed.

Lemma error_close_inv c r s k w : asgi_inv w -> asgi_inv (error_close c r s k w).
Proof.
  intros I. pose proof I as (H1 & _). unfold error_close. rewrite H1. by apply queue_close_inv.
Qed.

Lemma entry_end_inv h v o r w : asgi_inv w -> asgi_inv (ws_entry_end h v o r w).1.
Proof.
  intros I. unfold ws_entry_end.
  assert (forall w, asgi_inv w -> asgi_inv
    (match (if h then o else None) with
     | Some p => match run_prog p w with
                 | (w, Some HReturn) => (w, true)
                 | (w, Some _) => (error_close 1011 [] 500 1006 w, true)
                 | (w, None) => (w, false)
                 end
     | None => (error_close 1011 [] 500 1006 w, true)
     end).1) as Hg.
  { intros w0 I0. destruct (if h then o else None) as [p|]; [|by apply error_close_inv].
    pose proof (run_prog_inv p w0 I0). destruct (run_prog p w0) as [w' [[]|]]; simpl in *;
      auto using error_close_inv. }
  destruct r; auto; [by apply error_close_inv|]. destruct h; [|by apply Hg].
  destruct v as [p|]; [|by apply error_close_inv].
  pose proof (run_prog_inv p w I). destruct (run_prog p w) as [w' [|]]; simpl in *;
    auto using error_close_inv.
Qed.

Lemma flush_phases c r w :
  asgi_inv w -> phases PInit (_asgi_send_close c r w).(sent) <> None.
Proof.
  intros I. inv_case I. unfold _asgi_send_close.
  destruct (_asgi_closed w) eqn:Ec; [by rewrite Hp|].
  assert (ph <> PClosed) as Hn.
  { intros ->. destruct (_app_state w); naive_solver. }
  destruct (asgi_send _ _) as [w' e] eqn:E. simpl.
  apply (asgi_send_ok _ (set_closed true w) _ _ ph PClosed) in E; [|done|by apply close_step].
  destruct E as [(-> & -> & ->)|(-> & _)]; [done|]. simpl. by rewrite Hp.
Qed.

(** C4: whatever a WebSocket handler does and however it ends (it may catch
    errors, call operations in any order, raise anything), whatever exception
    handlers the app registered and whichever sends fail, the messages the
    in-process door emits respect the ASGI protocol: data only between an
    accept and a close, one accept, at most one close, nothing after it. *)
Theorem door_respects_asgi_protocol (handlers : bool) (on_validation on_other wrapped : option prog)
    (q : list in_msg) :
  phases PInit (_asgi_ws_door handlers on_validation on_other wrapped (asgi_ws q)).(sent) <> None.
Proof.
  unfold _asgi_ws_door. destruct wrapped as [p|].
  - assert (asgi_inv (asgi_ws q)) as I0 by (split_and!; try done; by exists PInit).
    pose proof (run_prog_inv p _ I0) as I1. destruct (run_prog p (asgi_ws q)) as [w1 [r|]]; simpl in I1.
    + pose proof (entry_end_inv handlers on_validation on_other r w1 I1) as I2.
      destruct (ws_entry_end _ _ _ _ _) as [w2 []]; simpl in I2.
      * destruct (_asgi_pending_close w2) as [[c m]|]; [by apply flush_phases|].
        inv_case I2. by rewrite Hp.
      * inv_case I2. by rewrite Hp.
    + inv_case I1. by rewrite Hp.
  - unfold asgi_send. simpl. by destruct (send_raises [] (OutClose 1000 [])).
Qed.

(** ** A closed connection stays closed *)

Definition quiet (w w' : ws) : Prop :=
  w'.(_app_state) = DISCONNECTED /\ w'.(sent) = w.(sent) /\ w'.(calls) = w.(calls).

Lemma do_op_quiet o w : w.(_app_state) = DISCONNECTED -> quiet w (do_op o w).1.
Proof.
  intros Hd. unfold quiet.
  destruct o as [p h|c r|t|b|j m|m| | | |m]; simpl;
    unfold accept, close, send_text, send_bytes, send_json, send, receive, receive_text,
      receive_bytes, receive_json, receive_with; rewrite ?Hd; simpl; try done.
  - case_bool_decide; done.
  - destruct m; simpl; unfold accept, close; rewrite ?Hd; simpl; done.
  - case_bool_decide; [done|]. unfold receive_text, receive_bytes, receive_with. rewrite Hd. simpl.
    case_bool_decide; done.
Qed.

(** a disconnected connection is terminal, in both modes: no program over
    its operations makes it connected again, and nothing more is sent over ASGI
    or asked of the Rust socket. *)
Theorem disconnected_is_terminal (p : prog) (w : ws)
  (Hd : w.(_app_state) = DISCONNECTED) : quiet w (run_prog p w).1.
Proof.
  revert w Hd. induction p as [r|o k IH]; intros w Hd; simpl; [done|].
  destruct (do_op_quiet o w Hd) as (H1 & H2 & H3). destruct (do_op o w) as [w' r]. simpl in *.
  destruct (blocked r); [done|]. destruct (IH r w' H1) as (H4 & H5 & H6).
  split_and!; [done|by rewrite H5|by rewrite H6].
Qed.

(** ** The Rust socket *)

Inductive rphase := RInit | ROpen | REnd.

(** A refused [accept] may be retried; after a reject or a close only the
    fallback close follows. *)
Definition rphase_step (p : rphase) (c : rust_call) : option rphase :=
  match p, c with
  | (RInit | ROpen), RAccept _ _ => Some ROpen
  | (RInit | ROpen), RReject _ => Some REnd
  | ROpen, (RSendText _ | RSendBytes _) => Some ROpen
  | ROpen, RCloseWait _ _ => Some REnd
  | REnd, RClose _ _ => Some REnd
  | _, _ => None
  end.

Fixpoint rphases (p : rphase) (l : list rust_call) : option rphase :=
  match l with
  | [] => Some p
  | m :: l' => match rphase_step p m with Some p' => rphases p' l' | None => None end
  end.

Lemma rphases_snoc l m p q : rphases p l = Some q -> rphases p (l ++ [m]) = rphase_step q m.
Proof.
  revert p. induction l as [|x l IH]; intros p; simpl.
  - intros [= ->]. by destruct (rphase_step q m).
  - destruct (rphase_step p x); [apply IH|done].
Qed.

Definition rust_inv (w : ws) : Prop :=
  w.(rust) = true /\ exists p, rphases RInit w.(calls) = Some p /\
  match w.(_app_state) with
  | CONNECTING => p <> REnd
  | CONNECTED => p = ROpen
  | DISCONNECTED => True
  | RESPONSE => False
  end.

Lemma rust_send_inv c w w' r :
  rust_inv w -> w.(_app_state) = CONNECTED -> rphase_step ROpen c = Some ROpen ->
  raised (rust_do c w) (fun w => (w, Ret tt)) = (w', r) -> rust_inv w'.
Proof.
  intros (H1 & p & Hp & Hst) Hc Hs. rewrite Hc in Hst. subst p. unfold rust_do.
  destruct (rust_raises (calls w) c); simpl; intros [= <- _]; split; auto; exists ROpen; simpl;
    rewrite (rphases_snoc _ _ _ _ Hp), Hc; done.
Qed.

Lemma rust_accept_inv p h w : rust_inv w -> rust_inv (accept p h w).1.
Proof.
  intros I. unfold accept. case_bool_decide as Hs; [done|].
  destruct I as (H1 & q & Hq & Hst). rewrite H1. rewrite Hs in Hst. unfold rust_do.
  assert (rphase_step q (RAccept p h) = Some ROpen) as Ha by (by destruct q).
  destruct (rust_raises (calls w) _); simpl; split; auto; exists ROpen; simpl;
    rewrite (rphases_snoc _ _ _ _ Hq), Ha, ?Hs; done.
Qed.

Lemma rust_close_inv c r w : rust_inv w -> rust_inv (close c r w).
Proof.
  intros I. unfold close. case_bool_decide as Hd; [done|].
  destruct I as (H1 & q & Hq & Hst). unfold _is_asgi, _reject, rust_do. simpl. rewrite H1. simpl.
  case_bool_decide as Hc; simpl.
  - rewrite Hc in Hst. split; [done|]. exists REnd. simpl. rewrite (rphases_snoc _ _ _ _ Hq).
    by destruct q.
  - assert (q = ROpen) as -> by (by destruct (_app_state w)).
    pose proof (rphases_snoc (calls w) (RCloseWait c (default [] r)) _ _ Hq) as Hq'. simpl in Hq'.
    destruct (rust_raises _ _); simpl; (split; [done|]); exists REnd; simpl; [|done].
    by rewrite (rphases_snoc _ _ _ _ Hq').
Qed.

Lemma rust_recv_inv {A} (f : in_msg -> option A) ra w :
  rust_inv w -> rust_inv (receive_with f ra w).1.
Proof.
  intros I. unfold receive_with. case_bool_decide; [done|]. pose proof I as (H1 & _). rewrite H1.
  by destruct (ra (rust_inbox w)).
Qed.

Lemma rust_op_inv o w : rust_inv w -> rust_inv (do_op o w).1.
Proof.
  intros I. pose proof I as (H1 & p0 & Hp0 & Hst0).
  destruct o as [p h|c r|t|b|j m|m| | | |m]; simpl.
  - pose proof (rust_accept_inv p h w I). by destruct (accept p h w).
  - by apply rust_close_inv.
  - unfold send_text. case_bool_decide as Hs; [done|]. rewrite H1.
    destruct (raised _ _) as [w' r] eqn:E. by eapply rust_send_inv in E.
  - unfold send_bytes. case_bool_decide as Hs; [done|]. rewrite H1.
    destruct (raised _ _) as [w' r] eqn:E. by eapply rust_send_inv in E.
  - unfold send_json. case_bool_decide; [done|]. case_bool_decide as Hs; [done|]. rewrite H1.
    destruct (raised _ _) as [w' r] eqn:E. eapply rust_send_inv in E; try done. by case_bool_decide.
  - destruct m as [p h|t b|c r|]; unfold send; [|case_bool_decide as Hs; [done|]| |done].
    + pose proof (rust_accept_inv p h w I). by destruct (accept p h w).
    + rewrite H1. destruct (get t), (get b); try done;
        match goal with |- context [raised ?p ?k] =>
          destruct (raised p k) as [w' r] eqn:E end; by eapply rust_send_inv in E.
    + by apply rust_close_inv.
  - assert (rust_inv (receive w).1) as H; [|by destruct (receive w)].
    unfold receive. case_bool_decide; [done|]. rewrite H1.
    destruct (rust_inbox w) as [|[m|msg] q]; [done| |].
    + destruct m; try done. split; [done|]. by exists p0.
    + destruct (_extract_close_info_from_error msg). split; [done|]. by exists p0.
  - pose proof (rust_recv_inv text_field rust_receive_text w I). unfold receive_text.
    by destruct (receive_with _ _ _).
  - pose proof (rust_recv_inv bytes_field rust_receive_bytes w I). unfold receive_bytes.
    by destruct (receive_with _ _ _).
  - assert (rust_inv (receive_json m w).1) as H; [|by destruct (receive_json m w)].
    unfold receive_json. case_bool_decide; [done|].
    case_bool_decide; rewrite load_with_ws; by apply rust_recv_inv.
Qed.

(** over the Rust socket the calls of any handler program are ordered:
    frames are sent only after an [accept] and never after a reject or a close,
    and a close before the accept refuses the handshake instead of accepting. *)
Theorem rust_calls_ordered (p : prog) (q : list rust_event) :
  rphases RInit (run_prog p (rust_ws q)).1.(calls) <> None.
Proof.
  assert (rust_inv (rust_ws q)) as I by (split; [done|]; by exists RInit).
  enough (rust_inv (run_prog p (rust_ws q)).1) as (_ & r & -> & _) by done.
  revert I. generalize (rust_ws q). induction p as [r|o k IH]; intros w I; simpl; [done|].
  pose proof (rust_op_inv o w I) as I'. destruct (do_op o w) as [w' r]. simpl in I'.
  destruct (blocked r); [done|]. by apply IH.
Qed.

(** ** Iteration *)

Lemma iterate_texts ts w rest c r fuel :
  w.(rust) = false -> w.(has_receive) = true -> w.(_app_state) <> DISCONNECTED ->
  w.(inbox) = map (fun t => InReceive (Val t) KNone) ts ++ InDisconnect c r :: rest ->
  (length ts < fuel)%nat ->
  iter_text fuel w =
  (set_state DISCONNECTED (set_inbox rest w), map Some ts, IStopped).
Proof.
  unfold iter_text. revert w fuel. induction ts as [|t ts IH]; intros w fuel H1 H2 H3 H4 Hf;
    (destruct fuel as [|fuel]; [simpl in Hf; lia|]); cbn [iterate];
    unfold receive_text at 1, receive_with; rewrite bool_decide_eq_false_2 by done;
    rewrite H1, H2; unfold asgi_take; rewrite H4; simpl; [done|].
  rewrite (IH (set_inbox _ w) fuel); simpl; auto. simpl in Hf. lia.
Qed.

(** [async for msg in ws.iter_text()] on an open in-process connection
    yields exactly the texts the client sent, in order and each once, and ends
    normally at the disconnect, leaving the connection disconnected. *)
Theorem iter_text_yields_all (ts : list text) (w : ws) (rest : list in_msg) (c : option Z)
    (r : key text) (fuel : nat)
  (Hmode : w.(rust) = false /\ w.(has_receive) = true)
  (Hopen : w.(_app_state) = CONNECTED)
  (Hin : w.(inbox) = map (fun t => InReceive (Val t) KNone) ts ++ InDisconnect c r :: rest)
  (Hfuel : (length ts < fuel)%nat) :
  exists w', iter_text fuel w = (w', map Some ts, IStopped) /\
    w'.(_app_state) = DISCONNECTED /\ w'.(inbox) = rest.
Proof.
  destruct Hmode. eexists. split; [apply (iterate_texts ts w rest c r); try done; by rewrite Hopen|done].
Qed.

(** the low-level [send] cannot carry data on an in-process ASGI
    connection: for a connected socket a [websocket.send] message raises
    [AttributeError] (it is handed to the absent Rust socket) and nothing is
    emitted, while [send_text] with the same text on the same socket works. *)
Theorem low_level_send_fails_over_asgi (w : ws) (t : text)
  (Hmode : w.(rust) = false /\ w.(has_send) = true) (Hopen : w.(_app_state) = CONNECTED)
  (Hsend : send_raises w.(sent) (OutText t) = None) :
  send (SSend (Val t) KNone) w = (w, Exc WsAttribute) /\
  send_text t w = (set_sent (w.(sent) ++ [OutText t]) w, Ret tt).
Proof.
  destruct Hmode as [H1 H2]. unfold send, send_text. rewrite Hopen, H1, H2. simpl.
  unfold asgi_send. by rewrite Hsend.
Qed.

End Environment.

(** the close code and reason survive the trip through the Rust error
    text: a message [WS_CLOSED:<code>:<reason>] is read back exactly, for every
    code and every reason, colons in it included. *)
Theorem close_info_roundtrip (code : Z) (reason : text) :
  _extract_close_info_from_error (ws_closed_prefix ++ dec code ++ ":"%char :: reason) = (code, reason).
Proof.
  unfold _extract_close_info_from_error. rewrite starts_with_app, drop_app_length.
  rewrite partition_at_app.
  - rewrite py_int_dec by auto with turbo. done.
  - intros [H|H]%dec_chars; [unfold is_digit in H; set_solver|done].
Qed.

(** ** Concrete runs *)

Definition no_fail {A B} (_ : list A) (_ : B) : option exn := None.
Definition open_ws (q : list in_msg) : ws :=
  set_sent [OutAccept None []] (set_state CONNECTED (asgi_ws q)).
Definition no_rust {A} (q : list rust_event) : list rust_event * out (option A) := (q, Block).

Lemma disconnected_is_terminal_witness :
  let w := set_state DISCONNECTED (open_ws []) in
  quiet w (run_prog no_fail no_fail unit (fun _ => []) id (fun _ => None) (fun _ => None)
             no_rust no_rust
             (Do unit (OSendText unit (lit "x")) (fun _ => Do unit (OClose unit 1000 None)
                (fun _ => Finish unit HReturn))) w).1.
Proof. apply disconnected_is_terminal. reflexivity. Defined.

Lemma iter_text_yields_all_witness :
  exists w', iter_text no_rust 5
      (open_ws [InReceive (Val (lit "a")) KNone; InReceive (Val (lit "b")) KNone;
                InDisconnect (Some 1001) Absent; InOther])
    = (w', map Some [lit "a"; lit "b"], IStopped) /\
    w'.(_app_state) = DISCONNECTED /\ w'.(inbox) = [InOther].
Proof.
  apply (iter_text_yields_all no_rust [lit "a"; lit "b"] _ [InOther] (Some 1001) Absent);
    [split; reflexivity|reflexivity|reflexivity|simpl; lia].
Defined.

Lemma low_level_send_fails_over_asgi_witness :
  send no_fail no_fail (SSend (Val (lit "hi")) KNone) (open_ws []) = (open_ws [], Exc WsAttribute) /\
  send_text no_fail no_fail (lit "hi") (open_ws [])
    = (set_sent ((open_ws []).(sent) ++ [OutText (lit "hi")]) (open_ws []), Ret tt).
Proof. apply low_level_send_fails_over_asgi; [split; reflexivity|reflexivity|reflexivity]. Defined.

End WebSocket.
