(* ===== verification/Routing.v ===== *)
(** Route collection: how [FastAPI._collect_all_routes] (applications.py)
    flattens the tree of routers, includes and mounts into the list of route
    dicts ("rds") the Rust door registers, how [_openapi_real_routes] rebuilds
    the documented routes from them, and the lazy include context of
    [_route_helpers.py] that describes the same tree to real FastAPI.

    A router is a tree here: the [Includes] file keeps the heap of router
    objects that [include_router] mutates and shows that it unfolds to one. *)

From S2P Require Import Prelude.

Module Routing.

(** ** Data *)

(** An object the walk passes on without looking inside (a class, a callback
    route, an OpenAPI fragment), by its identity. *)
Definition obj := nat.

(** An attribute that is [None], real FastAPI's [DefaultPlaceholder], or a
    value the user gave. *)
Inductive setting (A : Type) :=
| Unset
| Placeholder
| Given (v : A).
Arguments Unset {A}.
Arguments Placeholder {A}.
Arguments Given {A} v.

(** [_unset_to_none]; also [_set_or_none] of [_apply_generate_unique_id]. *)
Definition _unset_to_none {A} (s : setting A) : option A :=
  match s with
  | Unset | Placeholder => None
  | Given v => Some v
  end.

(** The value of a [response_model]: [NoneType] is told apart. *)
Inductive model := NoneType | Model (o : obj).

(** What an rd carries to the schema unchanged from the route object. *)
Record route_docs := {
  summary : option text;
  description : option text;
  response_description : text;
  openapi_extra : option obj;
  security : option obj;
  servers : option obj;
  external_docs : option obj }.

(** A route object with a [path], other than a mount: an [APIRoute] or a
    subclass, a [WSRoute], or a Starlette [Route] or [WebSocketRoute]. *)
Record route := {
  path : text;
  methods : list text;
  endpoint : obj;
  endpoint_is_async : bool;
  name : option text;
  tags : list text;
  dependencies : list obj;
  status_code : option Z;
  docs : route_docs;
  responses : gmap text obj;
  response_model : option model;
  response_class : setting obj;
  strict_content_type : setting bool;
  deprecated : option bool;
  operation_id : option text;
  include_in_schema : bool;
  generate_unique_id_function : setting obj;
  callbacks : list obj;
  (* [_is_websocket], or the class is named [WebSocketRoute] *)
  is_websocket : bool;
  (* [_fastapi_turbo_starlette_passthrough] *)
  starlette_passthrough : bool;
  (* [_has_overridden_get_route_handler] *)
  overrides_get_route_handler : bool;
  (* [_route_dispatch_customized]: overrides [matches] or [handle] *)
  dispatch_customized : bool;
  (* [_fastapi_turbo_bypass_deps] *)
  bypass_deps : bool }.

(** The attributes of an [APIRouter] (routing.py). *)
Record router_attrs := {
  r_prefix : text;
  r_tags : list text;
  r_dependencies : list obj;
  r_default_response_class : setting obj;
  r_responses : gmap text obj;
  r_deprecated : option bool;
  r_include_in_schema : bool;
  r_callbacks : list obj;
  r_generate_unique_id_function : setting obj;
  r_strict_content_type : setting bool;
  (* [_router_dispatch_customized]: overrides [matches] or [handle] *)
  r_dispatch_customized : bool;
  (* [_mounts], by the path and the identity of the mounted application *)
  r_mounts : list (text * obj) }.

(** [include_meta]: the arguments of [include_router]. *)
Record include_meta := {
  m_prefix : text;
  m_tags : list text;
  m_dependencies : list obj;
  m_responses : gmap text obj;
  m_deprecated : option bool;
  m_include_in_schema : bool;
  m_default_response_class : option obj;
  m_generate_unique_id_function : setting obj;
  m_callbacks : list obj }.

(** The attributes of a [FastAPI] application the walk reads. *)
Record app_attrs := {
  a_id : obj;
  a_dependencies : list obj;
  a_responses : gmap text obj;
  a_callbacks : list obj;
  a_default_response_class : option obj;
  a_generate_unique_id_function : setting obj;
  a_strict_content_type : bool;
  (* [_http_middlewares] that are not ASGI shims *)
  a_http_middlewares : list obj;
  a_openapi_url : option text;
  a_root_path : text }.

(** An element of [router.routes], the routers and the applications. *)
Inductive entry :=
| Marker                                       (* [_IncludedRouter] *)
| Pathless                                     (* [Host], a custom [BaseRoute] *)
| MountEntry (p : text) (n : option text) (m : mounted) (* Starlette [Mount] *)
| RouteEntry (r : route)
with mounted :=
| MFastAPI (a : app)
| MRouter (r : router)
| MAsgi (callable : obj)
| MOther                                       (* not callable: ignored *)
with router :=
| Router (attrs : router_attrs) (routes : list entry) (included : list include)
with include :=
| Include (child : router) (prefix : text) (tags : list text) (meta : include_meta)
with app :=
| App (attrs : app_attrs) (root : router) (included : list include)
      (mounts : list (text * mounted)).

Definition attrs_of (r : router) : router_attrs := match r with Router a _ _ => a end.

(** The handler an rd carries. *)
Inductive handler :=
| HRaw (ep : obj)
| HWebSocket (ep : obj) (ctx_path : text) (deps : list obj)
| HStarlette (ep : obj)
| HCustom (ep : obj) (middlewares : list obj)
| HAsgiMount (callable : obj) (mount : text)
| HOpenapi (a : obj).

(** The keys only HTTP rds have. *)
Record rd_http := {
  d_combined_dependencies : option (list obj);
  d_route_obj : option route;
  d_lax_content_type : bool;
  d_status_code : Z;
  d_docs : route_docs;
  d_responses : gmap text obj;
  d_response_model : option model;
  d_response_class : option obj;
  d_deprecated : bool;
  d_operation_id : option text;
  d_callbacks : list obj }.

(** A collected route dict. *)
Record rd := {
  d_path : text;
  d_door_exclude : bool;
  d_methods : list text;
  d_endpoint : handler;
  d_is_async : bool;
  d_handler_name : option text;
  d_tags : list text;
  d_injects_request : bool;                    (* ["params"]: the request alone, or none *)
  d_is_websocket : bool;
  d_include_in_schema : bool;
  d_from_mount : option text;
  d_http : option rd_http }.

(** The result of a walk: the rds, whether it set [_door_needs_route_fallback]
    on the application that walks, and the [root_path]s it gave to mounted
    applications that had none. *)
Record out := {
  o_rds : list rd;
  o_fallback : bool;
  o_root_paths : list (obj * text) }.

Definition o_nil : out := {| o_rds := []; o_fallback := false; o_root_paths := [] |}.
Definition o_one (d : rd) : out := {| o_rds := [d]; o_fallback := false; o_root_paths := [] |}.
Definition o_many (l : list rd) : out := {| o_rds := l; o_fallback := false; o_root_paths := [] |}.
Definition o_flag : out := {| o_rds := []; o_fallback := true; o_root_paths := [] |}.

Definition o_app (x y : out) : out :=
  {| o_rds := o_rds x ++ o_rds y;
     o_fallback := o_fallback x || o_fallback y;
     o_root_paths := o_root_paths x ++ o_root_paths y |}.

(** Run a fallible step on every element and append the results. *)
Definition gather {A} (f : A -> res out) : list A -> res out :=
  fix go l :=
    match l with
    | [] => Ok o_nil
    | x :: l' => res_bind (f x) (fun a => res_bind (go l') (fun b => Ok (o_app a b)))
    end.

(** The arguments [_collect_routes_from_router] hands down. *)
Record args := {
  g_prefix : text;
  g_extra_tags : list text;
  g_include_deps : list obj;
  g_include_responses : gmap text obj;
  g_include_deprecated : option bool;
  g_include_in_schema : bool;
  g_include_default_response_class : option obj;
  g_include_generate_unique_id_function : setting obj;
  g_include_callbacks : list obj }.

(** [{**a, **b}] *)
Definition merge (a b : gmap text obj) : gmap text obj := b ∪ a.

Definition truthy (b : option bool) : bool := default false b.

(** ** Paths *)

Definition is_slash (c : ascii) : bool := bool_decide (c = "/"%char).

(** [t.rstrip("/")] *)
Definition rstrip_slash (t : text) : text := rstrip_by is_slash t.

(** The join normalisation of [_collect_routes_from_router]. *)
Definition normalise_path (full : text) : text :=
  if bool_decide (full = lit "/") then full
  else ("/"%char :: strip_by is_slash full) ++ (if ends_with "/" full then lit "/" else []).

(** The path of a route of a mounted application. *)
Definition mount_join (prefix original : text) : text :=
  let p := prefix ++ (if bool_decide (original = lit "/") then [] else original) in
  if bool_decide (p = []) then lit "/" else p.

(** ** Collection *)

Section Collect.

(** The user's [generate_unique_id_function]s: which objects are callable, and
    what a call with the route, or with the route and a method, does. *)
Variable callable : obj -> bool.
Variable call_gen : obj -> route -> res text.
Variable call_gen_legacy : obj -> route -> text -> res text.

Open Scope res_scope.

Definition _get_all_dependencies_for_route
    (A : app_attrs) (R : router_attrs) (r : route) (include_deps : list obj) : list obj :=
  if bypass_deps r then []
  else a_dependencies A ++ include_deps ++ r_dependencies R ++ dependencies r.

(** The cascade of [_apply_generate_unique_id]: route, router, include, app. *)
Definition gen_id_function
    (A : app_attrs) (R : router_attrs) (r : route) (include_fn : setting obj) : option obj :=
  match _unset_to_none (generate_unique_id_function r) with
  | Some f => Some f
  | None =>
      match _unset_to_none (r_generate_unique_id_function R) with
      | Some f => Some f
      | None =>
          match _unset_to_none include_fn with
          | Some f => Some f
          | None => _unset_to_none (a_generate_unique_id_function A)
          end
      end
  end.

Definition _apply_generate_unique_id
    (A : app_attrs) (R : router_attrs) (r : route) (include_fn : setting obj)
    : res (option text) :=
  match gen_id_function A R r include_fn with
  | None => Ok None
  | Some f =>
      if negb (callable f) then Ok None
      else if negb (include_in_schema r) then Ok None
      else match call_gen f r with
           | Ok t => Ok (Some t)
           | Raise TypeError =>
               t <-- call_gen_legacy f r (lower (default (lit "GET") (head (methods r)))) ;;
               Ok (Some t)
           | Raise e => Raise e
           end
  end.

(** [route.operation_id or self._apply_generate_unique_id(...)] *)
Definition effective_operation_id
    (A : app_attrs) (a : args) (R : router_attrs) (r : route) : res (option text) :=
  match operation_id r with
  | Some (c :: t) => Ok (Some (c :: t))
  | _ => _apply_generate_unique_id A R r (g_include_generate_unique_id_function a)
  end.

(** The entries every branch writes alike. *)
Definition effective_responses
    (A : app_attrs) (a : args) (R : router_attrs) (r : route) : gmap text obj :=
  merge (merge (merge (a_responses A) (g_include_responses a)) (r_responses R)) (responses r).

Definition effective_deprecated (a : args) (R : router_attrs) (r : route) : bool :=
  truthy (deprecated r) || truthy (r_deprecated R) || truthy (g_include_deprecated a).

Definition effective_callbacks (a : args) (R : router_attrs) (r : route) : list obj :=
  (g_include_callbacks a ++ r_callbacks R) ++ callbacks r.

Definition effective_tags (a : args) (R : router_attrs) (r : route) : list text :=
  (g_extra_tags a ++ r_tags R) ++ tags r.

(** [route.status_code or 200] *)
Definition effective_status (r : route) : Z :=
  match status_code r with
  | Some z => if z =? 0 then 200 else z
  | None => 200
  end.

Fixpoint insert_sorted (x : text) (l : list text) : list text :=
  match l with
  | [] => [x]
  | y :: l' => if String.leb (String.string_of_list_ascii x) (String.string_of_list_ascii y)
               then x :: l else y :: insert_sorted x l'
  end.

(** [sorted(route.methods)] *)
Definition sorted (l : list text) : list text := foldr insert_sorted [] l.

(** The WebSocket branch. *)
Definition websocket_rd (A : app_attrs) (a : args) (R : router_attrs) (r : route) (full_path : text) : rd :=
  {| d_path := full_path;
     d_door_exclude := false;
     d_methods := [lit "GET"];
     d_endpoint := HWebSocket (endpoint r) full_path
                     (_get_all_dependencies_for_route A R r (g_include_deps a));
     d_is_async := true;
     d_handler_name := name r;
     d_tags := effective_tags a R r;
     d_injects_request := false;
     d_is_websocket := true;
     d_include_in_schema := true;
     d_from_mount := None;
     d_http := None |}.

(** The Starlette [Route] branch. *)
Definition passthrough_rd (A : app_attrs) (a : args) (R : router_attrs) (r : route) (full_path : text) : rd :=
  {| d_path := full_path;
     d_door_exclude := dispatch_customized r;
     d_methods := match methods r with [] => [lit "GET"] | l => l end;
     d_endpoint := HStarlette (endpoint r);
     d_is_async := true;
     d_handler_name := name r;
     d_tags := effective_tags a R r;
     d_injects_request := true;
     d_is_websocket := false;
     d_include_in_schema := include_in_schema r && g_include_in_schema a;
     d_from_mount := None;
     d_http := Some
       {| d_combined_dependencies := None;
          d_route_obj := None;
          d_lax_content_type := false;
          d_status_code := effective_status r;
          d_docs := docs r;
          d_responses := effective_responses A a R r;
          d_response_model := None;
          d_response_class := _unset_to_none (response_class r);
          d_deprecated := effective_deprecated a R r;
          d_operation_id := operation_id r;
          d_callbacks := effective_callbacks a R r |} |}.

(** The branch for an overridden [get_route_handler]: the endpoint is wrapped
    in the application's HTTP middlewares, the last one outermost. *)
Definition custom_rd (A : app_attrs) (a : args) (R : router_attrs) (r : route) (full_path : text) : res rd :=
  opid <-- effective_operation_id A a R r ;;
  Ok {| d_path := full_path;
        d_door_exclude := dispatch_customized r;
        d_methods := sorted (methods r);
        d_endpoint := HCustom (endpoint r) (reverse (a_http_middlewares A));
        d_is_async := true;
        d_handler_name := name r;
        d_tags := effective_tags a R r;
        d_injects_request := true;
        d_is_websocket := false;
        d_include_in_schema := include_in_schema r && g_include_in_schema a;
        d_from_mount := None;
        d_http := Some
          {| d_combined_dependencies := None;
             d_route_obj := None;
             d_lax_content_type := false;
             d_status_code := effective_status r;
             d_docs := docs r;
             d_responses := effective_responses A a R r;
             d_response_model := response_model r;
             d_response_class := _unset_to_none (response_class r);
             d_deprecated := effective_deprecated a R r;
             d_operation_id := opid;
             d_callbacks := effective_callbacks a R r |} |}.

(** [default_response_class]: route, router, include, app. *)
Definition effective_response_class (A : app_attrs) (a : args) (R : router_attrs) (r : route) : option obj :=
  match _unset_to_none (response_class r) with
  | Some c => Some c
  | None =>
      match _unset_to_none (r_default_response_class R) with
      | Some c => Some c
      | None => match g_include_default_response_class a with
                | Some c => Some c
                | None => a_default_response_class A
                end
      end
  end.

(** [strict_content_type]: route, router, app; the rd carries "is lax". *)
Definition effective_lax (A : app_attrs) (R : router_attrs) (r : route) : bool :=
  negb (match _unset_to_none (strict_content_type r) with
        | Some b => b
        | None => match _unset_to_none (r_strict_content_type R) with
                  | Some b => b
                  | None => a_strict_content_type A
                  end
        end).

(** The ordinary [APIRoute] branch. *)
Definition api_rd (A : app_attrs) (a : args) (R : router_attrs) (r : route) (full_path : text) : res rd :=
  opid <-- effective_operation_id A a R r ;;
  Ok {| d_path := full_path;
        d_door_exclude := dispatch_customized r;
        d_methods := sorted (methods r);
        d_endpoint := HRaw (endpoint r);
        d_is_async := endpoint_is_async r;
        d_handler_name := name r;
        d_tags := effective_tags a R r;
        d_injects_request := false;
        d_is_websocket := false;
        d_include_in_schema := include_in_schema r && g_include_in_schema a;
        d_from_mount := None;
        d_http := Some
          {| d_combined_dependencies :=
               Some (_get_all_dependencies_for_route A R r (g_include_deps a));
             d_route_obj := Some r;
             d_lax_content_type := effective_lax A R r;
             d_status_code := effective_status r;
             d_docs := docs r;
             d_responses := effective_responses A a R r;
             d_response_model := match response_model r with
                                 | Some NoneType => None
                                 | m => m
                                 end;
             d_response_class := effective_response_class A a R r;
             d_deprecated := effective_deprecated a R r;
             d_operation_id := opid;
             d_callbacks := effective_callbacks a R r |} |}.

(** One route object of [router.routes]. *)
Definition collect_route (A : app_attrs) (a : args) (R : router_attrs) (r : route) : res out :=
  let full_path := normalise_path ((g_prefix a ++ r_prefix R) ++ path r) in
  let flag := if dispatch_customized r then o_flag else o_nil in
  d <-- (if is_websocket r then Ok (websocket_rd A a R r full_path)
         else if starlette_passthrough r then Ok (passthrough_rd A a R r full_path)
         else if overrides_get_route_handler r then custom_rd A a R r full_path
         else api_rd A a R r full_path) ;;
  Ok (o_app flag (o_one d)).

(** The arguments for an included router. *)
Definition child_args (a : args) (R : router_attrs) (prefix : text) (ctags : list text) (m : include_meta) : args :=
  {| g_prefix := (g_prefix a ++ r_prefix R) ++ prefix;
     g_extra_tags := (g_extra_tags a ++ r_tags R) ++ ctags;
     g_include_deps := g_include_deps a ++ r_dependencies R ++ m_dependencies m;
     g_include_responses :=
       merge (merge (g_include_responses a) (r_responses R)) (m_responses m);
     g_include_deprecated := match m_deprecated m with
                             | Some b => Some b
                             | None => g_include_deprecated a
                             end;
     g_include_in_schema := g_include_in_schema a && m_include_in_schema m;
     g_include_default_response_class :=
       match m_default_response_class m with
       | Some c => Some c
       | None => match _unset_to_none (r_default_response_class R) with
                 | Some c => Some c
                 | None => g_include_default_response_class a
                 end
       end;
     g_include_generate_unique_id_function :=
       match m_generate_unique_id_function m with
       | Unset => match r_generate_unique_id_function R with
                  | Unset => g_include_generate_unique_id_function a
                  | s => s
                  end
       | s => s
       end;
     g_include_callbacks := (g_include_callbacks a ++ r_callbacks R) ++ m_callbacks m |}.

(** The arguments for a router mounted by a [Mount] entry: the tags and the
    router's own callbacks are not handed on. *)
Definition mount_args (a : args) (mount_path : text) : args :=
  {| g_prefix := mount_path;
     g_extra_tags := [];
     g_include_deps := g_include_deps a;
     g_include_responses := g_include_responses a;
     g_include_deprecated := g_include_deprecated a;
     g_include_in_schema := g_include_in_schema a;
     g_include_default_response_class := g_include_default_response_class a;
     g_include_generate_unique_id_function := g_include_generate_unique_id_function a;
     g_include_callbacks := g_include_callbacks a |}.

(** The defaults of [_collect_routes_from_router]. *)
Definition no_args (prefix : text) (cbs : list obj) : args :=
  {| g_prefix := prefix;
     g_extra_tags := [];
     g_include_deps := [];
     g_include_responses := ∅;
     g_include_deprecated := None;
     g_include_in_schema := true;
     g_include_default_response_class := None;
     g_include_generate_unique_id_function := Unset;
     g_include_callbacks := cbs |}.

(** The arguments of [_collect_all_routes] for an [app.include_router]. *)
Definition top_args (A : app_attrs) (prefix : text) (itags : list text) (m : include_meta) : args :=
  {| g_prefix := prefix;
     g_extra_tags := itags;
     g_include_deps := m_dependencies m;
     g_include_responses := m_responses m;
     g_include_deprecated := m_deprecated m;
     g_include_in_schema := m_include_in_schema m;
     g_include_default_response_class := m_default_response_class m;
     g_include_generate_unique_id_function := m_generate_unique_id_function m;
     g_include_callbacks := a_callbacks A ++ m_callbacks m |}.

(** A subtree whose router overrides [matches] or [handle] is excluded from
    the door. *)
Definition exclude_subtree (customized : bool) (o : out) : out :=
  if customized then
    {| o_rds := (fun d => {| d_path := d_path d; d_door_exclude := true;
                             d_methods := d_methods d; d_endpoint := d_endpoint d;
                             d_is_async := d_is_async d; d_handler_name := d_handler_name d;
                             d_tags := d_tags d; d_injects_request := d_injects_request d;
                             d_is_websocket := d_is_websocket d;
                             d_include_in_schema := d_include_in_schema d;
                             d_from_mount := d_from_mount d; d_http := d_http d |}) <$> o_rds o;
       o_fallback := true;
       o_root_paths := o_root_paths o |}
  else o.

(** An rd of a mounted application, with the mount's prefix and the path in
    the WebSocket context patched. *)
Definition mounted_rd (prefix mount_path : text) (d : rd) : rd :=
  let p := mount_join prefix (d_path d) in
  {| d_path := p;
     d_door_exclude := d_door_exclude d;
     d_methods := d_methods d;
     d_endpoint := match d_endpoint d with
                   | HWebSocket ep _ deps => HWebSocket ep p deps
                   | h => h
                   end;
     d_is_async := d_is_async d;
     d_handler_name := d_handler_name d;
     d_tags := d_tags d;
     d_injects_request := d_injects_request d;
     d_is_websocket := d_is_websocket d;
     d_include_in_schema := d_include_in_schema d;
     d_from_mount := Some mount_path;
     d_http := d_http d |}.

(** The flag of a mounted application is set on that application, not on the
    one that walks. *)
Definition mounted_out (prefix mount_path : text) (o : out) : out :=
  {| o_rds := mounted_rd prefix mount_path <$> o_rds o;
     o_fallback := false;
     o_root_paths := o_root_paths o |}.

(** The route that serves a mounted application's own schema. *)
Definition sub_openapi (A : app_attrs) (mount_path : text) : out :=
  match a_openapi_url A with
  | Some ((_ :: _) as url) =>
      {| o_rds := [ {| d_path := rstrip_slash mount_path ++ url;
                       d_door_exclude := false;
                       d_methods := [lit "GET"];
                       d_endpoint := HOpenapi (a_id A);
                       d_is_async := false;
                       d_handler_name := Some (lit "openapi_" ++ dec (Z.of_nat (a_id A)));
                       d_tags := [];
                       d_injects_request := false;
                       d_is_websocket := false;
                       d_include_in_schema := false;
                       d_from_mount := Some mount_path;
                       d_http := None |} ];
         o_fallback := false;
         o_root_paths := match a_root_path A with
                         | [] => [(a_id A, rstrip_slash mount_path)]
                         | _ => []
                         end |}
  | _ => o_nil
  end.

(** [_build_asgi_mount_routes]: every method on the mount point and on its
    catch-all. *)
Definition asgi_methods : list text :=
  [lit "GET"; lit "POST"; lit "PUT"; lit "PATCH"; lit "DELETE"; lit "HEAD"; lit "OPTIONS"].

Definition asgi_rd (clean : text) (callable_ : obj) (p m : text) : rd :=
  {| d_path := p;
     d_door_exclude := false;
     d_methods := [m];
     d_endpoint := HAsgiMount callable_ clean;
     d_is_async := true;
     d_handler_name :=
       Some (lit "__asgi_mount_" ++
             (match (fun c => if is_slash c then "_"%char else c) <$> strip_by is_slash clean with
              | [] => lit "root"
              | t => t
              end) ++ lit "__");
     d_tags := [];
     d_injects_request := true;
     d_is_websocket := false;
     d_include_in_schema := false;
     d_from_mount := Some clean;
     d_http := None |}.

Definition _build_asgi_mount_routes (mount_path : text) (asgi_app : obj) : list rd :=
  let clean := rstrip_slash mount_path in
  let root_path := match clean with [] => lit "/" | _ => clean end in
  let catchall := clean ++ lit "/{__asgi_rest__:path}" in
  foldl (fun acc p =>
           if existsb (fun d => bool_decide (d_path d = p)) acc then acc
           else acc ++ (asgi_rd clean asgi_app p <$> asgi_methods))
        [] [root_path; root_path; catchall].

(** [_collect_routes_from_router] with its loops over the routes and over the
    included routers, and [_collect_all_routes]. *)
Fixpoint _collect_routes_from_router (A : app_attrs) (a : args) (r : router) {struct r} : res out :=
  match r with
  | Router R entries incs =>
      o1 <-- gather (fun e => collect_entry A a R e) entries ;;
      o2 <-- gather (fun i => collect_include A a R i) incs ;;
      Ok (o_app o1 o2)
  end
with collect_entry (A : app_attrs) (a : args) (R : router_attrs) (e : entry) {struct e} : res out :=
  match e with
  | Marker => Ok o_nil
  | Pathless => Ok o_flag
  | MountEntry p n m =>
      let full_path := normalise_path ((g_prefix a ++ r_prefix R) ++ p) in
      let mount_path := if bool_decide (full_path = lit "/") then full_path
                        else rstrip_slash full_path in
      match m with
      | MFastAPI s =>
          o <-- _collect_all_routes s ;;
          Ok (mounted_out (rstrip_slash mount_path) mount_path o)
      | MRouter r' => _collect_routes_from_router A (mount_args a mount_path) r'
      | MAsgi c => Ok (o_many (_build_asgi_mount_routes mount_path c))
      | MOther => Ok o_nil
      end
  | RouteEntry r => collect_route A a R r
  end
with collect_include (A : app_attrs) (a : args) (R : router_attrs) (i : include) {struct i} : res out :=
  match i with
  | Include child prefix ctags m =>
      o <-- _collect_routes_from_router A (child_args a R prefix ctags m) child ;;
      Ok (exclude_subtree (r_dispatch_customized (attrs_of child)) o)
  end
with _collect_all_routes (ap : app) {struct ap} : res out :=
  match ap with
  | App A root incs mounts =>
      o1 <-- _collect_routes_from_router A (no_args [] (a_callbacks A)) root ;;
      o2 <-- gather (fun i => collect_top_include A i) incs ;;
      o3 <-- gather (fun pm => match pm with (p, m) => collect_mount A p m end) mounts ;;
      Ok (o_app o1 (o_app o2 o3))
  end
with collect_top_include (A : app_attrs) (i : include) {struct i} : res out :=
  match i with
  | Include r prefix itags m =>
      o <-- _collect_routes_from_router A (top_args A prefix itags m) r ;;
      Ok (exclude_subtree (r_dispatch_customized (attrs_of r)) o)
  end
with collect_mount (A : app_attrs) (mount_path : text) (m : mounted) {struct m} : res out :=
  match m with
  | MFastAPI s =>
      o <-- _collect_all_routes s ;;
      Ok (o_app (mounted_out (rstrip_slash mount_path) mount_path o)
                (match s with App A' _ _ _ => sub_openapi A' mount_path end))
  | MRouter r => _collect_routes_from_router A (no_args mount_path []) r
  | MAsgi c => Ok (o_many (_build_asgi_mount_routes mount_path c))
  | MOther => Ok o_nil
  end.

End Collect.

(** ** The lazy include context ([_route_helpers.py]) *)

(** [_TurboRouterIncludeContext] *)
Record ctx := {
  c_prefix : text;
  c_own_prefix : text;
  c_tags : list text;
  c_dependencies : list obj;
  c_default_response_class : setting obj;
  c_responses : gmap text obj;
  c_callbacks : list obj;
  c_deprecated : option bool;
  c_include_in_schema : bool;
  c_generate_unique_id_function : setting obj;
  c_strict_content_type : setting bool }.

(** The context [_append_included_router] builds for including [child]. *)
Definition include_context (parent child : router_attrs) (m : include_meta) : ctx :=
  {| c_prefix := m_prefix m;
     c_own_prefix := r_prefix child;
     c_tags := m_tags m ++ r_tags child;
     c_dependencies := m_dependencies m ++ r_dependencies child;
     c_default_response_class := match m_default_response_class m with
                                 | Some c => Given c
                                 | None => Placeholder
                                 end;
     c_responses := merge (merge (r_responses parent) (m_responses m)) (r_responses child);
     c_callbacks := m_callbacks m ++ r_callbacks child;
     c_deprecated := m_deprecated m;
     c_include_in_schema := m_include_in_schema m && r_include_in_schema child;
     c_generate_unique_id_function := match m_generate_unique_id_function m with
                                      | Unset => Placeholder
                                      | s => s
                                      end;
     c_strict_content_type := match r_strict_content_type parent with
                              | Unset => Placeholder
                              | s => s
                              end |}.

(** The routes of the root router have no include context: this one adds only
    the router's own attributes. *)
Definition root_context (R : router_attrs) : ctx :=
  {| c_prefix := []; c_own_prefix := r_prefix R; c_tags := r_tags R;
     c_dependencies := r_dependencies R; c_default_response_class := Placeholder;
     c_responses := r_responses R; c_callbacks := r_callbacks R;
     c_deprecated := None; c_include_in_schema := r_include_in_schema R;
     c_generate_unique_id_function := Placeholder; c_strict_content_type := Placeholder |}.

Section Context.

(** [fastapi.utils.get_value_or_default] at the two types it is used at. *)
Variable value_or_default : setting obj -> setting obj -> setting obj.
Variable flag_or_default : setting bool -> setting bool -> setting bool.

Definition combine (self child : ctx) : ctx :=
  {| c_prefix := c_prefix self ++ c_own_prefix self ++ c_prefix child;
     c_own_prefix := c_own_prefix child;
     c_tags := c_tags self ++ c_tags child;
     c_dependencies := c_dependencies self ++ c_dependencies child;
     c_default_response_class :=
       value_or_default (c_default_response_class child) (c_default_response_class self);
     c_responses := merge (c_responses self) (c_responses child);
     c_callbacks := c_callbacks self ++ c_callbacks child;
     c_deprecated := if truthy (c_deprecated self) then c_deprecated self else c_deprecated child;
     c_include_in_schema := c_include_in_schema self && c_include_in_schema child;
     c_generate_unique_id_function :=
       value_or_default (c_generate_unique_id_function child) (c_generate_unique_id_function self);
     c_strict_content_type :=
       flag_or_default (c_strict_content_type child) (c_strict_content_type self) |}.

Definition path_for (c : ctx) (r : route) : text := c_prefix c ++ c_own_prefix c ++ path r.

(** The route objects below a router in the order of the walk, each with the
    combined context of the includes that lead to it. *)
Definition own_routes (c : ctx) (entries : list entry) : list (ctx * route) :=
  omap (fun e => match e with RouteEntry r => Some (c, r) | _ => None end) entries.

Fixpoint effective (c : ctx) (r : router) {struct r} : list (ctx * route) :=
  match r with
  | Router R entries incs =>
      own_routes c entries ++
      flat_map (fun i => match i with
                         | Include child _ _ m =>
                             effective (combine c (include_context R (attrs_of child) m)) child
                         end) incs
  end.

(** The same for an application: [app.include_router] builds the context of an
    include from the root router and the included one. *)
Definition effective_app (ap : app) : list (ctx * route) :=
  match ap with
  | App A root incs _ =>
      effective (root_context (attrs_of root)) root ++
      flat_map (fun i => match i with
                         | Include child _ _ m =>
                             effective (include_context (attrs_of root) (attrs_of child) m) child
                         end) incs
  end.

End Context.

(** ** OpenAPI *)

(** The keyword arguments [_openapi_real_routes] computes for the real route it
    rebuilds, other than the callback, streaming and response-model ones. *)
Record route_kwargs := {
  k_path : text;
  k_methods : list text;
  k_dependencies : list obj;
  k_tags : list text;
  k_responses : gmap text obj;
  k_deprecated : bool;
  k_operation_id : option text;
  k_include_in_schema : bool;
  k_name : option text }.

Definition http_methods : list text :=
  [lit "GET"; lit "POST"; lit "PUT"; lit "PATCH"; lit "DELETE"; lit "OPTIONS"; lit "HEAD"; lit "TRACE"].

Definition or_list {A} (l k : list A) : list A := match l with [] => k | _ => l end.

Definition openapi_route_kwargs (A : app_attrs) (d : rd) : option route_kwargs :=
  if d_is_websocket d then None
  else
    match d_http d with
    | Some h =>
        match d_route_obj h with
        | Some r =>
            Some {| k_path := d_path d;
                    k_methods := or_list (filter (fun m => m ∈ http_methods) (d_methods d)) (d_methods d);
                    k_dependencies := or_list (default [] (d_combined_dependencies h)) (dependencies r);
                    k_tags := or_list (d_tags d) (tags r);
                    k_responses := merge (a_responses A)
                                     (if decide (d_responses h = ∅) then responses r else d_responses h);
                    k_deprecated := d_deprecated h || truthy (deprecated r);
                    k_operation_id := match d_operation_id h with
                                      | Some (c :: t) => Some (c :: t)
                                      | _ => operation_id r
                                      end;
                    k_include_in_schema := include_in_schema r;
                    k_name := name r |}
        | None => None
        end
    | None => None
    end.

(** [r.get("_from_mount")] as a truth value. *)
Definition from_mount (d : rd) : bool :=
  match d_from_mount d with Some (_ :: _) => true | _ => false end.

(** The rds [openapi] documents: those not of a mounted application. *)
Definition openapi_kwargs (A : app_attrs) (ds : list rd) : list route_kwargs :=
  omap (openapi_route_kwargs A)
       (filter (fun d => from_mount d = false) ds).

(** ** Theorems *)

(** The dependencies an rd runs before its endpoint, when the rd carries them. *)
Definition rd_dependencies (d : rd) : option (list obj) :=
  match d_endpoint d with
  | HWebSocket _ _ deps => Some deps
  | _ => match d_http d with Some h => d_combined_dependencies h | None => None end
  end.

(** What the include context promises of the rd of a route. *)
Definition rd_matches (A : app_attrs) (cr : ctx * route) (d : rd) : Prop :=
  let '(c, r) := cr in
  d_path d = normalise_path (path_for c r) /\
  d_tags d = c_tags c ++ tags r /\
  (forall l, rd_dependencies d = Some l ->
     l = if bypass_deps r then [] else a_dependencies A ++ c_dependencies c ++ dependencies r) /\
  (forall h, d_http d = Some h ->
     d_callbacks h = a_callbacks A ++ c_callbacks c ++ callbacks r /\
     d_responses h = merge (merge (a_responses A) (c_responses c)) (responses r)).

(** The arguments of the walk at a router and its include context agree. *)
Definition args_match (A : app_attrs) (a : args) (R : router_attrs) (c : ctx) : Prop :=
  g_prefix a ++ r_prefix R = c_prefix c ++ c_own_prefix c /\
  g_extra_tags a ++ r_tags R = c_tags c /\
  g_include_deps a ++ r_dependencies R = c_dependencies c /\
  g_include_callbacks a ++ r_callbacks R = a_callbacks A ++ c_callbacks c /\
  merge (g_include_responses a) (r_responses R) = c_responses c.

(** No mounts below the router, and every include as [include_router] stores
    it: the prefix and the tags also in its meta data. *)
Definition is_mount (e : entry) : bool := match e with MountEntry _ _ _ => true | _ => false end.

Fixpoint mount_free (r : router) : bool :=
  match r with
  | Router _ entries incs =>
      forallb (fun e => negb (is_mount e)) entries &&
      forallb (fun i => match i with
                        | Include child p t m =>
                            bool_decide (p = m_prefix m) && bool_decide (t = m_tags m) &&
                            mount_free child
                        end) incs
  end.

Definition mount_free_app (ap : app) : bool :=
  match ap with
  | App _ root incs mounts =>
      mount_free root &&
      forallb (fun i => match i with
                        | Include child p t m =>
                            bool_decide (p = m_prefix m) && bool_decide (t = m_tags m) &&
                            mount_free child
                        end) incs &&
      match mounts with [] => true | _ => false end
  end.

(** Induction over the includes of a router. *)
Lemma router_includes_ind (P : router -> Prop) :
  (forall R es incs,
     Forall (fun i => match i with Include child _ _ _ => P child end) incs ->
     P (Router R es incs)) ->
  forall r, P r.
Proof.
  intros H. fix IH 1. intros [R es incs]. apply H.
  induction incs as [|[child p t m] incs IHi]; constructor; [apply IH|exact IHi].
Qed.

Lemma merge_assoc x y z : merge x (merge y z) = merge (merge x y) z.
Proof. unfold merge. by rewrite (assoc_L (∪)). Qed.

Lemma merge_absorb x y z : merge (merge x y) (merge y z) = merge (merge x y) z.
Proof. unfold merge. rewrite <-!(assoc_L (∪)). f_equal. by rewrite (assoc_L (∪)), (idemp_L (∪)). Qed.

Lemma gather_inv {X} (f : X -> res out) x l o :
  gather f (x :: l) = Ok o ->
  exists o1 o2, f x = Ok o1 /\ gather f l = Ok o2 /\ o = o_app o1 o2.
Proof.
  simpl. intros (o1 & H1 & (o2 & H2 & [= <-])%res_bind_Ok)%res_bind_Ok. eauto 6.
Qed.

(** The rds of a [gather] correspond to a list of expectations when those of
    every element do. *)
Lemma gather_Forall2 {X Y} (f : X -> res out) (g : X -> list Y) (P : Y -> rd -> Prop) l o :
  (forall x, x ∈ l -> forall o', f x = Ok o' -> Forall2 P (g x) (o_rds o')) ->
  gather f l = Ok o -> Forall2 P (flat_map g l) (o_rds o).
Proof.
  revert o; induction l as [|x l IH]; intros o Hf Hg.
  - simpl in Hg. simplify_eq. constructor.
  - apply gather_inv in Hg as (o1 & o2 & H1 & H2 & ->). simpl.
    apply Forall2_app; [eapply Hf; [left|done]|]. apply IH; [|done].
    intros y Hy. apply Hf. by right.
Qed.

Lemma own_routes_flat c es :
  own_routes c es = flat_map (fun e => match e with RouteEntry r => [(c, r)] | _ => [] end) es.
Proof. induction es as [|[] es IH]; simpl; [done|..]; by rewrite <-?IH. Qed.

#[local] Ltac rd_fields :=
  split_and!; unfold rd_dependencies; simpl; intros;
  repeat match goal with H : Some _ = Some _ |- _ => injection H as <- end;
  simpl; try done; try split; congruence.

Section Theorems.

Context (callable : obj -> bool) (call_gen : obj -> route -> res text)
        (call_gen_legacy : obj -> route -> text -> res text)
        (value_or_default : setting obj -> setting obj -> setting obj)
        (flag_or_default : setting bool -> setting bool -> setting bool).

#[local] Notation collect_route' := (collect_route callable call_gen call_gen_legacy).
#[local] Notation collect_entry' := (collect_entry callable call_gen call_gen_legacy).
#[local] Notation collect_include' := (collect_include callable call_gen call_gen_legacy).
#[local] Notation collect' := (_collect_routes_from_router callable call_gen call_gen_legacy).
#[local] Notation collect_all' := (_collect_all_routes callable call_gen call_gen_legacy).
#[local] Notation effective' := (effective value_or_default flag_or_default).

Lemma collect_route_matches A a R c r o :
  args_match A a R c -> collect_route' A a R r = Ok o ->
  Forall2 (rd_matches A) [(c, r)] (o_rds o).
Proof.
  intros (Hp & Ht & Hd & Hc & Hr). unfold collect_route. cbv zeta.
  intros (d & Hrd & [= <-])%res_bind_Ok.
  assert (rd_matches A (c, r) d) as Hm; [|destruct (dispatch_customized r); apply Forall2_cons; (split; [exact Hm|constructor])].
  assert (Hpath : (g_prefix a ++ r_prefix R) ++ path r = path_for c r)
    by (unfold path_for; by rewrite Hp, <-app_assoc).
  assert (Htags : effective_tags a R r = c_tags c ++ tags r)
    by (unfold effective_tags; by rewrite Ht).
  assert (Hdeps : _get_all_dependencies_for_route A R r (g_include_deps a) =
    if bypass_deps r then [] else a_dependencies A ++ c_dependencies c ++ dependencies r)
    by (unfold _get_all_dependencies_for_route; by rewrite <-Hd, <-app_assoc).
  assert (Hcb : effective_callbacks a R r = a_callbacks A ++ c_callbacks c ++ callbacks r)
    by (unfold effective_callbacks; by rewrite Hc, <-app_assoc).
  assert (Hresp : effective_responses A a R r = merge (merge (a_responses A) (c_responses c)) (responses r))
    by (unfold effective_responses; by rewrite <-Hr, merge_assoc).
  rewrite Hpath in Hrd.
  destruct (is_websocket r); [|destruct (starlette_passthrough r);
    [|destruct (overrides_get_route_handler r)]].
  - injection Hrd as <-. rd_fields.
  - injection Hrd as <-. rd_fields.
  - apply res_bind_Ok in Hrd as (opid & _ & [= <-]). rd_fields.
  - apply res_bind_Ok in Hrd as (opid & _ & [= <-]). rd_fields.
Qed.

Lemma collect_entry_matches A a R c e o :
  args_match A a R c -> is_mount e = false -> collect_entry' A a R e = Ok o ->
  Forall2 (rd_matches A) (match e with RouteEntry r => [(c, r)] | _ => [] end) (o_rds o).
Proof.
  intros Hm Hn He. destruct e; simpl in *; simplify_eq; try constructor.
  by eapply collect_route_matches.
Qed.

Lemma exclude_subtree_matches A b l o :
  Forall2 (rd_matches A) l (o_rds o) -> Forall2 (rd_matches A) l (o_rds (exclude_subtree b o)).
Proof.
  destruct b; [|done]. simpl. intros H. apply Forall2_fmap_r.
  eapply Forall2_impl; [exact H|]. by intros [c r] d.
Qed.

Lemma child_args_match A a R c child m :
  args_match A a R c ->
  args_match A (child_args a R (m_prefix m) (m_tags m) m) (attrs_of child)
    (combine value_or_default flag_or_default c (include_context R (attrs_of child) m)).
Proof.
  intros (Hp & Ht & Hd & Hc & Hr). split_and!; simpl.
  - by rewrite Hp, <-!app_assoc.
  - by rewrite Ht, <-!app_assoc.
  - by rewrite <-Hd, <-!app_assoc.
  - by rewrite Hc, <-!app_assoc.
  - rewrite <-Hr. by rewrite <-(merge_assoc (r_responses R)), merge_absorb, merge_assoc.
Qed.

Lemma collect_router_matches r : forall A a c o,
  args_match A a (attrs_of r) c -> mount_free r = true -> collect' A a r = Ok o ->
  Forall2 (rd_matches A) (effective' c r) (o_rds o).
Proof.
  induction r as [R es incs IH] using router_includes_ind. intros A a c o Hm Hf.
  simpl in Hf. apply andb_true_iff in Hf as [He Hi].
  rewrite forallb_forall in He. rewrite forallb_forall in Hi.
  simpl. intros (o1 & H1 & (o2 & H2 & [= <-])%res_bind_Ok)%res_bind_Ok.
  simpl. apply Forall2_app.
  - rewrite own_routes_flat. eapply gather_Forall2; [|exact H1].
    intros e Hin o' Ho'. eapply collect_entry_matches; [done| |done].
    apply negb_true_iff, He, list_elem_of_In, Hin.
  - eapply gather_Forall2; [|exact H2]. intros [child p t m] Hin o' Ho'.
    rewrite Forall_forall in IH. specialize (IH _ Hin). simpl in IH.
    apply list_elem_of_In, Hi in Hin. simpl in Ho', Hin.
    apply andb_true_iff in Hin as [[->%bool_decide_eq_true ->%bool_decide_eq_true]%andb_true_iff Hc].
    apply res_bind_Ok in Ho' as (o'' & Ho'' & [= <-]).
    apply exclude_subtree_matches. eapply IH; [|done|exact Ho''].
    by apply child_args_match.
Qed.

(** C1: for every application without mounts, the rds that
    [_collect_all_routes] flattens correspond one to one, in order, to the
    routes of the include tree with the context that [combine] accumulates
    along their includes: the path is the normalised [path_for], tags are the
    context's then the route's, dependencies and callbacks are the
    application's, the context's, then the route's, and responses are merged in
    that order.  This is the agreement [_append_included_router] relies on. *)
Theorem flatten_agrees_with_include_context A root incs mounts o :
  mount_free_app (App A root incs mounts) = true ->
  r_responses (attrs_of root) = ∅ ->
  collect_all' (App A root incs mounts) = Ok o ->
  Forall2 (rd_matches A) (effective_app value_or_default flag_or_default (App A root incs mounts)) (o_rds o).
Proof.
  intros Hf Hroot. simpl in Hf. repeat rewrite andb_true_iff in Hf. destruct Hf as [[Hr Hi] Hm].
  rewrite forallb_forall in Hi. destruct mounts; [clear Hm|done].
  simpl. intros (o1 & H1 & (o2 & H2 & [= <-])%res_bind_Ok)%res_bind_Ok. simpl.
  rewrite app_nil_r. apply Forall2_app.
  - eapply collect_router_matches; [|done|exact H1]. split_and!; simpl; try done.
    unfold merge. by rewrite (right_id_L ∅ (∪)).
  - eapply gather_Forall2; [|exact H2]. intros [child p t m] Hin%list_elem_of_In%Hi o' Ho'.
    simpl in Ho', Hin.
    apply andb_true_iff in Hin as [[->%bool_decide_eq_true ->%bool_decide_eq_true]%andb_true_iff Hc].
    apply res_bind_Ok in Ho' as (o'' & Ho'' & [= <-]).
    apply exclude_subtree_matches. eapply collect_router_matches; [|done|exact Ho''].
    split_and!; simpl; rewrite ?app_assoc; try done.
    rewrite Hroot. unfold merge. by rewrite (right_id_L ∅ (∪)).
Qed.

End Theorems.

(** *** Paths *)

Lemma strip_slash_normalise p :
  strip_by is_slash (normalise_path p) = strip_by is_slash p.
Proof.
  unfold normalise_path. case_bool_decide; [done|].
  change ("/"%char :: strip_by is_slash p) with ([ "/"%char ] ++ strip_by is_slash p).
  rewrite <-app_assoc. apply strip_by_wrap.
  - by repeat constructor.
  - destruct (ends_with "/" p); by repeat constructor.
  - apply strip_by_idemp.
Qed.

Lemma ends_with_app s l : ends_with s (l ++ s) = true.
Proof. apply ends_with_spec. by exists l. Qed.

(** A stripped text that is not empty does not end with a slash. *)
Lemma strip_slash_end p c :
  ends_with "/" (c :: strip_by is_slash p) = true -> strip_by is_slash p = [].
Proof.
  intros [r Hr]%ends_with_spec. destruct r as [|d r].
  - by injection Hr.
  - injection Hr as _ Hr. pose proof (rstrip_by_idemp is_slash (lstrip_by is_slash p)) as Hs.
    fold (strip_by is_slash p) in Hs. rewrite Hr in Hs. exfalso.
    rewrite rstrip_by_app in Hs by (by repeat constructor).
    destruct (rstrip_by_prefix is_slash r) as (k & Hk & _).
    rewrite Hs in Hk. apply (f_equal length) in Hk. rewrite !length_app in Hk. simpl in Hk. lia.
Qed.

Lemma ends_with_normalise p :
  strip_by is_slash p <> [] -> ends_with "/" (normalise_path p) = ends_with "/" p.
Proof.
  intros Hs. unfold normalise_path. case_bool_decide as E; [by subst|].
  destruct (ends_with "/" p); [apply ends_with_app|]. rewrite app_nil_r.
  destruct (ends_with "/" ("/"%char :: strip_by is_slash p)) eqn:E'; [|done].
  by apply strip_slash_end in E'.
Qed.

Lemma normalise_idemp p : normalise_path (normalise_path p) = normalise_path p.
Proof.
  destruct (decide (strip_by is_slash p = [])) as [Hs|Hs].
  - unfold normalise_path at 2 3. case_bool_decide as E; [by subst|].
    rewrite Hs. destruct (ends_with "/" p); done.
  - pose proof (strip_slash_normalise p) as Hn. pose proof (ends_with_normalise p Hs) as He.
    unfold normalise_path at 1. rewrite Hn, He.
    case_bool_decide as E; [done|]. unfold normalise_path. rewrite bool_decide_eq_false_2; [done|].
    intros ->. by apply Hs.
Qed.

(** the path normalisation of the walk always gives a path with a leading
    slash, is idempotent, keeps the text between the outer slashes and, when
    there is any, keeps or omits the trailing slash as the declared path did. *)
Theorem collected_path_normal_form p :
  starts_with "/" (normalise_path p) = true /\
  normalise_path (normalise_path p) = normalise_path p /\
  strip_by is_slash (normalise_path p) = strip_by is_slash p /\
  (strip_by is_slash p <> [] -> ends_with "/" (normalise_path p) = ends_with "/" p).
Proof.
  split_and!.
  - unfold normalise_path. case_bool_decide as E; [by rewrite E|done].
  - apply normalise_idemp.
  - apply strip_slash_normalise.
  - apply ends_with_normalise.
Qed.

Lemma strip_by_ends p c m d :
  p c = false -> p d = false -> strip_by p (c :: m ++ [d]) = c :: m ++ [d].
Proof.
  intros Hc Hd. unfold strip_by. rewrite (lstrip_by_fixed p (c :: m ++ [d])) by done.
  unfold rstrip_by. rewrite lstrip_by_fixed, reverse_involutive; [done|].
  by rewrite app_comm_cons, reverse_snoc.
Qed.

(** No mounted [FastAPI] application below. *)
Fixpoint no_sub_app (r : router) : bool :=
  match r with
  | Router _ es incs =>
      forallb no_sub_app_entry es &&
      forallb (fun i => match i with Include child _ _ _ => no_sub_app child end) incs
  end
with no_sub_app_entry (e : entry) : bool :=
  match e with
  | MountEntry _ _ m => no_sub_app_mounted m
  | _ => true
  end
with no_sub_app_mounted (m : mounted) : bool :=
  match m with
  | MFastAPI _ => false
  | MRouter r => no_sub_app r
  | _ => true
  end.

Definition no_sub_app_app (ap : app) : bool :=
  match ap with
  | App _ root incs mounts =>
      no_sub_app root &&
      forallb (fun i => match i with Include child _ _ _ => no_sub_app child end) incs &&
      forallb (fun pm => no_sub_app_mounted pm.2) mounts
  end.

(** Induction over the includes and the mounted routers. *)
Lemma router_sub_ind (P : router -> Prop) :
  (forall R es incs,
     Forall (fun e => match e with MountEntry _ _ (MRouter r) => P r | _ => True end) es ->
     Forall (fun i => match i with Include child _ _ _ => P child end) incs ->
     P (Router R es incs)) ->
  forall r, P r.
Proof.
  intros H. fix IH 1. intros [R es incs]. apply H.
  - induction es as [|e es IHe]; constructor; [|exact IHe].
    destruct e as [| |p n m|r]; try exact I. destruct m as [s|r|c|]; try exact I. apply IH.
  - induction incs as [|[child p t m] incs IHi]; constructor; [apply IH|exact IHi].
Qed.

Section Collected.

Context (callable : obj -> bool) (call_gen : obj -> route -> res text)
        (call_gen_legacy : obj -> route -> text -> res text).

#[local] Notation collect_route' := (collect_route callable call_gen call_gen_legacy).
#[local] Notation collect_entry' := (collect_entry callable call_gen call_gen_legacy).
#[local] Notation collect' := (_collect_routes_from_router callable call_gen call_gen_legacy).
#[local] Notation collect_all' := (_collect_all_routes callable call_gen call_gen_legacy).

(** a router prefix with a trailing slash joined to a route path leaves
    two slashes in the collected path ("/api/" and "/items" give
    "/api//items"), although the comment of the normalisation names exactly
    this join as what it repairs. *)
Theorem double_slash_at_join_kept A a R r o c1 m1 m2 c2 :
  is_slash c1 = false -> is_slash c2 = false ->
  g_prefix a = [] -> r_prefix R = lit "/" ++ c1 :: m1 ++ lit "/" ->
  path r = lit "/" ++ m2 ++ [c2] ->
  collect_route' A a R r = Ok o ->
  exists d, o_rds o = [d] /\ d_path d = lit "/" ++ c1 :: m1 ++ lit "//" ++ m2 ++ [c2].
Proof.
  intros H1 H2 Hg HR Hp. unfold collect_route. cbv zeta.
  assert (normalise_path ((g_prefix a ++ r_prefix R) ++ path r) =
          lit "/" ++ c1 :: m1 ++ lit "//" ++ m2 ++ [c2]) as ->.
  { rewrite Hg, HR, Hp. simpl.
    replace ("/"%char :: c1 :: (m1 ++ ["/"%char]) ++ "/"%char :: m2 ++ [c2])
      with (["/"%char] ++ (c1 :: (m1 ++ lit "//" ++ m2) ++ [c2]) ++ [])
      by (by rewrite app_nil_r; simpl; rewrite <-!app_assoc).
    unfold normalise_path. rewrite bool_decide_eq_false_2 by done.
    rewrite strip_by_wrap by (try apply strip_by_ends; by repeat constructor).
    destruct (ends_with "/" _) eqn:E.
    - apply ends_with_spec in E as [k Hk]. rewrite app_nil_r, app_comm_cons, app_assoc in Hk.
      apply app_inj_2 in Hk as [_ [= ->]]; done.
    - rewrite app_nil_r. simpl. by rewrite <-!app_assoc. }
  intros (d & Hrd & [= <-])%res_bind_Ok. exists d.
  split; [by destruct (dispatch_customized r)|].
  destruct (is_websocket r); [by simplify_eq/=|].
  destruct (starlette_passthrough r); [by simplify_eq/=|].
  destruct (overrides_get_route_handler r);
    apply res_bind_Ok in Hrd as (? & _ & [= <-]); done.
Qed.

(** *** Routes the door does not serve *)

(** Every excluded rd is announced by the fallback flag. *)
Definition covered (o : out) : Prop :=
  forall d, d ∈ o_rds o -> d_door_exclude d = true -> o_fallback o = true.

Lemma covered_app x y : covered x -> covered y -> covered (o_app x y).
Proof.
  intros Hx Hy d Hd He. simpl in *. apply elem_of_app in Hd as [Hd|Hd].
  - by rewrite (Hx d Hd He).
  - rewrite (Hy d Hd He). apply orb_true_r.
Qed.

Lemma covered_gather {X} (f : X -> res out) l o :
  (forall x, x ∈ l -> forall o', f x = Ok o' -> covered o') ->
  gather f l = Ok o -> covered o.
Proof.
  revert o; induction l as [|x l IH]; intros o Hf Hg.
  - simpl in Hg. simplify_eq. intros d Hd. simpl in Hd. by apply not_elem_of_nil in Hd.
  - apply gather_inv in Hg as (o1 & o2 & H1 & H2 & ->).
    apply covered_app; [eapply Hf; [left|done]|]. apply IH; [|done].
    intros y Hy. apply Hf. by right.
Qed.

Lemma covered_asgi p c : covered (o_many (_build_asgi_mount_routes p c)).
Proof.
  intros d Hd He. exfalso. simpl in Hd. unfold _build_asgi_mount_routes in Hd.
  assert (forall ps acc, (forall d, d ∈ acc -> d_door_exclude d = false) ->
    forall d, d ∈ foldl (fun acc p0 => if existsb (fun d0 => bool_decide (d_path d0 = p0)) acc then acc
           else acc ++ (asgi_rd (rstrip_slash p) c p0 <$> asgi_methods)) acc ps ->
    d_door_exclude d = false) as Hfold.
  { induction ps as [|q ps IH]; intros acc Hacc d' Hd'; cbn [foldl] in Hd'; [by apply Hacc|].
    eapply IH; [|exact Hd']. destruct (existsb _ acc); [done|].
    intros d'' [Hd''|Hd'']%elem_of_app; [by apply Hacc|].
    apply list_elem_of_fmap in Hd'' as (m & -> & _). done. }
  rewrite (Hfold _ [] (fun d Hd => False_ind _ (not_elem_of_nil d Hd)) d Hd) in He. done.
Qed.

Lemma covered_route A a R r o : collect_route' A a R r = Ok o -> covered o.
Proof.
  unfold collect_route. cbv zeta. intros (d & Hrd & [= <-])%res_bind_Ok d' Hd' He.
  destruct (dispatch_customized r) eqn:E; [done|]. exfalso.
  apply list_elem_of_singleton in Hd' as ->.
  destruct (is_websocket r); [by simplify_eq/=|].
  destruct (starlette_passthrough r); [injection Hrd as <-; simpl in He; congruence|].
  destruct (overrides_get_route_handler r);
    apply res_bind_Ok in Hrd as (? & _ & [= <-]); simpl in He; congruence.
Qed.

Lemma covered_exclude b o : covered o -> covered (exclude_subtree b o).
Proof. by destruct b. Qed.

Lemma covered_mount_entry A a R p n r o :
  (forall a' o', collect' A a' r = Ok o' -> covered o') ->
  collect_entry' A a R (MountEntry p n (MRouter r)) = Ok o -> covered o.
Proof. intros H Ho. simpl in Ho. by eapply H. Qed.

Lemma covered_router r : forall A a o,
  no_sub_app r = true -> collect' A a r = Ok o -> covered o.
Proof.
  induction r as [R es incs IHe IHi] using router_sub_ind. intros A a o Hn.
  simpl in Hn. apply andb_true_iff in Hn as [He Hi].
  rewrite forallb_forall in He. rewrite forallb_forall in Hi.
  rewrite Forall_forall in IHe. rewrite Forall_forall in IHi.
  simpl. intros (o1 & H1 & (o2 & H2 & [= <-])%res_bind_Ok)%res_bind_Ok.
  apply covered_app; eapply covered_gather; [|exact H1| |exact H2].
  - intros e Hin o' Ho'. pose proof (IHe _ Hin) as IH.
    apply list_elem_of_In, He in Hin.
    destruct e as [| |p n m|r]; simpl in Hin.
    + simpl in Ho'. simplify_eq. intros d Hd. by apply not_elem_of_nil in Hd.
    + simpl in Ho'. simplify_eq. by intros d Hd.
    + destruct m as [s|r'|c|]; [done| | |].
      * eapply covered_mount_entry; [|exact Ho']. intros a' o''. by apply IH.
      * simpl in Ho'. injection Ho' as <-. apply covered_asgi.
      * simpl in Ho'. simplify_eq. intros d Hd. by apply not_elem_of_nil in Hd.
    + simpl in Ho'. by eapply covered_route.
  - intros [child p t m] Hin o' Ho'. pose proof (IHi _ Hin) as IH.
    apply list_elem_of_In, Hi in Hin. simpl in Ho', Hin, IH.
    apply res_bind_Ok in Ho' as (o'' & Ho'' & [= <-]).
    apply covered_exclude. by eapply IH.
Qed.

(** C12: in an application without mounted applications, whenever some
    collected route is excluded from the door (it or a router above it
    overrides [matches] or [handle]), the walk has set
    [_door_needs_route_fallback], so the 404 fallback that serves it is
    installed. *)
Theorem excluded_routes_have_fallback ap o :
  no_sub_app_app ap = true -> collect_all' ap = Ok o ->
  forall d, d ∈ o_rds o -> d_door_exclude d = true -> o_fallback o = true.
Proof.
  destruct ap as [A root incs mounts]. simpl. intros Hn.
  repeat rewrite andb_true_iff in Hn. destruct Hn as [[Hr Hi] Hm].
  rewrite forallb_forall in Hi. rewrite forallb_forall in Hm.
  intros (o1 & H1 & (o2 & H2 & (o3 & H3 & [= <-])%res_bind_Ok)%res_bind_Ok)%res_bind_Ok.
  apply (covered_app o1 (o_app o2 o3)); [|apply covered_app].
  - by eapply covered_router.
  - eapply covered_gather; [|exact H2]. intros [child p t m] Hin%list_elem_of_In%Hi o' Ho'.
    simpl in Ho', Hin. apply res_bind_Ok in Ho' as (o'' & Ho'' & [= <-]).
    apply covered_exclude. by eapply covered_router.
  - eapply covered_gather; [|exact H3]. intros [p m] Hin%list_elem_of_In%Hm o' Ho'.
    destruct m as [s|r|c|]; simpl in Hin, Ho'; [done|..].
    + by eapply covered_router.
    + injection Ho' as <-. apply covered_asgi.
    + simplify_eq. intros d Hd. by apply not_elem_of_nil in Hd.
Qed.

End Collected.

(** *** Where the flatten, the schema and the include context part *)

Section Divergences.

Context (callable : obj -> bool) (call_gen : obj -> route -> res text)
        (call_gen_legacy : obj -> route -> text -> res text)
        (value_or_default : setting obj -> setting obj -> setting obj)
        (flag_or_default : setting bool -> setting bool -> setting bool).

#[local] Notation collect_all' := (_collect_all_routes callable call_gen call_gen_legacy).
#[local] Notation collect_top_include' := (collect_top_include callable call_gen call_gen_legacy).

(** An ordinary [APIRoute]. *)
Definition api_route (r : route) : bool :=
  negb (is_websocket r) && negb (starlette_passthrough r) && negb (overrides_get_route_handler r).

Lemma collect_api_route A a R r o :
  api_route r = true ->
  collect_route callable call_gen call_gen_legacy A a R r = Ok o ->
  exists d, o_rds o = [d] /\
    api_rd callable call_gen call_gen_legacy A a R r
      (normalise_path ((g_prefix a ++ r_prefix R) ++ path r)) = Ok d.
Proof.
  unfold api_route, collect_route. rewrite !andb_true_iff, !negb_true_iff. cbv zeta.
  intros [[-> ->] ->] (d & Hrd & [= <-])%res_bind_Ok. exists d.
  split; [by destruct (dispatch_customized r)|done].
Qed.

(** that guarantee is lost across a mount: when a mounted application has
    an excluded route, the mounting application's rds contain it, excluded from
    the door, but the walk leaves the mounting application's flag unset. *)
Theorem mounted_app_hooks_have_no_fallback A R p s os d :
  _collect_all_routes callable call_gen call_gen_legacy s = Ok os -> d ∈ o_rds os -> d_door_exclude d = true ->
  exists o,
    _collect_all_routes callable call_gen call_gen_legacy
      (App A (Router R [] []) [] [(p, MFastAPI s)]) = Ok o /\
    (exists d', d' ∈ o_rds o /\ d_door_exclude d' = true) /\ o_fallback o = false.
Proof.
  intros Hs Hd He. eexists. split; [simpl; by rewrite Hs|]. split.
  - exists (mounted_rd (rstrip_slash p) p d). split; [|done].
    simpl. rewrite app_nil_r. apply elem_of_app. left. by apply list_elem_of_fmap_2.
  - simpl. destruct s as [A' root incs mounts]. unfold sub_openapi.
    by destruct (a_openapi_url A') as [[|]|].
Qed.

(** [include_router(..., include_in_schema=False)] is recorded on the rds
    but not honoured by the schema: the real route rebuilt for OpenAPI takes
    the flag of the route object alone. *)
Theorem schema_ignores_include_flag A R p t m r o :
  api_route r = true -> m_include_in_schema m = false ->
  collect_top_include' A (Include (Router R [RouteEntry r] []) p t m) = Ok o ->
  exists d k, o_rds o = [d] /\ d_include_in_schema d = false /\
    openapi_kwargs A (o_rds o) = [k] /\ k_include_in_schema k = include_in_schema r.
Proof.
  intros Hr Hm. simpl. intros (o1 & H1 & [= <-])%res_bind_Ok.
  apply res_bind_Ok in H1 as (o2 & (o3 & H3 & [= <-])%res_bind_Ok & [= <-]).
  apply collect_api_route in H3 as (d & Hd & (opid & _ & [= <-])%res_bind_Ok); [|done].
  destruct (r_dispatch_customized R); simpl; rewrite Hd; simpl;
    do 2 eexists; split_and!; try done; simpl; rewrite Hm; by rewrite andb_false_r.
Qed.

(** an include with [deprecated=False] inside an include with
    [deprecated=True] is collected as not deprecated, while the combined include
    context says it is deprecated: here the two descriptions of one route
    disagree. *)
Theorem nested_deprecation_diverges A root P C pp pt pm p t m r o :
  api_route r = true -> deprecated r = None ->
  r_deprecated P = None -> r_deprecated C = None ->
  m_deprecated pm = Some true -> m_deprecated m = Some false ->
  collect_top_include' A
    (Include (Router P [] [Include (Router C [RouteEntry r] []) p t m]) pp pt pm) = Ok o ->
  exists d h c, o_rds o = [d] /\ d_http d = Some h /\ d_deprecated h = false /\
    effective value_or_default flag_or_default (include_context root P pm)
      (Router P [] [Include (Router C [RouteEntry r] []) p t m]) = [(c, r)] /\
    c_deprecated c = Some true.
Proof.
  intros Hr Hd HP HC Hpm Hm. simpl. intros (o1 & H1 & [= <-])%res_bind_Ok.
  apply res_bind_Ok in H1 as (o2 & (o3 & H3 & [= <-])%res_bind_Ok & [= <-]).
  apply res_bind_Ok in H3 as (o4 & (o5 & H5 & [= <-])%res_bind_Ok & [= <-]).
  apply res_bind_Ok in H5 as (o6 & H6 & [= <-]).
  apply collect_api_route in H6 as (d & Ho & (opid & _ & [= <-])%res_bind_Ok); [|done].
  destruct (r_dispatch_customized P), (r_dispatch_customized C); simpl; rewrite Ho; simpl;
    do 3 eexists; split_and!; try done; simpl;
    unfold effective_deprecated; simpl; rewrite ?Hd, ?HC, ?Hm, ?Hpm; done.
Qed.

(** The functions the cascade asks, nearest first. *)
Definition gen_id_levels (A : app_attrs) (a : args) (R : router_attrs) (r : route) : list obj :=
  omap _unset_to_none
    [generate_unique_id_function r; r_generate_unique_id_function R;
     g_include_generate_unique_id_function a; a_generate_unique_id_function A].

(** the operation id of a collected route is its own non-empty
    [operation_id], else what the nearest given function among route, router,
    include and application returns for the route; a [TypeError] leads to the
    two-argument call, any other exception leaves the walk, and a route outside
    the schema gets none. *)
Theorem operation_id_cascade A a R r :
  effective_operation_id callable call_gen call_gen_legacy A a R r =
  match operation_id r, gen_id_levels A a R r with
  | Some (c :: t), _ => Ok (Some (c :: t))
  | _, f :: _ =>
      if callable f && include_in_schema r then
        match call_gen f r with
        | Ok t => Ok (Some t)
        | Raise TypeError =>
            match call_gen_legacy f r (lower (default (lit "GET") (head (methods r)))) with
            | Ok t => Ok (Some t)
            | Raise e => Raise e
            end
        | Raise e => Raise e
        end
      else Ok None
  | _, [] => Ok None
  end.
Proof.
  unfold effective_operation_id, _apply_generate_unique_id, gen_id_levels, gen_id_function.
  destruct (operation_id r) as [[|c t]|]; [|done|];
    destruct (generate_unique_id_function r); simpl;
    destruct (r_generate_unique_id_function R); simpl;
    destruct (g_include_generate_unique_id_function a); simpl;
    destruct (a_generate_unique_id_function A); simpl; try done;
    destruct (callable _); simpl; try done; destruct (include_in_schema r); simpl; try done;
    destruct (call_gen _ r) as [|[]]; done.
Qed.

End Divergences.

(** *** Witnesses *)

Module Sample.

Definition docs0 : route_docs :=
  {| summary := None; description := None; response_description := lit "Successful Response";
     openapi_extra := None; security := None; servers := None; external_docs := None |}.

(** [APIRoute(p, ep, name=n)]; [hooks] says the class overrides [matches]. *)
Definition route0 (p : text) (n : string) (hooks : bool) : route :=
  {| path := p; methods := [lit "GET"]; endpoint := 1%nat; endpoint_is_async := true;
     name := Some (lit n); tags := [lit "route"]; dependencies := [13%nat]; status_code := None;
     docs := docs0; responses := {[ lit "404" := 3%nat ]}; response_model := None;
     response_class := Placeholder; strict_content_type := Placeholder; deprecated := None;
     operation_id := None; include_in_schema := true; generate_unique_id_function := Unset;
     callbacks := [23%nat]; is_websocket := false; starlette_passthrough := false;
     overrides_get_route_handler := false; dispatch_customized := hooks; bypass_deps := false |}.

(** [APIRouter(prefix=p, tags=["router"], ...)] *)
Definition attrs0 (p : text) : router_attrs :=
  {| r_prefix := p; r_tags := [lit "router"]; r_dependencies := [12%nat];
     r_default_response_class := Unset; r_responses := {[ lit "404" := 2%nat; lit "500" := 2%nat ]};
     r_deprecated := None; r_include_in_schema := true; r_callbacks := [22%nat];
     r_generate_unique_id_function := Unset; r_strict_content_type := Unset;
     r_dispatch_customized := false; r_mounts := [] |}.

(** [APIRouter()] *)
Definition attrs_root : router_attrs :=
  {| r_prefix := []; r_tags := []; r_dependencies := []; r_default_response_class := Unset;
     r_responses := ∅; r_deprecated := None; r_include_in_schema := true; r_callbacks := [];
     r_generate_unique_id_function := Unset; r_strict_content_type := Unset;
     r_dispatch_customized := false; r_mounts := [] |}.

Definition meta0 (p : text) (dep : option bool) (schema : bool) : include_meta :=
  {| m_prefix := p; m_tags := [lit "include"]; m_dependencies := [11%nat];
     m_responses := {[ lit "404" := 1%nat ]}; m_deprecated := dep; m_include_in_schema := schema;
     m_default_response_class := None; m_generate_unique_id_function := Unset;
     m_callbacks := [21%nat] |}.

Definition include0 (child : router) (p : text) (dep : option bool) (schema : bool) : include :=
  Include child p [lit "include"] (meta0 p dep schema).

Definition app0 : app_attrs :=
  {| a_id := 7%nat; a_dependencies := [10%nat]; a_responses := {[ lit "400" := 0%nat ]};
     a_callbacks := [20%nat]; a_default_response_class := None;
     a_generate_unique_id_function := Unset; a_strict_content_type := true;
     a_http_middlewares := []; a_openapi_url := Some (lit "/openapi.json"); a_root_path := [] |}.

(** An application with a router included two deep. *)
Definition nested (dep' : option bool) : router :=
  Router (attrs0 "/parent") [Marker]
    [include0 (Router (attrs0 "/child") [RouteEntry (route0 "/items" "items" false)] [])
       "/inner" dep' true].

Definition two_deep : app :=
  App app0 (Router attrs_root [RouteEntry (route0 "/" "root" false); Marker] [])
    [include0 (nested None) "/api" None true] [].

Definition hooked : app :=
  App app0 (Router attrs_root [RouteEntry (route0 "/hooked" "hooked" true)] []) [] [].

(** No function is called in these. *)
Definition no_callable (_ : obj) : bool := false.
Definition no_gen (_ : obj) (_ : route) : res text := Raise TypeError.
Definition no_gen_legacy (_ : obj) (_ : route) (_ : text) : res text := Raise TypeError.

(** First value that is not a placeholder, else the first. *)
Definition first_given {A} (x y : setting A) : setting A :=
  match x with Placeholder => match y with Placeholder => x | _ => y end | _ => x end.

Definition run_all (ap : app) : out :=
  match _collect_all_routes no_callable no_gen no_gen_legacy ap with Ok o => o | Raise _ => o_nil end.

End Sample.
Import Sample.

Example two_deep_collected :
  (fun d => (d_path d, d_tags d, rd_dependencies d)) <$> o_rds (run_all two_deep) =
  [ (lit "/", [lit "route"], Some [10; 13]%nat);
    (lit "/api/parent/inner/child/items",
     [lit "include"; lit "router"; lit "include"; lit "router"; lit "route"],
     Some [10; 11; 12; 11; 12; 13]%nat) ].
Proof. vm_compute. reflexivity. Qed.

Lemma flatten_agrees_with_include_context_witness :
  Forall2 (rd_matches app0) (effective_app first_given first_given two_deep) (o_rds (run_all two_deep)) /\
  length (o_rds (run_all two_deep)) = 2%nat.
Proof.
  split; [|reflexivity].
  apply (flatten_agrees_with_include_context no_callable no_gen no_gen_legacy
           first_given first_given); reflexivity.
Defined.

Lemma double_slash_at_join_kept_witness :
  exists o d, collect_route no_callable no_gen no_gen_legacy app0 (no_args [] [])
      (attrs0 "/api/") (route0 "/items" "items" false) = Ok o /\
    o_rds o = [d] /\ d_path d = lit "/api//items".
Proof.
  eexists. destruct (double_slash_at_join_kept no_callable no_gen no_gen_legacy
    app0 (no_args [] []) (attrs0 "/api/") (route0 "/items" "items" false) _
    "a" (lit "pi") (lit "item") "s" eq_refl eq_refl eq_refl eq_refl eq_refl eq_refl) as (d & H1 & H2).
  exists d. split; [reflexivity|]. split; [exact H1|exact H2].
Defined.

Lemma excluded_routes_have_fallback_witness :
  exists d, o_rds (run_all hooked) = [d] /\ d_door_exclude d = true /\
    o_fallback (run_all hooked) = true.
Proof.
  eexists. split; [reflexivity|]. split; [reflexivity|].
  eapply (excluded_routes_have_fallback no_callable no_gen no_gen_legacy hooked);
    [reflexivity|reflexivity|left|reflexivity].
Defined.

Lemma mounted_app_hooks_have_no_fallback_witness :
  exists o, _collect_all_routes no_callable no_gen no_gen_legacy
      (App app0 (Router attrs_root [] []) [] [(lit "/sub", MFastAPI hooked)]) = Ok o /\
    (exists d', d' ∈ o_rds o /\ d_door_exclude d' = true) /\ o_fallback o = false.
Proof.
  eapply (mounted_app_hooks_have_no_fallback no_callable no_gen no_gen_legacy
            app0 attrs_root (lit "/sub") hooked); [reflexivity|left|reflexivity].
Defined.

Lemma schema_ignores_include_flag_witness :
  exists o d k, collect_top_include no_callable no_gen no_gen_legacy app0
      (include0 (Router attrs_root [RouteEntry (route0 "/hidden" "hidden" false)] []) [] None false) = Ok o /\
    o_rds o = [d] /\ d_include_in_schema d = false /\
    openapi_kwargs app0 (o_rds o) = [k] /\ k_include_in_schema k = true.
Proof.
  eexists. destruct (schema_ignores_include_flag no_callable no_gen no_gen_legacy
    app0 attrs_root [] [lit "include"] (meta0 [] None false) (route0 "/hidden" "hidden" false) _
    eq_refl eq_refl eq_refl) as (d & k & H).
  exists d, k. split; [reflexivity|exact H].
Defined.

Lemma nested_deprecation_diverges_witness :
  exists o d h c, collect_top_include no_callable no_gen no_gen_legacy app0
      (include0 (nested (Some false)) "/api" (Some true) true) = Ok o /\
    o_rds o = [d] /\ d_http d = Some h /\ d_deprecated h = false /\
    effective first_given first_given
      (include_context attrs_root (attrs0 "/parent") (meta0 "/api" (Some true) true))
      (nested (Some false)) = [(c, route0 "/items" "items" false)] /\
    c_deprecated c = Some true.
Proof.
  eexists. destruct (nested_deprecation_diverges no_callable no_gen no_gen_legacy
    first_given first_given app0 attrs_root (attrs0 "/parent") (attrs0 "/child")
    "/api" [lit "include"] (meta0 "/api" (Some true) true)
    "/inner" [lit "include"] (meta0 "/inner" (Some false) true)
    (route0 "/items" "items" false) _ eq_refl eq_refl eq_refl eq_refl eq_refl eq_refl eq_refl)
    as (d & h & c & H).
  exists d, h, c. split; [reflexivity|exact H].
Defined.

End Routing.
