(* ===== verification/Includes.v ===== *)
(** Router registration ([APIRouter] of routing.py, _route_helpers.py): routers are
    objects with identity, [include_router] stores a reference to the child and
    rewrites attributes of the whole subtree ([_normalize_gen_ids]).

    The heap keeps the router objects; [unfold] reads the tree of [Routing] off
    it.  The assertions of [include_router] are what makes that terminate. *)

From S2P Require Import Prelude Routing.

Module Includes.
Import Routing.

(** ** The heap of routers *)

Definition rid := nat.

(** An element of [router.routes]: a marker refers to the included router. *)
Inductive slot :=
| SMarker (child : rid) (c : ctx)
| SEntry (e : entry).

(** An entry of [_included_routers]. *)
Record inc := {
  i_child : rid;
  i_prefix : text;
  i_tags : list text;
  i_meta : include_meta }.

Record robj := {
  o_attrs : router_attrs;
  o_routes : list slot;
  o_included : list inc }.

Abbreviation heap := (gmap rid robj) (only parsing).

(** ** Operations of [APIRouter] *)

Definition add_slot (o : robj) (s : slot) : robj :=
  {| o_attrs := o_attrs o; o_routes := o_routes o ++ [s]; o_included := o_included o |}.

(** [self.routes.append(route)]: [add_api_route] and the verb decorators with an
    [APIRoute], [add_route] with a Starlette [Route], [add_websocket_route]
    with a [WSRoute]. *)
Definition append_route (h : heap) (self : rid) (r : route) : heap :=
  alter (fun o => add_slot o (SEntry (RouteEntry r))) self h.

(** The flags [_mark_starlette_compat_route] leaves on a route object. *)
Definition _mark_starlette_compat_route (e : entry) : entry :=
  match e with
  | RouteEntry r =>
      if is_websocket r then e
      else RouteEntry
        {| path := path r; methods := methods r; endpoint := endpoint r;
           endpoint_is_async := endpoint_is_async r; name := name r; tags := tags r;
           dependencies := dependencies r; status_code := status_code r; docs := docs r;
           responses := responses r; response_model := response_model r;
           response_class := response_class r; strict_content_type := strict_content_type r;
           deprecated := deprecated r; operation_id := operation_id r;
           include_in_schema := include_in_schema r;
           generate_unique_id_function := generate_unique_id_function r;
           callbacks := callbacks r; is_websocket := is_websocket r;
           starlette_passthrough := true;
           overrides_get_route_handler := overrides_get_route_handler r;
           dispatch_customized := dispatch_customized r; bypass_deps := bypass_deps r |}
  | _ => e
  end.

(** [APIRouter(...)] with its [routes=] argument, as a new object. *)
Definition new_router (h : heap) (self : rid) (R : router_attrs) (routes : list entry) : heap :=
  <[self := {| o_attrs := R;
               o_routes := (fun e => SEntry (_mark_starlette_compat_route e)) <$> routes;
               o_included := [] |}]> h.

(** [APIRouter.mount]: only [_mounts] is extended. *)
Definition set_mounts (R : router_attrs) (ms : list (text * obj)) : router_attrs :=
  {| r_prefix := r_prefix R; r_tags := r_tags R; r_dependencies := r_dependencies R;
     r_default_response_class := r_default_response_class R; r_responses := r_responses R;
     r_deprecated := r_deprecated R; r_include_in_schema := r_include_in_schema R;
     r_callbacks := r_callbacks R;
     r_generate_unique_id_function := r_generate_unique_id_function R;
     r_strict_content_type := r_strict_content_type R;
     r_dispatch_customized := r_dispatch_customized R; r_mounts := ms |}.

Definition mount (h : heap) (self : rid) (p : text) (a : obj) : heap :=
  alter (fun o => {| o_attrs := set_mounts (o_attrs o) (r_mounts (o_attrs o) ++ [(p, a)]);
                     o_routes := o_routes o; o_included := o_included o |}) self h.

(** ** [_normalize_gen_ids] *)

Section Register.

Variable callable : obj -> bool.

(** [_fix_gen_id] *)
Definition _fix_gen_id (s : setting obj) : setting obj :=
  match s with
  | Unset => Placeholder
  | Placeholder => Placeholder
  | Given f => if callable f then Given f else Placeholder
  end.

Definition none_to_default {A} (s : setting A) : setting A :=
  match s with Unset => Placeholder | _ => s end.

Definition fix_attrs (R : router_attrs) : router_attrs :=
  {| r_prefix := r_prefix R; r_tags := r_tags R; r_dependencies := r_dependencies R;
     r_default_response_class := none_to_default (r_default_response_class R);
     r_responses := r_responses R; r_deprecated := r_deprecated R;
     r_include_in_schema := r_include_in_schema R; r_callbacks := r_callbacks R;
     r_generate_unique_id_function := _fix_gen_id (r_generate_unique_id_function R);
     r_strict_content_type := none_to_default (r_strict_content_type R);
     r_dispatch_customized := r_dispatch_customized R; r_mounts := r_mounts R |}.

Definition fix_route (r : route) : route :=
  if is_websocket r || starlette_passthrough r then r
  else
    {| path := path r; methods := methods r; endpoint := endpoint r;
       endpoint_is_async := endpoint_is_async r; name := name r; tags := tags r;
       dependencies := dependencies r; status_code := status_code r; docs := docs r;
       responses := responses r; response_model := response_model r;
       response_class := response_class r; strict_content_type := strict_content_type r;
       deprecated := deprecated r; operation_id := operation_id r;
       include_in_schema := include_in_schema r;
       generate_unique_id_function := _fix_gen_id (generate_unique_id_function r);
       callbacks := callbacks r; is_websocket := is_websocket r;
       starlette_passthrough := starlette_passthrough r;
       overrides_get_route_handler := overrides_get_route_handler r;
       dispatch_customized := dispatch_customized r; bypass_deps := bypass_deps r |}.

Definition fix_slot (s : slot) : slot :=
  match s with
  | SEntry (RouteEntry r) => SEntry (RouteEntry (fix_route r))
  | s => s
  end.

Definition fix_obj (o : robj) : robj :=
  {| o_attrs := fix_attrs (o_attrs o);
     o_routes := fix_slot <$> o_routes o;
     o_included := o_included o |}.

(** [_walk], with the recursion the interpreter allows: what was rewritten
    before a [RecursionError] stays rewritten. *)
Fixpoint _walk (fuel : nat) (h : heap) (r : rid) : heap * option exn :=
  match fuel with
  | O => (h, Some RecursionError)
  | S fuel' =>
      match h !! r with
      | None => (h, None)
      | Some o =>
          foldl (fun acc i => match acc with
                              | (h', None) => _walk fuel' h' (i_child i)
                              | (h', Some e) => (h', Some e)
                              end)
                (<[r := fix_obj o]> h, None) (o_included o)
      end
  end.

(** ** [include_router] *)

(** Real FastAPI's [APIRouter._contains_router]. *)
Variable _contains_router : heap -> rid -> rid -> bool.

Definition make_meta (prefix : text) (itags : list text) (deps : list obj) (resp : gmap text obj)
    (dep : option bool) (schema : bool) (drc : option obj) (gen : setting obj) (cbs : list obj)
    (child : router_attrs) : include_meta :=
  {| m_prefix := prefix; m_tags := itags; m_dependencies := deps; m_responses := resp;
     m_deprecated := match dep with Some b => Some b | None => r_deprecated child end;
     m_include_in_schema := schema; m_default_response_class := drc;
     m_generate_unique_id_function := gen; m_callbacks := cbs |}.

(** [_append_included_router]: normalise the child's subtree, then append the
    marker to the parent; an exception on the way is only logged, and there is
    no marker then. *)
Definition _append_included_router (fuel : nat) (h : heap) (parent child : rid) (m : include_meta)
    : heap :=
  match _walk fuel h child with
  | (h', Some _) => h'
  | (h', None) =>
      match h' !! parent, h' !! child with
      | Some p, Some c =>
          <[parent := add_slot p (SMarker child (include_context (o_attrs p) (o_attrs c) m))]> h'
      | _, _ => h'
      end
  end.

Definition include_router (fuel : nat) (h : heap) (self child : rid) (prefix : text)
    (itags : list text) (deps : list obj) (resp : gmap text obj) (dep : option bool) (schema : bool)
    (drc : option obj) (gen : setting obj) (cbs : list obj) : res heap :=
  match h !! self, h !! child with
  | Some s, Some c =>
      if bool_decide (child = self) then Raise AssertionError
      else if _contains_router h child self then Raise AssertionError
      else
        let m := make_meta prefix itags deps resp dep schema drc gen cbs (o_attrs c) in
        let i := {| i_child := child; i_prefix := prefix; i_tags := itags; i_meta := m |} in
        let h1 := <[self := {| o_attrs := o_attrs s; o_routes := o_routes s;
                               o_included := o_included s ++ [i] |}]> h in
        Ok (_append_included_router fuel h1 self child m)
  | _, _ => Raise AttributeError
  end.

End Register.

(** ** Reading the tree *)

Fixpoint unfold_includes (f : rid -> option router) (l : list inc) : option (list include) :=
  match l with
  | [] => Some []
  | i :: l' =>
      match f (i_child i), unfold_includes f l' with
      | Some c, Some r => Some (Include c (i_prefix i) (i_tags i) (i_meta i) :: r)
      | _, _ => None
      end
  end.

Definition slot_entry (s : slot) : entry := match s with SMarker _ _ => Marker | SEntry e => e end.

Fixpoint unfold_router (fuel : nat) (h : heap) (r : rid) : option router :=
  match fuel with
  | O => None
  | S fuel' =>
      match h !! r with
      | None => None
      | Some o =>
          match unfold_includes (unfold_router fuel' h) (o_included o) with
          | Some l => Some (Router (o_attrs o) (slot_entry <$> o_routes o) l)
          | None => None
          end
      end
  end.

(** ** Theorems *)

(** What of an object the walks follow: its includes and its markers. *)
Definition markers (o : robj) : list rid :=
  omap (fun s => match s with SMarker c _ => Some c | _ => None end) (o_routes o).

Definition shape_of (o : robj) : list inc * list rid := (o_included o, markers o).

Definition shape (h : gmap rid robj) : gmap rid (list inc * list rid) := shape_of <$> h.

(** [a] includes [b]; [a] has a marker for [b]. *)
Definition edge (h : gmap rid robj) (a b : rid) : Prop :=
  exists ils ms i, shape h !! a = Some (ils, ms) /\ i ∈ ils /\ i_child i = b.

Definition medge (h : gmap rid robj) (a b : rid) : Prop :=
  exists ils ms, shape h !! a = Some (ils, ms) /\ b ∈ ms.

(** The includes lead to existing routers, every include has its marker, and
    some rank decreases along the includes: there is no cycle. *)
Definition well_founded_includes (h : gmap rid robj) : Prop :=
  (exists rank : rid -> nat, forall a b, edge h a b -> (rank b < rank a)%nat) /\
  (forall a b, edge h a b -> is_Some (h !! b) /\ medge h a b).

Lemma shape_lookup h a : shape h !! a = shape_of <$> h !! a.
Proof. apply lookup_fmap. Qed.

Lemma shape_insert h a o : shape (<[a := o]> h) = <[a := shape_of o]> (shape h).
Proof. apply fmap_insert. Qed.

Lemma shape_insert_same h a o o' :
  h !! a = Some o -> shape_of o' = shape_of o -> shape (<[a := o']> h) = shape h.
Proof.
  intros Ho Hs. rewrite shape_insert. apply insert_id. rewrite shape_lookup, Ho. simpl. by rewrite Hs.
Qed.

Lemma is_Some_shape h a : is_Some (h !! a) <-> is_Some (shape h !! a).
Proof. rewrite shape_lookup. by rewrite fmap_is_Some. Qed.

(** Only the shape matters. *)
Lemma wf_shape h h' : shape h' = shape h -> well_founded_includes h -> well_founded_includes h'.
Proof.
  unfold well_founded_includes, edge, medge. setoid_rewrite is_Some_shape. by intros ->.
Qed.

Lemma markers_add_entry o e : markers (add_slot o (SEntry e)) = markers o.
Proof. unfold markers, add_slot. simpl. by rewrite omap_app, app_nil_r. Qed.

Lemma shape_add_marker o c x :
  shape_of (add_slot o (SMarker c x)) = ((shape_of o).1, (shape_of o).2 ++ [c]).
Proof. unfold shape_of, markers, add_slot. simpl. by rewrite omap_app. Qed.

Lemma markers_fix callable o : markers (fix_obj callable o) = markers o.
Proof.
  unfold markers, fix_obj. simpl. induction (o_routes o) as [|s l IH]; [done|].
  destruct s as [|[]]; [exact (f_equal (cons _) IH)|exact IH..].
Qed.

Lemma shape_alter_same h a f :
  (forall o, shape_of (f o) = shape_of o) -> shape (alter f a h) = shape h.
Proof.
  intros Hf. apply map_eq. intros b. rewrite !shape_lookup.
  destruct (decide (a = b)) as [->|Hne].
  - rewrite lookup_alter_eq. destruct (h !! b); simpl; [by rewrite Hf|done].
  - by rewrite lookup_alter_ne.
Qed.

Lemma walk_shape callable fuel : forall h r, shape (_walk callable fuel h r).1 = shape h.
Proof.
  induction fuel as [|fuel IH]; intros h r; simpl; [done|].
  destruct (h !! r) as [o|] eqn:Ho; [|done].
  rewrite <-(shape_insert_same h r o (fix_obj callable o) Ho);
    [|unfold shape_of; by rewrite markers_fix].
  generalize (<[r := fix_obj callable o]> h). intros h0.
  change (shape h0) with (shape (h0, None : option exn).1).
  generalize (h0, None : option exn).
  induction (o_included o) as [|i l IHl]; intros [h1 [e|]]; simpl; [done..| |];
    rewrite IHl; simpl; [done|by rewrite IH].
Qed.

(** *** Ranks

    The number of routers of smaller rank bounds the depth of the walks. *)
Definition below (rank : rid -> nat) (h : gmap rid robj) (r : rid) : nat :=
  size (filter (fun x => (rank x < rank r)%nat) (dom (shape h))).

Definition ranked (rank : rid -> nat) (h : gmap rid robj) : Prop :=
  forall a b, edge h a b -> (rank b < rank a)%nat /\ is_Some (h !! b).

Lemma ranked_shape rank h h' : shape h' = shape h -> ranked rank h -> ranked rank h'.
Proof. unfold ranked, edge. setoid_rewrite is_Some_shape. by intros ->. Qed.

Lemma below_edge rank h a b : ranked rank h -> edge h a b -> (below rank h b < below rank h a)%nat.
Proof.
  intros Hr Hab. destruct (Hr _ _ Hab) as [Hlt Hb%is_Some_shape%elem_of_dom].
  apply subset_size. split.
  - intros x [? ?]%elem_of_filter. apply elem_of_filter. split; [lia|done].
  - intros Hsub. assert (b ∈ filter (fun x => (rank x < rank b)%nat) (dom (shape h))) as Hin.
    { apply Hsub. by apply elem_of_filter. }
    apply elem_of_filter in Hin as [? _]. lia.
Qed.

Lemma below_size rank h r : is_Some (h !! r) -> (below rank h r < size h)%nat.
Proof.
  intros Hr%is_Some_shape%elem_of_dom. unfold below.
  replace (size h) with (size (dom (shape h))) by (by rewrite size_dom; apply map_size_fmap).
  apply subset_size. split; [intros x [_ ?]%elem_of_filter; done|].
  intros Hsub. apply Hsub in Hr. apply elem_of_filter in Hr as [? _]. lia.
Qed.

Lemma edge_included h r o i : h !! r = Some o -> i ∈ o_included o -> edge h r (i_child i).
Proof. intros Ho Hi. exists (o_included o), (markers o), i. by rewrite shape_lookup, Ho. Qed.

(** The walk of [_normalize_gen_ids] does not run out of stack. *)
Lemma walk_returns callable rank fuel : forall h r,
  ranked rank h -> (below rank h r < fuel)%nat -> (_walk callable fuel h r).2 = None.
Proof.
  induction fuel as [|fuel IH]; intros h r Hr Hf; [lia|]. simpl.
  destruct (h !! r) as [o|] eqn:Ho; [|done].
  assert (forall i, i ∈ o_included o -> (below rank h (i_child i) < fuel)%nat) as Hb.
  { intros i Hi. pose proof (below_edge _ _ _ _ Hr (edge_included _ _ _ _ Ho Hi)). lia. }
  assert (shape (<[r := fix_obj callable o]> h) = shape h) as Hs.
  { apply (shape_insert_same h r o); [done|]. unfold shape_of. by rewrite markers_fix. }
  revert Hb Hs. generalize (<[r := fix_obj callable o]> h).
  induction (o_included o) as [|i l IHl]; intros h1 Hb Hs; simpl; [done|].
  pose proof (IH h1 (i_child i)) as Hi. pose proof (walk_shape callable fuel h1 (i_child i)) as Hsh.
  destruct (_walk callable fuel h1 (i_child i)) as [h2 x]. simpl in *. rewrite Hi.
  - apply IHl; [|congruence]. intros j Hj. apply Hb. by right.
  - by eapply ranked_shape.
  - unfold below. rewrite Hs. apply Hb. by left.
Qed.

(** What a successful include does to the graph. *)
Lemma append_shape callable fuel h1 self child m s c :
  h1 !! self = Some s -> h1 !! child = Some c -> (_walk callable fuel h1 child).2 = None ->
  shape (_append_included_router callable fuel h1 self child m) =
    <[self := (o_included s, markers s ++ [child])]> (shape h1).
Proof.
  intros Hs Hc. unfold _append_included_router.
  pose proof (walk_shape callable fuel h1 child) as Hw.
  destruct (_walk callable fuel h1 child) as [h2 x]. simpl in *. intros ->.
  assert (forall a o, h1 !! a = Some o -> exists o', h2 !! a = Some o' /\ shape_of o' = shape_of o)
    as Hsame.
  { intros a o Ha. pose proof (f_equal (fun g => g !! a) Hw) as Hx. simpl in Hx.
    rewrite !shape_lookup, Ha in Hx. destruct (h2 !! a) as [o'|]; [|done].
    exists o'. simpl in Hx. split; [done|congruence]. }
  destruct (Hsame _ _ Hs) as (s2 & -> & Hs2). destruct (Hsame _ _ Hc) as (c2 & -> & _).
  by rewrite shape_insert, Hw, shape_add_marker, Hs2.
Qed.

(** The edges of a heap in which [self] got one more include. *)
Lemma edge_added h h' self s i ms a b :
  h !! self = Some s -> shape h' = <[self := (o_included s ++ [i], ms)]> (shape h) ->
  edge h' a b -> edge h a b \/ (a = self /\ b = i_child i).
Proof.
  intros Hs Hsh (ils & ms' & j & Ha & Hj & Hb). rewrite Hsh in Ha.
  apply lookup_insert_Some in Ha as [[<- [= <- <-]]|[Hna Ha]].
  - apply elem_of_app in Hj as [Hj| ->%list_elem_of_singleton]; [left|by right].
    subst b. by eapply edge_included.
  - left. by exists ils, ms', j.
Qed.

(** The assertions of [include_router] keep the includes acyclic: routers that
    reach [self] are lifted above the child. *)
Lemma lift_rank contains h self child (rank : rid -> nat) :
  (forall x y, contains h x y = true <-> tc (medge h) x y) ->
  contains h child self = false -> child <> self ->
  (forall a b, edge h a b -> (rank b < rank a)%nat /\ medge h a b) ->
  exists rank' : rid -> nat, (rank' child < rank' self)%nat /\
    forall a b, edge h a b -> (rank' b < rank' a)%nat.
Proof.
  intros Hcs Hcon Hne He.
  exists (fun x => if bool_decide (x = self) || contains h x self
                   then (rank x + rank child + 1)%nat else rank x).
  rewrite Hcon, bool_decide_eq_false_2, bool_decide_eq_true_2 by done. simpl. split; [lia|].
  intros a b [Hr Hm]%He.
  destruct (bool_decide (b = self) || contains h b self) eqn:Eb;
    [|destruct (bool_decide (a = self) || contains h a self); lia].
  assert (contains h a self = true) as ->; [|rewrite orb_true_r; lia].
  apply Hcs. apply orb_true_iff in Eb as [->%bool_decide_eq_true|Eb%Hcs].
  - by apply tc_once.
  - by eapply tc_l.
Qed.

Lemma include_ranked contains h h' self child s i ms :
  (forall x y, contains h x y = true <-> tc (medge h) x y) ->
  contains h child self = false -> child <> self ->
  h !! self = Some s -> is_Some (h !! child) -> i_child i = child ->
  shape h' = <[self := (o_included s ++ [i], ms)]> (shape h) ->
  well_founded_includes h -> exists rank, ranked rank h'.
Proof.
  intros Hcs Hcon Hne Hs Hc Hic Hsh [[rank Hrank] Hcl].
  destruct (lift_rank contains h self child rank) as (rank' & Hsc & Hr'); [done..| |].
  { intros a b Hab. split; [by apply Hrank|]. by apply Hcl. }
  exists rank'. intros a b Hab. apply (edge_added h h' self s i ms) in Hab; [|done..].
  assert (is_Some (h !! b)) as Hb by (destruct Hab as [[? _]%Hcl|[_ ->]]; [done|by rewrite Hic]).
  split.
  - destruct Hab as [Hab|[-> ->]]; [by apply Hr'|by rewrite Hic].
  - rewrite is_Some_shape, Hsh. destruct (decide (b = self)) as [->|]; [by rewrite lookup_insert_eq|].
    by rewrite lookup_insert_ne, <-is_Some_shape.
Qed.

Lemma include_shape callable contains fuel h self child p t deps resp dep sch drc gen cbs h' :
  (forall x y, contains h x y = true <-> tc (medge h) x y) ->
  (size h <= fuel)%nat -> well_founded_includes h ->
  include_router callable contains fuel h self child p t deps resp dep sch drc gen cbs = Ok h' ->
  exists s i, h !! self = Some s /\ is_Some (h !! child) /\ child <> self /\
    contains h child self = false /\ i_child i = child /\
    shape h' = <[self := (o_included s ++ [i], markers s ++ [child])]> (shape h).
Proof.
  intros Hcs Hf Hwf. unfold include_router.
  destruct (h !! self) as [s|] eqn:Hs; [|done]. destruct (h !! child) as [c|] eqn:Hc; [|done].
  case_bool_decide as Hne; [done|]. destruct (contains h child self) eqn:Hcon; [done|].
  cbv zeta. intros [= <-].
  set (i := {| i_child := child |}). set (h1 := <[self := _]> h).
  assert (shape h1 = <[self := (o_included s ++ [i], markers s)]> (shape h)) as Hsh
    by apply shape_insert.
  destruct (include_ranked contains h h1 self child s i (markers s)) as [rank Hr]; try done.
  assert (is_Some (h1 !! child)) as Hc1 by (unfold h1; by rewrite lookup_insert_ne).
  exists s, i. split_and!; try done.
  unfold h1. erewrite append_shape; [|by rewrite lookup_insert_eq|by rewrite lookup_insert_ne|].
  - fold h1. by rewrite Hsh, insert_insert_eq.
  - fold h1. eapply walk_returns; [exact Hr|].
    pose proof (below_size rank h1 child Hc1). replace (size h1) with (size h) in *; [lia|].
    unfold h1. by rewrite map_size_insert_Some.
Qed.

Lemma include_well_founded callable contains fuel h self child p t deps resp dep sch drc gen cbs h' :
  (forall x y, contains h x y = true <-> tc (medge h) x y) -> (size h <= fuel)%nat ->
  include_router callable contains fuel h self child p t deps resp dep sch drc gen cbs = Ok h' ->
  well_founded_includes h -> well_founded_includes h'.
Proof.
  intros Hcs Hf Hi Hwf.
  apply include_shape in Hi as (s & i & Hs & Hc & Hne & Hcon & Hic & Hsh); [|done..].
  destruct (include_ranked _ _ _ _ _ _ _ _ Hcs Hcon Hne Hs Hc Hic Hsh Hwf) as [rank Hr].
  split; [exists rank; intros a b ?%Hr; tauto|].
  intros a b Hab. split; [by apply (Hr a)|]. unfold medge. rewrite Hsh.
  destruct (edge_added _ _ _ _ _ _ _ _ Hs Hsh Hab) as [(_ & ils & ms & Ha & Hm)%Hwf|[-> ->]].
  - destruct (decide (a = self)) as [->|]; [|rewrite lookup_insert_ne by done; by exists ils, ms].
    rewrite shape_lookup, Hs in Ha. injection Ha as <- <-. rewrite lookup_insert_eq.
    do 2 eexists. split; [done|]. apply elem_of_app. by left.
  - rewrite lookup_insert_eq. do 2 eexists. split; [done|]. apply elem_of_app. right. rewrite Hic. by left.
Qed.

(** The registrations of a program: routers are created, get routes and mounts,
    and include each other; at an include, [_contains_router] answers whether
    the markers of the child lead to [self], and the interpreter allows a
    recursion as deep as there are routers. *)
Inductive registered (callable : obj -> bool) (contains : gmap rid robj -> rid -> rid -> bool)
    : gmap rid robj -> Prop :=
| reg_empty : registered callable contains ∅
| reg_new h self R es :
    registered callable contains h -> h !! self = None ->
    registered callable contains (new_router h self R es)
| reg_route h self r :
    registered callable contains h -> registered callable contains (append_route h self r)
| reg_mount h self p a :
    registered callable contains h -> registered callable contains (mount h self p a)
| reg_include fuel h self child p t deps resp dep sch drc gen cbs h' :
    registered callable contains h ->
    (forall x y, contains h x y = true <-> tc (medge h) x y) -> (size h <= fuel)%nat ->
    include_router callable contains fuel h self child p t deps resp dep sch drc gen cbs = Ok h' ->
    registered callable contains h'.

Lemma new_router_well_founded h self R es :
  h !! self = None -> well_founded_includes h -> well_founded_includes (new_router h self R es).
Proof.
  intros Hn [[rank Hrank] Hcl].
  assert (forall a b, edge (new_router h self R es) a b -> a <> self /\ edge h a b) as Hedge.
  { intros a b (ils & ms & j & Ha & Hj & Hb). unfold new_router in Ha. rewrite shape_insert in Ha.
    apply lookup_insert_Some in Ha as [[<- [= <- <-]]|[Hna Ha]].
    - by apply not_elem_of_nil in Hj.
    - split; [done|]. by exists ils, ms, j. }
  split.
  - exists rank. intros a b [_ Hab]%Hedge. by apply Hrank.
  - intros a b [Ha [Hb (ils & ms & Hl & Hm)]%Hcl]%Hedge. unfold new_router.
    rewrite is_Some_shape, shape_insert. unfold medge. rewrite shape_insert. split.
    + destruct (decide (b = self)) as [->|]; [by rewrite lookup_insert_eq|].
      by rewrite lookup_insert_ne, <-is_Some_shape.
    + rewrite lookup_insert_ne by done. by exists ils, ms.
Qed.

Lemma registered_well_founded callable contains h :
  registered callable contains h -> well_founded_includes h.
Proof.
  induction 1 as [|h self R es _ IH Hn|h self r _ IH|h self p a _ IH|].
  - split.
    + exists (fun _ => 0%nat). intros a b (? & ? & ? & Ha & _). done.
    + intros a b (? & ? & ? & Ha & _). done.
  - by apply new_router_well_founded.
  - eapply wf_shape; [|exact IH]. apply shape_alter_same. intros o. unfold shape_of.
    by rewrite markers_add_entry.
  - eapply wf_shape; [|exact IH]. by apply shape_alter_same.
  - by eapply include_well_founded.
Qed.

(** *** Unfolding terminates *)

Lemma unfold_includes_total (f : rid -> option router) l :
  (forall i, i ∈ l -> is_Some (f (i_child i))) -> is_Some (unfold_includes f l).
Proof.
  induction l as [|i l IH]; intros H; simpl; [by eexists|].
  destruct (H i ltac:(left)) as [c ->].
  destruct IH as [r ->]; [|by eexists]. intros j Hj. apply H. by right.
Qed.

Lemma unfold_router_total h (rank : rid -> nat) : ranked rank h ->
  forall fuel r, is_Some (h !! r) -> (below rank h r < fuel)%nat -> is_Some (unfold_router fuel h r).
Proof.
  intros Hr. induction fuel as [|fuel IH]; intros r [o Ho] Hf; [lia|].
  simpl. rewrite Ho.
  destruct (unfold_includes_total (unfold_router fuel h) (o_included o)) as [l ->]; [|by eexists].
  intros i Hi. pose proof (edge_included _ _ _ _ Ho Hi) as He.
  pose proof (below_edge _ _ _ _ Hr He). apply IH; [by apply (Hr r)|lia].
Qed.

Lemma unfold_includes_mono (f g : rid -> option router) l r :
  (forall x t, f x = Some t -> g x = Some t) ->
  unfold_includes f l = Some r -> unfold_includes g l = Some r.
Proof.
  intros Hfg. revert r; induction l as [|i l IH]; intros r; simpl; [done|].
  destruct (f (i_child i)) as [c|] eqn:E; [|done]. rewrite (Hfg _ _ E).
  destruct (unfold_includes f l) as [r'|]; [|done]. by rewrite (IH r').
Qed.

Lemma unfold_router_mono h fuel : forall fuel' r t,
  (fuel <= fuel')%nat -> unfold_router fuel h r = Some t -> unfold_router fuel' h r = Some t.
Proof.
  induction fuel as [|fuel IH]; intros [|fuel'] r t Hle; simpl; try done; try lia.
  destruct (h !! r) as [o|]; [|done].
  destruct (unfold_includes (unfold_router fuel h) (o_included o)) as [l|] eqn:E; [|done].
  erewrite (unfold_includes_mono _ (unfold_router fuel' h)); [done| |exact E].
  intros x t'. apply IH. lia.
Qed.

(** C9: whatever a program registers, the includes never form a cycle: the
    assertions of [include_router] (given that [_contains_router] follows the
    markers, and that the interpreter's stack is as deep as there are routers)
    keep every router's includes well founded.  So a recursion no deeper than the
    number of routers reads any router off the heap, always with the same
    result, and the walk of [_normalize_gen_ids] returns. *)
Theorem includes_unfold_to_a_tree callable contains h r :
  registered callable contains h -> is_Some (h !! r) ->
  exists t, forall fuel, (size h <= fuel)%nat ->
    unfold_router fuel h r = Some t /\ (_walk callable fuel h r).2 = None.
Proof.
  intros [[rank Hrank] Hcl]%registered_well_founded Hr.
  assert (ranked rank h) as Hrk.
  { intros a b Hab. split; [by apply Hrank|]. by apply Hcl in Hab as [? _]. }
  pose proof (below_size rank h r Hr) as Hb.
  destruct (unfold_router_total h rank Hrk (size h) r Hr Hb) as [t Ht].
  exists t. intros fuel Hle. split; [by eapply unfold_router_mono|].
  eapply walk_returns; [exact Hrk|lia].
Qed.

(** *** What [_normalize_gen_ids] does to the operation-id cascade *)

Definition gen_set (h : gmap rid robj) (x : rid) : Prop :=
  forall o, h !! x = Some o -> r_generate_unique_id_function (o_attrs o) <> Unset.

Lemma gen_set_insert callable h r o x :
  gen_set h x \/ x = r -> gen_set (<[r := fix_obj callable o]> h) x.
Proof.
  intros Hx o' [[-> <-]|[Hne Ho]]%lookup_insert_Some.
  - simpl. destruct (r_generate_unique_id_function (o_attrs o)) as [| |f]; simpl; try done.
    by destruct (callable f).
  - destruct Hx as [Hx| ->]; [by apply Hx|done].
Qed.

Lemma walk_gen_set callable fuel : forall h r x,
  gen_set h x \/ (0 < fuel)%nat /\ x = r -> gen_set (_walk callable fuel h r).1 x.
Proof.
  induction fuel as [|fuel IH]; intros h r x Hx; simpl.
  { destruct Hx as [Hx|[? _]]; [done|lia]. }
  destruct (h !! r) as [o|] eqn:Ho.
  - assert (gen_set (<[r := fix_obj callable o]> h, None : option exn).1 x) as H0.
    { apply gen_set_insert. destruct Hx as [?|[_ ?]]; [by left|by right]. }
    revert H0. generalize (<[r := fix_obj callable o]> h, None : option exn).
    induction (o_included o) as [|i l IHl]; intros [h1 e] H0; simpl; [done|].
    apply IHl. destruct e; [done|]. apply IH. by left.
  - simpl. destruct Hx as [Hx|[_ ->]]; [done|]. intros o' Ho'. congruence.
Qed.

Lemma append_gen_set callable fuel h self child m :
  (0 < fuel)%nat -> child <> self ->
  gen_set (_append_included_router callable fuel h self child m) child.
Proof.
  intros Hf Hne. unfold _append_included_router.
  pose proof (walk_gen_set callable fuel h child child ltac:(by right)) as H2.
  destruct (_walk callable fuel h child) as [h2 [e|]]; simpl in H2; [done|].
  destruct (h2 !! self) as [s2|]; [|done]. destruct (h2 !! child) eqn:E; [|done].
  intros o Ho. rewrite lookup_insert_ne in Ho by done. by apply H2.
Qed.

(** once a router has been included anywhere, the function given to an
    outer include ([include_router(..., generate_unique_id_function=f)]) has no
    influence on the routes of the routers nested in it: [_normalize_gen_ids]
    leaves a placeholder on the router, and the cascade of the flatten stops at
    it, although its comment lists the outer include as the next level. *)
Theorem nested_include_drops_outer_gen_id
    callable contains fuel h self child p t deps resp dep sch drc gen cbs h' c :
  (0 < fuel)%nat ->
  include_router callable contains fuel h self child p t deps resp dep sch drc gen cbs = Ok h' ->
  h' !! child = Some c ->
  forall A R r a a' p' t' m, m_generate_unique_id_function m = Unset ->
    gen_id_function A R r (g_include_generate_unique_id_function (child_args a (o_attrs c) p' t' m)) =
    gen_id_function A R r (g_include_generate_unique_id_function (child_args a' (o_attrs c) p' t' m)).
Proof.
  intros Hf Hi Hc A R r a a' p' t' m Hm. simpl. rewrite Hm.
  assert (gen_set h' child) as Hg.
  { unfold include_router in Hi. destruct (h !! self) as [s|]; [|done].
    destruct (h !! child) as [c0|]; [|done]. case_bool_decide as Hne; [done|].
    destruct (contains h child self); [done|]. cbv zeta in Hi. injection Hi as <-.
    apply append_gen_set; [done|done]. }
  specialize (Hg c Hc). by destruct (r_generate_unique_id_function (o_attrs c)).
Qed.

(** *** Witnesses *)

(** Two routers, the second with one route; then the first includes it. *)
Definition two_routers : gmap rid robj :=
  new_router (new_router ∅ 0%nat (Sample.attrs0 "/parent") []) 1%nat (Sample.attrs0 "/child")
    [RouteEntry (Sample.route0 "/items" "items" false)].

Definition contains_none (_ : gmap rid robj) (_ _ : rid) : bool := false.

Definition included : gmap rid robj :=
  match include_router Sample.no_callable contains_none 10%nat two_routers 0%nat 1%nat "/inner" [] [] ∅ None true
          None Unset [] with
  | Ok h => h
  | Raise _ => ∅
  end.

Lemma two_routers_unmarked x y : contains_none two_routers x y = true <-> tc (medge two_routers) x y.
Proof.
  assert (forall a b, ~ medge two_routers a b) as Hno.
  { intros a b (ils & ms & Ha & Hb). unfold two_routers, new_router in Ha.
    rewrite !shape_insert in Ha.
    apply lookup_insert_Some in Ha as [[_ [= <- <-]]|[_ Ha]]; [by apply not_elem_of_nil in Hb|].
    apply lookup_insert_Some in Ha as [[_ [= <- <-]]|[_ Ha]]; [by apply not_elem_of_nil in Hb|].
    by rewrite shape_lookup, lookup_empty in Ha. }
  split; [done|]. intros Ht. exfalso. by induction Ht as [? ? ?%Hno|].
Qed.

Lemma includes_unfold_to_a_tree_witness :
  exists t, (forall fuel, (2 <= fuel)%nat -> unfold_router fuel included 0%nat = Some t) /\
    is_Some (included !! 1%nat).
Proof.
  destruct (includes_unfold_to_a_tree Sample.no_callable contains_none included 0%nat) as (t & H).
  - eapply (reg_include _ _ 10%nat two_routers 0%nat 1%nat "/inner" [] [] ∅ None true None Unset []);
      [|exact two_routers_unmarked|vm_compute; lia|reflexivity].
    apply reg_new; [apply reg_new; [apply reg_empty|]|]; reflexivity.
  - eexists. vm_compute. reflexivity.
  - exists t. split; [|eexists; vm_compute; reflexivity].
    intros fuel Hle. apply H. exact Hle.
Defined.

(** Two includes deep: the outer include's function 5 is not reached, the
    operation id of the inner route stays unset. *)
Definition outer_args (gen : setting obj) : args :=
  {| g_prefix := []; g_extra_tags := []; g_include_deps := []; g_include_responses := ∅;
     g_include_deprecated := None; g_include_in_schema := true;
     g_include_default_response_class := None; g_include_generate_unique_id_function := gen;
     g_include_callbacks := [] |}.

Lemma nested_include_drops_outer_gen_id_witness :
  exists c, included !! 1%nat = Some c /\
    gen_id_function Sample.app0 (Sample.attrs0 "/leaf") (Sample.route0 "/items" "items" false)
      (g_include_generate_unique_id_function
         (child_args (outer_args (Given 5%nat)) (o_attrs c) "/x" [] (Sample.meta0 "/x" None true))) = None.
Proof.
  destruct (included !! 1%nat) as [c|] eqn:E; [|vm_compute in E; discriminate].
  exists c. split; [reflexivity|].
  assert (r_generate_unique_id_function (o_attrs c) = Placeholder) as Hp
    by (vm_compute in E; injection E as <-; reflexivity).
  assert (include_router Sample.no_callable contains_none 10%nat two_routers 0%nat 1%nat "/inner" [] [] ∅
            None true None Unset [] = Ok included) as Hi by (vm_compute; reflexivity).
  rewrite (nested_include_drops_outer_gen_id _ _ _ _ _ _ _ _ _ _ _ _ _ _ _ _ _ (Nat.lt_0_succ 9) Hi E
             _ _ _ _ (outer_args Unset)) by reflexivity.
  simpl. rewrite Hp. reflexivity.
Defined.

End Includes.
