(* ===== verification/Urls.v ===== *)
(** URL building ([FastAPI.url_path_for], [APIRouter.url_path_for]) and the
    proxy that serves a raw ASGI application under a mount
    ([_build_asgi_mount_routes]'s [_proxy]). *)

From S2P Require Import Prelude Routing.

Module Urls.
Import Routing.

(** ** [urllib.parse.quote(t, safe="")] *)

(** UTF-8 of a Latin-1 character. *)
Definition utf8_char (c : ascii) : bytes :=
  if (code c <? 128)%N then [c]
  else [ascii_of_N (192 + code c / 64); ascii_of_N (128 + code c mod 64)].

Definition utf8 (t : text) : bytes := flat_map utf8_char t.

Definition between (lo hi : N) (c : ascii) : bool := ((lo <=? code c) && (code c <=? hi))%N.

(** Letters, digits and [_.-~] are never quoted. *)
Definition always_safe (c : ascii) : bool :=
  between 65 90 c || between 97 122 c || between 48 57 c ||
  bool_decide (c ∈ ["_"; "."; "-"; "~"]%char).

Definition hex_digit (n : N) : ascii :=
  if (n <? 10)%N then ascii_of_N (48 + n) else ascii_of_N (55 + n).

Definition quote_byte (b : ascii) : text :=
  if always_safe b then [b]
  else ["%"%char; hex_digit (code b / 16); hex_digit (code b mod 16)].

Definition quote (t : text) : text := flat_map quote_byte (utf8 t).

(** ** Filling a path template *)

(** [sub in t] *)
Definition contains (sub t : text) : bool := negb (find sub t 0 =? -1).

Abbreviation params := (gmap text text) (only parsing).

(** The replacement [_sub] computes for a match whose group is [g]. *)
Definition _sub (ps : params) (g : text) : res text :=
  let pname := default [] (head (split_on ":" g)) in
  match ps !! pname with
  | None => Raise (KeyError pname)
  | Some v => if contains ":path" (lit "{" ++ g ++ lit "}") then Ok v else Ok (quote v)
  end.

(** [re.sub(r"\{([^}]+)\}", _sub, path)], left to right: [grp] holds the text
    since an open brace.  Without a closing brace nothing after it can match. *)
Fixpoint fill (ps : params) (grp : option text) (t : text) : res text :=
  match t, grp with
  | [], None => Ok []
  | [], Some g => Ok ("{"%char :: g)
  | c :: t', None =>
      if bool_decide (c = "{"%char) then fill ps (Some []) t'
      else res_bind (fill ps None t') (fun r => Ok (c :: r))
  | c :: t', Some g =>
      if bool_decide (c = "}"%char) then
        match g with
        | [] => res_bind (fill ps None t') (fun r => Ok (lit "{}" ++ r))
        | _ => res_bind (_sub ps g) (fun v => res_bind (fill ps None t') (fun r => Ok (v ++ r)))
        end
      else fill ps (Some (g ++ [c])) t'
  end.

Definition is_lookup_error (e : exn) : bool :=
  match e with LookupError | KeyError _ | IndexError => true | _ => false end.

Section Resolve.

Variable callable : obj -> bool.
Variable call_gen : obj -> route -> res text.
Variable call_gen_legacy : obj -> route -> text -> res text.

(** [url_path_for] of the route objects of Starlette and real FastAPI (markers,
    mounts, hosts, plain routes), [None] when they have none; [NoMatchFound]
    is one of their [LookupError]s here. *)
Variable resolver : entry -> option (text -> params -> res text).

(** The resolvers of a route list, in order; a failed look-up goes on to the
    next. *)
Fixpoint resolve_entries (es : list entry) (nm : text) (ps : params) : res (option text) :=
  match es with
  | [] => Ok None
  | e :: es' =>
      match resolver e with
      | None => resolve_entries es' nm ps
      | Some f => match f nm ps with
                  | Ok t => Ok (Some t)
                  | Raise x => if is_lookup_error x then resolve_entries es' nm ps else Raise x
                  end
      end
  end.

(** [FastAPI.url_path_for] *)
Definition with_root (root filled : text) : text :=
  match root with [] => filled | _ => rstrip_slash root ++ filled end.

Definition url_path_for (ap : app) (nm : text) (ps : params) : res text :=
  match ap with
  | App A (Router _ entries _) _ _ =>
      res_bind (_collect_all_routes callable call_gen call_gen_legacy ap) (fun o =>
        match list_find (fun d => d_handler_name d = Some nm) (o_rds o) with
        | Some (_, d) =>
            res_bind (fill ps None (d_path d)) (fun f => Ok (with_root (a_root_path A) f))
        | None =>
            res_bind (resolve_entries entries nm ps) (fun r =>
              match r with
              | Some t => Ok (with_root (a_root_path A) t)
              | None => Raise LookupError
              end)
        end)
  end.

(** [APIRouter.url_path_for]: its own routes by name (a route object that is
    not an [APIRoute] is asked itself), then the included routers. *)
Definition entry_named (nm : text) (e : entry) : option text :=
  match e with
  | RouteEntry r => if bool_decide (name r = Some nm) then Some (path r) else None
  | MountEntry p n _ => if bool_decide (n = Some nm) then Some p else None
  | _ => None
  end.

Definition is_api_route (e : entry) : bool :=
  match e with
  | RouteEntry r => negb (is_websocket r) && negb (starlette_passthrough r)
  | _ => false
  end.

Fixpoint router_own_url (prefix : text) (es : list entry) (nm : text) (ps : params)
    : res (option text) :=
  match es with
  | [] => Ok None
  | e :: es' =>
      match entry_named nm e with
      | Some p => res_bind (fill ps None (prefix ++ p)) (fun t => Ok (Some t))
      | None =>
          if is_api_route e then router_own_url prefix es' nm ps
          else match resolver e with
               | None => router_own_url prefix es' nm ps
               | Some f =>
                   match f nm ps with
                   | Ok t => Ok (Some (prefix ++ t))
                   | Raise x => if is_lookup_error x then router_own_url prefix es' nm ps else Raise x
                   end
               end
      end
  end.

Fixpoint router_url_path_for (r : router) (nm : text) (ps : params) {struct r} : res text :=
  match r with
  | Router R es incs =>
      match router_own_url (r_prefix R) es nm ps with
      | Raise x => Raise x
      | Ok (Some t) => Ok t
      | Ok None =>
          (fix go (l : list include) : res text :=
             match l with
             | [] => Raise LookupError
             | Include child p _ _ :: l' =>
                 match router_url_path_for child nm ps with
                 | Ok t => Ok (r_prefix R ++ p ++ t)
                 | Raise x => if is_lookup_error x then go l' else Raise x
                 end
             end) incs
      end
  end.

End Resolve.

(** ** The proxy of an ASGI mount *)

Inductive asgi_msg :=
| ResponseStart (status : option Z) (headers : list (bytes * bytes))
| ResponseBody (body : bytes)
| OtherMsg.

(** [inner_path] and the [root_path] of the scope handed to the mounted
    application. *)
Definition proxy_inner_path (clean full_path : text) : text :=
  if negb (bool_decide (clean = [])) && starts_with clean full_path
  then match drop (length clean) full_path with [] => lit "/" | t => t end
  else match full_path with [] => lit "/" | t => t end.

Definition proxy_root_path (clean root_path : text) : text := root_path ++ clean.

(** [status_holder] and [body_parts]. *)
Record holder := { h_status : Z; h_headers : list (bytes * bytes); h_parts : list bytes }.

Definition holder0 : holder := {| h_status := 200; h_headers := []; h_parts := [] |}.

Definition proxy_send (h : holder) (m : asgi_msg) : holder :=
  match m with
  | ResponseStart s hs =>
      {| h_status := default 200 s; h_headers := hs; h_parts := h_parts h |}
  | ResponseBody [] => h
  | ResponseBody b =>
      {| h_status := h_status h; h_headers := h_headers h; h_parts := h_parts h ++ [b] |}
  | OtherMsg => h
  end.

(** The response built from what the mounted application sent. *)
Definition proxy_response (ms : list asgi_msg) : Z * list (bytes * bytes) * bytes :=
  let h := foldl proxy_send holder0 ms in
  (h_status h, h_headers h, concat (h_parts h)).

(** ** Theorems *)

(** *** Quoting *)

(** Percent-decoding, the reference [quote] is inverse to. *)
Definition hex_value (c : ascii) : N :=
  if between 48 57 c then (code c - 48)%N else (code c - 55)%N.

Fixpoint unquote (t : text) : bytes :=
  match t with
  | [] => []
  | c :: t' =>
      if bool_decide (c = "%"%char) then
        match t' with
        | h :: l :: r => ascii_of_N (16 * hex_value h + hex_value l) :: unquote r
        | _ => c :: unquote t'
        end
      else c :: unquote t'
  end.

Lemma unquote_quote_byte b r : unquote (quote_byte b ++ r) = b :: unquote r.
Proof. destruct b as [[] [] [] [] [] [] [] []]; reflexivity. Qed.

Lemma quote_byte_chars b c : c ∈ quote_byte b -> always_safe c = true \/ c = "%"%char.
Proof.
  unfold quote_byte. destruct (always_safe b) eqn:E.
  - intros ->%list_elem_of_singleton. by left.
  - intros [->|[->|[->|[]%not_elem_of_nil]%elem_of_cons]%elem_of_cons]%elem_of_cons; [by right|left|left];
      destruct b as [[] [] [] [] [] [] [] []]; reflexivity.
Qed.

Lemma elem_of_flat_map {A B} (f : A -> list B) l y :
  y ∈ flat_map f l <-> exists x, x ∈ l /\ y ∈ f x.
Proof. rewrite list_elem_of_In, in_flat_map. by setoid_rewrite list_elem_of_In. Qed.

(** quoting a path parameter loses nothing (percent-decoding gives the
    UTF-8 bytes back) and its result consists of unreserved characters and
    percent signs, so a value can never add a slash, a query or a brace to the
    URL. *)
Theorem quote_is_reversible_and_safe t :
  unquote (quote t) = utf8 t /\
  forall c, c ∈ quote t -> always_safe c = true \/ c = "%"%char.
Proof.
  split.
  - unfold quote. induction (utf8 t) as [|b l IH]; simpl; [done|].
    by rewrite unquote_quote_byte, IH.
  - intros c. unfold quote. intros (b & _ & H)%elem_of_flat_map. by eapply quote_byte_chars.
Qed.

(** *** Templates *)

(** A path template as its author means it: literal text and parameters with
    an optional converter. *)
Inductive piece :=
| PText (t : text)
| PParam (n conv : text).

Definition piece_text (p : piece) : text :=
  match p with
  | PText t => t
  | PParam n [] => lit "{" ++ n ++ lit "}"
  | PParam n conv => lit "{" ++ n ++ lit ":" ++ conv ++ lit "}"
  end.

Definition piece_ok (p : piece) : Prop :=
  match p with
  | PText t => "{"%char ∉ t
  | PParam n conv => n <> [] /\ "}"%char ∉ n /\ ":"%char ∉ n /\ "}"%char ∉ conv /\
                     (conv = [] \/ conv = lit "path" \/ starts_with "path" conv = false /\ ":"%char ∉ conv)
  end.

Definition piece_value (ps : gmap text text) (p : piece) : res text :=
  match p with
  | PText t => Ok t
  | PParam n conv =>
      match ps !! n with
      | None => Raise (KeyError n)
      | Some v => Ok (if bool_decide (conv = lit "path") then v else quote v)
      end
  end.

Fixpoint template_value (ps : gmap text text) (l : list piece) : res text :=
  match l with
  | [] => Ok []
  | p :: l' => res_bind (piece_value ps p) (fun v =>
                 res_bind (template_value ps l') (fun r => Ok (v ++ r)))
  end.
(** Two scans that start at different positions find the same place. *)
Lemma find_at_shift sub l i j :
  0 <= i -> 0 <= j ->
  (find_at sub l i = -1 /\ find_at sub l j = -1) \/
  (0 <= find_at sub l i /\ 0 <= find_at sub l j).
Proof.
  revert i j; induction l as [|c l IH]; intros i j Hi Hj; simpl.
  - destruct (starts_with sub []); [right|left]; lia.
  - destruct (starts_with sub (c :: l)); [right; lia|]. apply IH; lia.
Qed.

Lemma fill_text ps t r :
  "{"%char ∉ t -> fill ps None (t ++ r) = res_bind (fill ps None r) (fun x => Ok (t ++ x)).
Proof.
  induction t as [|c t IH]; intros Ht; simpl.
  - by destruct (fill ps None r).
  - apply not_elem_of_cons in Ht as [Hc Ht]. rewrite bool_decide_eq_false_2 by congruence.
    rewrite IH by done. by destruct (fill ps None r).
Qed.

Lemma fill_group ps a g r :
  "}"%char ∉ g -> a ++ g <> [] ->
  fill ps (Some a) (g ++ "}"%char :: r) =
  res_bind (_sub ps (a ++ g)) (fun v => res_bind (fill ps None r) (fun x => Ok (v ++ x))).
Proof.
  revert a; induction g as [|c g IH]; intros a Hg Ha; simpl.
  - rewrite app_nil_r in *. by destruct a.
  - apply not_elem_of_cons in Hg as [Hc Hg]. rewrite bool_decide_eq_false_2 by congruence.
    rewrite IH; [by rewrite <-app_assoc|done|]. by rewrite <-app_assoc.
Qed.

Lemma find_at_skip c sub l k i :
  c ∉ l -> find_at (c :: sub) (l ++ k) i = find_at (c :: sub) k (i + zlen l).
Proof.
  revert i; induction l as [|d l IH]; intros i Hl; simpl.
  - rewrite zlen_nil. f_equal. lia.
  - apply not_elem_of_cons in Hl as [? Hl].
    rewrite bool_decide_eq_false_2 by done. simpl.
    rewrite IH by done. rewrite zlen_cons. f_equal. lia.
Qed.

Lemma find_at_absent c sub l i : c ∉ l -> find_at (c :: sub) l i = -1.
Proof.
  intros Hl. rewrite <-(app_nil_r l), find_at_skip by done. done.
Qed.

Lemma find_0 sub t : find sub t 0 = find_at sub t 0.
Proof. exact (find_app sub [] t). Qed.

Lemma contains_skip c sub l k :
  c ∉ l -> contains (c :: sub) (l ++ k) = contains (c :: sub) k.
Proof.
  intros Hl. unfold contains. rewrite !find_0, find_at_skip by done. pose proof (zlen_nonneg l).
  destruct (find_at_shift (c :: sub) k 0 (0 + zlen l)) as [[-> ->]|[? ?]]; [lia|lia|done|].
  f_equal. destruct (Z.eqb_spec (find_at (c :: sub) k (0 + zlen l)) (-1));
    destruct (Z.eqb_spec (find_at (c :: sub) k 0) (-1)); lia.
Qed.

Lemma contains_absent c sub l : c ∉ l -> contains (c :: sub) l = false.
Proof. intros Hl. unfold contains. by rewrite find_0, find_at_absent. Qed.

Lemma starts_with_stop c p l r :
  c ∉ p -> starts_with p (l ++ c :: r) = true -> starts_with p l = true.
Proof.
  revert l; induction p as [|a p IH]; intros l Hp; [done|].
  apply not_elem_of_cons in Hp as [? Hp]. destruct l as [|b l]; simpl.
  - rewrite bool_decide_eq_false_2 by done. done.
  - intros [-> H']%andb_true_iff. by apply IH in H'.
Qed.

Lemma contains_path n conv :
  ":"%char ∉ n ->
  (conv = lit "path" \/ starts_with "path" conv = false /\ ":"%char ∉ conv) ->
  contains ":path" (lit "{" ++ (n ++ lit ":" ++ conv) ++ lit "}") = bool_decide (conv = lit "path").
Proof.
  intros Hn Hc. rewrite (app_assoc (lit "{")), app_assoc, <-app_assoc.
  rewrite (contains_skip ":"%char (lit "path")) by (set_unfold; naive_solver).
  destruct Hc as [->|[Hs Hc]]; [done|].
  rewrite bool_decide_eq_false_2 by (by intros ->).
  unfold contains. rewrite find_0. simpl.
  destruct (starts_with (lit "path") (conv ++ lit "}")) eqn:E.
  - apply starts_with_stop in E; [congruence|set_solver].
  - simpl in E. rewrite E. rewrite find_at_absent; [done|set_solver].
Qed.

Lemma fill_piece ps p r :
  piece_ok p ->
  fill ps None (piece_text p ++ r) =
  res_bind (piece_value ps p) (fun v => res_bind (fill ps None r) (fun x => Ok (v ++ x))).
Proof.
  destruct p as [t|n conv]; [apply fill_text|]. intros (Hn & Hb & Hcol & Hcb & Hconv).
  assert (exists g, lit "{" ++ g ++ lit "}" = piece_text (PParam n conv) /\ "}"%char ∉ g /\ g <> [] /\
    _sub ps g = piece_value ps (PParam n conv)) as (g & Hg & Hg1 & Hg2 & Hsub).
  { destruct conv as [|c conv].
    - exists n. split_and!; [done..|]. unfold _sub. simpl. rewrite split_on_no by done. simpl.
      destruct (ps !! n); [|done]. by rewrite (contains_absent ":"%char (lit "path")) by set_solver.
    - exists (n ++ lit ":" ++ c :: conv). split_and!.
      + simpl. by rewrite <-!app_assoc.
      + set_solver.
      + by destruct n.
      + assert (default [] (head (split_on ":" (n ++ lit ":" ++ c :: conv))) = n) as Hp
          by (pose proof (split_on_app ":"%char n (c :: conv) Hcol) as Hs; simpl in *; by rewrite Hs).
        unfold _sub. cbv zeta. rewrite Hp.
        unfold piece_value. destruct (ps !! n); [|done].
        rewrite contains_path; [by repeat case_bool_decide|done|]. by destruct Hconv. }
  rewrite <-Hg, <-Hsub, <-!app_assoc. cbn. by rewrite fill_group.
Qed.

Lemma fill_template ps l :
  Forall piece_ok l -> fill ps None (concat (piece_text <$> l)) = template_value ps l.
Proof.
  induction 1 as [|p l Hp _ IH]; [done|]. by rewrite fmap_cons, concat_cons, fill_piece, IH.
Qed.

Example fill_ex :
  fill {[ lit "item" := lit "a/b c"; lit "rest" := lit "x/y" ]} None
    "/items/{item}/files/{rest:path}" = Ok (lit "/items/a%2Fb%20c/files/x/y").
Proof. vm_compute. reflexivity. Qed.

(** [url_path_for] finds the first collected route of that name and
    fills its template piece by piece: literal text is kept, a parameter is
    replaced by its quoted value (unquoted under the [path] converter), the
    first missing parameter is a [KeyError], and the configured root path is
    put in front. *)
Theorem url_path_for_fills_template callable call_gen call_gen_legacy resolver
    A root incs mounts o i d l nm ps :
  _collect_all_routes callable call_gen call_gen_legacy (App A root incs mounts) = Ok o ->
  list_find (fun d => d_handler_name d = Some nm) (o_rds o) = Some (i, d) ->
  d_path d = concat (piece_text <$> l) -> Forall piece_ok l ->
  url_path_for callable call_gen call_gen_legacy resolver (App A root incs mounts) nm ps =
  match template_value ps l with
  | Ok t => Ok (with_root (a_root_path A) t)
  | Raise e => Raise e
  end.
Proof.
  intros Ho Hd Hl Hok. unfold url_path_for. destruct root as [R es incs1].
  rewrite Ho. cbn [res_bind]. rewrite Hd, Hl, fill_template by done.
  by destruct (template_value ps l).
Qed.

Definition sample_app : app :=
  App Sample.app0 (Router Sample.attrs_root [] [])
    [Sample.include0 (Router (Sample.attrs0 "/v1")
       [RouteEntry (Sample.route0 "/items/{item}/{rest:path}" "item" false)] []) "/api" None true] [].

Lemma url_path_for_fills_template_witness :
  url_path_for Sample.no_callable Sample.no_gen Sample.no_gen_legacy (fun _ => None) sample_app "item"
    {[ lit "item" := lit "a/b"; lit "rest" := lit "x/y" ]} = Ok (lit "/api/v1/items/a%2Fb/x/y") /\
  url_path_for Sample.no_callable Sample.no_gen Sample.no_gen_legacy (fun _ => None) sample_app "item"
    {[ lit "item" := lit "a/b" ]} = Raise (KeyError (lit "rest")).
Proof.
  split; (eapply eq_trans; [eapply (url_path_for_fills_template _ _ _ _ _ _ _ _ _ _ _
      [PText "/api/v1/items/"; PParam "item" ""; PText "/"; PParam "rest" "path"]);
      [vm_compute; reflexivity|vm_compute; reflexivity|vm_compute; reflexivity|]|vm_compute; reflexivity]);
    (repeat (apply Forall_cons; split); [..|apply Forall_nil]; unfold piece_ok;
      apply (bool_decide_eq_true_1 _); vm_compute; reflexivity).
Defined.

(** *** The mount proxy *)

Lemma proxy_fold ms : forall h,
  concat (h_parts (foldl proxy_send h ms)) =
  concat (h_parts h) ++ concat (omap (fun m => match m with ResponseBody b => Some b | _ => None end) ms).
Proof.
  induction ms as [|m ms IH]; intros h; simpl; [by rewrite app_nil_r|].
  rewrite IH. destruct m as [s hs|[|c b]|]; simpl; try done.
  rewrite concat_app. simpl. by rewrite app_nil_r, <-app_assoc.
Qed.

Definition is_start (m : asgi_msg) : bool := match m with ResponseStart _ _ => true | _ => false end.

(** Only a start message changes the status and the headers. *)
Lemma proxy_head ms : forall h,
  Forall (fun m => is_start m = false) ms ->
  h_status (foldl proxy_send h ms) = h_status h /\ h_headers (foldl proxy_send h ms) = h_headers h.
Proof.
  induction ms as [|m ms IH]; intros h Hms; [done|].
  apply Forall_cons in Hms as [Hm Hms]. destruct (IH (proxy_send h m) Hms) as [H1 H2].
  cbn [foldl]. rewrite H1, H2. by destruct m as [s hs|[|c b]|].
Qed.

(** the proxy of an ASGI mount is transparent: the root path and the path
    it hands to the mounted application concatenate to the original path, and
    the response has the status and the headers of the last start message and
    the concatenation of all body chunks. *)
Theorem mount_proxy_transparent clean root rest pre status headers post :
  clean <> [] -> rest <> [] -> Forall (fun m => is_start m = false) post ->
  proxy_root_path clean root ++ proxy_inner_path clean (clean ++ rest) = root ++ clean ++ rest /\
  proxy_response (pre ++ ResponseStart status headers :: post) =
    (default 200 status, headers,
     concat (omap (fun m => match m with ResponseBody b => Some b | _ => None end)
                  (pre ++ ResponseStart status headers :: post))).
Proof.
  intros Hc Hr Hpost. split.
  - unfold proxy_inner_path, proxy_root_path. rewrite bool_decide_eq_false_2 by done.
    rewrite starts_with_app. simpl. rewrite drop_app_length.
    destruct rest; [done|]. by rewrite <-app_assoc.
  - unfold proxy_response. cbv zeta. rewrite proxy_fold. rewrite foldl_app. cbn [foldl].
    edestruct (proxy_head post) as [-> ->]; done.
Qed.

Lemma mount_proxy_transparent_witness :
  proxy_response [OtherMsg; ResponseStart (Some 201) [(lit "x", lit "y")]; ResponseBody "ab"; ResponseBody "";
                  ResponseBody "c"] = (201, [(lit "x", lit "y")], lit "abc").
Proof.
  destruct (mount_proxy_transparent "/v1" "" "/x" [OtherMsg] (Some 201) [(lit "x", lit "y")]
    [ResponseBody "ab"; ResponseBody ""; ResponseBody "c"]) as [_ H];
    [discriminate|discriminate|repeat constructor|exact H].
Defined.

End Urls.
