(* ===== verification/Exceptions.v ===== *)
(** Exception dispatch (applications.py): the look-up of
    [@app.exception_handler] handlers, running one synchronously or on the
    live loop, the wrappers around route handlers and the entry for exceptions
    of dependencies, with the record kept for re-raising in the test client. *)

From S2P Require Import Prelude.

Module Exceptions.

(** ** Data *)

(** Classes are identified by a number; [mro c] lists [c] and its bases in
    method resolution order. *)
Definition cls := nat.

(** A raised exception object: its class, its [status_code] attribute when that
    is an [int], and its identity. *)
Record exc := { e_cls : cls; e_status : option Z; e_id : nat }.

#[export] Instance exc_eq_dec : EqDecision exc.
Proof. solve_decision. Defined.

(** A key of [app.exception_handlers]. *)
Inductive key := KClass (c : cls) | KStatus (z : Z).

#[export] Instance key_eq_dec : EqDecision key.
Proof. solve_decision. Defined.

(** A response, or whatever else a handler returns, by identity. *)
Definition response := nat.

(** How a handler ends: it returns a response or [None], or raises; [true]
    marks an exception that is an [Exception] (not a bare [BaseException]). *)
Inductive outcome :=
| Returned (r : option response)
| Raised (catchable : bool) (e : nat).

(** A registered handler.  A coroutine function may suspend when driven without
    a loop; a run that does is started a second time from the beginning. *)
Record handler := {
  h_is_coroutine : bool;
  h_suspends : bool;
  h_outcome : outcome }.

Abbreviation handlers := (list (key * handler)) (only parsing).

(** [d.get(k)] of the insertion-ordered dict. *)
Definition dict_get (d : handlers) (k : key) : option handler :=
  snd <$> (snd <$> list_find (fun p => p.1 = k) d).

Section Dispatch.

(** The class hierarchy of the program. *)
Variable mro : cls -> list cls.
(** [Exception] and [HTTPException]. *)
Variable Exception_ HTTPException : cls.

(** [isinstance(e, c)] *)
Definition isinstance (e : exc) (c : cls) : bool := bool_decide (c ∈ mro (e_cls e)).

(** ** Look-up *)

Fixpoint first_class (d : handlers) (cs : list cls) : option handler :=
  match cs with
  | [] => None
  | c :: cs' => match dict_get d (KClass c) with
                | Some h => Some h
                | None => first_class d cs'
                end
  end.

Definition _lookup_exception_handler (d : handlers) (e : exc) : option handler :=
  match dict_get d (KClass (e_cls e)) with
  | Some h => Some h
  | None =>
      match first_class d (tail (mro (e_cls e))) with
      | Some h => Some h
      | None => match e_status e with
                | Some z => dict_get d (KStatus z)
                | None => None
                end
      end
  end.

(** ** Running a handler *)

(** What a run produces: a value or a raise, and how often the handler's body
    was started. *)
Record run := { r_out : outcome; r_starts : nat }.

(** Drive without a loop, and from the beginning on a new loop if it
    suspended. *)
Definition drive (h : handler) : run :=
  if h_is_coroutine h && h_suspends h
  then {| r_out := h_outcome h; r_starts := 2%nat |}
  else {| r_out := h_outcome h; r_starts := 1%nat |}.

(** [_invoke_exception_handler_strict] *)
Definition _invoke_exception_handler_strict (d : handlers) (e : exc) : run :=
  match _lookup_exception_handler d e with
  | None => {| r_out := Returned None; r_starts := 0%nat |}
  | Some h => drive h
  end.

(** [except Exception: return None] *)
Definition swallow (o : outcome) : outcome :=
  match o with
  | Raised true _ => Returned None
  | o => o
  end.

(** [_invoke_exception_handler] *)
Definition _invoke_exception_handler (d : handlers) (e : exc) : run :=
  match _lookup_exception_handler d e with
  | None => {| r_out := Returned None; r_starts := 0%nat |}
  | Some h => let r := drive h in {| r_out := swallow (r_out r); r_starts := r_starts r |}
  end.

(** [_ainvoke_exception_handler]: awaits on the running loop. *)
Definition _ainvoke_exception_handler (d : handlers) (e : exc) : run :=
  match _lookup_exception_handler d e with
  | None => {| r_out := Returned None; r_starts := 0%nat |}
  | Some h => {| r_out := swallow (h_outcome h); r_starts := 1%nat |}
  end.

(** ** The wrappers around route handlers *)

(** Some registered class other than [Exception] fits the exception. *)
Definition handled_specific (d : handlers) (e : exc) : bool :=
  existsb (fun p => match p.1 with
                    | KClass c => negb (bool_decide (c = Exception_)) && isinstance e c
                    | KStatus _ => false
                    end) d.

(** How a wrapped endpoint ends: a response, the re-raised exception, or an
    uncatchable exception of the handler. *)
Inductive final :=
| FResponse (r : response)
| FReraise (e : exc)
| FBase (e : nat).

(** The [except] branch of [wrapped], with the handler's run given: the new
    [_captured_server_exceptions] and the end. *)
Definition after_handler (d : handlers) (e : exc) (captured : list exc) (o : outcome)
    : list exc * final :=
  match o with
  | Raised false x => (captured, FBase x)
  | _ =>
      let result := match o with Returned r => r | Raised _ _ => None end in
      let specific := match result with Some _ => handled_specific d e | None => false end in
      let captured' := if negb (isinstance e HTTPException) && negb specific
                       then captured ++ [e] else captured in
      match result with
      | Some r => (captured', FResponse r)
      | None => (captured', FReraise e)
      end
  end.

(** What the endpoint did: returned a response, or raised. *)
Definition _wrap_with_exception_handlers (d : handlers) (ep : response + exc) (captured : list exc)
    : list exc * final :=
  match ep with
  | inl r => (captured, FResponse r)
  | inr e =>
      match d with
      | [] => (captured, FReraise e)
      | _ => if isinstance e Exception_
             then after_handler d e captured (r_out (_invoke_exception_handler d e))
             else (captured, FReraise e)
      end
  end.

Definition _wrap_with_exception_handlers_async (d : handlers) (ep : response + exc) (captured : list exc)
    : list exc * final :=
  match ep with
  | inl r => (captured, FResponse r)
  | inr e =>
      match d with
      | [] => (captured, FReraise e)
      | _ => if isinstance e Exception_
             then after_handler d e captured (r_out (_ainvoke_exception_handler d e))
             else (captured, FReraise e)
      end
  end.

(** [_door_handle_dep_exception]: [None] leaves the exception to the door's
    default, which records it itself. *)
Definition _door_handle_dep_exception (d : handlers) (e : exc) (captured : list exc)
    : list exc * (nat + option response) :=
  if isinstance e HTTPException then (captured, inr None)
  else match d with
       | [] => (captured, inr None)
       | _ =>
           match r_out (_invoke_exception_handler d e) with
           | Raised _ x => (captured, inl x)
           | Returned None => (captured, inr None)
           | Returned (Some r) =>
               ((if handled_specific d e then captured else captured ++ [e]), inr (Some r))
           end
       end.

(** ** Theorems *)

(** In a hierarchy every class is the first of its own resolution order. *)
Definition mro_ok : Prop := forall c, exists l, mro c = c :: l.

Lemma lookup_is_first_class d e :
  mro_ok ->
  _lookup_exception_handler d e =
  match first_class d (mro (e_cls e)) with
  | Some h => Some h
  | None => match e_status e with Some z => dict_get d (KStatus z) | None => None end
  end.
Proof.
  intros Hm. destruct (Hm (e_cls e)) as [l Hl]. unfold _lookup_exception_handler. rewrite Hl. simpl.
  by destruct (dict_get d (KClass (e_cls e))).
Qed.

Lemma first_class_Some d cs h :
  first_class d cs = Some h <->
  exists i c, cs !! i = Some c /\ dict_get d (KClass c) = Some h /\
    forall j c', (j < i)%nat -> cs !! j = Some c' -> dict_get d (KClass c') = None.
Proof.
  induction cs as [|c cs IH]; simpl.
  - split; [done|]. by intros (i & c & Hc & _).
  - destruct (dict_get d (KClass c)) as [h'|] eqn:E.
    + split.
      * intros [= ->]. exists 0%nat, c. split_and!; [done|done|]. intros; lia.
      * intros ([|i] & c' & Hc & Hd & Hlt); simpl in Hc; [congruence|].
        specialize (Hlt 0%nat c ltac:(lia) eq_refl). congruence.
    + rewrite IH. split.
      * intros (i & c' & Hc & Hd & Hlt). exists (S i), c'. split_and!; [done|done|].
        intros [|j] c'' Hj Hj'; simpl in Hj'; [congruence|]. eapply Hlt; [|done]. lia.
      * intros ([|i] & c' & Hc & Hd & Hlt); simpl in Hc; [congruence|].
        exists i, c'. split_and!; [done|done|]. intros j c'' Hj Hj'.
        eapply (Hlt (S j)); [lia|done].
Qed.

(** the handler that runs is one registered for the nearest class of the
    exception: no class before it in the resolution order has a handler.  Only
    when no class of the exception has one is the status code asked. *)
Theorem nearest_class_handler_runs d e h :
  mro_ok ->
  _lookup_exception_handler d e = Some h <->
  (exists i c, mro (e_cls e) !! i = Some c /\ dict_get d (KClass c) = Some h /\
     forall j c', (j < i)%nat -> mro (e_cls e) !! j = Some c' -> dict_get d (KClass c') = None) \/
  ((forall c, c ∈ mro (e_cls e) -> dict_get d (KClass c) = None) /\
   exists z, e_status e = Some z /\ dict_get d (KStatus z) = Some h).
Proof.
  intros Hm. rewrite lookup_is_first_class by done. rewrite <-first_class_Some.
  destruct (first_class d (mro (e_cls e))) as [h'|] eqn:E.
  - split; [naive_solver|]. intros [?|[Hn _]]; [done|].
    apply first_class_Some in E as (i & c & Hc & Hd & _).
    apply list_elem_of_lookup_2, Hn in Hc. congruence.
  - assert (forall c, c ∈ mro (e_cls e) -> dict_get d (KClass c) = None) as Hn.
    { intros c Hc. induction (mro (e_cls e)) as [|c' l IH]; [by apply not_elem_of_nil in Hc|].
      simpl in E. destruct (dict_get d (KClass c')) eqn:E'; [done|].
      apply elem_of_cons in Hc as [->|Hc]; [done|by apply IH]. }
    destruct (e_status e) as [z|]; naive_solver.
Qed.

(** a handler registered for a status code never runs while a handler for
    a base class of the exception is registered, the catch-all [Exception]
    included; Starlette, whose resolution order the comment claims, asks the
    status code of an [HTTPException] first. *)
Theorem status_handler_is_shadowed d e z hs hc :
  mro_ok -> e_status e = Some z -> dict_get d (KStatus z) = Some hs ->
  Exception_ ∈ mro (e_cls e) -> dict_get d (KClass Exception_) = Some hc ->
  exists h c, _lookup_exception_handler d e = Some h /\
    c ∈ mro (e_cls e) /\ dict_get d (KClass c) = Some h.
Proof.
  intros Hm Hz Hs HE Hc. rewrite lookup_is_first_class by done.
  destruct (first_class d (mro (e_cls e))) as [h|] eqn:E.
  - pose proof E as (i & c & Hi & Hd & _)%first_class_Some. exists h, c.
    split_and!; [done| |done]. by eapply list_elem_of_lookup_2.
  - exfalso. induction (mro (e_cls e)) as [|c' l IH]; [by apply not_elem_of_nil in HE|].
    simpl in E. destruct (dict_get d (KClass c')) eqn:E'; [done|].
    apply elem_of_cons in HE as [<-|HE]; [congruence|by apply IH].
Qed.

(** The test is about the registered classes, not about the handler that ran. *)
Lemma handled_specific_spec d e :
  handled_specific d e = true <->
  exists c h, (KClass c, h) ∈ d /\ c <> Exception_ /\ c ∈ mro (e_cls e).
Proof.
  unfold handled_specific, isinstance. rewrite existsb_exists. split.
  - intros ([[c|z] h] & Hin & H); [|done]. apply list_elem_of_In in Hin.
    apply andb_true_iff in H as [H1%negb_true_iff H2]. rewrite bool_decide_eq_false in H1.
    rewrite bool_decide_eq_true in H2. by exists c, h.
  - intros (c & h & Hin & Hc & He). exists (KClass c, h). rewrite <-list_elem_of_In. split; [done|].
    simpl. rewrite bool_decide_eq_false_2, bool_decide_eq_true_2 by done. done.
Qed.

(** What an exception is recorded by: it is appended once, or not at all. *)
Definition recorded_iff (P : Prop) (captured captured' : list exc) (e : exc) : Prop :=
  (P /\ captured' = captured ++ [e]) \/ (~ P /\ captured' = captured).

(** C10: how a wrapped endpoint that raised [e] ends, with handlers registered.
    When the handler found for [e] answers, its response is the result;
    when there is none, or it returns nothing or raises an [Exception], the very
    exception [e] is re-raised; only what is not an [Exception] leaves a handler.
    In the first two cases [e] is recorded for the test client, once, iff it is
    no [HTTPException] and not (answered while some class other than
    [Exception] registered in the application is a class of [e], whichever
    handler it was that answered).  An [e] that is not an [Exception] passes
    through, unseen by any handler and not recorded. *)
Theorem wrapped_endpoint_outcome d e captured :
  d <> [] ->
  let '(captured', f) := _wrap_with_exception_handlers d (inr e) captured in
  if bool_decide (Exception_ ∈ mro (e_cls e)) then
    match h_outcome <$> _lookup_exception_handler d e with
    | Some (Returned (Some r)) =>
        f = FResponse r /\
        recorded_iff (HTTPException ∉ mro (e_cls e) /\
                      ~ exists c h, (KClass c, h) ∈ d /\ c <> Exception_ /\ c ∈ mro (e_cls e))
          captured captured' e
    | Some (Raised false x) => f = FBase x /\ captured' = captured
    | Some (Returned None) | Some (Raised true _) | None =>
        f = FReraise e /\
        recorded_iff (HTTPException ∉ mro (e_cls e)) captured captured' e
    end
  else f = FReraise e /\ captured' = captured.
Proof.
  intros Hd. unfold _wrap_with_exception_handlers. destruct d as [|p d]; [done|].
  generalize dependent (p :: d). intros dd Hd. unfold isinstance at 1.
  case_bool_decide as HE; [|done].
  pose proof (handled_specific_spec dd e) as Hs.
  assert (isinstance e HTTPException = true <-> HTTPException ∈ mro (e_cls e)) as Hh
    by (unfold isinstance; by rewrite bool_decide_eq_true).
  unfold _invoke_exception_handler, recorded_iff.
  destruct (_lookup_exception_handler dd e) as [h|]; unfold after_handler; simpl.
  - replace (r_out (drive h)) with (h_outcome h) by (unfold drive; by destruct (_ && _)).
    destruct (h_outcome h) as [[r|]|[] x]; simpl; [| | |done];
      destruct (isinstance e HTTPException), (handled_specific dd e); simpl; naive_solver.
  - destruct (isinstance e HTTPException); simpl; naive_solver.
Qed.

(** Which handler answered plays no part in the bookkeeping.  An exception the
    [Exception] catch-all answered is not recorded when another registered
    class, such as [BaseException], fits it too; and one that a handler keyed
    by a status code answered is recorded, when no class of it is registered. *)
Theorem recording_ignores_the_answering_handler d e captured h r :
  d <> [] -> mro_ok -> Exception_ ∈ mro (e_cls e) -> HTTPException ∉ mro (e_cls e) ->
  _lookup_exception_handler d e = Some h -> h_outcome h = Returned (Some r) ->
  (forall c h', (KClass c, h') ∈ d -> c <> Exception_ -> c ∈ mro (e_cls e) ->
     _wrap_with_exception_handlers d (inr e) captured = (captured, FResponse r)) /\
  ((forall c h', (KClass c, h') ∈ d -> c ∉ mro (e_cls e)) ->
     _wrap_with_exception_handlers d (inr e) captured = (captured ++ [e], FResponse r) /\
     exists z, e_status e = Some z /\ dict_get d (KStatus z) = Some h).
Proof.
  intros Hd Hm HE HH Hl Hr.
  assert (forall b, handled_specific d e = b ->
          _wrap_with_exception_handlers d (inr e) captured
          = (if b then captured else captured ++ [e], FResponse r)) as Hw.
  { intros b Hb. unfold _wrap_with_exception_handlers, isinstance at 1. rewrite bool_decide_eq_true_2 by done.
    destruct d as [|p d]; [done|]. generalize dependent (p :: d). intros dd _ Hl Hb.
    unfold _invoke_exception_handler. rewrite Hl.
    replace (r_out (drive h)) with (h_outcome h) by (unfold drive; by destruct (_ && _)).
    unfold after_handler. rewrite Hr. simpl. rewrite Hb. unfold isinstance.
    rewrite bool_decide_eq_false_2 by done. by destruct b. }
  split.
  - intros c h' Hin Hc Hi. apply (Hw true). apply handled_specific_spec. by exists c, h'.
  - intros Hno. split.
    + apply (Hw false). apply not_true_is_false. rewrite handled_specific_spec.
      intros (c & h' & Hin & _ & Hi). by eapply Hno.
    + pose proof Hl as Hl'. rewrite lookup_is_first_class in Hl' by done.
      destruct (first_class d (mro (e_cls e))) as [h0|] eqn:E.
      * exfalso. apply first_class_Some in E as (i & c & Hc & Hg & _).
        apply list_elem_of_lookup_2 in Hc. unfold dict_get in Hg.
        destruct (list_find _ d) as [[j [k h1]]|] eqn:Ef; [|done].
        apply list_find_Some in Ef as (Hj & Hk & _). simpl in Hk. subst k.
        apply list_elem_of_lookup_2 in Hj. by eapply Hno.
      * destruct (e_status e) as [z|]; [|done]. by exists z.
Qed.

(** the synchronous and the asynchronous wrapper end alike for every
    handler; but a coroutine handler that suspends is started twice by the
    synchronous one (its code before the first suspension runs twice) and
    once by the asynchronous one. *)
Theorem sync_and_async_wrappers_agree d ep captured e :
  _wrap_with_exception_handlers_async d ep captured = _wrap_with_exception_handlers d ep captured /\
  r_starts (_invoke_exception_handler d e) =
    (match _lookup_exception_handler d e with
     | Some h => if h_is_coroutine h && h_suspends h then 2 else r_starts (_ainvoke_exception_handler d e)
     | None => 0
     end)%nat.
Proof.
  split.
  - unfold _wrap_with_exception_handlers_async, _wrap_with_exception_handlers.
    destruct ep as [r|e']; [done|]. destruct d as [|p d]; [done|].
    destruct (isinstance e' Exception_); [|done]. unfold _invoke_exception_handler, _ainvoke_exception_handler.
    destruct (_lookup_exception_handler (p :: d) e') as [h|]; [|done].
    unfold drive. by destruct (h_is_coroutine h && h_suspends h).
  - unfold _invoke_exception_handler, _ainvoke_exception_handler.
    destruct (_lookup_exception_handler d e) as [h|]; [|done].
    unfold drive. by destruct (h_is_coroutine h && h_suspends h).
Qed.

End Dispatch.

(** ** Witnesses *)

(** Classes 0 [object], 1 [BaseException], 2 [Exception], 3 [HTTPException],
    4 [ValueError]. *)
Definition mro0 (c : cls) : list cls :=
  match c with
  | 3%nat => [3; 2; 1; 0]%nat
  | 4%nat => [4; 2; 1; 0]%nat
  | c => [c]
  end.

Lemma mro0_ok : mro_ok mro0.
Proof. intros c. destruct c as [|[|[|[|[|c]]]]]; eexists; reflexivity. Qed.

Definition answer (r : response) : handler :=
  {| h_is_coroutine := false; h_suspends := false; h_outcome := Returned (Some r) |}.

Definition not_found : exc := {| e_cls := 3%nat; e_status := Some 404; e_id := 0%nat |}.
Definition value_error : exc := {| e_cls := 4%nat; e_status := None; e_id := 1%nat |}.
Definition catch_all : list (key * handler) := [(KStatus 404, answer 404%nat); (KClass 2%nat, answer 500%nat)].

Lemma nearest_class_handler_runs_witness :
  _lookup_exception_handler mro0 catch_all value_error = Some (answer 500%nat).
Proof.
  apply (nearest_class_handler_runs mro0 catch_all value_error (answer 500%nat) mro0_ok).
  left. exists 1%nat, 2%nat. split; [reflexivity|]. split; [reflexivity|].
  intros [|j] c' Hj Hc; [|lia]. injection Hc as <-. reflexivity.
Defined.

Lemma status_handler_is_shadowed_witness :
  _lookup_exception_handler mro0 catch_all not_found = Some (answer 500%nat) /\
  exists h c, _lookup_exception_handler mro0 catch_all not_found = Some h /\
    c ∈ mro0 3%nat /\ dict_get catch_all (KClass c) = Some h.
Proof.
  split; [reflexivity|].
  apply (status_handler_is_shadowed mro0 2%nat catch_all not_found 404 (answer 404%nat) (answer 500%nat));
    [exact mro0_ok|reflexivity|reflexivity|right; left|reflexivity].
Defined.

Lemma wrapped_endpoint_outcome_witness :
  FResponse 500%nat = FResponse 500%nat /\
  recorded_iff (3%nat ∉ mro0 4%nat /\
                ~ exists c h, (KClass c, h) ∈ catch_all /\ c <> 2%nat /\ c ∈ mro0 4%nat)
    [] [value_error] value_error.
Proof. exact (wrapped_endpoint_outcome mro0 2%nat 3%nat catch_all value_error [] ltac:(discriminate)). Defined.

(** The catch-all answers, but [BaseException] is registered too; and a handler
    for the status of an exception that has one without being an
    [HTTPException]. *)
Definition both_roots : list (key * handler) :=
  [(KClass 2%nat, answer 500%nat); (KClass 1%nat, answer 501%nat)].
Definition teapot : exc := {| e_cls := 4%nat; e_status := Some 418; e_id := 2%nat |}.
Definition status_only : list (key * handler) := [(KStatus 418, answer 418%nat)].

Lemma recording_ignores_the_answering_handler_witness :
  _wrap_with_exception_handlers mro0 2%nat 3%nat both_roots (inr value_error) [] = ([], FResponse 500%nat) /\
  _wrap_with_exception_handlers mro0 2%nat 3%nat status_only (inr teapot) [] = ([teapot], FResponse 418%nat).
Proof.
  assert (2%nat ∈ mro0 4%nat) by (right; left).
  assert (3%nat ∉ mro0 4%nat) by (by apply (bool_decide_unpack _)).
  split.
  - refine (proj1 (recording_ignores_the_answering_handler mro0 2%nat 3%nat both_roots value_error []
      (answer 500%nat) 500%nat _ mro0_ok _ _ eq_refl eq_refl) 1%nat (answer 501%nat) _ _ _); try done.
    + right. left.
    + right. right. left.
  - refine (proj1 (proj2 (recording_ignores_the_answering_handler mro0 2%nat 3%nat status_only teapot []
      (answer 418%nat) 418%nat _ mro0_ok _ _ eq_refl eq_refl) _)); try done.
    intros c h' Hin. apply list_elem_of_singleton in Hin. discriminate.
Defined.

End Exceptions.
