(* ===== verification/Teardown.v ===== *)
(** Tearing down dependencies with [yield]: [_run_pending_teardowns] and
    [_door_wrap_stream_teardown] of applications.py, [_teardown_generators] of
    _ws_support.py, and the exit stacks of the delegated handler.

    A generator is paused at its [yield]; what it does when it is resumed is a
    list of actions, so that the effects of a teardown can be observed. *)

From S2P Require Import Prelude.

Module Teardown.

(** ** Generators *)

(** Exceptions by identity; some are raised by the code or the interpreter. *)
Definition exc := nat.
Definition fastapi_error : exc := 0%nat.        (* "No response returned. ..." *)
Definition already_running : exc := 1%nat.      (* RuntimeError of the interpreter *)
Definition no_running_loop : exc := 2%nat.      (* RuntimeError of asyncio *)
Definition did_not_stop : exc := 3%nat.         (* RuntimeError of contextlib *)

(** An action after the [yield]: an effect, an [await] that really suspends, a
    call that needs a running loop, a raise, another [yield]. *)
Inductive act :=
| Work (n : nat)
| Await
| NeedLoop
| RaiseA (e : exc)
| YieldAgain.

(** A paused generator: its code after the [yield], and its [except] clause
    around the [yield] if it has one. *)
Record gen := { g_async : bool; g_body : list act; g_except : option (list act) }.

(** How a resumption ends. *)
Inductive stop :=
| Finished                      (* StopIteration or StopAsyncIteration *)
| Yielded
| Raised (e : exc)
| Suspended                     (* only without a loop *)
| NoLoop.                       (* RuntimeError: no running event loop *)

(** Run the actions, with or without an event loop: the effects and the end. *)
Fixpoint exec (loop : bool) (l : list act) : list nat * stop :=
  match l with
  | [] => ([], Finished)
  | Work n :: l' => let '(w, s) := exec loop l' in (n :: w, s)
  | Await :: l' => if loop then exec loop l' else ([], Suspended)
  | NeedLoop :: l' => if loop then exec loop l' else ([], NoLoop)
  | RaiseA e :: _ => ([], Raised e)
  | YieldAgain :: _ => ([], Yielded)
  end.

(** What the generator runs when resumed, or when [t] is thrown into it. *)
Definition resumed_code (g : gen) (throw : option exc) : list act :=
  match throw with
  | None => g_body g
  | Some t => match g_except g with
              | None => [RaiseA t]
              | Some l => l
              end
  end.

(** ** [_run_pending_teardowns] *)

(** The [loop] of a pending teardown. *)
Inductive loop_kind := LWorker | LLoop | LNone.

(** The [try] block for one generator: its effects, and how the block ends:
    [inl swallowed] or a raise. *)
Definition attempt (g : gen) (k : loop_kind) (throw : option exc) : list nat * (bool + exc) :=
  let thrown := match throw with Some _ => true | None => false end in
  let on_loop (w : list nat) (l : list nat * stop) :=
    match l with
    | (w', Raised e) => (w ++ w', inr e)
    | (w', _) => (w ++ w', inl thrown)
    end in
  match k with
  | LWorker | LLoop => on_loop [] (exec true (resumed_code g throw))
  | LNone =>
      if g_async g then
        match exec false (resumed_code g throw) with
        | (w, Finished) | (w, Yielded) => (w, inl thrown)
        | (w, Raised e) => (w, inr e)
        (* a fresh [__anext__]/[athrow] on the worker loop: the generator is
           still running, or was ended by the error; [athrow] into an ended
           generator raises what is thrown *)
        | (w, Suspended) => (w, inr already_running)
        | (w, NoLoop) => (w, match throw with Some t => inr t | None => inl false end)
        end
      else
        match exec false (resumed_code g throw) with
        | (w, Raised e) => (w, inr e)
        | (w, NoLoop) => (w, inr no_running_loop)
        | (w, _) => (w, inl thrown)
        end
  end.

(** The loop over the pending teardowns: effects, collected errors, and the
    exception that leaves it. *)
Fixpoint _run_pending_teardowns (ts : list (gen * loop_kind)) (throw : option exc)
    (propagate : bool) (collected : list exc) : list nat * list exc * option exc :=
  match ts with
  | [] => ([], collected, None)
  | (g, k) :: ts' =>
      match attempt g k throw with
      | (w, inr e) =>
          match throw with
          | Some t =>
              if bool_decide (e = t) then
                let '(w', c, r) := _run_pending_teardowns ts' throw propagate collected in
                (w ++ w', c, r)
              else (w, collected, Some e)
          | None =>
              if propagate then (w, collected, Some e)
              else
                let '(w', c, r) := _run_pending_teardowns ts' throw propagate (collected ++ [e]) in
                (w ++ w', c, r)
          end
      | (w, inl true) => (w, collected, Some fastapi_error)
      | (w, inl false) =>
          let '(w', c, r) := _run_pending_teardowns ts' throw propagate collected in
          (w ++ w', c, r)
      end
  end.

(** ** [_door_wrap_stream_teardown] *)

(** [_teardown]: every generator in reverse; a raise is captured on the
    application, one that yields again is closed. *)
Fixpoint stream_teardown (gs : list gen) : list nat * list exc :=
  match gs with
  | [] => ([], [])
  | g :: gs' =>
      let '(w, s) := exec false (g_body g) in
      let '(w', c) := stream_teardown gs' in
      match s with
      | Raised e => (w ++ w', e :: c)
      | NoLoop => (w ++ w', no_running_loop :: c)
      | _ => (w ++ w', c)
      end
  end.

Definition _teardown (req_gens : list gen) : list nat * list exc := stream_teardown (reverse req_gens).

(** What the client of the wrapped body sees. *)
Inductive event := Chunk (n : nat) | Effect (n : nat).

(** The body: its chunks and the exception it ends with, if any. *)
Record body := { b_chunks : list nat; b_raises : option exc }.

(** Drive the wrapped iterator: the consumer asks for at most [k] chunks and
    then closes it.  Nothing runs if it never asks. *)
Definition wrapped_stream (b : body) (req_gens : list gen) (k : nat)
    : list event * list exc * option exc :=
  match k with
  | O => ([], [], None)
  | _ =>
      let taken := take k (b_chunks b) in
      let '(w, c) := _teardown req_gens in
      let r := if bool_decide (length (b_chunks b) < k)%nat then b_raises b else None in
      ((Chunk <$> taken) ++ (Effect <$> w), c, r)
  end.

(** ** [_teardown_generators] (WebSocket routes) *)

Inductive scope := Function | Request.

#[export] Instance scope_eq_dec : EqDecision scope.
Proof. solve_decision. Defined.

(** The walk over the reversed list: effects, and the entries of another scope
    in the order met. *)
Fixpoint ws_walk (l : list (gen * scope)) (filter_ : option scope) : list nat * list (gen * scope) :=
  match l with
  | [] => ([], [])
  | (g, s) :: l' =>
      let '(w, rest) := ws_walk l' filter_ in
      let skip := match filter_ with Some f => negb (bool_decide (s = f)) | None => false end in
      if skip then (w, (g, s) :: rest)
      else ((exec true (g_body g)).1 ++ w, rest)
  end.

(** The effects and the list afterwards. *)
Definition _teardown_generators (gens : list (gen * scope)) (filter_ : option scope)
    : list nat * list (gen * scope) :=
  let '(w, remaining) := ws_walk (reverse gens) filter_ in (w, reverse remaining).

(** ** The exit stacks of the delegated handler *)

(** A context manager made of a generator, leaving its block with [cur] as the
    current exception: its effects and the exception current afterwards. *)
Definition exit_gen (g : gen) (cur : option exc) : list nat * option exc :=
  match exec true (resumed_code g cur) with
  | (w, Raised e) => (w, Some e)
  | (w, Yielded) => (w, Some did_not_stop)
  | (w, _) => (w, None)
  end.

(** Leaving the managers in the given order. *)
Fixpoint unwind (ms : list gen) (cur : option exc) : list nat * option exc :=
  match ms with
  | [] => ([], cur)
  | g :: ms' =>
      let '(w, cur') := exit_gen g cur in
      let '(w', r) := unwind ms' cur' in (w ++ w', r)
  end.

(** [AsyncExitStack.__aexit__]: the managers entered last are left first; it
    returns whether it suppressed the exception it was given, or raises. *)
Definition aexit (st : list gen) (cur : option exc) : list nat * (bool + exc) :=
  match unwind (reverse st) cur with
  | (w, None) => (w, inl (match cur with Some _ => true | None => false end))
  | (w, Some e) => (w, if bool_decide (cur = Some e) then inl false else inr e)
  end.

(** The three stacks of a request. *)
Record stacks := { s_function : list gen; s_inner : list gen; s_file : list gen }.

(** The loop over the stacks in the error path, with [_cur]. *)
Fixpoint unwind_stacks (l : list (list gen)) (cur : option exc) : list nat * option exc :=
  match l with
  | [] => ([], cur)
  | st :: l' =>
      let '(w, r) := aexit st cur in
      let cur' := match r with
                  | inr e2 => Some e2
                  | inl true => None
                  | inl false => cur
                  end in
      let '(w', r') := unwind_stacks l' cur' in (w ++ w', r')
  end.

(** The error path: the effects and the exception raised, if any is left. *)
Definition unwind_error (s : stacks) (e : exc) : list nat * option exc :=
  unwind_stacks [s_function s; s_inner s; s_file s] (Some e).

(** Statements in sequence: the first that raises ends them. *)
Fixpoint sequence (l : list (list nat * option exc)) : list nat * option exc :=
  match l with
  | [] => ([], None)
  | (w, Some e) :: _ => (w, Some e)
  | (w, None) :: l' => let '(w', r) := sequence l' in (w ++ w', r)
  end.

(** [await st.__aexit__(None, None, None)] *)
Definition close_stack (st : list gen) : list nat * option exc :=
  match aexit st None with
  | (w, inr e) => (w, Some e)
  | (w, inl _) => (w, None)
  end.

(** The background tasks of the response, by their effects and the exception
    they end with. *)
Definition background := option (list nat * option exc).

Definition run_background (bg : background) : list nat * option exc :=
  match bg with Some r => r | None => ([], None) end.

(** Background tasks, then the request-scope and the file stack. *)
Definition close_request (s : stacks) (bg : background) : list nat * option exc :=
  sequence [run_background bg; close_stack (s_inner s); close_stack (s_file s)].

(** [_unwind_clean], after a validation error has been rendered. *)
Definition unwind_clean (s : stacks) : list nat * option exc :=
  sequence [close_stack (s_function s); close_stack (s_inner s); close_stack (s_file s)].

(** The generator [_deferred_finalize], primed to its [yield]. *)
Definition _deferred_finalize (s : stacks) (bg : background) : gen :=
  let '(w, r) := close_request s bg in
  {| g_async := true;
     g_body := (Work <$> w) ++ match r with Some e => [RaiseA e] | None => [] end;
     g_except := None |}.

(** The success path: the effects before the response is returned, the
    exception raised instead of it, and what was added to the pending
    teardowns. *)
Record finished := {
  f_effects : list nat;
  f_raises : option exc;
  f_pending : list (gen * loop_kind) }.

Definition finish_success (s : stacks) (bg : background) (defer : bool) : finished :=
  match close_stack (s_function s) with
  | (w, Some e) => {| f_effects := w; f_raises := Some e; f_pending := [] |}
  | (w, None) =>
      if defer
      then {| f_effects := w; f_raises := None;
              f_pending := [(_deferred_finalize s bg, LWorker)] |}
      else let '(w', r) := close_request s bg in
           {| f_effects := w ++ w'; f_raises := r; f_pending := [] |}
  end.

(** ** Theorems *)

(** The whole teardown, run where it can suspend: its effects and its error. *)
Definition full_effects (g : gen) : list nat := (exec true (g_body g)).1.

Definition full_error (g : gen) : option exc :=
  match (exec true (g_body g)).2 with Raised e => Some e | _ => None end.

Definition needs_loop (a : act) : bool := match a with Await | NeedLoop => true | _ => false end.

(** A pending teardown that is resumed on a loop, or never needs one. *)
Definition drivable (p : gen * loop_kind) : bool :=
  match p.2 with
  | LNone => forallb (fun a => negb (needs_loop a)) (g_body p.1)
  | _ => true
  end.

Lemma exec_no_loop l :
  forallb (fun a => negb (needs_loop a)) l = true -> exec false l = exec true l.
Proof.
  induction l as [|[] l IH]; simpl; intros H; try done. by rewrite IH.
Qed.

Lemma exec_true_end l : (exec true l).2 <> Suspended /\ (exec true l).2 <> NoLoop.
Proof.
  induction l as [|[] l IH]; simpl; try done. by destruct (exec true l).
Qed.

Lemma attempt_drivable g k :
  drivable (g, k) = true ->
  attempt g k None = (full_effects g, match full_error g with Some e => inr e | None => inl false end).
Proof.
  unfold drivable, attempt, full_effects, full_error. simpl. intros H.
  pose proof (exec_true_end (g_body g)) as [H1 H2].
  destruct k; [..|rewrite (exec_no_loop _ H); destruct (g_async g)];
    destruct (exec true (g_body g)) as [w []]; simpl in *; done.
Qed.

(** after a handler that succeeded, draining the pending teardowns resumes
    every generator, in the given order and to its end, however many of them
    raise; their exceptions are collected in order and none leaves the
    drain. *)
Theorem drain_runs_every_teardown ts c :
  Forall (fun p => drivable p = true) ts ->
  _run_pending_teardowns ts None false c =
  (flat_map (fun p => full_effects p.1) ts, c ++ omap (fun p => full_error p.1) ts, None).
Proof.
  intros H. revert c. induction H as [|[g k] ts Hg _ IH]; intros c; simpl; [by rewrite app_nil_r|].
  rewrite attempt_drivable by done. destruct (full_error g) as [e|].
  - rewrite IH. by rewrite <-app_assoc.
  - by rewrite IH.
Qed.

Lemma exec_works loop ws l :
  exec loop ((Work <$> ws) ++ l) = (ws ++ (exec loop l).1, (exec loop l).2).
Proof.
  induction ws as [|n ws IH]; [simpl; by destruct (exec loop l)|].
  rewrite fmap_cons. cbn [app exec]. by rewrite IH.
Qed.

(** an asynchronous generator that is pending without a loop and whose
    teardown suspends, or needs a running loop, after the effects [ws] is cut
    off there: the effects of [post] never happen, although the comment says
    the fresh coroutine on the worker loop resumes where it paused. *)
Theorem asyncgen_without_loop_is_cut_off ws a post ex :
  needs_loop a = true ->
  let g := {| g_async := true; g_body := (Work <$> ws) ++ a :: post; g_except := ex |} in
  full_effects g = ws ++ (exec true post).1 /\
  exists c, _run_pending_teardowns [(g, LNone)] None false [] = (ws, c, None).
Proof.
  intros Ha g. split.
  - unfold full_effects, g. cbn [g_body]. rewrite exec_works. by destruct a.
  - unfold g, _run_pending_teardowns, attempt. cbn [g_async g_body resumed_code].
    rewrite exec_works. destruct a; try done; simpl; rewrite ?app_nil_r; by eexists.
Qed.

(** *** Exit stacks *)

Lemma unwind_app l l' cur :
  unwind (l ++ l') cur =
  let '(w, c) := unwind l cur in let '(w', r) := unwind l' c in (w ++ w', r).
Proof.
  revert cur. induction l as [|g l IH]; intros cur; simpl; [by destruct (unwind l' cur)|].
  destruct (exit_gen g cur) as [w c]. rewrite IH. destruct (unwind l c) as [w1 c1].
  destruct (unwind l' c1) as [w2 r]. by rewrite app_assoc.
Qed.

(** What one turn of the loop makes of the current exception. *)
Lemma unwind_stacks_cons st l cur :
  unwind_stacks (st :: l) cur =
  let '(w, c) := unwind (reverse st) cur in let '(w', r) := unwind_stacks l c in (w ++ w', r).
Proof.
  simpl. unfold aexit. destruct (unwind (reverse st) cur) as [w [e|]].
  - by case_bool_decide as H; [rewrite H|].
  - by destruct cur.
Qed.

Lemma close_stack_unwind st : close_stack st = unwind (reverse st) None.
Proof. unfold close_stack, aexit. by destruct (unwind (reverse st) None) as [w [e|]]. Qed.

(** The drain of a deferred finalisation does what it would have done inline,
    and keeps its exception. *)
Lemma drain_deferred s bg :
  _run_pending_teardowns [(_deferred_finalize s bg, LWorker)] None false [] =
  let '(w, r) := close_request s bg in (w, from_option (fun e => [e]) [] r, None).
Proof.
  unfold _deferred_finalize. destruct (close_request s bg) as [w r]. simpl.
  rewrite exec_works. destruct r; simpl; by rewrite ?app_nil_r.
Qed.

(** C11: when the endpoint raised, closing the function, the request and the
    file stack one after the other is leaving all their managers as one nested
    [async with] does (last entered, first left; each sees the exception the
    previous one left, may replace or suppress it).  On success, when closing
    the function stack does not raise, its managers are left first, then the
    background tasks run, then the request and the file stack are closed, and
    the drain after the middleware chain does exactly this when it is
    deferred. *)
Theorem exit_stacks_order s bg e :
  unwind_error s e = unwind (reverse (s_file s ++ s_inner s ++ s_function s)) (Some e) /\
  forall w, close_stack (s_function s) = (w, None) ->
    let '(w', r) := close_request s bg in
    finish_success s bg false = {| f_effects := w ++ w'; f_raises := r; f_pending := [] |} /\
    let f := finish_success s bg true in
    f_effects f = w /\ f_raises f = None /\
    _run_pending_teardowns (f_pending f) None false [] =
      (w', from_option (fun x => [x]) [] r, None).
Proof.
  split.
  - unfold unwind_error. rewrite !unwind_stacks_cons, !reverse_app, !unwind_app.
    destruct (unwind (reverse (s_function s)) (Some e)) as [w1 c1].
    rewrite unwind_stacks_cons. destruct (unwind (reverse (s_inner s)) c1) as [w2 c2].
    rewrite unwind_stacks_cons. destruct (unwind (reverse (s_file s)) c2) as [w3 c3]. simpl.
    by rewrite app_nil_r, app_assoc.
  - intros w Hw. pose proof (drain_deferred s bg) as Hd. unfold finish_success. rewrite Hw.
    destruct (close_request s bg) as [w' r]. by rewrite <-Hd.
Qed.

(** C40: the success path has no [async with] semantics: when closing the
    function-scope stack raises, the effects end with it, inline and in what is
    left to the drain, while leaving the stacks as one nested [async with]
    would go on with the request-scope and file managers; nor is a manager left
    when the background tasks raise. *)
Theorem function_scope_failure_leaks s bg defer w e :
  (close_stack (s_function s) = (w, Some e) ->
   finish_success s bg defer = {| f_effects := w; f_raises := Some e; f_pending := [] |} /\
   (unwind (reverse (s_file s ++ s_inner s ++ s_function s)) None).1 =
     w ++ (unwind (reverse (s_file s ++ s_inner s)) (Some e)).1) /\
  (bg = Some (w, Some e) -> close_request s bg = (w, Some e)).
Proof.
  split; [|by intros ->]. intros H. split.
  - unfold finish_success. by rewrite H.
  - rewrite close_stack_unwind in H. rewrite app_assoc, reverse_app, unwind_app, H.
    by destruct (unwind (reverse (s_file s ++ s_inner s)) (Some e)).
Qed.

Definition sync_gen (g : gen) : bool := forallb (fun a => negb (needs_loop a)) (g_body g).

Lemma stream_teardown_all gs :
  Forall (fun g => sync_gen g = true) gs ->
  stream_teardown gs = (flat_map full_effects gs, omap full_error gs).
Proof.
  induction 1 as [|g gs Hg _ IH]; simpl; [done|]. rewrite (exec_no_loop _ Hg), IH.
  pose proof (exec_true_end (g_body g)) as [H1 H2].
  destruct (exec true (g_body g)) as [w s] eqn:E.
  assert (full_effects g = w) as -> by (unfold full_effects; by rewrite E).
  assert (full_error g = match s with Raised e => Some e | _ => None end) as ->
    by (unfold full_error; by rewrite E).
  by destruct s.
Qed.

(** a streaming body whose request-scope teardown is deferred: for every
    consumer that asks for at least one chunk, the teardowns run exactly once,
    after every chunk it received, innermost dependency first, also when the
    body raises or the consumer stops early; errors of teardowns are captured
    and do not reach the consumer.  A body that is never started is never torn
    down. *)
Theorem stream_teardown_follows_body b gs k :
  Forall (fun g => sync_gen g = true) gs ->
  wrapped_stream b gs 0 = ([], [], None) /\
  wrapped_stream b gs (S k) =
    ((Chunk <$> take (S k) (b_chunks b)) ++ (Effect <$> flat_map full_effects (reverse gs)),
     omap full_error (reverse gs),
     if bool_decide (length (b_chunks b) < S k)%nat then b_raises b else None).
Proof.
  intros H. split; [done|]. unfold wrapped_stream, _teardown.
  by rewrite stream_teardown_all by (by apply Forall_reverse).
Qed.

(** ** Witnesses *)

Definition works (l : list nat) : gen := {| g_async := true; g_body := Work <$> l; g_except := None |}.
Definition failing (l : list nat) (e : exc) : gen :=
  {| g_async := true; g_body := (Work <$> l) ++ [Await; RaiseA e]; g_except := None |}.

Lemma drain_runs_every_teardown_witness :
  _run_pending_teardowns [(failing [1; 2]%nat 7%nat, LWorker); (works [3]%nat, LNone)] None false [] =
  ([1; 2; 3]%nat, [7]%nat, None).
Proof. rewrite drain_runs_every_teardown by (repeat constructor). reflexivity. Defined.

Lemma asyncgen_without_loop_is_cut_off_witness :
  full_effects {| g_async := true; g_body := (Work <$> [1]%nat) ++ Await :: [Work 2%nat]; g_except := None |} =
    [1; 2]%nat /\
  exists c, _run_pending_teardowns
    [({| g_async := true; g_body := (Work <$> [1]%nat) ++ Await :: [Work 2%nat]; g_except := None |}, LNone)]
    None false [] = ([1]%nat, c, None).
Proof. exact (asyncgen_without_loop_is_cut_off [1]%nat Await [Work 2%nat] None eq_refl). Defined.

(** A manager that swallows every exception. *)
Definition swallowing (n : nat) : gen :=
  {| g_async := true; g_body := [Work n]; g_except := Some [Work n] |}.

Definition stacks0 (f : list gen) : stacks :=
  {| s_function := f; s_inner := [works [2]%nat; swallowing 3%nat]; s_file := [works [4]%nat] |}.

Lemma exit_stacks_order_witness :
  unwind_error (stacks0 [works [1]%nat]) 9%nat = ([3; 2; 4]%nat, None) /\
  _run_pending_teardowns
    (f_pending (finish_success (stacks0 [works [1]%nat]) (Some ([8]%nat, None)) true)) None false [] =
  ([8; 3; 2; 4]%nat, [], None).
Proof.
  destruct (exit_stacks_order (stacks0 [works [1]%nat]) (Some ([8]%nat, None)) 9%nat) as [-> H].
  split; [reflexivity|]. destruct (H [1]%nat eq_refl) as (_ & _ & _ & H'). exact H'.
Defined.

(** The request-scope managers would have had the effects 3, 2 and 4. *)
Lemma function_scope_failure_leaks_witness :
  finish_success (stacks0 [failing [1]%nat 5%nat]) None true =
    {| f_effects := [1]%nat; f_raises := Some 5%nat; f_pending := [] |} /\
  (close_request (stacks0 []) None).1 = [3; 2; 4]%nat /\
  (close_request (stacks0 []) (Some ([8]%nat, Some 6%nat))).1 = [8]%nat.
Proof.
  split; [|split; [reflexivity|]].
  - destruct (function_scope_failure_leaks (stacks0 [failing [1]%nat 5%nat]) None true [1]%nat 5%nat)
      as [H _].
    exact (proj1 (H eq_refl)).
  - exact (f_equal fst (proj2 (function_scope_failure_leaks
             (stacks0 []) (Some ([8]%nat, Some 6%nat)) true [8]%nat 6%nat) eq_refl)).
Defined.

Lemma stream_teardown_follows_body_witness :
  wrapped_stream {| b_chunks := [10; 11]%nat; b_raises := Some 4%nat |} [works [1]%nat; works [2]%nat] 3%nat =
  ([Chunk 10; Chunk 11; Effect 2; Effect 1]%nat, [], Some 4%nat).
Proof.
  destruct (stream_teardown_follows_body {| b_chunks := [10; 11]%nat; b_raises := Some 4%nat |}
    [works [1]%nat; works [2]%nat] 2%nat) as [_ H]; [repeat constructor|exact H].
Defined.

End Teardown.
