(* ===== verification/Middleware.v ===== *)
(** HTTP middleware: registration ([add_middleware], [middleware], [host],
    [_keep_sentry_outermost], [_build_middleware_config] of applications.py)
    and the chain [_wrap_with_http_middlewares] builds around an endpoint, with
    its synchronous drive and the event-loop fallback (_middleware_wrap.py). *)

From S2P Require Import Prelude Exceptions Teardown.

Module Middleware.

(** ** Registration *)

(** A middleware class, as far as [_add_middleware_impl] looks at it. *)
Record mw_cls := {
  c_id : nat;
  c_marker : option text;        (* [_fastapi_turbo_middleware_type] *)
  c_mro_names : list text;       (* class names along the MRO *)
  c_base_http : bool;            (* subclass of [BaseHTTPMiddleware] *)
  c_accepts_app : bool;          (* its constructor has an [app] parameter *)
  c_sentry : bool }.             (* it is [SentryAsgiMiddleware] *)

(** What is passed to [add_middleware]. *)
Inductive mw_arg := Shorthand (s : text) | Class (c : mw_cls).

(** An element of [_http_middlewares]. *)
Inductive http_mw :=
| Instance_ (c : mw_cls)         (* a [python_http_*] instance *)
| Dispatch (c : mw_cls)          (* the dispatch wrapper of a [BaseHTTPMiddleware] *)
| Shim (c : mw_cls)              (* [_make_asgi_middleware_shim] *)
| Function_ (f : nat)            (* [@app.middleware("http")] *)
| HostDispatch.                  (* installed by [host] *)

Inductive log_kind := Tower | Raw.

Record mst := {
  http_middlewares : list http_mw;
  middleware_stack : list mw_arg;
  raw_asgi_middlewares : list mw_cls;
  registration_log : list (log_kind * mw_arg * nat);
  registration_seq : nat;
  hosts : list (text * option nat);
  host_installed : bool }.

Definition real_mw_name_to_type : list (text * text) :=
  [(lit "CORSMiddleware", lit "cors"); (lit "GZipMiddleware", lit "gzip");
   (lit "HTTPSRedirectMiddleware", lit "httpsredirect");
   (lit "TrustedHostMiddleware", lit "trustedhost");
   (lit "SessionMiddleware", lit "python_http_session");
   (lit "AuthenticationMiddleware", lit "python_http_auth");
   (lit "BaseHTTPMiddleware", lit "base_http")].

Definition name_to_type (n : text) : option text :=
  snd <$> (snd <$> list_find (fun p => p.1 = n) real_mw_name_to_type).

Definition _tower_type_for (m : mw_arg) : option text :=
  match m with
  | Shorthand s => Some s
  | Class c =>
      match c_marker c with
      | Some ((_ :: _) as t) => Some t
      | _ => head (omap name_to_type (c_mro_names c))
      end
  end.

Definition tower_bound (t : option text) : bool :=
  match t with
  | Some t => bool_decide (t ∈ [lit "cors"; lit "gzip"; lit "httpsredirect"])
  | None => false
  end.

Definition is_python_http (t : option text) : bool :=
  match t with Some t => starts_with "python_http_" t | None => false end.

Definition push_http (s : mst) (m : http_mw) : mst :=
  {| http_middlewares := http_middlewares s ++ [m]; middleware_stack := middleware_stack s;
     raw_asgi_middlewares := raw_asgi_middlewares s; registration_log := registration_log s;
     registration_seq := registration_seq s; hosts := hosts s; host_installed := host_installed s |}.

Definition push_tower (s : mst) (m : mw_arg) : mst :=
  {| http_middlewares := http_middlewares s; middleware_stack := middleware_stack s ++ [m];
     raw_asgi_middlewares := raw_asgi_middlewares s;
     registration_log := registration_log s ++ [(Tower, m, S (registration_seq s))];
     registration_seq := S (registration_seq s); hosts := hosts s; host_installed := host_installed s |}.

Definition push_raw (s : mst) (c : mw_cls) : mst :=
  {| http_middlewares := http_middlewares s ++ [Shim c]; middleware_stack := middleware_stack s;
     raw_asgi_middlewares := raw_asgi_middlewares s ++ [c];
     registration_log := registration_log s ++ [(Raw, Class c, S (registration_seq s))];
     registration_seq := S (registration_seq s); hosts := hosts s; host_installed := host_installed s |}.

Definition push_stack (s : mst) (m : mw_arg) : mst :=
  {| http_middlewares := http_middlewares s; middleware_stack := middleware_stack s ++ [m];
     raw_asgi_middlewares := raw_asgi_middlewares s; registration_log := registration_log s;
     registration_seq := registration_seq s; hosts := hosts s; host_installed := host_installed s |}.

Definition _add_middleware_impl (s : mst) (m : mw_arg) : mst :=
  match m with
  | Shorthand _ => push_tower s m
  | Class c =>
      let t := _tower_type_for m in
      if is_python_http t then push_http s (Instance_ c)
      else if tower_bound t then push_tower s m
      else if c_base_http c then push_http s (Dispatch c)
      else if c_accepts_app c then push_raw s c
      else push_stack s m
  end.

(** An entry that is, or adapts, [SentryAsgiMiddleware]. *)
Definition is_sentry (m : http_mw) : bool :=
  match m with
  | Instance_ c | Shim c => c_sentry c
  | _ => false
  end.

Definition _keep_sentry_outermost (s : mst) : mst :=
  {| http_middlewares := filter (fun m => is_sentry m = false) (http_middlewares s) ++
                         filter (fun m => is_sentry m = true) (http_middlewares s);
     middleware_stack := middleware_stack s; raw_asgi_middlewares := raw_asgi_middlewares s;
     registration_log := registration_log s; registration_seq := registration_seq s;
     hosts := hosts s; host_installed := host_installed s |}.

Definition add_middleware (s : mst) (m : mw_arg) : mst := _keep_sentry_outermost (_add_middleware_impl s m).

(** [@app.middleware(middleware_type)] *)
Definition middleware (s : mst) (ty : text) (f : nat) : res mst :=
  if bool_decide (ty = lit "http") then Ok (push_http s (Function_ f)) else Raise ValueError.

(** [app.host(hostname, app)]: the dispatcher is inserted at index 0. *)
Definition host (s : mst) (hostname : option text) (app : option nat) : res mst :=
  match hostname with
  | None => Raise TypeError
  | Some hn =>
      Ok {| http_middlewares := if host_installed s then http_middlewares s
                                else HostDispatch :: http_middlewares s;
            middleware_stack := middleware_stack s; raw_asgi_middlewares := raw_asgi_middlewares s;
            registration_log := registration_log s; registration_seq := registration_seq s;
            hosts := hosts s ++ [(hn, app)]; host_installed := true |}
  end.

(** [_match_host] *)
Fixpoint match_host (hs : list (text * option nat)) (h : text) : option nat :=
  match hs with
  | [] => None
  | (hn0, sub) :: hs' =>
      let hn := lower hn0 in
      match sub with
      | None => match_host hs' h
      | Some a =>
          if bool_decide (hn = h) then Some a
          else if negb (bool_decide ("."%char ∈ hn)) && bool_decide ((partition_at "." h).1 = hn)
               then Some a
               else match_host hs' h
      end
  end.

Definition _match_host (s : mst) (host_header : text) : option nat :=
  match host_header with
  | [] => None
  | _ => match_host (hosts s) (lower (partition_at ":" host_header).1)
  end.

(** [_build_middleware_config]: the tags of the Tower layers. *)
Definition _build_middleware_config (s : mst) : list text := omap _tower_type_for (middleware_stack s).

(** ** The chain around an endpoint *)

(** What an endpoint returns: a dict or list, [None], something else, or a
    coroutine nobody awaited. *)
Inductive data := DDict (n : nat) | DNone | DOther (n : nat) | DCoroutine.

(** A response by where it comes from: the program's own, an exception
    handler's, a [JSONResponse] of returned data, of an [HTTPException], or of
    the extraction errors of the request. *)
Inductive payload :=
| PUser (n : nat)
| PHandler (r : Exceptions.response)
| PEncoded (d : data)
| PDetail (e : Exceptions.exc)
| PErrors (n : nat).

(** A value going up the chain: a response with the marks the middlewares left
    on it, or anything else. *)
Inductive value := VResponse (p : payload) (marks : list nat) | VData (d : data).

(** What is raised: the internal [_MiddlewareSuspendedError], an exception, or
    the uncatchable exception of an exception handler. *)
Inductive raised := Suspended | Exc (e : Exceptions.exc) | FromHandler (n : nat).

Inductive outcome := Value (v : value) | Raises (x : raised).

(** What can be observed of a request: effects of the program, the
    middleware's [Request] put in the place of the door's among the handler's
    arguments, a wait on the event loop, a use of the running loop that does
    not wait ([asyncio.create_task], [get_running_loop]), a teardown left to
    the drain, an exception recorded for the test client, an effect of the
    drain. *)
Inductive event :=
| Eff (n : nat)
| Adopt
| Wait
| OnLoop
| Defer (t : Teardown.gen * Teardown.loop_kind)
| Capture (e : Exceptions.exc)
| Drained (n : nat).

(** The body of an endpoint.  [BAwait] really suspends in a coroutine, and
    blocks in a plain function; its effects are those of the [finally] clauses
    when the coroutine is closed there.  [BLoop] asks for the running loop and
    goes on with [true] when the thread has one, and with [false] when the
    request for it raised [RuntimeError] (which the code may catch or not). *)
Inductive body :=
| BRet (v : value)
| BRaise (e : Exceptions.exc)
| BEff (n : nat) (k : body)
| BDefer (t : Teardown.gen * Teardown.loop_kind) (k : body)
| BAwait (on_close : list nat) (k : body)
| BLoop (k : bool -> body).

(** An endpoint.  What it does may depend on whether the [Request] it gets is
    the middleware's, stamped [_fastapi_turbo_defer_ok]; [ep_compiled] and [ep_wrapped] are the two attributes
    ([_fastapi_turbo_defers_extraction_errors], [_has_http_middleware]) the
    wrapper looks at, [ep_takes_private] says that its signature accepts the
    framework's private keyword arguments. *)
Record endpoint := {
  ep_async : bool;
  ep_compiled : bool;
  ep_wrapped : bool;
  ep_takes_private : bool;
  ep_body : bool -> body }.

(** The body of a middleware; it goes on with what [await call_next(request)]
    returned or raised, and may call it any number of times.  [NeedLoop] is
    [BLoop] for a middleware. *)
Inductive prog :=
| Ret (v : value)
| Throw (x : raised)
| Act (n : nat) (k : prog)
| Await (on_close : list nat) (k : prog)
| NeedLoop (k : bool -> prog)
| CallNext (k : outcome -> prog).

(** A coroutine function, an instance with a coroutine [__call__], or a plain
    function (which cannot await [call_next]). *)
Inductive mw :=
| AsyncFunction (p : prog)
| AsyncInstance (p : prog)
| PlainFunction (b : body).

(** What a request brings: the extraction errors of the Rust door, and the
    tasks of a [BackgroundTasks] among the handler's arguments. *)
Record request := {
  q_extraction_errors : option nat;
  q_tasks : list (nat * option Exceptions.exc) }.

Definition after (t : list event) (r : list event * outcome) : list event * outcome :=
  (t ++ r.1, r.2).

Section Chain.

Variable mro : Exceptions.cls -> list Exceptions.cls.
Variable HTTPException : Exceptions.cls.
(** The [TypeError] of a call with an unexpected keyword argument. *)
Variable type_error : Exceptions.exc.
(** [jsonable_encoder] followed by [JSONResponse], and [JSONResponse] alone:
    the exception they raise on some data. *)
Variable jsonable_error json_error : data -> option Exceptions.exc.

(** The application's exception handlers. *)
Variable handlers : list (Exceptions.key * Exceptions.handler).
Variable ep : endpoint.
Variable q : request.

(** A coroutine driven by one [send(None)], and closed if that suspended it. *)
Fixpoint drive_body (b : body) : list event * outcome :=
  match b with
  | BRet v => ([], Value v)
  | BRaise e => ([], Raises (Exc e))
  | BEff n k => after [Eff n] (drive_body k)
  | BDefer t k => after [Defer t] (drive_body k)
  | BAwait c _ => (Eff <$> c, Raises Suspended)
  | BLoop k => drive_body (k false)
  end.

(** The body run to its end: a coroutine awaited on a loop ([async]), or a
    plain function, on a thread with a running loop or without. *)
Fixpoint run_body (async on_loop : bool) (b : body) : list event * outcome :=
  match b with
  | BRet v => ([], Value v)
  | BRaise e => ([], Raises (Exc e))
  | BEff n k => after [Eff n] (run_body async on_loop k)
  | BDefer t k => after [Defer t] (run_body async on_loop k)
  | BAwait _ k => if async then after [Wait] (run_body async on_loop k) else run_body async on_loop k
  | BLoop k => if on_loop then after [OnLoop] (run_body async on_loop (k true))
               else run_body async on_loop (k false)
  end.

(** [endpoint( **kwargs)] with the run of its body; [private] says whether the
    private keyword arguments are among [kwargs], [stamped] whether the request
    is the middleware's. *)
Definition call (private stamped : bool) (run : body -> list event * outcome)
    : list event * outcome :=
  if private && negb (ep_takes_private ep) then ([], Raises (Exc type_error))
  else run (ep_body ep stamped).

(** A value without [status_code] becomes a [JSONResponse]. *)
Definition normalise (v : value) : outcome :=
  match v with
  | VResponse _ _ => Value v
  | VData d => match jsonable_error d with
               | Some e => Raises (Exc e)
               | None => Value (VResponse (PEncoded d) [])
               end
  end.

(** The [except] clause of [_call_handler_sync], and the normalisation. *)
Definition convert (o : outcome) : list event * outcome :=
  match o with
  | Value v => ([], normalise v)
  | Raises (Exc e) =>
      if Exceptions.isinstance mro e HTTPException then ([], Value (VResponse (PDetail e) []))
      else match handlers with
           | [] => ([Capture e], Raises (Exc e))
           | _ =>
               match Exceptions.r_out (Exceptions._invoke_exception_handler mro handlers e) with
               | Exceptions.Returned (Some r) => ([], Value (VResponse (PHandler r) []))
               | Exceptions.Returned None => ([Capture e], Raises (Exc e))
               | Exceptions.Raised _ x => ([], Raises (FromHandler x))
               end
           end
  | Raises x => ([], Raises x)
  end.

(** [_call_handler_sync], on a thread without a running loop. *)
Definition _call_handler_sync : list event * outcome :=
  after [Adopt]
    (match ep_compiled ep, q_extraction_errors q with
     | false, Some n => ([], Value (VResponse (PErrors n) []))
     | _, _ =>
         let '(t, o) := call (ep_wrapped ep || ep_compiled ep) true
                             (if ep_async ep then drive_body else run_body false false) in
         after t (convert o)
     end).

(** A middleware's coroutine driven by one [send(None)]; [next] is what
    [call_next] does. *)
Fixpoint drive (next : list event * outcome) (p : prog) : list event * outcome :=
  match p with
  | Ret v => ([], Value v)
  | Throw x => ([], Raises x)
  | Act n k => after [Eff n] (drive next k)
  | Await c _ => (Eff <$> c, Raises Suspended)
  | NeedLoop k => drive next (k false)
  | CallNext k => after next.1 (drive next (k next.2))
  end.

(** The middlewares outermost first, driven synchronously. *)
Fixpoint _run_chain (ms : list mw) : list event * outcome :=
  match ms with
  | [] => _call_handler_sync
  | AsyncFunction p :: ms' | AsyncInstance p :: ms' => drive (_run_chain ms') p
  | PlainFunction b :: _ => run_body false false b
  end.

(** A middleware awaited on a running loop. *)
Fixpoint run_on_loop (next : list event * outcome) (p : prog) : list event * outcome :=
  match p with
  | Ret v => ([], Value v)
  | Throw x => ([], Raises x)
  | Act n k => after [Eff n] (run_on_loop next k)
  | Await _ k => after [Wait] (run_on_loop next k)
  | NeedLoop k => after [OnLoop] (run_on_loop next (k true))
  | CallNext k => after next.1 (run_on_loop next (k next.2))
  end.

(** [call_handler] of the fallback: the keyword arguments as they are, and
    only dicts and lists become a [JSONResponse]. *)
Definition call_handler (stamped : bool) : list event * outcome :=
  let '(t, o) := call true stamped (run_body (ep_async ep) true) in
  (t, match o with
      | Value (VData (DDict n)) =>
          match json_error (DDict n) with
          | Some e => Raises (Exc e)
          | None => Value (VResponse (PEncoded (DDict n)) [])
          end
      | o => o
      end).

(** [build] of the fallback: only a coroutine function is awaited. *)
Fixpoint build (stamped : bool) (ms : list mw) : list event * outcome :=
  match ms with
  | [] => call_handler stamped
  | AsyncFunction p :: ms' => run_on_loop (build stamped ms') p
  | AsyncInstance p :: _ => ([], Value (VData DCoroutine))
  | PlainFunction b :: _ => run_body false true b
  end.

Definition _drive_async_fallback (stamped : bool) (ms : list mw) : list event * outcome :=
  build stamped ms.

(** The synchronous drive got as far as the handler. *)
Definition adopted (t : list event) : bool :=
  existsb (fun ev => match ev with Adopt => true | _ => false end) t.

(** The tasks of [BackgroundTasks.run_sync], up to one that raises. *)
Fixpoint run_tasks (l : list (nat * option Exceptions.exc)) : list event * option Exceptions.exc :=
  match l with
  | [] => ([], None)
  | (n, Some e) :: _ => ([Eff n], Some e)
  | (n, None) :: l' => let '(t, r) := run_tasks l' in (Eff n :: t, r)
  end.

Definition pending (t : list event) : list (Teardown.gen * Teardown.loop_kind) :=
  omap (fun ev => match ev with Defer p => Some p | _ => None end) t.

(** The [finally] clause: background tasks and the pending teardowns, if there
    are any of the latter. *)
Definition finally (r : list event * outcome) : list event * outcome :=
  match pending r.1 with
  | [] => r
  | tears =>
      match run_tasks (q_tasks q) with
      | (t, Some e) => (r.1 ++ t, Raises (Exc e))
      | (t, None) =>
          let w := (Teardown._run_pending_teardowns tears None false []).1.1 in
          (r.1 ++ t ++ (Drained <$> w), r.2)
      end
  end.

(** [wrapped_sync], the middlewares outermost first. *)
Definition wrapped_sync (ms : list mw) : list event * outcome :=
  finally (match _run_chain ms with
           | (t, Raises Suspended) => after t (_drive_async_fallback (adopted t) ms)
           | r => r
           end).

(** [_wrap_with_http_middlewares]: [None] leaves the endpoint as it is. *)
Definition _wrap_with_http_middlewares (registered : list mw) : option (list event * outcome) :=
  match registered with
  | [] => None
  | _ => Some (wrapped_sync (reverse registered))
  end.

(** ** Theorems *)

(** *** The synchronous drive is the event loop's run, as long as nothing waits *)

(** The reference: the chain on an event loop, with Starlette's exception layer
    between the middlewares and the route, as a big-step semantics.  A body: *)
Inductive loop_body (async : bool) : body -> list event -> outcome -> Prop :=
| LB_ret v : loop_body async (BRet v) [] (Value v)
| LB_raise e : loop_body async (BRaise e) [] (Raises (Exc e))
| LB_eff n k t o : loop_body async k t o -> loop_body async (BEff n k) (Eff n :: t) o
| LB_defer d k t o : loop_body async k t o -> loop_body async (BDefer d k) (Defer d :: t) o
| LB_wait c k t o : async = true -> loop_body async k t o ->
    loop_body async (BAwait c k) (Wait :: t) o
| LB_block c k t o : async = false -> loop_body async k t o -> loop_body async (BAwait c k) t o
| LB_loop k t o : loop_body async (k true) t o -> loop_body async (BLoop k) (OnLoop :: t) o.





(** Nothing in the trace needed a running loop. *)
Definition quiet (t : list event) : bool :=
  forallb (fun ev => match ev with Wait | OnLoop => false | _ => true end) t.


(** How [_call_handler_sync] runs a body. *)
Definition sync_body (async : bool) : body -> list event * outcome :=
  if async then drive_body else run_body false false.

Lemma sync_body_agrees async b t o :
  loop_body async b t o -> quiet t = true -> sync_body async b = (t, o).
Proof.
  induction 1 as [v|e|n k t o _ IH|d k t o _ IH|c k t o Ha _ IH|c k t o Ha _ IH|k t o _ IH];
    simpl; intros Hq; try done.
  - by destruct async.
  - by destruct async.
  - specialize (IH Hq). destruct async; simpl in *; by rewrite IH.
  - specialize (IH Hq). destruct async; simpl in *; by rewrite IH.
  - subst async. by apply IH.
Qed.










(** Without a loop such a use raises, and only waiting makes the wrapper fall
    back to a loop: an endpoint that starts a task with [asyncio.create_task]
    and answers fails with its [RuntimeError] as soon as the application has
    any middleware that passes the call on, although on a loop it would have
    answered. *)
Theorem loop_users_fail_under_the_sync_drive err v pass n :
  ep_async ep = true -> ep_compiled ep = false -> q_extraction_errors q = None ->
  ep_wrapped ep = false ->
  ep_body ep true = BLoop (fun running => if running then BRet v else BRaise err) ->
  Exceptions.isinstance mro err HTTPException = false -> handlers = [] ->
  pass = AsyncFunction (Act n (CallNext (fun o => match o with Value v => Ret v | Raises x => Throw x end))) ->
  _wrap_with_http_middlewares [pass] = Some ([Eff n; Adopt; Capture err], Raises (Exc err)) /\
  run_body true true (ep_body ep true) = ([OnLoop], Value v).
Proof.
  intros Ha Hc Hq Hw Hb He Hh ->. split; [|by rewrite Hb].
  assert (_call_handler_sync = ([Adopt; Capture err], Raises (Exc err))) as HS.
  { unfold _call_handler_sync, call. rewrite Ha, Hc, Hq, Hw, Hb. simpl. by rewrite He, Hh. }
  unfold _wrap_with_http_middlewares, wrapped_sync. cbn [reverse rev_append _run_chain drive].
  by rewrite HS.
Qed.

Lemma wrap_nonempty ms :
  ms <> [] -> _wrap_with_http_middlewares ms = Some (wrapped_sync (reverse ms)).
Proof. by destruct ms. Qed.

(** *** The onion *)

(** A middleware with an effect before and an effect after [call_next], which
    leaves its mark on the response and does not catch exceptions; it may wait
    after [call_next]. *)
Definition around (m : nat * nat) (io : bool) : prog :=
  Act m.1 (CallNext (fun o =>
    match o with
    | Value v =>
        let k := Act m.2 (Ret (match v with
                               | VResponse p l => VResponse p (l ++ [m.2])
                               | v => v
                               end)) in
        if io then Await [] k else k
    | Raises x => Throw x
    end)).

Definition is_value (o : outcome) : bool := match o with Value _ => true | Raises _ => false end.

(** A middleware that awaits [call_next] once and nothing else: its effects
    before, and what it does with the outcome it gets, which may be to catch an
    exception, replace the response or raise. *)
Record layer := Layer {
  before : list nat;
  react : outcome -> list nat * outcome }.

Fixpoint acts (l : list nat) (k : prog) : prog :=
  match l with [] => k | n :: l' => Act n (acts l' k) end.

Definition end_with (o : outcome) : prog :=
  match o with Value v => Ret v | Raises x => Throw x end.

Definition layer_mw (l : layer) : mw :=
  AsyncFunction (acts (before l)
    (CallNext (fun o => acts (react l o).1 (end_with (react l o).2)))).

(** The effects after the endpoint ended with [o], through the layers from the
    inside out, and what comes out. *)
Fixpoint unwind (layers : list layer) (o : outcome) : list nat * outcome :=
  match layers with
  | [] => ([], o)
  | l :: layers' => let '(t, o1) := react l o in
                    let '(t', o2) := unwind layers' o1 in (t ++ t', o2)
  end.

Lemma unwind_layers_app l l' o :
  unwind (l ++ l') o =
  ((unwind l o).1 ++ (unwind l' (unwind l o).2).1, (unwind l' (unwind l o).2).2).
Proof.
  revert o. induction l as [|x l IH]; intros o; simpl; [by destruct (unwind l' o)|].
  destruct (react x o) as [t o1]. rewrite IH. destruct (unwind l o1) as [t2 o2]. simpl.
  by rewrite app_assoc.
Qed.

Lemma drive_acts next l k : drive next (acts l k) = after (Eff <$> l) (drive next k).
Proof.
  unfold after. induction l as [|n l IH]; simpl; [by destruct (drive next k)|].
  rewrite IH. done.
Qed.

Lemma drive_end next o : drive next (end_with o) = ([], o).
Proof. by destruct o. Qed.

Lemma run_chain_layers ls :
  _run_chain (layer_mw <$> ls) =
  let '(t, o) := _call_handler_sync in
  let '(t', o') := unwind (reverse ls) o in
  ((Eff <$> concat (before <$> ls)) ++ t ++ (Eff <$> t'), o').
Proof.
  induction ls as [|l ls IH].
  - cbn [fmap list_fmap _run_chain reverse rev_append]. change (reverse (@nil layer)) with (@nil layer).
    destruct _call_handler_sync as [t o]. simpl. by rewrite app_nil_r.
  - rewrite !fmap_cons. cbn [_run_chain layer_mw]. rewrite IH, drive_acts, reverse_cons.
    destruct _call_handler_sync as [t o]. rewrite unwind_layers_app. simpl.
    destruct (unwind (reverse ls) o) as [t' o']. simpl. rewrite drive_acts, drive_end.
    destruct (react l o') as [t2 o2]. unfold after. simpl.
    by rewrite !fmap_app, !app_nil_r, <-!app_assoc.
Qed.

(** What is drained when the chain has unwound with trace [t] and outcome [o]:
    nothing, and the background tasks are not run here either, when no teardown
    was deferred; otherwise the tasks of the request in order and then the
    teardowns, or the tasks up to the first that raises, whose exception
    replaces the outcome and leaves the teardowns undone. *)
Inductive drained (t : list event) (o : outcome) : list event -> outcome -> Prop :=
| DR_nothing : pending t = [] -> drained t o t o
| DR_all : pending t <> [] -> Forall (fun p => p.2 = None) (q_tasks q) ->
    drained t o (t ++ (Eff <$> (q_tasks q).*1) ++
                 (Drained <$> (Teardown._run_pending_teardowns (pending t) None false []).1.1)) o
| DR_raises l1 n e l2 : pending t <> [] -> q_tasks q = l1 ++ (n, Some e) :: l2 ->
    Forall (fun p => p.2 = None) l1 ->
    drained t o (t ++ (Eff <$> l1.*1) ++ [Eff n]) (Raises (Exc e)).

Lemma run_tasks_cases l :
  (Forall (fun p => p.2 = None) l /\ run_tasks l = (Eff <$> l.*1, None)) \/
  (exists l1 n e l2, l = l1 ++ (n, Some e) :: l2 /\ Forall (fun p => p.2 = None) l1 /\
     run_tasks l = ((Eff <$> l1.*1) ++ [Eff n], Some e)).
Proof.
  induction l as [|[n [e|]] l [[Hf IH]|(l1 & m & e' & l2 & -> & Hf & IH)]]; simpl.
  - left. by split.
  - right. exists [], n, e, l. split_and!; [done|constructor|done].
  - right. eexists [], n, e, _. split_and!; [done|constructor|done].
  - left. rewrite IH. split; [by constructor|done].
  - right. exists ((n, None) :: l1), m, e', l2. rewrite IH. split_and!; [done|by constructor|done].
Qed.

Lemma finally_drains t o : drained t o (finally (t, o)).1 (finally (t, o)).2.
Proof.
  unfold finally. cbn [fst snd]. destruct (pending t) eqn:Hp; [by apply DR_nothing|].
  rewrite <-Hp. assert (pending t <> []) as Hne by by rewrite Hp.
  destruct (run_tasks_cases (q_tasks q)) as [[Hf ->]|(l1 & n & e & l2 & Hq & Hf & ->)]; simpl.
  - by apply DR_all.
  - by eapply DR_raises.
Qed.

(** C8: middlewares that each await [call_next] once and nothing that suspends
    are an onion around the endpoint.  The one registered last sees the
    request first and the outcome last; each gets exactly what the next inner
    one made of the outcome, whether it returned or raised; and after the
    outermost has finished the deferred teardowns are drained.  (The
    synchronous drive must not end in the internal suspension signal: nothing
    inside suspended, or a middleware turned the signal into a response.) *)
Theorem middleware_onion registered t o t' o' :
  registered <> [] -> _call_handler_sync = (t, o) ->
  unwind registered o = (t', o') -> o' <> Raises Suspended ->
  exists tr out,
    _wrap_with_http_middlewares (layer_mw <$> registered) = Some (tr, out) /\
    drained ((Eff <$> concat (before <$> reverse registered)) ++ t ++ (Eff <$> t')) o' tr out.
Proof.
  intros Hne Hh Hu Ho. rewrite wrap_nonempty by (by destruct registered). unfold wrapped_sync.
  rewrite <-fmap_reverse, run_chain_layers, Hh, reverse_involutive, Hu.
  set (tr := _ ++ t ++ _).
  assert (match (tr, o') with
          | (t0, Raises Suspended) =>
              after t0 (_drive_async_fallback (adopted t0) (layer_mw <$> reverse registered))
          | r => r end = (tr, o')) as -> by (destruct o' as [|[]]; done).
  exists (finally (tr, o')).1, (finally (tr, o')).2.
  split; [by destruct (finally (tr, o'))|apply finally_drains].
Qed.

(** *** Suspension *)

Lemma run_chain_io l :
  (exists m, (m, true) ∈ l) -> is_value _call_handler_sync.2 = true ->
  exists t', _run_chain ((fun p => AsyncFunction (around p.1 p.2)) <$> l) =
    ((Eff <$> (fst <$> l).*1) ++ _call_handler_sync.1 ++ t', Raises Suspended) /\
    Forall (fun ev => exists p, p ∈ l /\ ev = Eff p.1.2) t'.
Proof.
  intros Hex Hv.
  assert (forall l', exists t' o, _run_chain ((fun p => AsyncFunction (around p.1 p.2)) <$> l') =
    ((Eff <$> (fst <$> l').*1) ++ _call_handler_sync.1 ++ t', o) /\
    Forall (fun ev => exists p, p ∈ l' /\ ev = Eff p.1.2) t' /\
    if existsb snd l' then o = Raises Suspended else is_value o = true) as Hall.
  { induction l' as [|[m io] l' (t' & o & IH & Hf & Ho)].
    - exists [], _call_handler_sync.2. cbn [fmap list_fmap _run_chain app existsb]. rewrite app_nil_r.
      split; [by destruct _call_handler_sync|]. split; [constructor|done].
    - rewrite fmap_cons. cbn [_run_chain]. rewrite IH. unfold around. cbn [drive fst snd existsb].
      assert (Forall (fun ev => exists p, p ∈ (m, io) :: l' /\ ev = Eff p.1.2) t') as Hf'.
      { eapply Forall_impl; [exact Hf|]. intros ev (p & Hp & ->). exists p. split; [by right|done]. }
      destruct (existsb snd l'); [subst o|destruct o as [v|]; [|done]]; [|destruct io].
      + exists t', (Raises Suspended). unfold after. simpl. rewrite !app_nil_r, orb_true_r. done.
      + exists t', (Raises Suspended). unfold after. simpl. rewrite !app_nil_r. done.
      + eexists (t' ++ [Eff m.2]), _. unfold after. cbn [fst snd app]. split; [by rewrite fmap_cons, <-!app_assoc|].
        split; [|done]. apply Forall_app. split; [done|]. repeat constructor.
        exists (m, false). split; [left|done]. }
  destruct (Hall l) as (t' & o & H1 & H2 & H3). exists t'. rewrite H1. split; [|done].
  destruct Hex as [m Hm].
  assert (existsb snd l = true) as He by (apply existsb_exists; exists (m, true); by rewrite <-list_elem_of_In).
  by rewrite He in H3; subst.
Qed.

(** How often an effect happens. *)
Definition is_eff (n : nat) (ev : event) : bool :=
  match ev with Eff m => Nat.eqb m n | _ => false end.

Fixpoint times (n : nat) (t : list event) : nat :=
  match t with
  | [] => 0
  | ev :: t' => if is_eff n ev then S (times n t') else times n t'
  end.

Lemma times_app n t t' : times n (t ++ t') = (times n t + times n t')%nat.
Proof. induction t as [|ev t IH]; simpl; [done|]. destruct (is_eff n ev); lia. Qed.

Lemma times_none n t : Forall (fun ev => is_eff n ev = false) t -> times n t = 0%nat.
Proof. induction 1 as [|ev t H _ IH]; simpl; [done|]. by rewrite H. Qed.

Lemma times_effs n l : n ∉ l -> times n (Eff <$> l) = 0%nat.
Proof.
  intros Hn. apply times_none. apply Forall_fmap, Forall_forall. intros m Hm. simpl.
  apply Nat.eqb_neq. by intros ->.
Qed.

Lemma pending_app t t' : pending (t ++ t') = pending t ++ pending t'.
Proof. apply omap_app. Qed.

Lemma pending_effs l : pending (Eff <$> l) = [].
Proof. by induction l. Qed.

Lemma finally_idle t o : pending t = [] -> finally (t, o) = (t, o).
Proof. unfold finally. simpl. by intros ->. Qed.

(** The functional run on a loop is the relational one. *)
Lemma run_body_loop_body async b t o : run_body async true b = (t, o) -> loop_body async b t o.
Proof.
  revert t o. induction b as [v|e|n k IH|d k IH|c k IH|k IH]; simpl; intros t o H.
  - injection H as <- <-. constructor.
  - injection H as <- <-. constructor.
  - injection H as <- <-. apply LB_eff, IH. by destruct (run_body _ _ _).
  - injection H as <- <-. apply LB_defer, IH. by destruct (run_body _ _ _).
  - destruct async; [|by apply LB_block, IH].
    injection H as <- <-. apply LB_wait, IH; [done|]. by destruct (run_body _ _ _).
  - injection H as <- <-. apply LB_loop, IH. by destruct (run_body _ _ _).
Qed.

(** The endpoint, when it returns a response without needing a loop. *)
Lemma call_handler_sync_response t p l :
  q_extraction_errors q = None -> ep_wrapped ep || ep_compiled ep = false \/ ep_takes_private ep = true ->
  run_body (ep_async ep) true (ep_body ep true) = (t, Value (VResponse p l)) -> quiet t = true ->
  _call_handler_sync = (Adopt :: t, Value (VResponse p l)).
Proof.
  intros Hq Hp Hr Hw. unfold _call_handler_sync, call. rewrite Hq.
  replace ((ep_wrapped ep || ep_compiled ep) && negb (ep_takes_private ep)) with false
    by (destruct Hp as [->| ->]; [done|by rewrite andb_false_r]).
  fold (sync_body (ep_async ep)).
  rewrite (sync_body_agrees _ _ _ _ (run_body_loop_body _ _ _ _ Hr) Hw).
  destruct (ep_compiled ep); unfold after; simpl; by rewrite app_nil_r.
Qed.

Definition ids (l : list (nat * nat * bool)) : list nat := l.*1.*1 ++ l.*1.*2.

(** The fallback's run of such middlewares: the endpoint's effects once, no
    teardown of its own. *)
Lemma build_around stamped l :
  let '(t, o) := call_handler stamped in
  let '(t', o') := build stamped ((fun p => AsyncFunction (around p.1 p.2)) <$> l) in
  (forall n, n ∉ ids l -> times n t' = times n t) /\ pending t' = pending t /\
  (is_value o = false -> o' = o).
Proof.
  induction l as [|[m io] l IH].
  { simpl. by destruct (call_handler stamped). }
  rewrite fmap_cons. cbn [build fst snd]. destruct (call_handler stamped) as [t o].
  destruct (build stamped _) as [t1 o1]. destruct IH as (IH1 & IH2 & IH3).
  destruct (run_on_loop (t1, o1) (around m io)) as [t' o'] eqn:E.
  assert (exists s, t' = Eff m.1 :: t1 ++ s /\ Forall (fun ev => ev = Wait \/ ev = Eff m.2) s /\
                    (is_value o1 = false -> o' = o1)) as (s & -> & Hs & Ho).
  { unfold around in E. cbn [run_on_loop fst snd] in E. destruct o1 as [v|x].
    - destruct io; simpl in E; injection E as <- <-.
      + eexists [Wait; Eff m.2]. split; [done|]. split; [|done]. by repeat constructor; auto.
      + eexists [Eff m.2]. split; [done|]. split; [|done]. by repeat constructor; auto.
    - simpl in E. injection E as <- <-. exists []. by rewrite app_nil_r. }
  split_and!.
  - intros n Hn. unfold ids in Hn. rewrite !fmap_cons in Hn. cbn [fst snd app] in Hn.
    simpl. destruct (Nat.eqb_spec m.1 n) as [<-|Hne]; [set_solver|]. rewrite times_app, IH1 by set_solver.
    rewrite (times_none n s); [lia|]. eapply Forall_impl; [exact Hs|].
    intros ev [->| ->]; [done|]. simpl. apply Nat.eqb_neq. set_solver.
  - change (pending (Eff m.1 :: t1 ++ s)) with (pending (t1 ++ s)). rewrite pending_app, IH2.
    replace (pending s) with (@nil (Teardown.gen * Teardown.loop_kind)); [by rewrite app_nil_r|].
    clear -Hs. by induction Hs as [|ev s [->| ->] _ IH].
  - intros Hv. specialize (IH3 Hv). subst o1. by apply Ho.
Qed.

(** The run of the chain when a middleware waits after [call_next]. *)
Lemma suspended_run l t p ms :
  q_extraction_errors q = None -> ep_wrapped ep || ep_compiled ep = false \/ ep_takes_private ep = true ->
  run_body (ep_async ep) true (ep_body ep true) = (t, Value (VResponse p ms)) -> quiet t = true ->
  pending t = [] -> (exists m, (m, true) ∈ l) ->
  exists t', (forall n, n ∉ ids l -> times n t' = times n t) /\ pending t' = [] /\
    _wrap_with_http_middlewares ((fun p => AsyncFunction (around p.1 p.2)) <$> l) =
    Some (finally (after t' (build true ((fun p => AsyncFunction (around p.1 p.2)) <$> reverse l)))).
Proof.
  intros Hq Hp Hr Hw Hd [m Hm].
  pose proof (call_handler_sync_response _ _ _ Hq Hp Hr Hw) as Hh.
  destruct (run_chain_io (reverse l)) as (t' & Hc & Hf); [exists m; by rewrite elem_of_reverse|by rewrite Hh|].
  eexists. split_and!.
  3: { rewrite wrap_nonempty by (destruct l; [by apply not_elem_of_nil in Hm|done]).
       rewrite <-fmap_reverse. unfold wrapped_sync. rewrite Hc.
       unfold _drive_async_fallback. rewrite Hh. f_equal. f_equal.
       replace (adopted _) with true; [reflexivity|]. symmetry. unfold adopted.
       rewrite existsb_app. simpl. by rewrite orb_true_r. }
  - intros n Hn. cbn [fst app]. rewrite !times_app. cbn [times is_eff]. rewrite times_app.
    rewrite times_effs, (times_none n t'); [lia| |].
    + eapply Forall_impl; [exact Hf|]. intros ev (x & Hx & ->). rewrite elem_of_reverse in Hx. simpl.
      apply Nat.eqb_neq. intros <-. apply Hn. unfold ids. apply elem_of_app. right.
      by do 2 apply list_elem_of_fmap_2.
    + intros Hin. apply Hn. unfold ids. apply elem_of_app. left.
      rewrite !fmap_reverse in Hin. by rewrite elem_of_reverse in Hin.
  - cbn [fst app]. rewrite pending_app, pending_effs. cbn [app].
    change (pending (Adopt :: t ++ t')) with (pending (t ++ t')). rewrite pending_app, Hd. simpl.
    clear -Hf. induction Hf as [|ev s (x & _ & ->) _ IH]; [done|exact IH].
Qed.

(** when a middleware waits after its [call_next] has returned, the
    endpoint runs twice in one request: the synchronous drive has already run
    it when the wait is noticed, and the fallback starts the whole chain from
    the beginning.  (Here for an endpoint that accepts the private keyword
    arguments and answers without waiting; [n] is any effect that is not a
    middleware's.) *)
Theorem suspension_runs_endpoint_twice l t p ms n :
  q_extraction_errors q = None -> ep_takes_private ep = true ->
  run_body (ep_async ep) true (ep_body ep true) = (t, Value (VResponse p ms)) -> quiet t = true ->
  pending t = [] -> (exists m, (m, true) ∈ l) -> n ∉ ids l ->
  exists t' o,
    _wrap_with_http_middlewares ((fun p => AsyncFunction (around p.1 p.2)) <$> l) = Some (t', o) /\
    times n t' = (2 * times n t)%nat.
Proof.
  intros Hq Hp Hr Hw Hd Hm Hn.
  destruct (suspended_run l t p ms) as (t' & Ht & Hd' & ->); [done|by right|done..|].
  pose proof (build_around true (reverse l)) as Hb. unfold call_handler, call in Hb.
  rewrite Hp, Hr in Hb. simpl in Hb. destruct (build true _) as [t2 o2]. destruct Hb as (Hb1 & Hb2 & _).
  do 2 eexists. unfold after. rewrite finally_idle; [|simpl; by rewrite pending_app, Hd', Hb2].
  split; [done|]. simpl. rewrite times_app, Ht, Hb1; [lia| |done].
  unfold ids in *. rewrite !fmap_reverse. intros Hin. apply Hn.
  rewrite elem_of_app, !elem_of_reverse in Hin. by apply elem_of_app.
Qed.

(** the fallback passes the private keyword arguments on: for an endpoint
    that does not accept them, a request with a middleware that waits after
    [call_next] ends in the [TypeError] of the second call, although the first
    had produced the response. *)
Theorem fallback_rejects_raw_endpoint l t p ms :
  q_extraction_errors q = None -> ep_wrapped ep || ep_compiled ep = false -> ep_takes_private ep = false ->
  run_body (ep_async ep) true (ep_body ep true) = (t, Value (VResponse p ms)) -> quiet t = true ->
  pending t = [] -> (exists m, (m, true) ∈ l) ->
  exists t',
    _wrap_with_http_middlewares ((fun p => AsyncFunction (around p.1 p.2)) <$> l) =
    Some (t', Raises (Exc type_error)).
Proof.
  intros Hq Hc Hp Hr Hw Hd Hm.
  destruct (suspended_run l t p ms) as (t' & Ht & Hd' & ->); [done|by left|done..|].
  pose proof (build_around true (reverse l)) as Hb. unfold call_handler, call in Hb.
  rewrite Hp in Hb. simpl in Hb. destruct (build true _) as [t2 o2].
  destruct Hb as (_ & Hb2 & ->); [|done].
  eexists. unfold after. rewrite finally_idle; [done|]. simpl. by rewrite pending_app, Hd', Hb2.
Qed.

(** A middleware that turns every exception into an error response. *)
Definition guard (n : nat) (answer : value) : prog :=
  CallNext (fun o => match o with Value v => Ret v | Raises _ => Act n (Ret answer) end).

(** the suspension is signalled by an ordinary exception: a middleware
    that answers every exception with an error response also catches it, so
    when something inside it waits the client gets that error response and the
    chain is never run on a loop, although nothing failed. *)
Theorem guard_hides_suspension registered n answer t :
  _run_chain (reverse registered) = (t, Raises Suspended) ->
  _wrap_with_http_middlewares (registered ++ [AsyncFunction (guard n answer)]) =
  Some (finally (t ++ [Eff n], Value answer)).
Proof.
  intros H. rewrite wrap_nonempty by (by destruct registered).
  unfold wrapped_sync. rewrite reverse_app, reverse_singleton. cbn [_run_chain app]. rewrite H. done.
Qed.

End Chain.

(** *** Positions *)

Definition is_host (m : http_mw) : bool := match m with HostDispatch => true | _ => false end.

(** The registration operations. *)
Inductive mop := OpAdd (m : mw_arg) | OpMiddleware (f : nat) | OpHost (h : text) (a : option nat).

Definition do_mop (s : mst) (o : mop) : mst :=
  match o with
  | OpAdd m => add_middleware s m
  | OpMiddleware f => push_http s (Function_ f)
  | OpHost h a => match host s (Some h) a with Ok s' => s' | Raise _ => s end
  end.

Definition mst0 : mst :=
  {| http_middlewares := []; middleware_stack := []; raw_asgi_middlewares := [];
     registration_log := []; registration_seq := 0; hosts := []; host_installed := false |}.

(** Once installed, the host dispatcher is the first element, and the only
    dispatcher. *)
Definition host_first (s : mst) : Prop :=
  if host_installed s
  then exists l, http_middlewares s = HostDispatch :: l /\ Forall (fun m => is_host m = false) l
  else Forall (fun m => is_host m = false) (http_middlewares s).

Lemma Forall_filtered (P Q : http_mw -> Prop) `{forall m, Decision (Q m)} l :
  Forall P l -> Forall P (filter Q l).
Proof. rewrite !Forall_forall. intros Hl x [_ Hx]%list_elem_of_filter. by apply Hl. Qed.

Lemma host_first_sentry s : host_first s -> host_first (_keep_sentry_outermost s).
Proof.
  unfold host_first, _keep_sentry_outermost. simpl. destruct (host_installed s).
  - intros (l & -> & Hl). rewrite filter_cons_True by done. rewrite filter_cons_False by done.
    eexists. split; [done|]. apply Forall_app. split; by apply Forall_filtered.
  - intros Hl. apply Forall_app. split; by apply Forall_filtered.
Qed.

Lemma host_first_push s s' m :
  host_first s -> is_host m = false -> host_installed s' = host_installed s ->
  http_middlewares s' = http_middlewares s ++ [m] \/ http_middlewares s' = http_middlewares s ->
  host_first s'.
Proof.
  unfold host_first. intros Hf Hm -> [->| ->]; [|done]. destruct (host_installed s).
  - destruct Hf as (l & -> & Hl). exists (l ++ [m]). split; [done|].
    apply Forall_app. split; [done|by repeat constructor].
  - apply Forall_app. split; [done|by repeat constructor].
Qed.

Lemma host_first_op s o : host_first s -> host_first (do_mop s o).
Proof.
  intros Hf. destruct o as [m|f|h a]; simpl.
  - apply host_first_sentry. destruct m as [t|c]; simpl.
    + eapply (host_first_push s _ (Function_ 0)); [done|done|done|by right].
    + repeat case_match; solve
        [ eapply (host_first_push s); [done| |done|by left]; done
        | eapply (host_first_push s _ (Function_ 0)); [done|done|done|by right] ].
  - eapply (host_first_push s); [done| |done|by left]. done.
  - unfold host_first in *. simpl. destruct (host_installed s); [done|]. by eexists.
Qed.

(** whatever is registered before or after, the dispatcher [app.host]
    installs is always the first of the registered middlewares and hence, the
    list being reversed, the innermost: every other middleware runs before the
    host is looked at, although the comment at its installation says it is
    installed as the outermost. *)
Theorem host_dispatcher_is_innermost ops :
  let s := foldl do_mop mst0 ops in
  host_installed s = true ->
  exists l, reverse (http_middlewares s) = l ++ [HostDispatch] /\
            Forall (fun m => is_host m = false) l.
Proof.
  intros s Hs. assert (host_first s) as Hf.
  { unfold s. assert (host_first mst0) as H0 by (apply Forall_nil; exact I). clear -H0. revert H0. generalize mst0.
    induction ops as [|o ops IH]; intros s0 H0; [done|]. simpl. apply IH. by apply host_first_op. }
  unfold host_first in Hf. rewrite Hs in Hf. destruct Hf as (l & -> & Hl).
  exists (reverse l). split; [by rewrite reverse_cons|by apply Forall_reverse].
Qed.

(** ** Witnesses *)

Definition type_error0 : Exceptions.exc :=
  {| Exceptions.e_cls := 2%nat; Exceptions.e_status := None; Exceptions.e_id := 0%nat |}.
Definition no_error (_ : data) : option Exceptions.exc := None.
Definition request0 : request := {| q_extraction_errors := None; q_tasks := [] |}.

(** An endpoint with one effect that leaves a teardown to the drain, or not. *)
Definition ep0 (private deferred : bool) : endpoint :=
  {| ep_async := true; ep_compiled := false; ep_wrapped := false; ep_takes_private := private;
     ep_body := fun stamped =>
       let k := BEff 50 (BRet (VResponse (PUser 1) [])) in
       if deferred && stamped then BDefer (Teardown.works [60]%nat, Teardown.LWorker) k else k |}.

(** An endpoint that starts a task and answers. *)
Definition ep_task : endpoint :=
  {| ep_async := true; ep_compiled := false; ep_wrapped := false; ep_takes_private := true;
     ep_body := fun _ => BLoop (fun running => if running then BRet (VResponse (PUser 1) [])
                                               else BRaise type_error0) |}.


Lemma loop_users_fail_under_the_sync_drive_witness :
  _wrap_with_http_middlewares Exceptions.mro0 3%nat type_error0 no_error no_error [] ep_task request0
    [AsyncFunction (Act 1 (CallNext (fun o => match o with Value v => Ret v | Raises x => Throw x end)))] =
  Some ([Eff 1; Adopt; Capture type_error0]%nat, Raises (Exc type_error0)).
Proof.
  apply (loop_users_fail_under_the_sync_drive Exceptions.mro0 3%nat type_error0 no_error no_error [] ep_task
    request0 type_error0 (VResponse (PUser 1) []) _ 1); reflexivity.
Defined.

(** A middleware that marks a response, and one that answers every exception. *)
Definition marking (a b : nat) : layer :=
  Layer [a] (fun o => match o with
                      | Value (VResponse p l) => ([b], Value (VResponse p (l ++ [b])))
                      | o => ([], o)
                      end).
Definition catching (n : nat) : layer :=
  Layer [] (fun o => match o with Raises _ => ([n], Value (VResponse (PUser 500) [])) | o => ([], o) end).

Lemma middleware_onion_witness :
  exists tr out,
    _wrap_with_http_middlewares Exceptions.mro0 3%nat type_error0 no_error no_error [] (ep0 true true) request0
      (layer_mw <$> [marking 1 2; catching 9; marking 3 4]) = Some (tr, out) /\
    drained request0
      [Eff 3; Eff 1; Adopt; Defer (Teardown.works [60]%nat, Teardown.LWorker); Eff 50; Eff 2; Eff 4]
      (Value (VResponse (PUser 1) [2; 4]%nat)) tr out.
Proof.
  exact (middleware_onion Exceptions.mro0 3%nat type_error0 no_error no_error [] (ep0 true true) request0
    [marking 1 2; catching 9; marking 3 4]
    [Adopt; Defer (Teardown.works [60]%nat, Teardown.LWorker); Eff 50] (Value (VResponse (PUser 1) []))
    [2; 4]%nat (Value (VResponse (PUser 1) [2; 4]%nat))
    ltac:(discriminate) eq_refl eq_refl ltac:(discriminate)).
Defined.

Lemma suspension_runs_endpoint_twice_witness :
  exists t o,
    _wrap_with_http_middlewares Exceptions.mro0 3%nat type_error0 no_error no_error [] (ep0 true false) request0
      [AsyncFunction (around (1, 2)%nat true); AsyncFunction (around (3, 4)%nat false)] = Some (t, o) /\
    times 50 t = 2%nat.
Proof.
  apply (suspension_runs_endpoint_twice Exceptions.mro0 3%nat type_error0 no_error no_error [] (ep0 true false)
    request0 [((1, 2), true); ((3, 4), false)]%nat [Eff 50] (PUser 1) [] 50); try reflexivity.
  - exists (1, 2)%nat. left.
  - intros H. vm_compute in H. repeat (apply elem_of_cons in H as [H|H]; [discriminate|]).
    by apply not_elem_of_nil in H.
Defined.

Lemma fallback_rejects_raw_endpoint_witness :
  exists t,
    _wrap_with_http_middlewares Exceptions.mro0 3%nat type_error0 no_error no_error [] (ep0 false false) request0
      [AsyncFunction (around (1, 2)%nat true)] = Some (t, Raises (Exc type_error0)).
Proof.
  apply (fallback_rejects_raw_endpoint Exceptions.mro0 3%nat type_error0 no_error no_error [] (ep0 false false)
    request0 [((1, 2), true)]%nat [Eff 50] (PUser 1) []); try reflexivity.
  exists (1, 2)%nat. left.
Defined.

Lemma guard_hides_suspension_witness :
  _wrap_with_http_middlewares Exceptions.mro0 3%nat type_error0 no_error no_error [] (ep0 true false) request0
    [AsyncFunction (around (1, 2)%nat true); AsyncFunction (guard 9 (VResponse (PUser 500) []))] =
  Some ([Eff 1; Adopt; Eff 50; Eff 9]%nat, Value (VResponse (PUser 500) [])).
Proof.
  exact (guard_hides_suspension Exceptions.mro0 3%nat type_error0 no_error no_error [] (ep0 true false) request0
    [AsyncFunction (around (1, 2)%nat true)] 9 (VResponse (PUser 500) []) _ eq_refl).
Defined.

Lemma host_dispatcher_is_innermost_witness :
  exists l, reverse (http_middlewares
      (foldl do_mop mst0 [OpMiddleware 1; OpHost (lit "api.example.com") (Some 7%nat); OpMiddleware 2])) =
    l ++ [HostDispatch].
Proof.
  destruct (host_dispatcher_is_innermost
    [OpMiddleware 1; OpHost (lit "api.example.com") (Some 7%nat); OpMiddleware 2] eq_refl) as (l & H & _).
  exists l. exact H.
Defined.

End Middleware.
