(* ===== verification/AsyncWorker.v ===== *)
(** The worker loop of [_async_worker.py]: its start from racing threads
    ([init], [_run]) and the cross-thread hand-off of a coroutine
    ([submit_fast], [_kickoff], [_runner], [_cancel_in_box]) through pooled
    completion gates.

    Both are transition systems: a step is one atomic action of a caller's
    thread or of the worker's thread, and runs interleave them freely. *)

From S2P Require Import Prelude.

Module AsyncWorker.

(** ** Start-up *)

Definition tid := nat.

(** Where a caller is inside [init]. *)
Inductive init_pc :=
| Check1            (* the unlocked check *)
| Lock              (* entering [with _init_lock] *)
| Check2            (* the check under the lock *)
| Start             (* [_ready.clear()], create and start the thread *)
| WaitReady         (* [_ready.wait(timeout=10)] *)
| Leave             (* warm the pool, leave the lock *)
| Done.

#[export] Instance init_pc_eq_dec : EqDecision init_pc.
Proof. solve_decision. Defined.

Record ist := {
  i_loop : option nat;            (* [_loop]: which loop is published *)
  i_ready : bool;
  i_lock : option tid;
  i_started : nat;                (* worker threads started *)
  i_published : nat;              (* [_loops_started] *)
  i_expired : bool;               (* some ready-wait ran into its timeout *)
  i_pc : gmap tid init_pc }.

Definition ist0 : ist :=
  {| i_loop := None; i_ready := false; i_lock := None; i_started := 0; i_published := 0;
     i_expired := false; i_pc := ∅ |}.

Definition goto (s : ist) (t : tid) (p : init_pc) : ist :=
  {| i_loop := i_loop s; i_ready := i_ready s; i_lock := i_lock s; i_started := i_started s;
     i_published := i_published s; i_expired := i_expired s; i_pc := <[t := p]> (i_pc s) |}.

Definition set_lock (s : ist) (l : option tid) : ist :=
  {| i_loop := i_loop s; i_ready := i_ready s; i_lock := l; i_started := i_started s;
     i_published := i_published s; i_expired := i_expired s; i_pc := i_pc s |}.

(** One step of thread [t] in [init]; [None] when it is blocked or outside. *)
Definition init_step (s : ist) (t : tid) : option ist :=
  match i_pc s !! t with
  | Some Check1 => Some (goto s t (match i_loop s with Some _ => Done | None => Lock end))
  | Some Lock => match i_lock s with
                 | None => Some (goto (set_lock s (Some t)) t Check2)
                 | Some _ => None
                 end
  | Some Check2 => match i_loop s with
                   | Some _ => Some (goto (set_lock s None) t Done)
                   | None => Some (goto s t Start)
                   end
  | Some Start =>
      Some (goto {| i_loop := i_loop s; i_ready := false; i_lock := i_lock s;
                    i_started := S (i_started s); i_published := i_published s;
                    i_expired := i_expired s; i_pc := i_pc s |} t WaitReady)
  | Some WaitReady => if i_ready s then Some (goto s t Leave) else None
  | Some Leave => Some (goto (set_lock s None) t Done)
  | Some Done | None => None
  end.

(** The ready-wait gives up after ten seconds. *)
Definition wait_expires (s : ist) (t : tid) : option ist :=
  match i_pc s !! t with
  | Some WaitReady =>
      if i_ready s then None
      else Some (goto {| i_loop := i_loop s; i_ready := i_ready s; i_lock := i_lock s;
                         i_started := i_started s; i_published := i_published s;
                         i_expired := true; i_pc := i_pc s |} t Leave)
  | _ => None
  end.

(** [_run] of a started thread: build the loop, publish it, set [_ready]. *)
Definition _run (s : ist) : option ist :=
  if bool_decide (i_published s < i_started s)%nat then
    Some {| i_loop := Some (i_published s); i_ready := true; i_lock := i_lock s;
            i_started := i_started s; i_published := S (i_published s);
            i_expired := i_expired s; i_pc := i_pc s |}
  else None.

(** A new caller of [init]. *)
Definition call_init (s : ist) (t : tid) : option ist :=
  match i_pc s !! t with
  | None | Some Done => Some (goto s t Check1)
  | _ => None
  end.

Inductive init_trans : ist -> ist -> Prop :=
| it_call s t s' : call_init s t = Some s' -> init_trans s s'
| it_step s t s' : init_step s t = Some s' -> init_trans s s'
| it_expire s t s' : wait_expires s t = Some s' -> init_trans s s'
| it_run s s' : _run s = Some s' -> init_trans s s'.

Definition init_reachable (s : ist) : Prop := rtc init_trans ist0 s.

(** ** Submitting a coroutine *)

Definition gate := nat.
Definition jid := nat.

(** What a coroutine ends with: a value, or an exception [_runner] caught. *)
Inductive ending := Value (v : nat) | Exc (e : nat).

(** The caller of [submit_fast]. *)
Inductive caller :=
| Waiting                       (* in [ev.wait(timeout)] *)
| Expiring                      (* [ev.wait] returned [False] *)
| Flagged                       (* [box[3] = True] is done *)
| TimedOut                      (* scheduled the cancellation, raised [TimeoutError] *)
| Returned (r : option ending). (* came back with the box: [None] if it was empty *)

(** The coroutine on the worker loop. *)
Inductive task :=
| Queued                        (* [_kickoff] is in the loop's queue *)
| Starting                      (* [_kickoff] is past its first test of [box[3]] *)
| Closed                        (* never started: [coro.close()] *)
| Running
| Ended (e : ending).

(** A submit: its gate, the box ([box[0]]/[box[1]] as [j_result], [box[2]] by
    [j_task], [box[3]] as [j_cancel_requested]), and whether [task.cancel()]
    was called. *)
Record job := {
  j_gate : gate;
  j_caller : caller;
  j_task : task;
  j_result : option ending;
  j_cancel_requested : bool;
  j_cancelled : bool }.

(** A callback in the loop's FIFO queue. *)
Inductive callback := Kickoff (j : jid) | CancelInBox (j : jid).

Record st := {
  s_pool : list gate;             (* [_event_pool], the right end first *)
  s_next : gate;                  (* gates allocated so far *)
  s_set : gset gate;              (* gates that are set *)
  s_queue : list callback;
  s_jobs : gmap jid job }.

(** After [init] the pool holds 64 gates. *)
Definition st0 : st :=
  {| s_pool := reverse (seq 0 64); s_next := 64%nat; s_set := ∅; s_queue := []; s_jobs := ∅ |}.

(** [_acquire_event] *)
Definition _acquire_event (s : st) : gate * st :=
  match s_pool s with
  | g :: pool => (g, {| s_pool := pool; s_next := s_next s; s_set := s_set s ∖ {[ g ]};
                        s_queue := s_queue s; s_jobs := s_jobs s |})
  | [] => (s_next s, {| s_pool := []; s_next := S (s_next s); s_set := s_set s;
                        s_queue := s_queue s; s_jobs := s_jobs s |})
  end.

(** [_release_event] *)
Definition _release_event (s : st) (g : gate) : st :=
  {| s_pool := if bool_decide (length (s_pool s) < 128)%nat then g :: s_pool s else s_pool s;
     s_next := s_next s; s_set := s_set s; s_queue := s_queue s; s_jobs := s_jobs s |}.

Definition set_gate (s : st) (g : gate) : st :=
  {| s_pool := s_pool s; s_next := s_next s; s_set := {[ g ]} ∪ s_set s;
     s_queue := s_queue s; s_jobs := s_jobs s |}.

Definition put_job (s : st) (j : jid) (b : job) : st :=
  {| s_pool := s_pool s; s_next := s_next s; s_set := s_set s; s_queue := s_queue s;
     s_jobs := <[j := b]> (s_jobs s) |}.

Definition enqueue (s : st) (c : callback) : st :=
  {| s_pool := s_pool s; s_next := s_next s; s_set := s_set s; s_queue := s_queue s ++ [c];
     s_jobs := s_jobs s |}.

(** [submit_fast] up to the wait. *)
Definition submit_fast (s : st) (j : jid) : option st :=
  match s_jobs s !! j with
  | Some _ => None
  | None =>
      let '(g, s1) := _acquire_event s in
      Some (enqueue (put_job s1 j {| j_gate := g; j_caller := Waiting; j_task := Queued;
                                     j_result := None; j_cancel_requested := false;
                                     j_cancelled := false |}) (Kickoff j))
  end.

Definition with_caller (b : job) (c : caller) : job :=
  {| j_gate := j_gate b; j_caller := c; j_task := j_task b; j_result := j_result b;
     j_cancel_requested := j_cancel_requested b; j_cancelled := j_cancelled b |}.

Definition with_task (b : job) (t : task) : job :=
  {| j_gate := j_gate b; j_caller := j_caller b; j_task := t; j_result := j_result b;
     j_cancel_requested := j_cancel_requested b; j_cancelled := j_cancelled b |}.

(** The wait ends because the gate is set: an exception is re-raised and the
    gate dropped, a value is returned and the gate goes back to the pool. *)
Definition wake (s : st) (j : jid) : option st :=
  match s_jobs s !! j with
  | Some b =>
      match j_caller b with
      | Waiting =>
          if bool_decide (j_gate b ∈ s_set s) then
            let s' := put_job s j (with_caller b (Returned (j_result b))) in
            Some (match j_result b with
                  | Some (Exc _) => s'
                  | _ => _release_event s' (j_gate b)
                  end)
          else None
      | _ => None
      end
  | None => None
  end.

(** The wait runs into its timeout; then the flag is set; then the
    cancellation is scheduled and [TimeoutError] raised. *)
Definition expire (s : st) (j : jid) : option st :=
  match s_jobs s !! j with
  | Some b =>
      match j_caller b with
      | Waiting =>
          if bool_decide (j_gate b ∈ s_set s) then None
          else Some (put_job s j (with_caller b Expiring))
      | _ => None
      end
  | None => None
  end.

Definition request_cancel (s : st) (j : jid) : option st :=
  match s_jobs s !! j with
  | Some b =>
      match j_caller b with
      | Expiring =>
          Some (put_job s j
                 {| j_gate := j_gate b; j_caller := Flagged; j_task := j_task b;
                    j_result := j_result b; j_cancel_requested := true;
                    j_cancelled := j_cancelled b |})
      | _ => None
      end
  | None => None
  end.

Definition schedule_cancel (s : st) (j : jid) : option st :=
  match s_jobs s !! j with
  | Some b =>
      match j_caller b with
      | Flagged => Some (enqueue (put_job s j (with_caller b TimedOut)) (CancelInBox j))
      | _ => None
      end
  | None => None
  end.

(** [_kickoff] on the loop, up to its first test of [box[3]]. *)
Definition _kickoff (s : st) (j : jid) : st :=
  match s_jobs s !! j with
  | Some b =>
      if j_cancel_requested b then set_gate (put_job s j (with_task b Closed)) (j_gate b)
      else put_job s j (with_task b Starting)
  | None => s
  end.

(** The rest of [_kickoff]: the task is created and stored, [box[3]] is tested
    again. *)
Definition _kickoff_start (s : st) (j : jid) : option st :=
  match s_jobs s !! j with
  | Some b =>
      match j_task b with
      | Starting =>
          Some (put_job s j {| j_gate := j_gate b; j_caller := j_caller b; j_task := Running;
                               j_result := j_result b;
                               j_cancel_requested := j_cancel_requested b;
                               j_cancelled := j_cancelled b || j_cancel_requested b |})
      | _ => None
      end
  | None => None
  end.

(** [_cancel_in_box] on the loop. *)
Definition _cancel_in_box (s : st) (j : jid) : st :=
  match s_jobs s !! j with
  | Some b =>
      match j_task b with
      | Running => put_job s j {| j_gate := j_gate b; j_caller := j_caller b; j_task := Running;
                                  j_result := j_result b;
                                  j_cancel_requested := j_cancel_requested b; j_cancelled := true |}
      | _ => s
      end
  | None => s
  end.

(** The loop is not inside a [_kickoff]. *)
Definition is_starting (b : job) : bool := match j_task b with Starting => true | _ => false end.

Definition between_callbacks (s : st) : bool :=
  bool_decide (map_Forall (fun _ b => is_starting b = false) (s_jobs s)).

(** The loop takes the next callback. *)
Definition loop_step (s : st) : option st :=
  if between_callbacks s then
    match s_queue s with
    | [] => None
    | c :: q =>
        let s' := {| s_pool := s_pool s; s_next := s_next s; s_set := s_set s; s_queue := q;
                     s_jobs := s_jobs s |} in
        Some (match c with
              | Kickoff j => _kickoff s' j
              | CancelInBox j => _cancel_in_box s' j
              end)
    end
  else None.

(** [_runner] finishes: the box is filled, then the gate is set. *)
Definition _runner (s : st) (j : jid) (e : ending) : option st :=
  match s_jobs s !! j with
  | Some b =>
      match j_task b with
      | Running =>
          Some (set_gate (put_job s j {| j_gate := j_gate b; j_caller := j_caller b;
                                         j_task := Ended e; j_result := Some e;
                                         j_cancel_requested := j_cancel_requested b;
                                         j_cancelled := j_cancelled b |}) (j_gate b))
      | _ => None
      end
  | None => None
  end.

Inductive trans : st -> st -> Prop :=
| t_submit s j s' : submit_fast s j = Some s' -> trans s s'
| t_wake s j s' : wake s j = Some s' -> trans s s'
| t_expire s j s' : expire s j = Some s' -> trans s s'
| t_request s j s' : request_cancel s j = Some s' -> trans s s'
| t_schedule s j s' : schedule_cancel s j = Some s' -> trans s s'
| t_start s j s' : _kickoff_start s j = Some s' -> trans s s'
| t_loop s s' : loop_step s = Some s' -> trans s s'
| t_runner s j e s' : _runner s j e = Some s' -> trans s s'.

Definition reachable (s : st) : Prop := rtc trans st0 s.

(** ** [_default_timeout] *)

(** An application's [worker_timeout], in milliseconds. *)
Definition worker_timeout := option Z.

(** The environment variable (with whether [float] accepts it), the [app]
    argument and the last constructed application. *)
Definition _default_timeout (env : option (option Z)) (app : option worker_timeout)
    (last : option worker_timeout) : option Z :=
  match env with
  | Some (Some t) => Some t
  | _ => match app with
         | Some t => t
         | None => match last with Some (Some t) => Some t | _ => None end
         end
  end.

(** ** Theorems *)

(** *** Start-up *)

Definition in_lock (p : init_pc) : bool :=
  match p with Check2 | Start | WaitReady | Leave => true | _ => false end.

(** As long as no ready-wait has expired: the lock is held exactly by the
    thread inside it, a worker thread has been started only if the loop is up
    or its starter still waits, and nobody is done without the loop. *)
Record init_inv (s : ist) : Prop := {
  ii_lock : forall t p, i_pc s !! t = Some p -> in_lock p = true <-> i_lock s = Some t;
  ii_holder : forall t, i_lock s = Some t -> exists p, i_pc s !! t = Some p /\ in_lock p = true;
  ii_le : (i_published s <= i_started s <= 1)%nat;
  ii_loop : is_Some (i_loop s) <-> i_published s = 1%nat;
  ii_ready : i_started s = 1%nat -> i_ready s = true <-> i_published s = 1%nat;
  ii_start : i_started s = 1%nat ->
    i_published s = 1%nat \/ exists t, i_lock s = Some t /\ i_pc s !! t = Some WaitReady;
  ii_begin : forall t, i_pc s !! t = Some Start -> i_started s = 0%nat;
  ii_wait : forall t, i_pc s !! t = Some WaitReady -> i_started s = 1%nat;
  ii_done : forall t p, i_pc s !! t = Some p -> p = Leave \/ p = Done -> is_Some (i_loop s) }.

#[local] Ltac pcs :=
  repeat match goal with
         | H : <[_ := _]> _ !! _ = Some _ |- _ => apply lookup_insert_Some in H as [[? ?]|[? ?]]
         end; simplify_eq/=.

(** A thread moves between two places on the same side of the lock. *)
Lemma init_inv_goto s t p :
  init_inv s ->
  (in_lock p = true <-> i_lock s = Some t) ->
  (forall q, i_pc s !! t = Some q -> q = WaitReady -> i_started s = 1%nat -> i_published s = 1%nat) ->
  (p = Start -> i_started s = 0%nat) -> (p <> WaitReady) ->
  (p = Leave \/ p = Done -> is_Some (i_loop s)) ->
  init_inv (goto s t p).
Proof.
  intros [Hl Hh Hle Hlo Hr Hs Hb Hw Hd] Hp Hq H1 H2 H3. split; simpl.
  - intros t' p' Ht'. pcs; solve [done|by apply Hl].
  - intros t' Ht'. destruct (decide (t = t')) as [->|Hne].
    + exists p. rewrite lookup_insert_eq. split; [done|]. by apply Hp.
    + destruct (Hh _ Ht') as (p' & ? & ?). exists p'. by rewrite lookup_insert_ne.
  - done.
  - done.
  - done.
  - intros Hst. destruct (Hs Hst) as [?|(t' & Ht' & Hp')]; [by left|].
    destruct (decide (t = t')) as [->|Hne]; [left; by eapply Hq|].
    right. exists t'. by rewrite lookup_insert_ne.
  - intros t' Ht'. pcs; solve [by apply H1|by eapply Hb].
  - intros t' Ht'. pcs; solve [done|by eapply Hw].
  - intros t' p' Ht' Hp'. pcs; solve [by apply H3|by eapply Hd].
Qed.

(** A thread leaves the lock for good. *)
Lemma init_inv_leave s t p :
  init_inv s -> i_pc s !! t = Some p -> in_lock p = true -> p <> WaitReady -> is_Some (i_loop s) ->
  init_inv (goto (set_lock s None) t Done).
Proof.
  intros Hi Ht Hp Hnw Hloop. pose proof Hi as [Hl Hh Hle Hlo Hr Hs Hb Hw Hd].
  assert (i_lock s = Some t) as Hlk by by apply (Hl _ _ Ht). split; simpl.
  - intros t' p' Ht'. pcs; [done|]. split; [|done]. intros Hp'.
    apply (Hl _ _ H0) in Hp'. congruence.
  - done.
  - done.
  - done.
  - done.
  - intros _. left. by apply Hlo.
  - intros t' Ht'. pcs. by eapply Hb.
  - intros t' Ht'. pcs. by eapply Hw.
  - intros t' p' Ht' Hp'. pcs; solve [done|by eapply Hd].
Qed.

#[local] Ltac goto_side :=
  try done; try (by split); try (intros ? ? ->; congruence); try (by intros [?|?]);
  try (by intros _; eexists).

Lemma init_inv_step s t s' : init_inv s -> init_step s t = Some s' -> init_inv s'.
Proof.
  intros Hi H. pose proof Hi as [Hl Hh Hle Hlo Hr Hs Hb Hw Hd]. unfold init_step in H.
  destruct (i_pc s !! t) as [p|] eqn:Ht; [|done].
  pose proof (Hl _ _ Ht) as Hlt.
  destruct p; try done.
  - injection H as <-. assert (~ i_lock s = Some t) by naive_solver.
    destruct (i_loop s) eqn:Hloop; apply init_inv_goto; goto_side; by rewrite Hloop.
  - destruct (i_lock s) eqn:Hlk; [done|]. injection H as <-. split; simpl.
    + intros t' p' Ht'. pcs; [done|]. pose proof (Hl _ _ H0) as Hl'.
      split; [naive_solver|]. by intros [= ->].
    + intros t' [= <-]. exists Check2. by rewrite lookup_insert_eq.
    + done.
    + done.
    + done.
    + intros Hst. destruct (Hs Hst) as [?|(t' & Ht' & _)]; [by left|congruence].
    + intros t' Ht'. pcs. by eapply Hb.
    + intros t' Ht'. pcs. by eapply Hw.
    + intros t' p' Ht' Hp'. pcs; solve [by destruct Hp'|by eapply Hd].
  - assert (i_lock s = Some t) by by apply Hlt.
    destruct (i_loop s) as [l|] eqn:Hloop; injection H as <-.
    + eapply init_inv_leave; [done|done|done|done|by eexists].
    + apply init_inv_goto; goto_side. intros _. destruct (decide (i_started s = 1%nat)) as [E|]; [|lia].
      destruct (Hs E) as [E'|(t' & Ht' & Hp')]; [|congruence].
      apply Hlo in E' as [? ?]. done.
  - assert (i_lock s = Some t) as Hlk by by apply Hlt. pose proof (Hb _ Ht) as H0.
    injection H as <-. split; simpl.
    + intros t' p' Ht'. pcs; solve [done|by apply Hl].
    + intros t' Ht'. destruct (decide (t = t')) as [->|Hne].
      * exists WaitReady. by rewrite lookup_insert_eq.
      * congruence.
    + lia.
    + done.
    + intros _. split; [done|]. intros E. lia.
    + intros _. right. exists t. by rewrite lookup_insert_eq.
    + intros t' Ht'. apply lookup_insert_Some in Ht' as [[? ?]|[Hne Ht']]; [done|].
      assert (i_lock s = Some t') by by apply (Hl _ _ Ht'). congruence.
    + intros t' Ht'. pcs; lia.
    + intros t' p' Ht' Hp'. pcs; solve [by destruct Hp'|by eapply Hd].
  - destruct (i_ready s) eqn:Er; [|done]. injection H as <-.
    pose proof (Hw _ Ht) as Hst. assert (i_published s = 1%nat) as Hpub by by apply Hr.
    apply init_inv_goto; goto_side. intros _. by apply Hlo.
  - injection H as <-. eapply init_inv_leave; [done|done|done|done|]. eapply Hd; [done|by left].
Qed.

Lemma init_inv_call s t s' : init_inv s -> call_init s t = Some s' -> init_inv s'.
Proof.
  intros Hi H. pose proof Hi as [Hl Hh Hle Hlo Hr Hs Hb Hw Hd]. unfold call_init in H.
  assert (i_lock s <> Some t) as Hnl.
  { intros (p & Hp & Hin)%Hh. rewrite Hp in H. by destruct p. }
  destruct (i_pc s !! t) as [p|] eqn:Hp; [destruct p; try done|]; injection H as <-;
    apply init_inv_goto; goto_side.
Qed.

Lemma init_inv_run s s' : init_inv s -> _run s = Some s' -> init_inv s'.
Proof.
  intros [Hl Hh Hle Hlo Hr Hs Hb Hw Hd] H. unfold _run in H.
  case_bool_decide as Hlt; [|done]. injection H as <-.
  assert (i_published s = 0%nat) as Hp by lia. rewrite Hp. split; simpl; try done; try lia;
    by (split; [done|by eexists]).
Qed.

(** The expiry of a ready-wait is sticky. *)
Lemma expired_sticky s s' : init_trans s s' -> i_expired s = true -> i_expired s' = true.
Proof.
  intros H He. destruct H as [s t s' H|s t s' H|s t s' H|s s' H].
  - unfold call_init in H. destruct (i_pc s !! t) as [[]|]; by simplify_eq/=.
  - unfold init_step in H. destruct (i_pc s !! t) as [[]|]; try done;
      repeat case_match; by simplify_eq/=.
  - unfold wait_expires in H. destruct (i_pc s !! t) as [[]|]; try done. by case_match; simplify_eq/=.
  - unfold _run in H. case_bool_decide; by simplify_eq/=.
Qed.

Lemma init_inv_initial : init_inv ist0.
Proof. split; simpl; try done; lia. Qed.

Lemma init_inv_reachable s : init_reachable s -> i_expired s = true \/ init_inv s.
Proof.
  unfold init_reachable. revert s.
  apply (rtc_ind_r (fun s => i_expired s = true \/ init_inv s) ist0); [right; apply init_inv_initial|].
  intros s1 s2 _ H2 IH. destruct IH as [He|Hi]; [left; by eapply expired_sticky|].
  destruct H2 as [s t s' H|s t s' H|s t s' H|s s' H].
  - right. by eapply init_inv_call.
  - right. by eapply init_inv_step.
  - left. unfold wait_expires in H. destruct (i_pc s !! t) as [[]|]; try done.
    destruct (i_ready s); by simplify_eq/=.
  - right. by eapply init_inv_run.
Qed.

(** C13: start-up is safe under any race: as long as no ready-wait has run into
    its ten-second limit, whatever threads call [init] and however they
    interleave, at most one worker thread and one loop are ever started, and
    every caller that has left [init] finds the loop published. *)
Theorem init_starts_one_loop s :
  init_reachable s -> i_expired s = false ->
  (i_started s <= 1)%nat /\ (i_published s <= 1)%nat /\
  forall t, i_pc s !! t = Some Done -> is_Some (i_loop s).
Proof.
  intros [He|[Hl Hh Hle Hlo Hr Hs Hb Hw Hd]]%init_inv_reachable Hf; [congruence|].
  split_and!; [lia|lia|]. intros t Ht. eapply Hd; [exact Ht|by right].
Qed.

(** *** Submits *)

(** Someone still looks at, or will still set, the job's gate. *)
Definition active (b : job) : Prop :=
  j_caller b = Waiting \/ j_task b = Queued \/ j_task b = Starting \/ j_task b = Running.

Definition kicks (q : list callback) : list jid :=
  omap (fun c => match c with Kickoff j => Some j | _ => None end) q.

Definition job_ok (gates : gset gate) (q : list callback) (j : jid) (b : job) : Prop :=
  j_result b = match j_task b with Ended e => Some e | _ => None end /\
  match j_caller b with
  | Waiting => j_cancel_requested b = false /\
               (j_gate b ∈ gates -> exists e, j_task b = Ended e)
  | Expiring => j_cancel_requested b = false
  | Flagged => j_cancel_requested b = true
  | TimedOut => j_cancel_requested b = true /\
                (j_task b = Running -> j_cancelled b = true \/ CancelInBox j ∈ q)
  | Returned r => exists e, r = Some e /\ j_task b = Ended e
  end /\
  (j_task b = Closed -> j_cancel_requested b = true) /\
  (j_task b = Queued -> j ∈ kicks q).

Record inv (s : st) : Prop := {
  v_pool : NoDup (s_pool s);
  v_pool_fresh : forall g, g ∈ s_pool s -> (g < s_next s)%nat;
  v_set_fresh : forall g, g ∈ s_set s -> (g < s_next s)%nat;
  v_job_fresh : forall j b, s_jobs s !! j = Some b -> (j_gate b < s_next s)%nat;
  v_free : forall j b, s_jobs s !! j = Some b -> active b -> j_gate b ∉ s_pool s;
  v_distinct : forall j k b c, s_jobs s !! j = Some b -> s_jobs s !! k = Some c ->
    active b -> active c -> j_gate b = j_gate c -> j = k;
  v_job : forall j b, s_jobs s !! j = Some b -> job_ok (s_set s) (s_queue s) j b;
  v_kicks : NoDup (kicks (s_queue s));
  v_queued : forall j, j ∈ kicks (s_queue s) ->
    exists b, s_jobs s !! j = Some b /\ j_task b = Queued }.

#[local] Ltac lk H := apply lookup_insert_Some in H as [[<- <-]|[? H]].

(** Changing one job that keeps its gate and does not become active. *)
Lemma inv_update s j b b' gs q :
  inv s -> s_jobs s !! j = Some b ->
  j_gate b' = j_gate b -> (active b' -> active b) ->
  (forall g, g ∈ gs -> (g < s_next s)%nat) ->
  job_ok gs q j b' ->
  (forall k c, k <> j -> s_jobs s !! k = Some c -> job_ok gs q k c) ->
  NoDup (kicks q) -> (forall k, k ∈ kicks q -> (k = j /\ j_task b' = Queued) \/ (k <> j /\ k ∈ kicks (s_queue s))) ->
  inv {| s_pool := s_pool s; s_next := s_next s; s_set := gs; s_queue := q;
         s_jobs := <[j := b']> (s_jobs s) |}.
Proof.
  intros [Hp Hpf Hsf Hjf Hfr Hdi Hj Hk Hq] Hb Hg Hact Hgs Hok Hoth Hnd Hks. split; simpl; try done.
  - intros k c Hc. lk Hc; [rewrite Hg|]; by eapply Hjf.
  - intros k c Hc Ha. lk Hc; [rewrite Hg|]; eapply Hfr; eauto.
  - intros k1 k2 c1 c2 H1 H2 Ha1 Ha2 He. lk H1; lk H2; [done|..].
    + rewrite Hg in He. symmetry. eapply (Hdi k2 j); eauto.
    + rewrite Hg in He. eapply (Hdi k1 j); eauto.
    + by eapply Hdi.
  - intros k c Hc. lk Hc; [done|by apply Hoth].
  - intros k [[-> Ht]|[Hne Hin]]%Hks; [exists b'; by rewrite lookup_insert_eq|].
    destruct (Hq _ Hin) as (c & ? & ?). exists c. by rewrite lookup_insert_ne.
Qed.

(** A larger queue only helps; setting a gate is harmless to the jobs that do
    not wait for it. *)
Lemma job_ok_mono gs gs' q q' j b :
  job_ok gs q j b -> (j_caller b = Waiting -> j_gate b ∈ gs' -> j_gate b ∈ gs) ->
  (forall k, CancelInBox k ∈ q -> CancelInBox k ∈ q') -> (j ∈ kicks q -> j ∈ kicks q') ->
  job_ok gs' q' j b.
Proof.
  intros (H1 & H2 & H3 & H4) Hg Hc Hk. split_and!; [done| |done|].
  - destruct (j_caller b); [|done|done|destruct H2 as [? H2]|done].
    + split; [apply H2|]. intros Hin. by apply H2, Hg.
    + split; [done|]. intros Hr. destruct (H2 Hr); [by left|right; by apply Hc].
  - intros Hq. by apply Hk, H4.
Qed.

Lemma kicks_snoc_cancel q j : kicks (q ++ [CancelInBox j]) = kicks q.
Proof. unfold kicks. by rewrite omap_app, app_nil_r. Qed.

Lemma kicks_snoc_kick q j : kicks (q ++ [Kickoff j]) = kicks q ++ [j].
Proof. unfold kicks. by rewrite omap_app. Qed.

(** A step of the timing-out caller leaves the queue's kick-offs alone. *)
Lemma inv_caller s j b b' q :
  inv s -> s_jobs s !! j = Some b -> j_gate b' = j_gate b -> (active b' -> active b) ->
  j_task b' = j_task b -> kicks q = kicks (s_queue s) ->
  (forall k, CancelInBox k ∈ s_queue s -> CancelInBox k ∈ q) ->
  job_ok (s_set s) q j b' ->
  inv {| s_pool := s_pool s; s_next := s_next s; s_set := s_set s; s_queue := q;
         s_jobs := <[j := b']> (s_jobs s) |}.
Proof.
  intros Hi Hb Hg Ha Ht Hk Hc Hok. eapply (inv_update s j b); try done.
  - apply Hi.
  - intros k c Hne Hkc. eapply job_ok_mono; [by eapply v_job|done|done|by rewrite Hk].
  - rewrite Hk. apply Hi.
  - rewrite Hk. intros k Hin. destruct (decide (k = j)) as [->|]; [left|by right].
    apply (v_queued s Hi) in Hin as (b2 & Hb2 & Ht2). split; [done|]. congruence.
Qed.

Lemma inv_expire s j s' : inv s -> expire s j = Some s' -> inv s'.
Proof.
  intros Hi H. unfold expire in H. destruct (s_jobs s !! j) as [b|] eqn:Hb; [|done].
  destruct (j_caller b) eqn:Hc; try done. case_bool_decide as Hg; [done|]. injection H as <-.
  pose proof (v_job s Hi j b Hb) as (Hr & Hw & Hcl & Hqd). rewrite Hc in Hw.
  eapply (inv_caller s j b); try done; [by left|]. split_and!; simpl; [done|by destruct Hw|done|done].
Qed.

Lemma inv_request s j s' : inv s -> request_cancel s j = Some s' -> inv s'.
Proof.
  intros Hi H. unfold request_cancel in H. destruct (s_jobs s !! j) as [b|] eqn:Hb; [|done].
  destruct (j_caller b) eqn:Hc; try done. injection H as <-.
  pose proof (v_job s Hi j b Hb) as (Hr & Hw & Hcl & Hqd). rewrite Hc in Hw.
  eapply (inv_caller s j b); try done. intros [?|?]; [done|by right].
Qed.

Lemma inv_schedule s j s' : inv s -> schedule_cancel s j = Some s' -> inv s'.
Proof.
  intros Hi H. unfold schedule_cancel in H. destruct (s_jobs s !! j) as [b|] eqn:Hb; [|done].
  destruct (j_caller b) eqn:Hc; try done. injection H as <-.
  pose proof (v_job s Hi j b Hb) as (Hr & Hw & Hcl & Hqd). rewrite Hc in Hw.
  eapply (inv_caller s j b); try done.
  - intros [?|?]; [done|by right].
  - apply kicks_snoc_cancel.
  - intros k Hk. apply elem_of_app. by left.
  - split_and!; simpl; [done| |done|].
    + split; [done|]. intros _. right. apply elem_of_app. right. by left.
    + intros Ht. rewrite kicks_snoc_cancel. by apply Hqd.
Qed.

Lemma inv_start s j s' : inv s -> _kickoff_start s j = Some s' -> inv s'.
Proof.
  intros Hi H. unfold _kickoff_start in H. destruct (s_jobs s !! j) as [b|] eqn:Hb; [|done].
  destruct (j_task b) eqn:Ht; try done. injection H as <-.
  pose proof (v_job s Hi j b Hb) as (Hr & Hw & Hcl & Hqd). rewrite Ht in Hr.
  eapply (inv_update s j b); try done.
  - intros _. right; right; by left.
  - apply Hi.
  - split_and!; simpl; [done| |done|done]. destruct (j_caller b); try done.
    + split; [apply Hw|]. intros Hg. apply Hw in Hg as [? ?]. congruence.
    + destruct Hw as [Hf _]. split; [done|]. intros _. left. by rewrite Hf, orb_true_r.
    + destruct Hw as (? & _ & ?). congruence.
  - intros k c Hne Hk. by eapply v_job.
  - apply Hi.
  - intros k Hin. right. split; [|done]. intros ->.
    apply (v_queued s Hi) in Hin as (b2 & ? & ?). congruence.
Qed.

Lemma inv_runner s j e s' : inv s -> _runner s j e = Some s' -> inv s'.
Proof.
  intros Hi H. unfold _runner in H. destruct (s_jobs s !! j) as [b|] eqn:Hb; [|done].
  destruct (j_task b) eqn:Ht; try done. injection H as <-.
  pose proof (v_job s Hi j b Hb) as (Hr & Hw & Hcl & Hqd).
  assert (active b) as Ha by (by right; right; right).
  eapply (inv_update s j b); try done.
  - intros g [->%elem_of_singleton|Hg]%elem_of_union; [by eapply v_job_fresh|by eapply v_set_fresh].
  - split_and!; simpl; [done| |done|done].
    destruct (j_caller b); try done.
    + split; [apply Hw|]. intros _. by eexists.
    + split; [apply Hw|done].
    + destruct Hw as (? & _ & ?). congruence.
  - intros k c Hne Hk. eapply job_ok_mono; [by eapply v_job| |done|done].
    intros Hcw [Hcg%elem_of_singleton|Hg]%elem_of_union; [|done]. exfalso. apply Hne.
    eapply (v_distinct s Hi); eauto. by left.
  - apply Hi.
  - intros k Hk. destruct (decide (k = j)) as [->|]; [|by right].
    apply (v_queued s Hi) in Hk as (b' & Hb' & Ht'). congruence.
Qed.

Lemma inv_kickoff s j q :
  inv s -> s_queue s = Kickoff j :: q ->
  inv (_kickoff {| s_pool := s_pool s; s_next := s_next s; s_set := s_set s; s_queue := q;
                   s_jobs := s_jobs s |} j).
Proof.
  intros Hi Hq. assert (j ∈ kicks (s_queue s)) as Hin by (rewrite Hq; left).
  pose proof (v_kicks s Hi) as Hnd. rewrite Hq in Hnd. simpl in Hnd. apply NoDup_cons in Hnd as [Hnj Hnd].
  apply (v_queued s Hi) in Hin as (b & Hb & Ht). unfold _kickoff. simpl. rewrite Hb.
  pose proof (v_job s Hi j b Hb) as (Hr & Hw & Hcl & Hqd). rewrite Ht in Hr.
  assert (active b) as Ha by (by right; left).
  assert (forall gs k c, k <> j -> s_jobs s !! k = Some c ->
    (j_caller c = Waiting -> j_gate c ∈ gs -> j_gate c ∈ s_set s) -> job_ok gs q k c) as Hoth.
  { intros gs k c Hne Hk Hg. eapply job_ok_mono; [by eapply v_job|done| |]; rewrite Hq.
    - intros k'. intros [|]%elem_of_cons; [done|done].
    - simpl. intros [|]%elem_of_cons; done. }
  assert (forall k, k ∈ kicks q -> k <> j /\ k ∈ kicks (s_queue s)) as Hks.
  { intros k Hk. split; [by intros ->|]. rewrite Hq. by right. }
  destruct (j_cancel_requested b) eqn:Hcr; eapply (inv_update s j b); try done;
    try (intros k Hk; right; by apply Hks).
  - intros g [->%elem_of_singleton|Hg]%elem_of_union; [by eapply v_job_fresh|by eapply v_set_fresh].
  - destruct (j_caller b) eqn:Hc; try (destruct Hw; congruence);
      try (destruct Hw as (? & _ & ?); congruence);
      by split_and!; simpl; rewrite ?Hc.
  - intros k c Hne Hk. apply Hoth; [done|done|].
    intros Hcw [Hcg%elem_of_singleton|Hg]%elem_of_union; [|done]. exfalso. apply Hne.
    eapply (v_distinct s Hi); eauto. by left.
  - by apply Hi.
  - destruct (j_caller b) eqn:Hc; try (destruct Hw; congruence);
      try (destruct Hw as (? & _ & ?); congruence);
      split_and!; simpl; rewrite ?Hc; try done.
    split; [done|]. intros Hg. apply Hw in Hg as [? ?]. congruence.
  - intros k c Hne Hk. by apply Hoth.
Qed.

Lemma inv_cancel s j q :
  inv s -> s_queue s = CancelInBox j :: q ->
  inv (_cancel_in_box {| s_pool := s_pool s; s_next := s_next s; s_set := s_set s; s_queue := q;
                         s_jobs := s_jobs s |} j).
Proof.
  intros Hi Hq. unfold _cancel_in_box. simpl.
  assert (forall k c, s_jobs s !! k = Some c -> k <> j \/ j_task c <> Running ->
    job_ok (s_set s) q k c) as Hoth.
  { intros k c Hk Hor. pose proof (v_job s Hi k c Hk) as (H1 & H2 & H3 & H4). split_and!; [done| |done|].
    - destruct (j_caller c); [done..| |done]. destruct H2 as [? H2]. split; [done|]. intros Hr.
      destruct (H2 Hr) as [?|Hin]; [by left|]. right. rewrite Hq in Hin.
      apply elem_of_cons in Hin as [[= ->]|]; [|done]. by destruct Hor.
    - intros Ht. apply H4 in Ht. by rewrite Hq in Ht. }
  assert ((forall b, s_jobs s !! j = Some b -> j_task b <> Running) ->
    inv {| s_pool := s_pool s; s_next := s_next s; s_set := s_set s; s_queue := q; s_jobs := s_jobs s |})
    as Hpop.
  { intros Hn. destruct Hi. rewrite Hq in *. split; simpl; try done.
    intros k c Hk. apply Hoth; [done|]. destruct (decide (k = j)) as [->|]; [right; by apply Hn|by left]. }
  destruct (s_jobs s !! j) as [b|] eqn:Hb; [|by apply Hpop].
  destruct (j_task b) eqn:Ht; try (apply Hpop; intros ? [= <-]; congruence).
  pose proof (v_job s Hi j b Hb) as (Hr & Hw & Hcl & Hqd). rewrite Ht in Hr.
  eapply (inv_update s j b); try done.
  - intros _. by right; right; right.
  - by apply Hi.
  - split_and!; simpl; [done| |done|done]. destruct (j_caller b); try done.
    + split; [apply Hw|]. intros Hg. apply Hw in Hg as [? ?]. congruence.
    + split; [apply Hw|]. by left.
    + destruct Hw as (? & _ & ?). congruence.
  - intros k c Hne Hk. apply Hoth; [done|by left].
  - pose proof (v_kicks s Hi) as Hnd. by rewrite Hq in Hnd.
  - intros k Hk. right. assert (k ∈ kicks (s_queue s)) as Hk' by by rewrite Hq.
    split; [|done]. intros ->. apply (v_queued s Hi) in Hk' as (b' & ? & ?). congruence.
Qed.

Lemma inv_loop s s' : inv s -> loop_step s = Some s' -> inv s'.
Proof.
  intros Hi H. unfold loop_step in H. destruct (between_callbacks s); [|done].
  destruct (s_queue s) as [|cb q] eqn:Hq; [done|].
  injection H as <-. destruct cb; [by apply inv_kickoff|by apply inv_cancel].
Qed.

(** The caller comes back: the gate may go to the pool, nobody else uses it. *)
Lemma inv_wake s j s' : inv s -> wake s j = Some s' -> inv s'.
Proof.
  intros Hi H. unfold wake in H. destruct (s_jobs s !! j) as [b|] eqn:Hb; [|done].
  destruct (j_caller b) eqn:Hc; try done. case_bool_decide as Hg; [|done].
  pose proof (v_job s Hi j b Hb) as (Hr & Hw & Hcl & Hqd). rewrite Hc in Hw.
  destruct Hw as [Hcr Hw]. destruct (Hw Hg) as [e He]. rewrite He in Hr.
  assert (active b) as Ha by by left.
  set (b' := with_caller b (Returned (j_result b))) in *.
  assert (~ active b') as Hna by (intros [?|[?|[?|?]]]; simpl in *; congruence).
  assert (inv (put_job s j b')) as Hi'.
  { eapply (inv_update s j b); try done; try apply (v_set_fresh s Hi); try apply (v_kicks s Hi).
    - unfold job_ok. simpl. rewrite He. split_and!; [done| |done|done]. exists e. by rewrite Hr.
    - intros k c Hne Hk. by apply (v_job s Hi).
    - intros k Hk. right. split; [|done]. intros ->.
      apply (v_queued s Hi) in Hk as (b2 & ? & ?). congruence. }
  injection H as <-. rewrite Hr. destruct e as [v|x]; [|done].
  unfold _release_event. case_bool_decide; [|by destruct Hi']. simpl.
  destruct Hi' as [Hp Hpf Hsf Hjf Hfr Hdi Hj Hk Hq]. simpl in *. split; simpl; try done.
  - apply NoDup_cons. split; [|done]. by eapply (v_free s Hi).
  - intros g [->|Hin]%elem_of_cons; [by eapply (v_job_fresh s Hi)|by apply Hpf].
  - intros k c Hck Hak. apply not_elem_of_cons. split; [|by eapply Hfr].
    intros Heq. lk Hck; [done|]. assert (k = j); [|done]. eapply (v_distinct s Hi); eauto.
Qed.

Lemma inv_submit s j s' : inv s -> submit_fast s j = Some s' -> inv s'.
Proof.
  intros Hi H. unfold submit_fast in H. destruct (s_jobs s !! j) as [|] eqn:Hb; [done|].
  destruct (_acquire_event s) as [g s1] eqn:Hacq. injection H as <-.
  assert (s_jobs s1 = s_jobs s /\ s_queue s1 = s_queue s /\ NoDup (s_pool s1) /\
    (forall x, x ∈ s_pool s1 -> x ∈ s_pool s) /\ g ∉ s_pool s1 /\
    (s_next s <= s_next s1)%nat /\ (g < s_next s1)%nat /\
    (forall x, x ∈ s_set s1 -> x ∈ s_set s) /\ g ∉ s_set s1 /\
    (forall k c, s_jobs s !! k = Some c -> active c -> j_gate c <> g))
    as (Ej & Eq & Hnd & Hsub & Hgp & Hnx & Hg & Hset & Hgs & Huse).
  { unfold _acquire_event in Hacq. pose proof Hi as [Hp Hpf Hsf Hjf Hfr Hdi Hj Hk Hq].
    destruct (s_pool s) as [|g0 pool] eqn:Ep; injection Hacq as <- <-; simpl; split_and!; try done.
    - apply not_elem_of_nil.
    - lia.
    - lia.
    - intros Hin. apply Hsf in Hin. lia.
    - intros k c Hkc _ Heq. apply Hjf in Hkc. lia.
    - by apply NoDup_cons in Hp as [_ ?].
    - intros x Hx. by right.
    - by apply NoDup_cons in Hp as [? _].
    - apply Hpf. left.
    - set_solver.
    - set_solver.
    - intros k c Hkc Hac Heq. eapply Hfr; [done|done|]. rewrite Heq. left. }
  destruct Hi as [Hp Hpf Hsf Hjf Hfr Hdi Hj Hk Hq]. split; simpl; rewrite ?Ej, ?Eq.
  - done.
  - intros x Hx%Hsub%Hpf. lia.
  - intros x Hx%Hset%Hsf. lia.
  - intros k c Hc. lk Hc; [done|]. apply Hjf in Hc. lia.
  - intros k c Hc Ha. lk Hc; [done|]. intros Hin%Hsub. by eapply Hfr.
  - intros k1 k2 c1 c2 H1 H2 Ha1 Ha2 He. lk H1; lk H2; [done| | |by eapply Hdi].
    + exfalso. by apply (Huse k2 c2 H2 Ha2).
    + exfalso. by apply (Huse k1 c1 H1 Ha1).
  - intros k c Hc. lk Hc.
    + split_and!; simpl; [done|done|done|]. intros _. rewrite kicks_snoc_kick. apply elem_of_app. right. left.
    + eapply job_ok_mono; [by apply Hj| | |].
      * intros _. apply Hset.
      * intros k' Hk'. apply elem_of_app. by left.
      * rewrite kicks_snoc_kick. intros Hk'. apply elem_of_app. by left.
  - rewrite kicks_snoc_kick. apply NoDup_app. split_and!; [done| |apply NoDup_singleton].
    intros x Hx ->%list_elem_of_singleton. apply Hq in Hx as (b & ? & _). congruence.
  - intros k. rewrite kicks_snoc_kick. intros [Hk'| ->%list_elem_of_singleton]%elem_of_app.
    + destruct (Hq _ Hk') as (b & ? & ?). exists b. split; [|done]. rewrite lookup_insert_ne; [done|congruence].
    + eexists. by rewrite lookup_insert_eq.
Qed.

Lemma inv_initial : inv st0.
Proof.
  split; try done.
  - change (NoDup (reverse (seq 0 64))). rewrite reverse_Permutation. apply NoDup_seq.
  - change (forall g, g ∈ reverse (seq 0 64) -> (g < 64)%nat).
    intros g. rewrite elem_of_reverse, elem_of_seq. lia.
  - constructor.
  - intros j Hj. by apply not_elem_of_nil in Hj.
Qed.

Lemma inv_reachable s : reachable s -> inv s.
Proof.
  unfold reachable. revert s. apply (rtc_ind_r inv st0); [apply inv_initial|].
  intros s s' _ H Hi. destruct H.
  - by eapply inv_submit.
  - by eapply inv_wake.
  - by eapply inv_expire.
  - by eapply inv_request.
  - by eapply inv_schedule.
  - by eapply inv_start.
  - by eapply inv_loop.
  - by eapply inv_runner.
Qed.

(** C3: a submit never gets another submit's completion: in every reachable
    state, a caller of [submit_fast] that came back has exactly the ending of
    its own coroutine, although gates are pooled, reused and dropped on errors
    and timeouts. *)
Theorem submit_returns_own_result s j b r :
  reachable s -> s_jobs s !! j = Some b -> j_caller b = Returned r ->
  exists e, r = Some e /\ j_task b = Ended e.
Proof.
  intros Hi%inv_reachable Hb Hc. pose proof (v_job s Hi j b Hb) as (_ & Hw & _). by rewrite Hc in Hw.
Qed.

(** C19: a coroutine whose caller timed out does not survive: once the loop has
    drained its callbacks, the coroutine was closed before it started, has
    ended, or its task has been cancelled, however the steps of the caller (the
    wait giving up, the flag, the scheduling) fall between those of the
    kick-off (its two tests of the flag). *)
Theorem timed_out_coroutine_does_not_survive s j b :
  reachable s -> s_jobs s !! j = Some b -> j_caller b = TimedOut ->
  s_queue s = [] -> between_callbacks s = true ->
  j_task b = Closed \/ (exists e, j_task b = Ended e) \/ (j_task b = Running /\ j_cancelled b = true).
Proof.
  intros Hi%inv_reachable Hb Hc Hq Hs%bool_decide_eq_true. specialize (Hs j b Hb).
  pose proof (v_job s Hi j b Hb) as (_ & Hw & _ & Hqd). unfold is_starting in Hs.
  rewrite Hc, Hq in *. destruct (j_task b) as [| | | |e].
  - specialize (Hqd eq_refl). by apply not_elem_of_nil in Hqd.
  - done.
  - by left.
  - right; right. split; [done|]. destruct Hw as [_ Hw]. destruct (Hw eq_refl) as [?|Hin]; [done|].
    by apply not_elem_of_nil in Hin.
  - right; left. by eexists.
Qed.

(** *** Witnesses *)

Inductive iact := ACall (t : tid) | AStep (t : tid) | ARun.

Fixpoint run_iacts (s : ist) (l : list iact) : option ist :=
  match l with
  | [] => Some s
  | a :: l' =>
      match (match a with ACall t => call_init s t | AStep t => init_step s t | ARun => _run s end) with
      | Some s' => run_iacts s' l'
      | None => None
      end
  end.

Lemma run_iacts_rtc l : forall s s', run_iacts s l = Some s' -> rtc init_trans s s'.
Proof.
  induction l as [|a l IH]; intros s s' H; simpl in H; [by simplify_eq|].
  destruct a as [t|t|].
  - destruct (call_init s t) eqn:E; [|done]. eapply rtc_l; [by eapply it_call|by apply IH].
  - destruct (init_step s t) eqn:E; [|done]. eapply rtc_l; [by eapply it_step|by apply IH].
  - destruct (_run s) eqn:E; [|done]. eapply rtc_l; [by eapply it_run|by apply IH].
Qed.

(** Two threads race the first submit. *)
Definition race : list iact :=
  [ACall 0; ACall 1; AStep 0; AStep 1; AStep 0; AStep 0; AStep 0; ARun; AStep 0; AStep 0; AStep 1; AStep 1]%nat.

Lemma init_starts_one_loop_witness :
  exists s, run_iacts ist0 race = Some s /\ i_pc s !! 1%nat = Some Done /\
    (i_started s <= 1)%nat /\ is_Some (i_loop s).
Proof.
  destruct (run_iacts ist0 race) as [s|] eqn:E; [|vm_compute in E; discriminate].
  exists s. split; [reflexivity|].
  assert (i_pc s !! 1%nat = Some Done /\ i_expired s = false) as [Hd He]
    by (vm_compute in E; injection E as <-; vm_compute; split; reflexivity).
  split; [exact Hd|].
  destruct (init_starts_one_loop s (run_iacts_rtc _ _ _ E) He) as (H1 & _ & H2).
  split; [exact H1|exact (H2 1%nat Hd)].
Defined.

Inductive sact :=
| ASubmit (j : jid) | AWake (j : jid) | AExpire (j : jid) | ARequest (j : jid) | ASchedule (j : jid)
| ALoop | AStart (j : jid) | ARunner (j : jid) (e : ending).

Fixpoint run_sacts (s : st) (l : list sact) : option st :=
  match l with
  | [] => Some s
  | a :: l' =>
      match (match a with
             | ASubmit j => submit_fast s j
             | AWake j => wake s j
             | AExpire j => expire s j
             | ARequest j => request_cancel s j
             | ASchedule j => schedule_cancel s j
             | AStart j => _kickoff_start s j
             | ALoop => loop_step s
             | ARunner j e => _runner s j e
             end) with
      | Some s' => run_sacts s' l'
      | None => None
      end
  end.

Lemma run_sacts_rtc l : forall s s', run_sacts s l = Some s' -> rtc trans s s'.
Proof.
  induction l as [|a l IH]; intros s s' H; simpl in H; [by simplify_eq|].
  destruct a;
    (match type of H with
     | match ?f with _ => _ end = _ => destruct f eqn:E; [|done]
     end);
    (eapply rtc_l; [|by apply IH]).
  - by eapply t_submit.
  - by eapply t_wake.
  - by eapply t_expire.
  - by eapply t_request.
  - by eapply t_schedule.
  - by eapply t_loop.
  - by eapply t_start.
  - by eapply t_runner.
Qed.

(** Job 0 times out before it starts, job 1 during its kick-off, job 2 returns. *)
Definition three_jobs : list sact :=
  [ASubmit 0; AExpire 0; ARequest 0; ASubmit 1; ALoop; ASchedule 0; AExpire 1; ALoop; ARequest 1; AStart 1;
   ASchedule 1; ALoop; ASubmit 2; ALoop; ALoop; AStart 2; ARunner 2 (Value 42); AWake 2]%nat.

Lemma submit_returns_own_result_witness :
  exists s b, run_sacts st0 three_jobs = Some s /\ s_jobs s !! 2%nat = Some b /\
    j_caller b = Returned (Some (Value 42)) /\ j_task b = Ended (Value 42).
Proof.
  destruct (run_sacts st0 three_jobs) as [s|] eqn:E; [|vm_compute in E; discriminate].
  destruct (s_jobs s !! 2%nat) as [b|] eqn:Eb; [|vm_compute in E; injection E as <-; vm_compute in Eb; discriminate].
  assert (j_caller b = Returned (Some (Value 42))) as Hc
    by (vm_compute in E; injection E as <-; vm_compute in Eb; injection Eb as <-; reflexivity).
  exists s, b. split; [reflexivity|]. split; [exact Eb|]. split; [exact Hc|].
  destruct (submit_returns_own_result s 2%nat b _ (run_sacts_rtc _ _ _ E) Eb Hc) as (e & [= <-] & Ht).
  exact Ht.
Defined.

Lemma timed_out_coroutine_does_not_survive_witness :
  exists s b, run_sacts st0 three_jobs = Some s /\ s_jobs s !! 1%nat = Some b /\
    (j_task b = Closed \/ (exists e, j_task b = Ended e) \/ (j_task b = Running /\ j_cancelled b = true)).
Proof.
  destruct (run_sacts st0 three_jobs) as [s|] eqn:E; [|vm_compute in E; discriminate].
  destruct (s_jobs s !! 1%nat) as [b|] eqn:Eb; [|vm_compute in E; injection E as <-; vm_compute in Eb; discriminate].
  assert (j_caller b = TimedOut /\ s_queue s = [] /\ between_callbacks s = true) as (Hc & Hq & Hs)
    by (vm_compute in E; injection E as <-; vm_compute in Eb; injection Eb as <-; vm_compute; done).
  exists s, b. split; [reflexivity|]. split; [exact Eb|].
  exact (timed_out_coroutine_does_not_survive s 1%nat b (run_sacts_rtc _ _ _ E) Eb Hc Hq Hs).
Defined.

End AsyncWorker.
