(* ===== verification/Lifespan.v ===== *)
(** The lifecycle of an application (applications.py): [on_event] handlers and
    [lifespan] context managers, their collection over the router tree, the
    synchronous and asynchronous start-up and shutdown, the ASGI [lifespan]
    protocol, the first request, and the processes [run] starts. *)

From S2P Require Import Prelude Effects.

Module Lifespan.
Import Effects.
Open Scope eff_scope.

(** ** Data *)

(** Where code runs: inline in the calling thread, on the worker loop, or on
    the loop of the caller. *)
Inductive place := Inline | Worker | CallerLoop.

Inductive event := Ran (p : place) (n : nat).

(** A start-up or shutdown hook: what its code does.  [Reenter] calls the
    start-up of its own application. *)
Inductive act := Do (n : nat) | RaiseA (e : exn) | Reenter.

Record hook := { h_coroutine : bool; h_code : list act }.

(** What calling a [lifespan] gives: an async context manager made by
    [asynccontextmanager], an async or a plain generator, a plain context
    manager, or something else. *)
Inductive shape := Acm | AsyncGen | Gen | SyncCm | NoCm.

(** A [lifespan]: an exception of the call itself, the effects up to the
    [yield] with the yielded state or an exception, and the effects after the
    [yield] with an exception.  [l_closed]: effects of its [finally] clauses
    when the generator is closed at the [yield]. *)
Record lifespan := {
  l_shape : shape;
  l_call : option exn;
  l_up : list nat;
  l_yield : res (option (gmap nat nat));
  l_down : list nat;
  l_down_raises : option exn;
  l_closed : list nat }.

(** A router with its hooks, lifespan and included routers. *)
Inductive node := Node (startup shutdown : list hook) (lf : option lifespan) (children : list node).

(** [_startup_state] *)
Inductive phase := NotStarted | Running | Started | Failed.

#[export] Instance phase_eq_dec : EqDecision phase.
Proof. solve_decision. Defined.

(** A context manager of [_lifespan_cms]. *)
Inductive cm_state := Fresh | Entered | Over.

Record app := {
  _on_startup : list hook;
  _on_shutdown : list hook;
  app_lifespan : option lifespan;
  router : node;
  _included_routers : list node;
  oneshot_door : bool;                          (* [_oneshot_door_enabled()] *)
  _startup_state : phase;
  _startup_failure : option exn;
  _lifespan_cms : list (lifespan * cm_state);   (* empty for [None] *)
  _app_state : gmap nat nat;
  app_state_attrs : gmap nat nat;               (* the attributes of [app.state] *)
  _dynamic_routes_installed : bool;
  installs : nat }.                             (* how often the dynamic routes were installed *)

Abbreviation prog := (M app event) (only parsing).

Definition set_phase (p : phase) (f : option exn) (a : app) : app :=
  {| _on_startup := _on_startup a; _on_shutdown := _on_shutdown a; app_lifespan := app_lifespan a;
     router := router a; _included_routers := _included_routers a; oneshot_door := oneshot_door a;
     _startup_state := p; _startup_failure := f; _lifespan_cms := _lifespan_cms a;
     _app_state := _app_state a; app_state_attrs := app_state_attrs a;
     _dynamic_routes_installed := _dynamic_routes_installed a; installs := installs a |}.

Definition set_cms (l : list (lifespan * cm_state)) (a : app) : app :=
  {| _on_startup := _on_startup a; _on_shutdown := _on_shutdown a; app_lifespan := app_lifespan a;
     router := router a; _included_routers := _included_routers a; oneshot_door := oneshot_door a;
     _startup_state := _startup_state a; _startup_failure := _startup_failure a; _lifespan_cms := l;
     _app_state := _app_state a; app_state_attrs := app_state_attrs a;
     _dynamic_routes_installed := _dynamic_routes_installed a; installs := installs a |}.

(** [self._app_state = merged], then [setattr(self.state, k, v)] for each. *)
Definition set_state (merged : gmap nat nat) (a : app) : app :=
  {| _on_startup := _on_startup a; _on_shutdown := _on_shutdown a; app_lifespan := app_lifespan a;
     router := router a; _included_routers := _included_routers a; oneshot_door := oneshot_door a;
     _startup_state := _startup_state a; _startup_failure := _startup_failure a;
     _lifespan_cms := _lifespan_cms a; _app_state := merged;
     app_state_attrs := merged ∪ app_state_attrs a;
     _dynamic_routes_installed := _dynamic_routes_installed a; installs := installs a |}.

Definition set_installed (b : bool) (a : app) : app :=
  {| _on_startup := _on_startup a; _on_shutdown := _on_shutdown a; app_lifespan := app_lifespan a;
     router := router a; _included_routers := _included_routers a; oneshot_door := oneshot_door a;
     _startup_state := _startup_state a; _startup_failure := _startup_failure a;
     _lifespan_cms := _lifespan_cms a; _app_state := _app_state a;
     app_state_attrs := app_state_attrs a; _dynamic_routes_installed := b;
     installs := if b then S (installs a) else installs a |}.

(** ** Registration *)

Inductive event_type := EvStartup | EvShutdown | EvOther.

(** [add_event_handler], and [on_event] which does the same. *)
Definition add_event_handler (t : event_type) (h : hook) (a : app) : app :=
  let up l := match t with EvStartup => l ++ [h] | _ => l end in
  let down l := match t with EvShutdown => l ++ [h] | _ => l end in
  {| _on_startup := up (_on_startup a); _on_shutdown := down (_on_shutdown a);
     app_lifespan := app_lifespan a; router := router a; _included_routers := _included_routers a;
     oneshot_door := oneshot_door a; _startup_state := _startup_state a;
     _startup_failure := _startup_failure a; _lifespan_cms := _lifespan_cms a;
     _app_state := _app_state a; app_state_attrs := app_state_attrs a;
     _dynamic_routes_installed := _dynamic_routes_installed a; installs := installs a |}.

(** ** Collection *)

(** The [_walk]s: hooks of a router before those of its children at start-up,
    after them at shutdown; a router's lifespan before its children's. *)
Fixpoint walk_startup (n : node) : list hook :=
  let 'Node up _ _ cs := n in up ++ flat_map walk_startup cs.

Fixpoint walk_shutdown (n : node) : list hook :=
  let 'Node _ down _ cs := n in flat_map walk_shutdown cs ++ down.

Fixpoint walk_lifespans (n : node) : list lifespan :=
  let 'Node _ _ lf cs := n in option_list lf ++ flat_map walk_lifespans cs.

Definition children (n : node) : list node := let 'Node _ _ _ cs := n in cs.

Definition _collect_startup_handlers (a : app) : list hook :=
  _on_startup a ++ walk_startup (router a) ++ flat_map walk_startup (_included_routers a).

Definition _collect_shutdown_handlers (a : app) : list hook :=
  flat_map walk_shutdown (_included_routers a) ++ walk_shutdown (router a) ++ _on_shutdown a.

Definition _collect_lifespans (a : app) : list lifespan :=
  flat_map walk_lifespans (children (router a)) ++ flat_map walk_lifespans (_included_routers a) ++
  option_list (app_lifespan a).

(** ** Hooks *)

Definition ran (p : place) (l : list nat) : prog unit := tell (Ran p <$> l).

Fixpoint run_code (p : place) (reenter : prog unit) (l : list act) : prog unit :=
  match l with
  | [] => ret tt
  | Do n :: l' => ran p [n] ;; run_code p reenter l'
  | RaiseA e :: _ => raise e
  | Reenter :: l' => reenter ;; run_code p reenter l'
  end.

(** A coroutine function runs on the loop the variant uses, others inline. *)
Definition run_hook (loop : place) (reenter : prog unit) (h : hook) : prog unit :=
  run_code (if h_coroutine h then loop else Inline) reenter (h_code h).

Definition earlier : exn := RuntimeError "startup handler raised earlier".
Definition reentrant : exn := RuntimeError "re-entrant call to startup handlers".

(** [_run_startup_handlers] ([loop] is the worker's) and
    [_async_run_startup_handlers] ([loop] is the caller's).  Inside a hook the
    state is [Running], so that re-entry raises. *)
Definition run_startup_handlers (loop : place) : prog unit :=
  let! a := get in
  match _startup_state a with
  | Started => ret tt
  | Failed => raise earlier
  | Running => raise reentrant
  | NotStarted =>
      modify (fun a => set_phase Running (_startup_failure a) a) ;;
      try_except
        (for_ (_collect_startup_handlers a) (run_hook loop (raise reentrant)) ;;
         modify (fun a => set_phase Started (_startup_failure a) a))
        is_exception
        (fun e => modify (set_phase Failed (Some e)) ;; raise e)
  end.

Definition _run_startup_handlers : prog unit := run_startup_handlers Worker.
Definition _async_run_startup_handlers : prog unit := run_startup_handlers CallerLoop.

(** The tail of the shutdown, also the reset after a failed one. *)
Definition reset (a : app) : app := set_installed false (set_phase NotStarted None a).

Definition run_shutdown_handlers (loop : place) : prog unit :=
  let! a := get in
  for_ (_collect_shutdown_handlers a) (run_hook loop (run_startup_handlers loop)) ;;
  modify reset.

Definition _run_shutdown_handlers : prog unit := run_shutdown_handlers Worker.
Definition _async_run_shutdown_handlers : prog unit := run_shutdown_handlers CallerLoop.

(** ** Context managers *)

Definition did_not_stop : exn := RuntimeError "generator didn't stop".

(** [_wrap]: the call of the lifespan may raise. *)
Fixpoint wrap_all (l : list lifespan) : res (list (lifespan * cm_state)) :=
  match l with
  | [] => Ok []
  | lf :: l' => match l_call lf with
                | Some e => Raise e
                | None => match wrap_all l' with
                          | Ok r => Ok ((lf, Fresh) :: r)
                          | Raise e => Raise e
                          end
                end
  end.

(** [__aenter__] of a fresh manager: its new state, the effects, the result. *)
Definition enter_cm (lf : lifespan) : cm_state * list nat * res (option (gmap nat nat)) :=
  match l_shape lf with
  | NoCm => (Fresh, [], Raise AttributeError)
  | _ => match l_yield lf with
         | Ok st => (Entered, l_up lf, Ok st)
         | Raise e => (Over, l_up lf, Raise e)
         end
  end.

(** [__aexit__(None, None, None)].  A manager that was never entered runs up to
    its [yield], which is an error then, and is closed there. *)
Definition exit_cm (lf : lifespan) (c : cm_state) : list nat * option exn :=
  match l_shape lf, c with
  | NoCm, _ => ([], Some AttributeError)
  | _, Entered => (l_down lf, l_down_raises lf)
  | _, Over => ([], None)
  | s, Fresh =>
      match l_yield lf with
      | Raise e => (l_up lf, Some e)
      | Ok _ => match s with
                | Acm => (l_up lf ++ l_closed lf, Some did_not_stop)
                | _ => (l_up lf ++ l_down lf,
                        Some (match l_down_raises lf with Some e => e | None => did_not_stop end))
                end
      end
  end.

(** The loop of [_enter_all], over the managers still to enter; [done] are
    those before, and [merged] is what they yielded. *)
Fixpoint enter_all (p : place) (done todo : list (lifespan * cm_state)) (merged : gmap nat nat)
    : prog (gmap nat nat) :=
  match todo with
  | [] => ret merged
  | (lf, _) :: todo' =>
      let '(c, w, r) := enter_cm lf in
      ran p w ;;
      modify (set_cms (done ++ (lf, c) :: todo')) ;;
      match r with
      | Raise e => raise e
      | Ok st => enter_all p (done ++ [(lf, c)]) todo' (default ∅ st ∪ merged)
      end
  end.

(** [_run_lifespan_startup] and [_async_run_lifespan_startup]. *)
Definition run_lifespan_startup (p : place) : prog unit :=
  let! a := get in
  match _lifespan_cms a, _collect_lifespans a with
  | _ :: _, _ => ret tt
  | [], [] => ret tt
  | [], ls =>
      match wrap_all ls with
      | Raise e => raise e
      | Ok cms =>
          modify (set_cms cms) ;;
          let! merged := enter_all p [] cms ∅ in
          modify (set_state merged)
      end
  end.

Definition _run_lifespan_startup : prog unit := run_lifespan_startup Worker.
Definition _async_run_lifespan_startup : prog unit := run_lifespan_startup CallerLoop.

(** The state [__aexit__] leaves a manager in. *)
Definition exited (lf : lifespan) (c : cm_state) : cm_state :=
  match l_shape lf with NoCm => c | _ => Over end.

(** [_exit_all] over the reversed managers, [past] being those already left:
    the first [Exception] is kept, a cancellation leaves the loop. *)
Fixpoint exit_all (p : place) (l past : list (lifespan * cm_state)) (first : option exn)
    : prog (option exn) :=
  match l with
  | [] => ret first
  | (lf, c) :: l' =>
      let '(w, r) := exit_cm lf c in
      let past' := (lf, exited lf c) :: past in
      ran p w ;;
      modify (set_cms (reverse l' ++ past')) ;;
      match r with
      | Some e => if is_exception e
                  then exit_all p l' past' (match first with Some _ => first | None => Some e end)
                  else raise e
      | None => exit_all p l' past' first
      end
  end.

Definition run_lifespan_shutdown (p : place) : prog unit :=
  let! a := get in
  match _lifespan_cms a with
  | [] => ret tt
  | cms =>
      let! first := exit_all p (reverse cms) [] None in
      modify (set_cms []) ;;
      match first with
      | Some e => raise e
      | None => ret tt
      end
  end.

Definition _run_lifespan_shutdown : prog unit := run_lifespan_shutdown Worker.
Definition _async_run_lifespan_shutdown : prog unit := run_lifespan_shutdown CallerLoop.

(** ** The ASGI [lifespan] protocol *)

Inductive message := MStartup | MShutdown | MOther.
Inductive reply := StartupComplete | StartupFailed (e : exn) | ShutdownComplete | ShutdownFailed (e : exn).

Definition lifespan_startup (loop : place) : prog unit :=
  let! a := get in
  (match _collect_lifespans a with [] => ret tt | _ => run_lifespan_startup loop end) ;;
  run_startup_handlers loop.

Definition lifespan_shutdown (loop : place) : prog unit :=
  let! a := get in
  (match _lifespan_cms a with [] => ret tt | _ => run_lifespan_shutdown loop end) ;;
  run_shutdown_handlers loop.

(** One message: the reply and whether the application returns.  [loop] is
    fixed when the protocol starts. *)
Definition on_message (loop : place) (m : message) : prog (option reply * bool) :=
  match m with
  | MStartup =>
      try_except (lifespan_startup loop ;; ret (Some StartupComplete, false))
        is_exception (fun e => ret (Some (StartupFailed e), true))
  | MShutdown =>
      try_except (lifespan_shutdown loop ;; ret (Some ShutdownComplete, true))
        is_exception (fun e => modify reset ;; ret (Some (ShutdownFailed e), true))
  | MOther => ret (None, false)
  end.

Fixpoint serve_lifespan (loop : place) (ms : list message) : prog (list reply) :=
  match ms with
  | [] => ret []
  | m :: ms' =>
      let! r := on_message loop m in
      match r with
      | (o, true) => ret (option_list o)
      | (o, false) => let! rs := serve_lifespan loop ms' in ret (option_list o ++ rs)
      end
  end.

(** [_asgi_lifespan]: the replies to the messages it receives. *)
Definition _asgi_lifespan (ms : list message) : prog (list reply) :=
  let! a := get in serve_lifespan (if oneshot_door a then Worker else CallerLoop) ms.

(** ** Requests and processes *)

(** [_install_in_process_dynamic_routes]: only that it installs the routes. *)
Definition _install_in_process_dynamic_routes : prog unit :=
  let! a := get in
  if _dynamic_routes_installed a then ret tt
  else
    lifespan_startup Worker ;;
    modify (set_installed true).

(** The beginning of [__call__] for an [http] scope. *)
Definition http_entry : prog unit :=
  let! a := get in
  (if bool_decide (_startup_state a = Failed) then _run_startup_handlers else ret tt) ;;
  let! a := get in
  (if _dynamic_routes_installed a then ret tt else _install_in_process_dynamic_routes).

(** The functions [atexit] runs, the last registered first; an exception is
    printed and the next one runs. *)
Fixpoint at_exit (l : list (prog unit)) : prog unit :=
  match l with
  | [] => ret tt
  | f :: l' => try_except f (fun _ => true) (fun _ => ret tt) ;; at_exit l'
  end.

(** [run] in one process without raw ASGI middleware; [serve] is the Rust
    server's run.  What is registered with [atexit] runs when the process ends,
    however that comes, the last registered first. *)
Definition run_single (serve : prog unit) : prog unit :=
  let! a := get in
  let has := match _collect_lifespans a with [] => false | _ => true end in
  (if has then _run_lifespan_startup else ret tt) ;;
  try_finally
    (_run_startup_handlers ;;
     let! a := get in
     try_finally serve
       (at_exit (match _collect_shutdown_handlers a with [] => [] | _ => [_run_shutdown_handlers] end)))
    (at_exit (if has then [_run_lifespan_shutdown] else [])).

(** A worker process of [_run_multiworker]: its exit code. *)
Definition worker_process (serve : prog unit) : prog nat :=
  try_except
    (let! a := get in
     let has := match _collect_lifespans a with [] => false | _ => true end in
     (if has then _run_lifespan_startup else ret tt) ;;
     _run_startup_handlers ;;
     let! a' := get in
     let has_shutdown := match _collect_shutdown_handlers a' with [] => false | _ => true end in
     serve ;;
     try_except
       ((if has_shutdown then _run_shutdown_handlers else ret tt) ;;
        (if has then _run_lifespan_shutdown else ret tt))
       (fun _ => true) (fun _ => ret tt) ;;
     ret 0%nat)
    (fun _ => true) (fun _ => ret 1%nat).

(** [_inner_app] of [_start_lifespan_mw_chain], for the messages it receives:
    what it sends, and the exception it ends with. *)
Definition startup_chain : prog unit := _async_run_lifespan_startup ;; _async_run_startup_handlers.
Definition shutdown_chain : prog unit := _async_run_shutdown_handlers ;; _async_run_lifespan_shutdown.

Definition inner_app (ms : list message) : prog (list reply * option exn) :=
  match ms with
  | [] => ret ([], None)
  | MStartup :: ms' =>
      let! failed := try_except (startup_chain ;; ret None) (fun _ => true) (fun e => ret (Some e)) in
      match failed, ms' with
      | Some e, _ => ret ([StartupFailed e], Some e)
      | None, MShutdown :: _ =>
          let! failed := try_except (shutdown_chain ;; ret None) (fun _ => true) (fun e => ret (Some e)) in
          match failed with
          | Some e => ret ([StartupComplete; ShutdownFailed e], Some e)
          | None => ret ([StartupComplete; ShutdownComplete], None)
          end
      | None, _ => ret ([StartupComplete], None)
      end
  | _ => ret ([StartupFailed (RuntimeError "unexpected message")], None)
  end.

(** ** Specification

    An application is idle, live or poisoned; its hooks and lifespans have a
    fixed outcome. *)

(** What code of a hook does during start-up, where re-entry raises. *)
Fixpoint code_out (p : place) (l : list act) : list event * res unit :=
  match l with
  | [] => ([], Ok tt)
  | Do n :: l' => let '(t, r) := code_out p l' in (Ran p n :: t, r)
  | RaiseA e :: _ => ([], Raise e)
  | Reenter :: _ => ([], Raise reentrant)
  end.

Fixpoint hooks_out (loop : place) (hs : list hook) : list event * res unit :=
  match hs with
  | [] => ([], Ok tt)
  | h :: hs' =>
      match code_out (if h_coroutine h then loop else Inline) (h_code h) with
      | (t, Ok _) => let '(t', r) := hooks_out loop hs' in (t ++ t', r)
      | (t, Raise e) => (t, Raise e)
      end
  end.

Definition no_reenter (h : hook) : bool :=
  forallb (fun x => match x with Reenter => false | _ => true end) (h_code h).

Definition no_cancel (h : hook) : bool :=
  forallb (fun x => match x with RaiseA CancelledError => false | _ => true end) (h_code h).

Definition lf_ok (lf : lifespan) : bool :=
  match l_shape lf, l_call lf, l_yield lf, l_down_raises lf with
  | NoCm, _, _, _ => false
  | _, None, Ok _, None => true
  | _, _, _, _ => false
  end.

Definition fresh (ls : list lifespan) : list (lifespan * cm_state) := (fun lf => (lf, Fresh)) <$> ls.
Definition entered (ls : list lifespan) : list (lifespan * cm_state) := (fun lf => (lf, Entered)) <$> ls.

Definition exit_log (p : place) (l : list (lifespan * cm_state)) : list event :=
  Ran p <$> (l ≫= fun x => (exit_cm x.1 x.2).1).

Definition exit_errors (l : list (lifespan * cm_state)) : list exn :=
  omap (fun x => (exit_cm x.1 x.2).2) l.

(** The exception entering a lifespan raises, the effects before it, and the
    state it leaves the manager in. *)
Definition enter_fails (lf : lifespan) : option exn :=
  match l_shape lf, l_yield lf with
  | NoCm, _ => Some AttributeError
  | _, Raise e => Some e
  | _, Ok _ => None
  end.

Definition begun (lf : lifespan) : list nat := match l_shape lf with NoCm => [] | _ => l_up lf end.
Definition stuck (lf : lifespan) : cm_state := match l_shape lf with NoCm => Fresh | _ => Over end.

(** The first of the lifespans that cannot be entered, with its position. *)
Definition first_failing (ls : list lifespan) : option (nat * lifespan) :=
  list_find (fun lf => is_Some (enter_fails lf)) ls.

Definition ups (p : place) (ls : list lifespan) : list event := Ran p <$> (ls ≫= l_up).
Definition downs (p : place) (ls : list lifespan) : list event := Ran p <$> (reverse ls ≫= l_down).

(** The state the lifespans yield together: the later ones win. *)
Definition yielded (ls : list lifespan) : gmap nat nat :=
  foldl (fun m lf => match l_yield lf with Ok st => default ∅ st ∪ m | Raise _ => m end) ∅ ls.

Inductive op := OStartup (loop : place) | ORequest | OShutdown (loop : place).

Inductive answer := Replied (r : option reply) | Served | Refused (e : exn).

Definition do_op (o : op) : prog answer :=
  match o with
  | OStartup l => let! r := on_message l MStartup in ret (Replied r.1)
  | OShutdown l => let! r := on_message l MShutdown in ret (Replied r.1)
  | ORequest => try_except (http_entry ;; ret Served) is_exception (fun e => ret (Refused e))
  end.

Fixpoint do_ops (os : list op) : prog (list answer) :=
  match os with
  | [] => ret []
  | o :: os' => let! x := do_op o in let! xs := do_ops os' in ret (x :: xs)
  end.

(** Which managers are kept: all entered, or those of a start-up that broke at
    one of them. *)
Inductive managers := All | Part.

(** Idle; a start-up broke at a lifespan; live; or poisoned by a failed hook. *)
Inductive life := Idle | Half | Live (m : managers) | Poisoned (m : managers).

(** What entering the lifespans comes to: all are entered, calling one of them
    raised before any was entered, or entering one of them raised. *)
Inductive entering := Enters | Refuses (e : exn) | Breaks (e : exn).

Record spec := {
  sp_up : place -> list event * res unit;                    (* start-up hooks *)
  sp_down : place -> list event * res unit;                  (* shutdown hooks *)
  sp_enter : place -> list event * entering;                 (* entering the lifespans *)
  sp_exit : managers -> place -> list event * option exn }.  (* leaving them: the first error *)

Definition spec_hooks (sp : spec) (loop : place) (m : managers) : list event * life * res unit :=
  match sp_up sp loop with
  | (t, Ok _) => (t, Live m, Ok tt)
  | (t, Raise e) => (t, Poisoned m, Raise e)
  end.

(** One start: the lifespans are entered, then the hooks run.  After a start-up
    that broke at a lifespan the next one runs the hooks only. *)
Definition spec_start (sp : spec) (loop : place) (s : life) : list event * life * res unit :=
  match s with
  | Live m => ([], Live m, Ok tt)
  | Poisoned m => ([], Poisoned m, Raise earlier)
  | Half => spec_hooks sp loop Part
  | Idle => match sp_enter sp loop with
            | (t, Enters) => let '(t', s', r) := spec_hooks sp loop All in (t ++ t', s', r)
            | (t, Refuses e) => (t, Idle, Raise e)
            | (t, Breaks e) => (t, Half, Raise e)
            end
  end.

Definition spec_leave (sp : spec) (loop : place) (s : life) : list event * option exn :=
  match s with
  | Idle => ([], None)
  | Half | Live Part | Poisoned Part => sp_exit sp Part loop
  | Live All | Poisoned All => sp_exit sp All loop
  end.

(** A shutdown leaves the managers, all of them, and then runs the hooks unless
    one of the managers raised. *)
Definition spec_op (sp : spec) (o : op) (s : life) : list event * life * answer :=
  match o with
  | OStartup l => match spec_start sp l s with
                  | (t, s', Ok _) => (t, s', Replied (Some StartupComplete))
                  | (t, s', Raise e) => (t, s', Replied (Some (StartupFailed e)))
                  end
  | ORequest => match spec_start sp Worker s with
                | (t, s', Ok _) => (t, s', Served)
                | (t, s', Raise e) => (t, s', Refused e)
                end
  | OShutdown l =>
      match spec_leave sp l s with
      | (t, Some e) => (t, Idle, Replied (Some (ShutdownFailed e)))
      | (t, None) =>
          let '(t', r) := sp_down sp l in
          (t ++ t', Idle,
           Replied (Some (match r with Ok _ => ShutdownComplete | Raise e => ShutdownFailed e end)))
      end
  end.

Fixpoint spec_ops (sp : spec) (os : list op) (s : life) : list event * life * list answer :=
  match os with
  | [] => ([], s, [])
  | o :: os' => let '(t, s', x) := spec_op sp o s in
                let '(t', s'', xs) := spec_ops sp os' s' in
                (t ++ t', s'', x :: xs)
  end.

(** Entering the lifespans [ls]: they are all called first, and then entered up
    to the first that fails. *)
Definition enter_spec (ls : list lifespan) (loop : place) : list event * entering :=
  match head (omap l_call ls), first_failing ls with
  | Some e, _ => ([], Refuses e)
  | None, None => (ups loop ls, Enters)
  | None, Some (i, lf) =>
      (ups loop (take i ls) ++ (Ran loop <$> begun lf),
       Breaks (default AttributeError (enter_fails lf)))
  end.

(** The managers kept: all entered, or those before the failing one, that one,
    and those after it, which were not entered. *)
Definition kept (m : managers) (ls : list lifespan) : list (lifespan * cm_state) :=
  match m, first_failing ls with
  | Part, Some (i, lf) => entered (take i ls) ++ (lf, stuck lf) :: fresh (drop (S i) ls)
  | _, _ => entered ls
  end.

(** The specification an application implements. *)
Definition spec_of (a : app) : spec :=
  {| sp_up := fun l => hooks_out l (_collect_startup_handlers a);
     sp_down := fun l => hooks_out l (_collect_shutdown_handlers a);
     sp_enter := enter_spec (_collect_lifespans a);
     sp_exit := fun m l =>
       let cms := reverse (kept m (_collect_lifespans a)) in (exit_log l cms, head (exit_errors cms)) |}.

(** ** Lemmas *)

Lemma run_code_out p l (s : app) :
  run_code p (raise reentrant) l s = let '(t, r) := code_out p l in (t, s, r).
Proof.
  induction l as [|[n|e|] l IH]; simpl; try done.
  unfold bind, ran, tell. rewrite IH. by destruct (code_out p l).
Qed.

(** Code that does not re-enter does not depend on what re-entry does. *)
Lemma run_code_no_reenter p l m m' :
  forallb (fun x => match x with Reenter => false | _ => true end) l = true ->
  run_code p m l ≡m run_code p m' l.
Proof.
  induction l as [|[n|e|] l IH]; simpl; intros H; try done.
  apply bind_proper; [done|]. intros _. by apply IH.
Qed.

Lemma run_hooks_out loop hs (s : app) :
  for_ hs (run_hook loop (raise reentrant)) s = let '(t, r) := hooks_out loop hs in (t, s, r).
Proof.
  induction hs as [|h hs IH]; simpl; [done|].
  unfold bind. unfold run_hook at 1. rewrite run_code_out.
  destruct (code_out _ (h_code h)) as [t [[]|e]]; [|done].
  rewrite IH. by destruct (hooks_out loop hs).
Qed.

Lemma run_hooks_no_reenter loop hs m (s : app) :
  forallb no_reenter hs = true ->
  for_ hs (run_hook loop m) s = let '(t, r) := hooks_out loop hs in (t, s, r).
Proof.
  intros H. rewrite <-run_hooks_out. revert s.
  change (for_ hs (run_hook loop m) ≡m for_ hs (run_hook loop (raise reentrant))).
  induction hs as [|h hs IH]; [done|]. simpl in *. apply andb_prop in H as [Hh Hs].
  apply bind_proper; [by apply run_code_no_reenter|]. intros _. by apply IH.
Qed.

Lemma code_out_exception p l e t :
  forallb (fun x => match x with RaiseA CancelledError => false | _ => true end) l = true ->
  code_out p l = (t, Raise e) -> is_exception e = true.
Proof.
  revert t. induction l as [|[n|e'|] l IH]; simpl; intros t H Ho; try done.
  - destruct (code_out p l) as [t' r]. simplify_eq. by eapply IH.
  - simplify_eq. by destruct e.
  - by simplify_eq.
Qed.

Lemma hooks_out_exception loop hs e t :
  forallb no_cancel hs = true -> hooks_out loop hs = (t, Raise e) -> is_exception e = true.
Proof.
  revert t. induction hs as [|h hs IH]; simpl; [done|].
  intros t [Hh Hs]%andb_prop Ho.
  destruct (code_out _ (h_code h)) as [t' [[]|e']] eqn:E; simplify_eq.
  - destruct (hooks_out loop hs) as [t'' r]. simplify_eq. by eapply IH.
  - by eapply code_out_exception.
Qed.

(** *** Context managers *)

Lemma set_cms_id a : set_cms (_lifespan_cms a) a = a.
Proof. by destruct a. Qed.

Lemma set_cms_nil a : _lifespan_cms a = [] -> set_cms [] a = a.
Proof. intros E. pose proof (set_cms_id a) as H. by rewrite E in H. Qed.

Lemma wrap_all_ok ls : forallb lf_ok ls = true -> wrap_all ls = Ok (fresh ls).
Proof.
  induction ls as [|lf ls IH]; simpl; [done|]. intros [Hl Hs]%andb_prop.
  rewrite IH by done. unfold lf_ok in Hl. crush_match.
Qed.

Lemma lf_ok_call ls : forallb lf_ok ls = true -> Forall (fun lf => l_call lf = None) ls.
Proof.
  induction ls as [|lf ls IH]; simpl; [done|]. intros [Hl Hs]%andb_prop.
  constructor; [|by apply IH]. unfold lf_ok in Hl. crush_match.
Qed.

Lemma exit_cm_ok lf : lf_ok lf = true -> exit_cm lf Entered = (l_down lf, None).
Proof. unfold lf_ok, exit_cm. intros H. crush_match. Qed.

Lemma enters_ok ls : forallb lf_ok ls = true -> Forall (fun lf => enter_fails lf = None) ls.
Proof.
  induction ls as [|lf ls IH]; simpl; [done|]. intros [Hl Hs]%andb_prop.
  constructor; [|by apply IH]. unfold lf_ok, enter_fails in *. crush_match.
Qed.

Lemma enter_cm_enters lf :
  enter_fails lf = None -> exists st, l_yield lf = Ok st /\ enter_cm lf = (Entered, l_up lf, Ok st).
Proof. unfold enter_fails, enter_cm. intros H. crush_match; eauto. Qed.

Lemma enter_cm_fails lf e :
  enter_fails lf = Some e -> enter_cm lf = (stuck lf, begun lf, Raise e).
Proof. unfold enter_fails, enter_cm, stuck, begun. intros H. crush_match. Qed.

Lemma enter_all_ok p past ls merged a :
  Forall (fun lf => enter_fails lf = None) ls -> _lifespan_cms a = past ++ fresh ls ->
  enter_all p past (fresh ls) merged a =
    (ups p ls, set_cms (past ++ entered ls) a,
     Ok (foldl (fun m lf => match l_yield lf with Ok st => default ∅ st ∪ m | Raise _ => m end)
               merged ls)).
Proof.
  revert past merged a. induction ls as [|lf ls IH]; intros past merged a; simpl.
  - intros _ Ha. change (entered []) with (fresh []). by rewrite <-Ha, set_cms_id.
  - intros [Hl Hs]%Forall_cons Ha. destruct (enter_cm_enters lf Hl) as (st & Hy & ->).
    unfold bind, ran, tell, modify. rewrite Hy, IH; [|done|by rewrite <-app_assoc].
    rewrite <-app_assoc. unfold ups. simpl. by rewrite fmap_app.
Qed.

Lemma wrap_all_fresh ls :
  Forall (fun lf => l_call lf = None) ls -> wrap_all ls = Ok (fresh ls).
Proof. induction 1 as [|lf ls Hl _ IH]; simpl; [done|]. by rewrite Hl, IH. Qed.

Lemma enter_all_fail p past l1 lf l2 merged a c w e :
  Forall (fun lf => enter_fails lf = None) l1 -> enter_cm lf = (c, w, Raise e) ->
  _lifespan_cms a = past ++ fresh (l1 ++ lf :: l2) ->
  enter_all p past (fresh (l1 ++ lf :: l2)) merged a =
    (ups p l1 ++ (Ran p <$> w), set_cms (past ++ entered l1 ++ (lf, c) :: fresh l2) a, Raise e).
Proof.
  revert past merged a. induction l1 as [|lf1 l1 IH]; intros past merged a; simpl.
  - intros _ -> Ha. unfold bind, ran, tell, modify, raise. by rewrite app_nil_r.
  - intros [Hl Hs]%Forall_cons He Ha. destruct (enter_cm_enters lf1 Hl) as (st & Hy & ->).
    unfold bind, ran, tell, modify. rewrite IH; [|done|done|simpl; by rewrite <-app_assoc].
    rewrite <-app_assoc. unfold ups. simpl. by rewrite fmap_app, <-!app_assoc.
Qed.

Lemma exit_all_spec p l past first a :
  Forall (fun e => is_exception e = true) (exit_errors l) ->
  exists a', exit_all p l past first a =
    (exit_log p l, a', Ok (match first with Some _ => first | None => head (exit_errors l) end)) /\
    set_cms [] a' = set_cms [] a.
Proof.
  revert past first a. induction l as [|[lf c] l IH]; intros past first a; simpl.
  - intros _. exists a. by destruct first.
  - unfold exit_log, exit_errors. simpl. destruct (exit_cm lf c) as [w [e|]] eqn:E; simpl; intros H.
    + apply Forall_cons in H as [He H]. unfold bind, ran, tell, modify. rewrite He.
      edestruct (IH ((lf, exited lf c) :: past) (match first with Some _ => first | None => Some e end))
        as (a' & -> & Ha'); [done|].
      exists a'. split; [|by rewrite Ha'].
      rewrite fmap_app. destruct first; done.
    + unfold bind, ran, tell, modify.
      edestruct (IH ((lf, exited lf c) :: past) first) as (a' & -> & Ha'); [done|].
      exists a'. split; [|by rewrite Ha']. by rewrite fmap_app.
Qed.

Lemma run_lifespan_shutdown_spec p a :
  Forall (fun e => is_exception e = true) (exit_errors (reverse (_lifespan_cms a))) ->
  run_lifespan_shutdown p a =
    (exit_log p (reverse (_lifespan_cms a)), set_cms [] a,
     match head (exit_errors (reverse (_lifespan_cms a))) with Some e => Raise e | None => Ok tt end).
Proof.
  intros H. unfold run_lifespan_shutdown, bind at 1, get.
  destruct (_lifespan_cms a) as [|x cms] eqn:E.
  - by rewrite set_cms_nil.
  - destruct (exit_all_spec p (reverse (x :: cms)) [] None a H) as (a' & Hx & Ha').
    unfold bind. rewrite Hx. unfold modify. rewrite Ha'.
    destruct (head (exit_errors (reverse (x :: cms)))); unfold raise, ret; simpl; by rewrite !app_nil_r.
Qed.

Lemma exit_errors_entered ls : forallb lf_ok ls = true -> exit_errors (entered ls) = [].
Proof.
  induction ls as [|lf ls IH]; simpl; [done|]. intros [Hl Hs]%andb_prop.
  unfold exit_errors in *. simpl. rewrite exit_cm_ok by done. by apply IH.
Qed.

Lemma forallb_reverse {A} (f : A -> bool) l : forallb f (reverse l) = forallb f l.
Proof.
  apply eq_bool_prop_intro. rewrite !Is_true_true, !forallb_forall.
  split; intros H x Hx; apply H; revert Hx; rewrite <-!list_elem_of_In; by rewrite elem_of_reverse.
Qed.

Lemma exit_log_entered p ls :
  forallb lf_ok ls = true -> exit_log p (entered ls) = Ran p <$> (ls ≫= l_down).
Proof.
  unfold exit_log. induction ls as [|lf ls IH]; simpl; [done|]. intros [Hl Hs]%andb_prop.
  rewrite exit_cm_ok by done. simpl. rewrite !fmap_app. f_equal. by apply IH.
Qed.

(** *** The simulation *)

(** What the lifecycle never changes, and all that the collections read. *)
Definition static (a : app) : list hook * list hook * option lifespan * node * list node :=
  (_on_startup a, _on_shutdown a, app_lifespan a, router a, _included_routers a).

Lemma static_collect a a' :
  static a = static a' ->
  _collect_startup_handlers a = _collect_startup_handlers a' /\
  _collect_shutdown_handlers a = _collect_shutdown_handlers a' /\
  _collect_lifespans a = _collect_lifespans a'.
Proof.
  unfold static, _collect_startup_handlers, _collect_shutdown_handlers, _collect_lifespans.
  intros [= -> -> -> -> ->]. done.
Qed.

Definition kept_by (s : life) (ls : list lifespan) : list (lifespan * cm_state) :=
  match s with
  | Idle => []
  | Half | Live Part | Poisoned Part => kept Part ls
  | Live All | Poisoned All => kept All ls
  end.

Record simulates (a0 a : app) (s : life) : Prop := {
  sim_static : static a = static a0;
  sim_phase : _startup_state a =
    match s with Idle | Half => NotStarted | Live _ => Started | Poisoned _ => Failed end;
  sim_cms : _lifespan_cms a = kept_by s (_collect_lifespans a0);
  sim_installed : (forall m, s <> Live m) -> _dynamic_routes_installed a = false }.

(** No exception of a lifespan is a cancellation. *)
Definition lf_calm (lf : lifespan) : bool :=
  match l_call lf with Some e => is_exception e | None => true end &&
  match l_yield lf with Raise e => is_exception e | Ok _ => true end &&
  match l_down_raises lf with Some e => is_exception e | None => true end.

Lemma lf_calm_enter lf e : lf_calm lf = true -> enter_fails lf = Some e -> is_exception e = true.
Proof.
  unfold lf_calm, enter_fails. intros [[_ H]%andb_prop _]%andb_prop.
  destruct (l_shape lf), (l_yield lf); intros ?; simplify_eq/=; done.
Qed.

Lemma lf_calm_exit lf c e : lf_calm lf = true -> (exit_cm lf c).2 = Some e -> is_exception e = true.
Proof.
  unfold lf_calm, exit_cm. intros [[_ H1]%andb_prop H2]%andb_prop.
  destruct (l_shape lf), c, (l_yield lf), (l_down_raises lf); intros ?; simplify_eq/=; done.
Qed.

Lemma calm_exit_errors l :
  Forall (fun x => lf_calm x.1 = true) l -> Forall (fun e => is_exception e = true) (exit_errors l).
Proof.
  unfold exit_errors. induction 1 as [|[lf c] l Hl _ IH]; simpl; [done|].
  destruct (exit_cm lf c).2 eqn:E; [|done]. constructor; [|done]. by eapply lf_calm_exit.
Qed.

Lemma first_failing_Some ls i lf :
  first_failing ls = Some (i, lf) ->
  ls = take i ls ++ lf :: drop (S i) ls /\ is_Some (enter_fails lf) /\
  Forall (fun lf => enter_fails lf = None) (take i ls).
Proof.
  intros (Hi & Hf & Hlt)%list_find_Some. split_and!; [|done|].
  - symmetry. by apply take_drop_middle.
  - apply Forall_lookup. intros j x [Hj Hji]%lookup_take_Some. specialize (Hlt j x Hj Hji).
    by apply eq_None_not_Some.
Qed.

Lemma first_failing_None ls :
  first_failing ls = None -> Forall (fun lf => enter_fails lf = None) ls.
Proof.
  intros H%list_find_None. eapply Forall_impl; [exact H|]. intros lf. simpl. apply eq_None_not_Some.
Qed.

Lemma wrap_all_spec ls :
  wrap_all ls = match head (omap l_call ls) with Some e => Raise e | None => Ok (fresh ls) end.
Proof.
  induction ls as [|lf ls IH]; simpl; [done|]. destruct (l_call lf); simpl; [done|].
  rewrite IH. by destruct (head _).
Qed.

Lemma kept_from m ls : (kept m ls).*1 = ls.
Proof.
  assert (forall l, (entered l).*1 = l) as He.
  { intros l. unfold entered. rewrite <-list_fmap_compose. apply list_fmap_id. }
  assert (forall l, (fresh l).*1 = l) as Hf.
  { intros l. unfold fresh. rewrite <-list_fmap_compose. apply list_fmap_id. }
  unfold kept. destruct m, (first_failing ls) as [[i lf]|] eqn:E; try apply He.
  rewrite fmap_app, fmap_cons, He, Hf. simpl. by apply first_failing_Some in E as [<- _].
Qed.

Section Simulation.

Context (a0 : app).
Hypothesis (Hup : forallb no_cancel (_collect_startup_handlers a0) = true).
Hypothesis (Hdown : forallb no_cancel (_collect_shutdown_handlers a0) = true).
Hypothesis (Hre : forallb no_reenter (_collect_shutdown_handlers a0) = true).
Hypothesis (Hcalm : forallb lf_calm (_collect_lifespans a0) = true).

Lemma calm_kept m : Forall (fun x => lf_calm x.1 = true) (kept m (_collect_lifespans a0)).
Proof.
  pose proof (kept_from m (_collect_lifespans a0)) as Hk.
  rewrite forallb_forall in Hcalm. apply Forall_forall. intros x Hx. apply Hcalm.
  rewrite <-list_elem_of_In, <-Hk. by apply list_elem_of_fmap_2.
Qed.

(** Entering from the idle state. *)
Lemma run_lifespan_startup_spec loop a :
  static a = static a0 -> _lifespan_cms a = [] ->
  let '(t, en) := enter_spec (_collect_lifespans a0) loop in
  exists a', run_lifespan_startup loop a =
      (t, a', match en with Enters => Ok tt | Refuses e | Breaks e => Raise e end) /\
    static a' = static a0 /\ _startup_state a' = _startup_state a /\
    _dynamic_routes_installed a' = _dynamic_routes_installed a /\
    match en with
    | Enters => _lifespan_cms a' = kept All (_collect_lifespans a0)
    | Refuses _ => _lifespan_cms a' = []
    | Breaks _ => _lifespan_cms a' = kept Part (_collect_lifespans a0)
    end.
Proof.
  intros Hst Hc. destruct (static_collect a a0 Hst) as (_ & _ & El).
  unfold run_lifespan_startup, bind at 1, get. rewrite Hc, El.
  destruct (_collect_lifespans a0) as [|lf0 ls0] eqn:E; [exists a; by rewrite Hc|].
  rewrite wrap_all_spec. unfold enter_spec, kept. generalize dependent (lf0 :: ls0). intros ls _ _ E.
  destruct (head (omap l_call ls)) as [e|]; [by exists a|].
  unfold bind, modify. destruct (first_failing ls) as [[i lf]|] eqn:Ef.
  - apply first_failing_Some in Ef as (Hsplit & [e He] & Hok). rewrite He. simpl.
    pose proof (enter_all_fail loop [] (take i ls) lf (drop (S i) ls) ∅ (set_cms (fresh ls) a)
                  _ _ e Hok (enter_cm_fails lf e He)) as Hf.
    rewrite <-Hsplit in Hf. rewrite Hf by done. simpl.
    eexists. split_and!; [reflexivity|done..].
  - apply first_failing_None in Ef. rewrite enter_all_ok by done. simpl. rewrite app_nil_r.
    eexists. split_and!; [reflexivity|done..].
Qed.

Lemma run_startup_handlers_idle loop a :
  static a = static a0 -> _startup_state a = NotStarted ->
  run_startup_handlers loop a =
    let '(t, r) := hooks_out loop (_collect_startup_handlers a0) in
    (t, match r with Ok _ => set_phase Started (_startup_failure a) a
                   | Raise e => set_phase Failed (Some e) a end, r).
Proof.
  intros Hst Hp. destruct (static_collect a a0 Hst) as (Eu & _ & _).
  unfold run_startup_handlers, bind at 1, get. rewrite Hp, Eu.
  unfold bind at 1, modify at 1, try_except. unfold bind at 1. rewrite run_hooks_out.
  destruct (hooks_out loop _) as [t [[]|e]] eqn:Eo; simpl.
  - by rewrite app_nil_r.
  - rewrite (hooks_out_exception _ _ _ _ Hup Eo). unfold bind, modify, raise. simpl. by rewrite app_nil_r.
Qed.

(** The hooks, when the lifespans are done with. *)
Lemma startup_hooks_simulate loop a m :
  static a = static a0 -> _startup_state a = NotStarted ->
  _lifespan_cms a = kept m (_collect_lifespans a0) -> _dynamic_routes_installed a = false ->
  let '(t, s', r) := spec_hooks (spec_of a0) loop m in
  exists a', run_startup_handlers loop a = (t, a', r) /\ simulates a0 a' s' /\
             _dynamic_routes_installed a' = false.
Proof.
  intros Hst Hp Hc Hi. rewrite (run_startup_handlers_idle loop a Hst Hp). unfold spec_hooks. simpl.
  destruct (hooks_out loop _) as [t [[]|e]]; eexists; (split; [reflexivity|]); split; try done.
  all: split; simpl; try done; by destruct m.
Qed.

(** Once [_lifespan_cms] is set, or without lifespans, only the hooks are run. *)
Lemma lifespan_startup_hooks loop a :
  _lifespan_cms a <> [] \/ _collect_lifespans a = [] ->
  lifespan_startup loop a = run_startup_handlers loop a.
Proof.
  intros H. unfold lifespan_startup, bind at 1, get, bind at 1.
  assert ((match _collect_lifespans a with [] => ret tt | _ => run_lifespan_startup loop end) a
          = ([], a, Ok tt)) as ->.
  { destruct (_collect_lifespans a) eqn:El; [done|]. destruct H as [H|H]; [|done].
    unfold run_lifespan_startup, bind, get. by destruct (_lifespan_cms a). }
  by destruct (run_startup_handlers loop a) as [[??]?].
Qed.

(** An ASGI start-up, also the one of the first request. *)
Lemma lifespan_startup_simulates loop a s :
  simulates a0 a s ->
  let '(t, s', r) := spec_start (spec_of a0) loop s in
  exists a', lifespan_startup loop a = (t, a', r) /\ simulates a0 a' s' /\
             _dynamic_routes_installed a' = _dynamic_routes_installed a.
Proof.
  intros Hs. pose proof Hs as [Hst Hp Hc Hi]. destruct (static_collect a a0 Hst) as (_ & _ & El).
  assert (s <> Idle -> _lifespan_cms a <> [] \/ _collect_lifespans a = []) as Hskip.
  { intros Hne. destruct (_collect_lifespans a0) as [|lf ls] eqn:E; [by right; rewrite El|left].
    rewrite Hc. assert (forall m, kept m (lf :: ls) <> []) as Hk.
    { intros m H. pose proof (kept_from m (lf :: ls)) as Hm. by rewrite H in Hm. }
    destruct s as [| |[]|[]]; cbn [kept_by]; [done|apply Hk..]. }
  destruct s as [| |m|m]; simpl.
  - pose proof (run_lifespan_startup_spec loop a Hst Hc) as H.
    destruct (enter_spec (_collect_lifespans a0) loop) as [t en] eqn:Een.
    destruct H as (a1 & Hr & Hst1 & Hp1 & Hi1 & Hc1).
    assert (lifespan_startup loop a =
      let '(t, a', r) := run_lifespan_startup loop a in
      match r with
      | Ok _ => let '(t', a'', r') := run_startup_handlers loop a' in (t ++ t', a'', r')
      | Raise e => (t, a', Raise e)
      end) as ->.
    { unfold lifespan_startup, bind at 1, get, bind at 1.
      assert ((match _collect_lifespans a with [] => ret tt | _ => run_lifespan_startup loop end) a
              = run_lifespan_startup loop a) as ->.
      { destruct (_collect_lifespans a) eqn:E; [|done].
        unfold run_lifespan_startup, bind, get. simpl in Hc. by rewrite Hc, E. }
      destruct (run_lifespan_startup loop a) as [[t0 a2] [[]|e]]; [|done].
      by destruct (run_startup_handlers loop a2) as [[??]?]. }
    rewrite Hr. destruct en as [|e|e].
    + pose proof (startup_hooks_simulate loop a1 All Hst1) as HH.
      specialize (HH ltac:(congruence) Hc1 ltac:(rewrite Hi1; by apply Hi)).
      destruct (spec_hooks _ loop All) as [[t' s'] r]. destruct HH as (a' & -> & HS & Hi').
      exists a'. split_and!; [done|done|]. rewrite Hi'. symmetry. by apply Hi.
    + exists a1. split_and!; [done| |done]. split; simpl; try done; try congruence.
      intros _. rewrite Hi1. by apply Hi.
    + exists a1. split_and!; [done| |done].
      split; simpl; try done; try congruence. intros _. rewrite Hi1. by apply Hi.
  - rewrite lifespan_startup_hooks by (by apply Hskip).
    pose proof (startup_hooks_simulate loop a Part Hst Hp Hc ltac:(by apply Hi)) as HH.
    destruct (spec_hooks _ loop Part) as [[t' s'] r]. destruct HH as (a' & -> & HS & Hi').
    exists a'. split_and!; [done|done|]. rewrite Hi'. symmetry. by apply Hi.
  - rewrite lifespan_startup_hooks by (by apply Hskip). exists a.
    split; [|done]. unfold run_startup_handlers, bind, get. by rewrite Hp.
  - rewrite lifespan_startup_hooks by (by apply Hskip). exists a.
    split; [|done]. unfold run_startup_handlers, bind, get. by rewrite Hp.
Qed.

Lemma spec_hooks_exception loop m t s' e :
  spec_hooks (spec_of a0) loop m = (t, s', Raise e) -> is_exception e = true.
Proof.
  unfold spec_hooks. simpl. destruct (hooks_out loop _) as [t' [[]|e']] eqn:Eo; intros; simplify_eq.
  eapply hooks_out_exception; [exact Hup|exact Eo].
Qed.

Lemma enter_spec_exception loop t en :
  enter_spec (_collect_lifespans a0) loop = (t, en) ->
  match en with Enters => True | Refuses e | Breaks e => is_exception e = true end.
Proof.
  unfold enter_spec. rewrite forallb_forall in Hcalm.
  destruct (head (omap l_call (_collect_lifespans a0))) as [e|] eqn:E.
  - intros [= <- <-].
    assert (e ∈ omap l_call (_collect_lifespans a0)) as He.
    { destruct (omap _ _); simplify_eq/=. left. }
    apply list_elem_of_omap in He as (lf & Hl & He). apply list_elem_of_In, Hcalm in Hl.
    unfold lf_calm in Hl. rewrite He in Hl. by destruct (is_exception e).
  - destruct (first_failing _) as [[i lf]|] eqn:Ef; intros [= <- <-]; [|done].
    apply list_find_Some in Ef as (Hi & [e He] & _). rewrite He. simpl.
    apply list_elem_of_lookup_2, list_elem_of_In, Hcalm in Hi. by eapply lf_calm_enter.
Qed.

Lemma spec_start_exception loop s t s' e :
  spec_start (spec_of a0) loop s = (t, s', Raise e) -> is_exception e = true.
Proof.
  destruct s; simpl; intros H; try by simplify_eq.
  - destruct (enter_spec _ loop) as [t1 en] eqn:E. apply enter_spec_exception in E.
    destruct en; simplify_eq; [|done..].
    destruct (spec_hooks _ loop All) as [[??]?] eqn:Eh. simplify_eq. by eapply spec_hooks_exception.
  - by eapply spec_hooks_exception.
Qed.

Lemma leave_simulates loop a s :
  simulates a0 a s ->
  (match _lifespan_cms a with [] => ret tt | _ => run_lifespan_shutdown loop end) a =
    let '(t, e) := spec_leave (spec_of a0) loop s in
    (t, set_cms [] a, match e with Some e => Raise e | None => Ok tt end).
Proof.
  intros [Hst Hp Hc Hi].
  assert (spec_leave (spec_of a0) loop s =
    (exit_log loop (reverse (_lifespan_cms a)), head (exit_errors (reverse (_lifespan_cms a))))) as ->.
  { rewrite Hc. by destruct s as [| |[]|[]]. }
  assert (Forall (fun x => lf_calm x.1 = true) (_lifespan_cms a)) as Hcm.
  { rewrite Hc. destruct s as [| |[]|[]]; cbn [kept_by]; [constructor|apply calm_kept..]. }
  pose proof (run_lifespan_shutdown_spec loop a) as H.
  destruct (_lifespan_cms a) eqn:E; [by rewrite set_cms_nil|].
  apply H, calm_exit_errors. by apply Forall_reverse.
Qed.

Lemma spec_leave_exception loop s t e :
  spec_leave (spec_of a0) loop s = (t, Some e) -> is_exception e = true.
Proof.
  assert (forall m, Forall (fun e => is_exception e = true)
            (exit_errors (reverse (kept m (_collect_lifespans a0))))) as Hf
    by (intros m; apply calm_exit_errors, Forall_reverse, calm_kept).
  assert (forall m t, sp_exit (spec_of a0) m loop = (t, Some e) -> is_exception e = true) as Hm.
  { intros m t'. simpl. intros [= _ He]. specialize (Hf m).
    destruct (exit_errors _); simplify_eq/=. by apply Forall_cons in Hf as [? _]. }
  destruct s as [| |[]|[]]; cbn [spec_leave]; [done|apply Hm..].
Qed.

Lemma shutdown_simulates loop a s :
  simulates a0 a s ->
  let '(t, s', x) := spec_op (spec_of a0) (OShutdown loop) s in
  exists a', do_op (OShutdown loop) a = (t, a', Ok x) /\ simulates a0 a' s'.
Proof.
  intros Hs. pose proof (leave_simulates loop a s Hs) as Hx.
  pose proof (spec_leave_exception loop s) as He.
  destruct Hs as [Hst Hp Hc Hi].
  destruct (static_collect (set_cms [] a) a0 Hst) as (_ & Ed & _).
  unfold spec_op, do_op, on_message.
  unfold bind at 1, try_except, bind at 1, lifespan_shutdown, bind at 1, get, bind at 1. rewrite Hx.
  destruct (spec_leave (spec_of a0) loop s) as [t1 [e|]].
  - rewrite (He t1 e eq_refl). unfold bind, modify, ret. simpl. rewrite !app_nil_r.
    eexists. split; [done|]. by split.
  - cbn [sp_down spec_of].
    unfold run_shutdown_handlers, bind at 1, get, bind at 1. rewrite Ed, run_hooks_no_reenter by done.
    destruct (hooks_out loop _) as [t [[]|e]] eqn:Eo.
    + unfold modify, ret. simpl. rewrite !app_nil_r. eexists. split; [done|]. by split.
    + rewrite (hooks_out_exception _ _ _ _ Hdown Eo). unfold bind, modify, ret. simpl.
      rewrite !app_nil_r. eexists. split; [done|]. by split.
Qed.

Lemma startup_simulates loop a s :
  simulates a0 a s ->
  let '(t, s', x) := spec_op (spec_of a0) (OStartup loop) s in
  exists a', do_op (OStartup loop) a = (t, a', Ok x) /\ simulates a0 a' s'.
Proof.
  intros Hs. pose proof (lifespan_startup_simulates loop a s Hs) as H.
  pose proof (spec_start_exception loop s) as Hx.
  unfold spec_op. destruct (spec_start (spec_of a0) loop s) as [[t s'] [[]|e]];
    destruct H as (a' & Ha & Hs' & _); exists a'; (split; [|exact Hs']);
    unfold do_op, on_message, bind at 1, try_except, bind at 1; rewrite Ha; unfold ret.
  - by rewrite !app_nil_r.
  - erewrite Hx by done. by rewrite !app_nil_r.
Qed.

Lemma simulates_installed a s m :
  simulates a0 a s -> s = Live m -> simulates a0 (set_installed true a) s.
Proof. intros [] ->. split; try done. intros H. by destruct (H m). Qed.

Lemma spec_start_Ok loop s t s' :
  spec_start (spec_of a0) loop s = (t, s', Ok tt) -> exists m, s' = Live m.
Proof.
  assert (forall m t s', spec_hooks (spec_of a0) loop m = (t, s', Ok tt) -> exists m, s' = Live m) as Hh.
  { intros m t0 s0. unfold spec_hooks. destruct (sp_up _ loop) as [? [[]|]]; intros; simplify_eq; eauto. }
  destruct s; cbn [spec_start]; intros H; simplify_eq; eauto.
  destruct (sp_enter _ loop) as [? []]; simplify_eq.
  destruct (spec_hooks _ loop All) as [[??]?] eqn:E; simplify_eq. by eapply Hh.
Qed.

Lemma http_entry_simulates a s :
  simulates a0 a s ->
  let '(t, s', r) := spec_start (spec_of a0) Worker s in
  exists a', http_entry a = (t, a', r) /\ simulates a0 a' s'.
Proof.
  intros Hs. pose proof (lifespan_startup_simulates Worker a s Hs) as H.
  pose proof (spec_start_Ok Worker s) as Hok.
  pose proof Hs as [Hst Hp Hc Hi]. unfold http_entry, bind at 1, get. rewrite Hp.
  assert ((exists m, s = Poisoned m) \/ forall m, s <> Poisoned m) as [[m ->]|Hnp]
    by (destruct s; [right; done..|left; by eexists]).
  { simpl. exists a. unfold _run_startup_handlers, run_startup_handlers, bind, get. rewrite Hp. by split. }
  assert (bool_decide (match s with Idle | Half => NotStarted | Live _ => Started | Poisoned _ => Failed end
            = Failed) = false) as -> by (destruct s; naive_solver).
  unfold _install_in_process_dynamic_routes, bind, get, ret.
  destruct (_dynamic_routes_installed a) eqn:E.
  - assert (exists m, s = Live m) as [m ->].
    { destruct s; try (by specialize (Hi ltac:(done))); eauto; naive_solver. }
    simpl. exists a. by split.
  - destruct (spec_start (spec_of a0) Worker s) as [[t s'] r]. destruct H as (a' & Ha & HS & _).
    simpl. rewrite E, Ha. destruct r as [[]|e].
    + destruct (Hok t s' eq_refl) as [m ->]. eexists. unfold modify. rewrite app_nil_r.
      split; [reflexivity|]. by eapply simulates_installed.
    + exists a'. by split.
Qed.

Lemma request_simulates a s :
  simulates a0 a s ->
  let '(t, s', x) := spec_op (spec_of a0) ORequest s in
  exists a', do_op ORequest a = (t, a', Ok x) /\ simulates a0 a' s'.
Proof.
  intros Hs. pose proof (http_entry_simulates a s Hs) as H.
  pose proof (spec_start_exception Worker s) as Hx.
  unfold spec_op. destruct (spec_start (spec_of a0) Worker s) as [[t s'] [[]|e]];
    destruct H as (a' & Ha & Hs'); exists a'; (split; [|done]);
    unfold do_op, try_except, bind at 1; rewrite Ha; unfold ret.
  - by rewrite !app_nil_r.
  - erewrite Hx by done. by rewrite !app_nil_r.
Qed.

Lemma ops_simulate os a s :
  simulates a0 a s ->
  let '(t, s', xs) := spec_ops (spec_of a0) os s in
  exists a', do_ops os a = (t, a', Ok xs) /\ simulates a0 a' s'.
Proof.
  revert a s. induction os as [|o os IH]; intros a s Hs; simpl; [by exists a|].
  assert (let '(t, s', x) := spec_op (spec_of a0) o s in
          exists a', do_op o a = (t, a', Ok x) /\ simulates a0 a' s') as Ho
    by (destruct o; [by apply startup_simulates|by apply request_simulates|by apply shutdown_simulates]).
  destruct (spec_op (spec_of a0) o s) as [[t s'] x]. destruct Ho as (a' & Ha & Hs').
  specialize (IH a' s' Hs'). destruct (spec_ops (spec_of a0) os s') as [[t' s''] xs].
  destruct IH as (a'' & Ha' & Hs''). exists a''. split; [|done].
  unfold bind. rewrite Ha, Ha'. simpl. by rewrite app_nil_r.
Qed.

End Simulation.

Lemma lf_ok_calm ls : forallb lf_ok ls = true -> forallb lf_calm ls = true.
Proof.
  induction ls as [|lf ls IH]; simpl; [done|]. intros [Hl Hs]%andb_prop. rewrite IH by done.
  rewrite andb_true_r. unfold lf_ok, lf_calm in *. crush_match.
Qed.

Lemma kept_All ls : kept All ls = entered ls.
Proof. unfold kept. by destruct (first_failing ls) as [[]|]. Qed.

(** Lifespans that do not fail. *)
Lemma run_lifespan_startup_idle a0 (Hlf : forallb lf_ok (_collect_lifespans a0) = true) loop a :
  static a = static a0 -> _lifespan_cms a = [] ->
  run_lifespan_startup loop a =
    (ups loop (_collect_lifespans a0),
     match _collect_lifespans a0 with
     | [] => a
     | ls => set_state (yielded ls) (set_cms (entered ls) a)
     end, Ok tt).
Proof.
  intros Hst Hc. destruct (static_collect a a0 Hst) as (_ & _ & El).
  unfold run_lifespan_startup, bind at 1, get. rewrite Hc, El.
  destruct (_collect_lifespans a0) as [|lf ls] eqn:E; [done|].
  rewrite wrap_all_ok by done. unfold bind, modify.
  rewrite enter_all_ok by (done || by apply enters_ok). simpl. by rewrite app_nil_r.
Qed.

Lemma run_lifespan_shutdown_entered a0 (Hlf : forallb lf_ok (_collect_lifespans a0) = true) loop a :
  simulates a0 a (Live All) ->
  (match _lifespan_cms a with [] => ret tt | _ => run_lifespan_shutdown loop end) a =
    (downs loop (_collect_lifespans a0), set_cms [] a, Ok tt).
Proof.
  intros Hs. rewrite (leave_simulates a0 (lf_ok_calm _ Hlf) loop a (Live All) Hs).
  cbn [spec_leave sp_exit spec_of]. rewrite kept_All. unfold entered. rewrite <-fmap_reverse.
  fold (entered (reverse (_collect_lifespans a0))).
  rewrite exit_errors_entered, exit_log_entered by (by rewrite forallb_reverse). done.
Qed.

(** *** Where code runs *)

(** Moving the code of the worker loop to the caller's. *)
Definition to_caller (e : event) : event :=
  match e with Ran Worker n => Ran CallerLoop n | _ => e end.

(** [m'] does what [m] does, on the caller's loop. *)
Definition moved {A} (m m' : prog A) : Prop :=
  forall s, m' s = let '(t, s', r) := m s in (to_caller <$> t, s', r).

Create HintDb moved.

Lemma moved_ret {A} (x : A) : moved (ret x) (ret x).
Proof. done. Qed.

Lemma moved_raise {A} e : moved (@raise app event A e) (raise e).
Proof. done. Qed.

Lemma moved_get : moved get get.
Proof. done. Qed.

Lemma moved_modify f : moved (modify f) (modify f).
Proof. done. Qed.

Lemma moved_bind {A B} (m m' : prog A) (k k' : A -> prog B) :
  moved m m' -> (forall x, moved (k x) (k' x)) -> moved (bind m k) (bind m' k').
Proof.
  intros Hm Hk s. unfold bind. rewrite Hm. destruct (m s) as [[t s'] [x|e]]; [|done].
  rewrite Hk. destruct (k x s') as [[t' s''] r]. by rewrite fmap_app.
Qed.

Lemma moved_try_except {A} (m m' : prog A) p (h h' : exn -> prog A) :
  moved m m' -> (forall e, moved (h e) (h' e)) -> moved (try_except m p h) (try_except m' p h').
Proof.
  intros Hm Hh s. unfold try_except. rewrite Hm. destruct (m s) as [[t s'] [x|e]]; [done|].
  destruct (p e); [|done]. rewrite Hh. destruct (h e s') as [[t' s''] r]. by rewrite fmap_app.
Qed.

Lemma moved_for {A} (l : list A) (f f' : A -> prog unit) :
  (forall x, moved (f x) (f' x)) -> moved (for_ l f) (for_ l f').
Proof. intros H. induction l; simpl; [apply moved_ret|]. apply moved_bind; [apply H|by intros _]. Qed.

Lemma moved_ran l : moved (ran Worker l) (ran CallerLoop l).
Proof. intros s. unfold ran, tell. by rewrite <-list_fmap_compose. Qed.

Lemma moved_ran_inline l : moved (ran Inline l) (ran Inline l).
Proof. intros s. unfold ran, tell. by rewrite <-list_fmap_compose. Qed.

#[local] Hint Resolve moved_ret moved_raise moved_get moved_modify moved_ran moved_ran_inline : moved.
#[local] Hint Extern 1 (moved (bind _ _) (bind _ _)) => apply moved_bind; [|intros ?] : moved.
#[local] Hint Extern 1 (moved (try_except _ _ _) (try_except _ _ _)) =>
  apply moved_try_except; [|intros ?] : moved.
#[local] Hint Extern 1 (moved (for_ _ _) (for_ _ _)) => apply moved_for; intros ? : moved.
#[local] Hint Extern 2 (moved (match ?x with _ => _ end) (match ?x with _ => _ end)) => destruct x : moved.

Lemma moved_hook m m' h : moved m m' -> moved (run_hook Worker m h) (run_hook CallerLoop m' h).
Proof.
  intros Hm. unfold run_hook. destruct (h_coroutine h); induction (h_code h) as [|[]]; simpl; auto with moved.
Qed.
#[local] Hint Resolve moved_hook : moved.

Lemma moved_startup_handlers : moved (run_startup_handlers Worker) (run_startup_handlers CallerLoop).
Proof. unfold run_startup_handlers. auto 10 with moved. Qed.

Lemma moved_shutdown_handlers : moved (run_shutdown_handlers Worker) (run_shutdown_handlers CallerLoop).
Proof. unfold run_shutdown_handlers. auto using moved_startup_handlers with moved. Qed.

Lemma moved_enter_all past todo merged :
  moved (enter_all Worker past todo merged) (enter_all CallerLoop past todo merged).
Proof.
  revert past merged. induction todo as [|[lf c] todo IH]; intros past merged; simpl; [auto with moved|].
  destruct (enter_cm lf) as [[c' w] [st|e]]; auto 10 with moved.
Qed.

Lemma moved_lifespan_startup : moved (run_lifespan_startup Worker) (run_lifespan_startup CallerLoop).
Proof. unfold run_lifespan_startup. auto 10 using moved_enter_all with moved. Qed.

Lemma moved_exit_all l past first :
  moved (exit_all Worker l past first) (exit_all CallerLoop l past first).
Proof.
  revert past first. induction l as [|[lf c] l IH]; intros past first; simpl; [auto with moved|].
  destruct (exit_cm lf c) as [w [e|]]; auto 10 with moved.
Qed.

Lemma moved_lifespan_shutdown : moved (run_lifespan_shutdown Worker) (run_lifespan_shutdown CallerLoop).
Proof. unfold run_lifespan_shutdown. auto 10 using moved_exit_all with moved. Qed.

Lemma moved_on_message m : moved (on_message Worker m) (on_message CallerLoop m).
Proof.
  unfold on_message, lifespan_startup, lifespan_shutdown. destruct m;
    auto 10 using moved_startup_handlers, moved_shutdown_handlers, moved_lifespan_startup,
      moved_lifespan_shutdown with moved.
Qed.

Lemma moved_serve_lifespan ms : moved (serve_lifespan Worker ms) (serve_lifespan CallerLoop ms).
Proof.
  induction ms as [|m ms IH]; simpl; [auto with moved|].
  apply moved_bind; [apply moved_on_message|]. intros [o []]; auto with moved.
Qed.

(** ** Properties *)

Definition fresh_app (a : app) : bool :=
  match _startup_state a, _startup_failure a, _lifespan_cms a, _dynamic_routes_installed a with
  | NotStarted, None, [], false => true
  | _, _, _, _ => false
  end.

Lemma fresh_app_spec a :
  fresh_app a = true <->
  _startup_state a = NotStarted /\ _startup_failure a = None /\ _lifespan_cms a = [] /\
  _dynamic_routes_installed a = false.
Proof. unfold fresh_app. split; [crush_match|by intros (-> & -> & -> & ->)]. Qed.

(** Every hook only does work. *)
Definition hook_ok (h : hook) : bool :=
  forallb (fun x => match x with Do _ => true | _ => false end) (h_code h).

Lemma hook_ok_no h : hook_ok h = true -> no_cancel h = true /\ no_reenter h = true.
Proof.
  unfold hook_ok, no_cancel, no_reenter. induction (h_code h) as [|[n|e|] l IH]; simpl; try done.
Qed.

Lemma hooks_ok_no hs :
  forallb hook_ok hs = true -> forallb no_cancel hs = true /\ forallb no_reenter hs = true.
Proof.
  induction hs as [|h hs IH]; simpl; [done|]. intros [Hh Hs]%andb_prop.
  destruct (hook_ok_no h Hh) as [-> ->], (IH Hs) as [-> ->]. done.
Qed.

Definition hook_log (loop : place) (h : hook) : list event :=
  h_code h ≫=
  fun x => match x with Do n => [Ran (if h_coroutine h then loop else Inline) n] | _ => [] end.

Lemma hooks_out_ok loop hs :
  forallb hook_ok hs = true -> hooks_out loop hs = (hs ≫= hook_log loop, Ok tt).
Proof.
  induction hs as [|h hs IH]; simpl; [done|]. intros [Hh Hs]%andb_prop. rewrite IH by done.
  unfold hook_ok, hook_log in *. set (p := if h_coroutine h then loop else Inline).
  assert (code_out p (h_code h) =
    (h_code h ≫= fun x => match x with Do n => [Ran p n] | _ => [] end, Ok tt)) as ->; [|done].
  induction (h_code h) as [|[n|e|] l IHl]; simpl in *; try done. by rewrite IHl.
Qed.

(** The state after the lifespans of [a] were entered. *)
Definition after_enter (a : app) : app :=
  match _collect_lifespans a with
  | [] => a
  | ls => set_state (yielded ls) (set_cms (entered ls) a)
  end.

(** A started application. *)
Definition started (a : app) : app := set_phase Started None (after_enter a).

Lemma run_lifespan_startup_fresh loop a :
  fresh_app a = true -> forallb lf_ok (_collect_lifespans a) = true ->
  run_lifespan_startup loop a = (ups loop (_collect_lifespans a), after_enter a, Ok tt).
Proof.
  intros (_ & _ & H3 & _)%fresh_app_spec Hl. by apply (run_lifespan_startup_idle a Hl loop a eq_refl H3).
Qed.

Lemma run_startup_handlers_entered loop a :
  fresh_app a = true -> forallb hook_ok (_collect_startup_handlers a) = true ->
  run_startup_handlers loop (after_enter a) =
    (_collect_startup_handlers a ≫= hook_log loop, started a, Ok tt).
Proof.
  intros (H1 & H2 & H3 & H4)%fresh_app_spec Hu. destruct (hooks_ok_no _ Hu) as [Hu' _].
  assert (static (after_enter a) = static a /\ _startup_state (after_enter a) = NotStarted /\
          _startup_failure (after_enter a) = None) as (E1 & E2 & E3)
    by (unfold after_enter; by destruct (_collect_lifespans a)).
  rewrite (run_startup_handlers_idle a Hu' loop _ E1 E2), hooks_out_ok by done. by rewrite E3.
Qed.

Lemma started_simulates a : fresh_app a = true -> simulates a (started a) (Live All).
Proof.
  intros (H1 & H2 & H3 & H4)%fresh_app_spec. unfold started, after_enter.
  destruct (_collect_lifespans a) eqn:E; split; try done; cbn [kept_by];
    rewrite ?E, ?kept_All; simpl; done.
Qed.

Lemma lifespan_startup_ok loop a :
  fresh_app a = true ->
  forallb hook_ok (_collect_startup_handlers a) = true ->
  forallb lf_ok (_collect_lifespans a) = true ->
  lifespan_startup loop a =
    (ups loop (_collect_lifespans a) ++ (_collect_startup_handlers a ≫= hook_log loop),
     started a, Ok tt).
Proof.
  intros Hf Hu Hl. unfold lifespan_startup, bind at 1, get, bind at 1.
  assert ((match _collect_lifespans a with [] => ret tt | _ => run_lifespan_startup loop end) a =
    run_lifespan_startup loop a) as ->.
  { pose proof (run_lifespan_startup_fresh loop a Hf Hl) as H. unfold after_enter in H.
    destruct (_collect_lifespans a); by rewrite ?H. }
  rewrite run_lifespan_startup_fresh by done. by rewrite run_startup_handlers_entered.
Qed.

Lemma lifespan_shutdown_ok loop a :
  fresh_app a = true ->
  forallb hook_ok (_collect_shutdown_handlers a) = true ->
  forallb lf_ok (_collect_lifespans a) = true ->
  lifespan_shutdown loop (started a) =
    (downs loop (_collect_lifespans a) ++ (_collect_shutdown_handlers a ≫= hook_log loop),
     match _collect_lifespans a with [] => a | ls => set_state (yielded ls) a end, Ok tt).
Proof.
  intros Hf Hd Hl. destruct (hooks_ok_no _ Hd) as [Hd' Hr]. pose proof (started_simulates a Hf) as Hs.
  unfold lifespan_shutdown, bind at 1, get, bind at 1.
  rewrite (run_lifespan_shutdown_entered a Hl loop (started a) Hs).
  unfold run_shutdown_handlers, bind at 1, get, bind at 1.
  destruct (static_collect (set_cms [] (started a)) a (sim_static _ _ _ Hs)) as (_ & -> & _).
  rewrite run_hooks_no_reenter, hooks_out_ok by done. unfold modify. rewrite app_nil_r. simpl. f_equal.
  f_equal. apply fresh_app_spec in Hf as (H1 & H2 & H3 & H4).
  unfold started, after_enter. destruct a; simpl in *; subst. by destruct (_collect_lifespans _).
Qed.

(** C14: the start-up machine refines its specification.  From a fresh
    application, for any sequence of ASGI start-ups, requests and shutdowns, in
    any order and on any loop, the code does what the automaton says.  A
    successful start enters all the lifespans in order and runs the hooks, once
    per cycle; a start-up hook that raises poisons the application, which then
    refuses every request and start-up until a shutdown; a lifespan whose call
    raises leaves the application idle; one that raises while it is entered
    fails that start-up only, and the next start-up or request skips the
    lifespans and runs the hooks; a shutdown leaves every kept manager in
    reverse, runs the hooks unless a manager raised, and always brings back the
    idle state.  Hooks and lifespans may do anything but be cancelled, and the
    shutdown hooks must not call the start-up themselves. *)
Theorem lifecycle_refines_spec a0 os :
  fresh_app a0 = true ->
  forallb no_cancel (_collect_startup_handlers a0) = true ->
  forallb no_cancel (_collect_shutdown_handlers a0) = true ->
  forallb no_reenter (_collect_shutdown_handlers a0) = true ->
  forallb lf_calm (_collect_lifespans a0) = true ->
  let '(t, _, xs) := spec_ops (spec_of a0) os Idle in
  exists a', do_ops os a0 = (t, a', Ok xs).
Proof.
  intros (H1 & H2 & H3 & H4)%fresh_app_spec Hu Hd Hr Hl.
  pose proof (ops_simulate a0 Hu Hd Hr Hl os a0 Idle) as H.
  destruct (spec_ops (spec_of a0) os Idle) as [[t s'] xs].
  destruct H as (a' & Ha & _); [by split|]. by exists a'.
Qed.

(** one ASGI cycle in which nothing raises.  The lifespans are entered in
    the collected order, then the start-up hooks run; at shutdown the lifespans
    are left in reverse, then the shutdown hooks run.  Afterwards the
    application is as it was, but for the state the lifespans yielded, in which
    the later ones win. *)
Theorem startup_shutdown_cycle a :
  fresh_app a = true ->
  forallb hook_ok (_collect_startup_handlers a) = true ->
  forallb hook_ok (_collect_shutdown_handlers a) = true ->
  forallb lf_ok (_collect_lifespans a) = true ->
  let loop := if oneshot_door a then Worker else CallerLoop in
  let ls := _collect_lifespans a in
  _asgi_lifespan [MStartup; MShutdown] a =
    (ups loop ls ++ (_collect_startup_handlers a ≫= hook_log loop) ++
     downs loop ls ++ (_collect_shutdown_handlers a ≫= hook_log loop),
     match ls with [] => a | _ => set_state (yielded ls) a end,
     Ok [StartupComplete; ShutdownComplete]).
Proof.
  intros Hf Hu Hd Hl loop ls.
  unfold _asgi_lifespan, bind, get. fold loop. cbn [serve_lifespan on_message].
  unfold bind, try_except, ret. rewrite lifespan_startup_ok by done. cbv beta iota.
  rewrite lifespan_shutdown_ok by done. simpl.
  rewrite !app_nil_r, <-!app_assoc. subst ls. by destruct (_collect_lifespans a).
Qed.

(** whatever the managers do, an ASGI shutdown leaves every entered
    lifespan, in reverse, and replies with the first error; but an error there
    skips all the shutdown hooks. *)
Theorem asgi_shutdown_is_best_effort loop a e es :
  exit_errors (reverse (_lifespan_cms a)) = e :: es ->
  Forall (fun e => is_exception e = true) (e :: es) ->
  on_message loop MShutdown a =
    (exit_log loop (reverse (_lifespan_cms a)), reset (set_cms [] a), Ok (Some (ShutdownFailed e), true)).
Proof.
  intros He HF. unfold on_message, try_except, bind at 1, lifespan_shutdown, bind at 1, get, bind at 1.
  pose proof (run_lifespan_shutdown_spec loop a) as H. rewrite He in H.
  destruct (_lifespan_cms a) eqn:E; [done|]. rewrite H by done. simpl.
  apply Forall_cons in HF as [-> _]. unfold bind, modify, ret. simpl. by rewrite !app_nil_r.
Qed.

Lemma lifespan_startup_fail loop a l1 lf l2 c w e :
  _lifespan_cms a = [] -> _collect_lifespans a = l1 ++ lf :: l2 ->
  forallb lf_ok l1 = true -> Forall (fun lf => l_call lf = None) (lf :: l2) ->
  enter_cm lf = (c, w, Raise e) ->
  lifespan_startup loop a =
    (ups loop l1 ++ (Ran loop <$> w), set_cms (entered l1 ++ (lf, c) :: fresh l2) a, Raise e).
Proof.
  intros Hc Hls Hl1 Hcall He.
  pose proof (enter_all_fail loop [] l1 lf l2 ∅ (set_cms (fresh (l1 ++ lf :: l2)) a) c w e
                (enters_ok _ Hl1) He eq_refl) as Hf.
  assert (wrap_all (l1 ++ lf :: l2) = Ok (fresh (l1 ++ lf :: l2))) as Hw
    by (apply wrap_all_fresh, Forall_app; split; [by apply lf_ok_call|done]).
  unfold lifespan_startup, bind at 1, get, bind at 1.
  rewrite Hls. destruct (l1 ++ lf :: l2) as [|x ls] eqn:E; [by destruct l1|].
  unfold run_lifespan_startup, bind at 1, get. rewrite Hc, Hls, Hw.
  unfold bind, modify. by rewrite Hf.
Qed.

(** Once [_lifespan_cms] is set the lifespans are skipped. *)
Lemma lifespan_startup_skips loop a x cms :
  _lifespan_cms a = x :: cms -> lifespan_startup loop a = run_startup_handlers loop a.
Proof.
  intros Hc. unfold lifespan_startup, bind at 1, get, bind at 1.
  assert ((match _collect_lifespans a with [] => ret tt | _ => run_lifespan_startup loop end) a
          = ([], a, Ok tt)) as ->.
  { destruct (_collect_lifespans a); [done|]. unfold run_lifespan_startup, bind, get. by rewrite Hc. }
  by destruct (run_startup_handlers loop a) as [[??]?].
Qed.

(** The first request of an application. *)
Lemma first_request a :
  _startup_state a = NotStarted -> _dynamic_routes_installed a = false ->
  http_entry a = match lifespan_startup Worker a with
                 | (t, a', Ok _) => (t, set_installed true a', Ok tt)
                 | (t, a', Raise e) => (t, a', Raise e)
                 end.
Proof.
  intros Hp Hi. unfold http_entry, bind at 1, get. rewrite Hp. simpl.
  unfold _install_in_process_dynamic_routes, bind, get, ret, modify. simpl. rewrite Hi, Hi.
  destruct (lifespan_startup Worker a) as [[t a'] [[]|e]]; by rewrite ?app_nil_r.
Qed.

(** an application whose lifespan fails to start serves the next request
    nevertheless.  The first request is refused with the error of the lifespan;
    the second finds [_lifespan_cms] set and [_startup_state] untouched, skips
    the lifespans, runs the hooks and is served. *)
Theorem failed_lifespan_serves_next_request a l1 lf l2 c w e :
  fresh_app a = true ->
  forallb hook_ok (_collect_startup_handlers a) = true ->
  _collect_lifespans a = l1 ++ lf :: l2 ->
  forallb lf_ok l1 = true -> Forall (fun lf => l_call lf = None) (lf :: l2) ->
  enter_cm lf = (c, w, Raise e) -> is_exception e = true ->
  exists a', do_ops [ORequest; ORequest] a =
    (ups Worker l1 ++ (Ran Worker <$> w) ++ (_collect_startup_handlers a ≫= hook_log Worker), a',
     Ok [Refused e; Served]) /\ _app_state a' = _app_state a.
Proof.
  intros (H1 & H2 & H3 & H4)%fresh_app_spec Hu Hls Hl1 Hc He Hex.
  destruct (hooks_ok_no _ Hu) as [Hu' _].
  pose proof (lifespan_startup_fail Worker a l1 lf l2 c w e H3 Hls Hl1 Hc He) as Hs1.
  set (a1 := set_cms (entered l1 ++ (lf, c) :: fresh l2) a) in *.
  assert (lifespan_startup Worker a1 = (_collect_startup_handlers a ≫= hook_log Worker,
            set_phase Started None a1, Ok tt)) as Hs2.
  { destruct (_lifespan_cms a1) as [|x cms] eqn:E; [by destruct l1|].
    rewrite (lifespan_startup_skips Worker a1 x cms E).
    rewrite (run_startup_handlers_idle a Hu' Worker a1 eq_refl H1), hooks_out_ok by done.
    simpl. by rewrite H2. }
  exists (set_installed true (set_phase Started None a1)). split; [|done].
  cbn [do_ops do_op]. unfold bind, try_except, ret.
  rewrite (first_request a H1 H4), Hs1, Hex. cbv beta iota.
  rewrite (first_request a1 H1 H4), Hs2. simpl. by rewrite !app_nil_r, <-!app_assoc.
Qed.

(** the coroutine variants do what the synchronous ones do, on the loop
    of the caller.  A run of the ASGI protocol with the door off replies the
    same, leaves the same state and runs the same code in the same order as with
    the door on; only the code on the worker loop moves. *)
Theorem async_lifespan_agrees_with_sync ms a :
  serve_lifespan CallerLoop ms a =
    let '(t, a', r) := serve_lifespan Worker ms a in (to_caller <$> t, a', r).
Proof. apply moved_serve_lifespan. Qed.

Lemma at_exit_Ok (f : prog unit) a t a' r :
  f a = (t, a', r) -> at_exit [f] a = (t, a', Ok tt).
Proof.
  intros H. cbn [at_exit]. unfold bind, try_except. rewrite H. unfold ret.
  destruct r as [[]|e]; by rewrite !app_nil_r.
Qed.

Lemma shutdown_hooks_raise a b t e :
  static b = static a -> forallb no_reenter (_collect_shutdown_handlers a) = true ->
  hooks_out Worker (_collect_shutdown_handlers a) = (t, Raise e) ->
  _run_shutdown_handlers b = (t, b, Raise e).
Proof.
  intros Hst Hr Ho. destruct (static_collect b a Hst) as (_ & Ed & _).
  unfold _run_shutdown_handlers, run_shutdown_handlers, bind, get.
  by rewrite Ed, run_hooks_no_reenter, Ho.
Qed.

(** when a shutdown hook raises, a single process still leaves its
    lifespans, and a worker process does not, although the worker is meant to
    run the same shutdown as the single process. *)
Theorem worker_skips_lifespan_exit a w t e :
  fresh_app a = true ->
  forallb hook_ok (_collect_startup_handlers a) = true ->
  forallb lf_ok (_collect_lifespans a) = true ->
  _collect_lifespans a <> [] ->
  forallb no_reenter (_collect_shutdown_handlers a) = true ->
  hooks_out Worker (_collect_shutdown_handlers a) = (t, Raise e) ->
  let served := ups Worker (_collect_lifespans a) ++ (_collect_startup_handlers a ≫= hook_log Worker) ++ w in
  (exists a1, run_single (tell w) a =
     (served ++ t ++ downs Worker (_collect_lifespans a), a1, Ok tt)) /\
  (exists a2, worker_process (tell w) a = (served ++ t, a2, Ok 0%nat)).
Proof.
  intros Hf Hu Hl Hne Hr Ho served. pose proof (started_simulates a Hf) as Hs.
  assert (forall A (x y : A), (if match _collect_lifespans a with [] => false | _ => true end
    then x else y) = x) as Hif by (intros; by destruct (_collect_lifespans a)).
  pose proof (run_lifespan_startup_fresh Worker a Hf Hl) as H1.
  pose proof (run_startup_handlers_entered Worker a Hf Hu) as H2.
  pose proof (shutdown_hooks_raise a (started a) t e (sim_static _ _ _ Hs) Hr Ho) as H3.
  destruct (static_collect (started a) a (sim_static _ _ _ Hs)) as (_ & Ed & _).
  pose proof (run_lifespan_shutdown_entered a Hl Worker (started a) Hs) as H4.
  rewrite (sim_cms _ _ _ Hs) in H4.
  assert (_run_lifespan_shutdown (started a) =
    (downs Worker (_collect_lifespans a), set_cms [] (started a), Ok tt)) as H5
    by (rewrite <-H4; by destruct (_collect_lifespans a)).
  split; eexists.
  - unfold run_single, bind at 1, get, bind at 1. rewrite !Hif. unfold _run_lifespan_startup.
    rewrite H1. unfold try_finally at 1, bind at 1, _run_startup_handlers. rewrite H2.
    unfold bind at 1, get, try_finally at 1, tell. rewrite Ed.
    destruct (_collect_shutdown_handlers a) eqn:E; [done|].
    rewrite (at_exit_Ok _ _ _ _ _ H3), (at_exit_Ok _ _ _ _ _ H5).
    simpl. subst served. by rewrite <-!app_assoc.
  - unfold worker_process, try_except at 1, bind at 1, get, bind at 1. rewrite !Hif.
    unfold _run_lifespan_startup. rewrite H1. unfold bind at 1, _run_startup_handlers. rewrite H2.
    unfold bind at 1, get, bind at 1, tell. rewrite Ed. unfold bind at 1, try_except, bind at 1.
    destruct (_collect_shutdown_handlers a) eqn:E; [done|]. rewrite H3.
    unfold ret. simpl. subst served. by rewrite !app_nil_r, <-!app_assoc.
Qed.

(** of two nested routers the outer one's lifespan starts first, so that on
    a collision the key the inner one yields wins, where the collection promises
    that children start first and the parent's keys win. *)
Theorem nested_child_state_wins a u d p u' d' c st st' :
  fresh_app a = true -> children (router a) = [] -> app_lifespan a = None ->
  _included_routers a = [Node u d (Some p) [Node u' d' (Some c) []]] ->
  lf_ok p = true -> lf_ok c = true -> l_yield p = Ok (Some st) -> l_yield c = Ok (Some st') ->
  exists a', _run_lifespan_startup a = (Ran Worker <$> (l_up p ++ l_up c), a', Ok tt) /\
             _app_state a' = st' ∪ st.
Proof.
  intros Hf Hc Ha Hi Hp Hpc Hy Hy'.
  assert (_collect_lifespans a = [p; c]) as Hls
    by (unfold _collect_lifespans; by rewrite Hc, Ha, Hi).
  pose proof (run_lifespan_startup_fresh Worker a Hf) as H. rewrite Hls in H.
  simpl in H. rewrite Hp, Hpc in H. unfold _run_lifespan_startup. rewrite H by done.
  eexists. split; [unfold ups; simpl; by rewrite app_nil_r|].
  unfold after_enter. rewrite Hls. unfold yielded. simpl. rewrite Hy, Hy'. simpl.
  by rewrite (right_id_L ∅ (∪)).
Qed.

(** ** Witnesses *)

Definition demo_lifespan (shape : shape) (n : nat) (down : option exn) : lifespan :=
  {| l_shape := shape; l_call := None; l_up := [n]; l_yield := Ok (Some {[ 7%nat := n ]});
     l_down := [(10 + n)%nat]; l_down_raises := down; l_closed := [] |}.

Definition broken_lifespan : lifespan :=
  {| l_shape := Acm; l_call := None; l_up := [6%nat]; l_yield := Raise (UserError 1 2);
     l_down := []; l_down_raises := None; l_closed := [] |}.

Definition demo_app (up down : list hook) (nodes : list node) (lf : option lifespan) : app :=
  {| _on_startup := up; _on_shutdown := down; app_lifespan := lf; router := Node [] [] None [];
     _included_routers := nodes; oneshot_door := true; _startup_state := NotStarted;
     _startup_failure := None; _lifespan_cms := []; _app_state := ∅; app_state_attrs := ∅;
     _dynamic_routes_installed := false; installs := 0 |}.

Definition does (async : bool) (n : nat) : hook := {| h_coroutine := async; h_code := [Do n] |}.
Definition raises (n : nat) : hook := {| h_coroutine := true; h_code := [Do n; RaiseA ValueError] |}.

(** A poisoned application, and one whose second lifespan breaks. *)
Lemma lifecycle_refines_spec_witness :
  (exists a', do_ops [ORequest; OStartup CallerLoop; OShutdown CallerLoop; ORequest]
    (demo_app [raises 1] [does false 2] [] (Some (demo_lifespan AsyncGen 3 None))) =
    ([Ran Worker 3; Ran Worker 1; Ran CallerLoop 13; Ran Inline 2; Ran Worker 3; Ran Worker 1], a',
     Ok [Refused ValueError; Replied (Some (StartupFailed earlier));
         Replied (Some ShutdownComplete); Refused ValueError])) /\
  (exists a', do_ops [ORequest; ORequest; OShutdown Worker; ORequest]
    (demo_app [does true 1] [does false 2]
       [Node [] [] (Some (demo_lifespan Acm 3 None)) [Node [] [] (Some broken_lifespan) []]] None) =
    ([Ran Worker 3; Ran Worker 6; Ran Worker 1; Ran Worker 13; Ran Inline 2; Ran Worker 3; Ran Worker 6], a',
     Ok [Refused (UserError 1 2); Served; Replied (Some ShutdownComplete); Refused (UserError 1 2)])).
Proof.
  split.
  - apply (lifecycle_refines_spec
      (demo_app [raises 1] [does false 2] [] (Some (demo_lifespan AsyncGen 3 None)))
      [ORequest; OStartup CallerLoop; OShutdown CallerLoop; ORequest]); reflexivity.
  - apply (lifecycle_refines_spec
      (demo_app [does true 1] [does false 2]
         [Node [] [] (Some (demo_lifespan Acm 3 None)) [Node [] [] (Some broken_lifespan) []]] None)
      [ORequest; ORequest; OShutdown Worker; ORequest]); reflexivity.
Defined.

Lemma startup_shutdown_cycle_witness :
  let a := demo_app [does true 1] [does false 2] [Node [does true 4] [] None []]
             (Some (demo_lifespan Acm 3 None)) in
  _asgi_lifespan [MStartup; MShutdown] a =
    ([Ran Worker 3; Ran Worker 1; Ran Worker 4; Ran Worker 13; Ran Inline 2],
     set_state (yielded [demo_lifespan Acm 3 None]) a, Ok [StartupComplete; ShutdownComplete]).
Proof.
  intros a. apply (startup_shutdown_cycle a); reflexivity.
Defined.

Lemma asgi_shutdown_is_best_effort_witness :
  let a := set_cms [(demo_lifespan Acm 3 (Some ValueError), Entered); (demo_lifespan Gen 4 None, Entered);
                    (demo_lifespan Acm 5 (Some TypeError), Entered)]
             (demo_app [] [does false 2] [] None) in
  on_message Worker MShutdown a =
    ([Ran Worker 15; Ran Worker 14; Ran Worker 13], reset (set_cms [] a),
     Ok (Some (ShutdownFailed TypeError), true)).
Proof.
  intros a. apply (asgi_shutdown_is_best_effort Worker a TypeError [ValueError]);
    [reflexivity|repeat constructor].
Defined.

Lemma failed_lifespan_serves_next_request_witness :
  exists a', do_ops [ORequest; ORequest]
    (demo_app [does true 1] [] [Node [] [] (Some broken_lifespan) []] (Some (demo_lifespan Acm 3 None))) =
    ([Ran Worker 6; Ran Worker 1], a', Ok [Refused (UserError 1 2); Served]) /\ _app_state a' = ∅.
Proof.
  apply (failed_lifespan_serves_next_request
    (demo_app [does true 1] [] [Node [] [] (Some broken_lifespan) []] (Some (demo_lifespan Acm 3 None)))
    [] broken_lifespan [demo_lifespan Acm 3 None] Over [6%nat] (UserError 1 2));
    first [reflexivity|repeat constructor].
Defined.

Lemma worker_skips_lifespan_exit_witness :
  let a := demo_app [] [raises 2] [] (Some (demo_lifespan Acm 3 None)) in
  (exists a1, run_single (tell [Ran Inline 9]) a =
     ([Ran Worker 3; Ran Inline 9; Ran Worker 2; Ran Worker 13], a1, Ok tt)) /\
  (exists a2, worker_process (tell [Ran Inline 9]) a =
     ([Ran Worker 3; Ran Inline 9; Ran Worker 2], a2, Ok 0%nat)).
Proof.
  intros a. apply (worker_skips_lifespan_exit a [Ran Inline 9] [Ran Worker 2] ValueError);
    first [reflexivity|done].
Defined.

Lemma nested_child_state_wins_witness :
  exists a', _run_lifespan_startup
    (demo_app [] [] [Node [] [] (Some (demo_lifespan Acm 1 None))
                       [Node [] [] (Some (demo_lifespan Acm 2 None)) []]] None) =
    ([Ran Worker 1; Ran Worker 2], a', Ok tt) /\ _app_state a' = {[ 7%nat := 2%nat ]} ∪ {[ 7%nat := 1%nat ]}.
Proof.
  apply (nested_child_state_wins (demo_app [] [] [Node [] [] (Some (demo_lifespan Acm 1 None))
           [Node [] [] (Some (demo_lifespan Acm 2 None)) []]] None)
           [] [] (demo_lifespan Acm 1 None) [] [] (demo_lifespan Acm 2 None)); reflexivity.
Defined.

End Lifespan.
