(* ===== verification/Workers.v ===== *)
(** The processes of [run] (applications.py): how many workers
    [_resolve_worker_count] asks for, and the parent of [_run_multiworker], which
    forks them, waits for the acceptor, forwards the signal, reaps the workers
    and kills those that outlive the grace period.  What a worker process does
    is [Lifespan.worker_process]. *)

From S2P Require Import Prelude Effects Lifespan.

Module Workers.

(** ** The number of workers *)

(** [env] is the environment variable, [cpus] what [os.cpu_count()] returns,
    [fork] whether the platform has [os.fork], [main] whether the call comes
    from the main thread. *)
Definition _resolve_worker_count (env : option text) (cpus : option Z) (fork main : bool)
    (workers : option Z) : Z :=
  let workers := match env with
                 | Some t => match py_int is_space_latin1 t with
                             | Some n => Some n
                             | None => workers
                             end
                 | None => workers
                 end in
  let workers := match workers with
                 | Some n => n
                 | None => match cpus with
                           | Some n => if n =? 0 then 1 else n     (* [cpu_count() or 1] *)
                           | None => 1
                           end
                 end in
  let workers := Z.max 1 workers in
  if 1 <? workers then
    if negb fork then 1 else if negb main then 1 else workers
  else workers.

(** [run] serves in this process or forks. *)
Inductive launch := SingleProcess | MultiWorker (n : Z).

Definition run (env : option text) (cpus : option Z) (fork main : bool) (workers : option Z) : launch :=
  let n := _resolve_worker_count env cpus fork main workers in
  if 1 <? n then MultiWorker n else SingleProcess.

(** ** The parent process

    Times are in milliseconds of [time.monotonic()]. *)

Inductive signal := SIGTERM | SIGKILL.

(** What the parent did to its children: a signal that reached one, a child
    reaped while polling or in the final wait; and the removed socket. *)
Inductive call := Kill (pid : nat) (s : signal) | Polled (pid : nat) | Waited (pid : nat) | Unlink.

Record world := { now : Z; unreaped : gset nat; calls : list call }.

Definition log (c : call) (w : world) : world :=
  {| now := now w; unreaped := unreaped w; calls := calls w ++ [c] |}.

Definition reap (pid : nat) (c : call) (w : world) : world :=
  {| now := now w; unreaped := unreaped w ∖ {[ pid ]}; calls := calls w ++ [c] |}.

Definition sleep (ms : Z) (w : world) : world :=
  {| now := now w + ms; unreaped := unreaped w; calls := calls w |}.

(** [FASTAPI_TURBO_GRACE_SECONDS]: unset or empty, not a number, or a number. *)
Definition grace_period (env : option (option Z)) : Z :=
  match env with
  | Some (Some g) => Z.max 0 g
  | _ => 10000
  end.

Section Parent.

(** When a child ends once it is asked to, if ever; and how much longer than
    50 ms the [i]th sleep and the work around it take. *)
Context (exit_at : nat -> option Z) (delay : nat -> Z).

Definition exited (t : Z) (pid : nat) : bool :=
  match exit_at pid with Some e => e <=? t | None => false end.

(** [os.kill]; a [ProcessLookupError] is ignored. *)
Definition os_kill (pid : nat) (s : signal) (w : world) : world :=
  if bool_decide (pid ∈ unreaped w) then log (Kill pid s) w else w.

Definition _signal_children (children : list nat) (s : signal) (w : world) : world :=
  foldl (fun w pid => os_kill pid s w) w children.

(** [os.waitpid(pid, WNOHANG)]: an error, or whether the child was reaped. *)
Definition waitpid_nohang (pid : nat) (w : world) : option bool * world :=
  if bool_decide (pid ∈ unreaped w) then
    if exited (now w) pid then (Some true, reap pid (Polled pid) w) else (Some false, w)
  else (None, w).

Fixpoint remove_first (x : nat) (l : list nat) : list nat :=
  match l with
  | [] => []
  | y :: l' => if bool_decide (x = y) then l' else y :: remove_first x l'
  end.

(** The [for] over a copy of [_live]. *)
Fixpoint poll (l live : list nat) (w : world) : list nat * world :=
  match l with
  | [] => (live, w)
  | pid :: l' =>
      match waitpid_nohang pid w with
      | (Some false, w') => poll l' live w'
      | (_, w') => poll l' (remove_first pid live) w'
      end
  end.

(** The [while]; [i] counts the sleeps. *)
Fixpoint reap_loop (fuel : nat) (deadline : Z) (i : nat) (live : list nat) (w : world)
    : option (list nat * world) :=
  match fuel with
  | O => None
  | S fuel' =>
      match live with
      | [] => Some ([], w)
      | _ =>
          if now w <? deadline then
            let '(live', w') := poll live live w in
            let w'' := match live' with [] => w' | _ => sleep (50 + delay i) w' end in
            reap_loop fuel' deadline (S i) live' w''
          else Some (live, w)
      end
  end.

(** [os.kill(pid, SIGKILL)] and the blocking [os.waitpid(pid, 0)]. *)
Definition hard_kill (w : world) (pid : nat) : world :=
  let w := os_kill pid SIGKILL w in
  if bool_decide (pid ∈ unreaped w) then reap pid (Waited pid) w else w.

(** The [finally] clause. *)
Definition stop_children (fuel : nat) (grace : Z) (children : list nat) (w : world) : option world :=
  let w := _signal_children children SIGTERM w in
  let deadline := now w + grace + 3000 in
  match reap_loop fuel deadline 0 children w with
  | Some (live, w) => Some (log Unlink (foldl hard_kill w live))
  | None => None
  end.

(** The forks, each giving the pid of a child or raising; the acceptor, which
    runs for a while and may raise; then the [finally].  [None]: out of fuel. *)
Fixpoint fork_all (forks : list (option nat)) (children : list nat) (w : world)
    : res (list nat) * world :=
  match forks with
  | [] => (Ok children, w)
  | Some pid :: forks' =>
      fork_all forks' (children ++ [pid])
        {| now := now w; unreaped := {[ pid ]} ∪ unreaped w; calls := calls w |}
  | None :: _ => (Raise (RuntimeError "fork"), w)
  end.

Definition _run_multiworker (fuel : nat) (grace_env : option (option Z)) (forks : list (option nat))
    (serving : Z) (acceptor : res unit) (w : world) : option (world * res unit) :=
  match fork_all forks [] w with
  | (Raise e, w') => Some (w', Raise e)
  | (Ok children, w') =>
      match stop_children fuel (grace_period grace_env) children (sleep serving w') with
      | Some w'' => Some (w'', acceptor)
      | None => None
      end
  end.

End Parent.

(** ** Lemmas *)

Section Lemmas.

Context (exit_at : nat -> option Z) (delay : nat -> Z).
Notation exited := (exited exit_at).

Lemma exited_mono t t' pid : t <= t' -> exited t' pid = false -> exited t pid = false.
Proof. unfold Workers.exited. destruct (exit_at pid); lia. Qed.

Lemma remove_first_filter x l : NoDup l -> remove_first x l = filter (fun y => y <> x) l.
Proof.
  induction 1 as [|y l Hy Hl IH]; simpl; [done|]. rewrite filter_cons. case_bool_decide as E.
  - subst. rewrite decide_False by (by intros []). symmetry. rewrite filter_all; [done|].
    intros z Hz ->. done.
  - rewrite decide_True by congruence. by rewrite IH.
Qed.

Definition ended (t : Z) (l : list nat) : list nat := filter (fun p => exited t p = true) l.

Lemma poll_spec l live w :
  NoDup live -> NoDup l -> (forall p, p ∈ l -> p ∈ unreaped w) ->
  poll exit_at l live w =
    (filter (fun p => p ∉ ended (now w) l) live,
     {| now := now w; unreaped := unreaped w ∖ list_to_set (ended (now w) l);
        calls := calls w ++ (Polled <$> ended (now w) l) |}).
Proof.
  revert live w. induction l as [|pid l IH]; intros live w Hlive Hl Hu; simpl.
  - f_equal; [|destruct w; simpl; f_equal; [set_solver|by rewrite app_nil_r]].
    symmetry. apply filter_all. intros ? _ []%not_elem_of_nil.
  - apply NoDup_cons in Hl as [Hp Hl]. unfold waitpid_nohang.
    rewrite bool_decide_eq_true_2 by (apply Hu; left).
    unfold ended. rewrite filter_cons. fold (ended (now w) l). destruct (exited (now w) pid) eqn:E.
    + rewrite decide_True by done. rewrite remove_first_filter by done.
      rewrite IH; [|by apply NoDup_filter|done|].
      * simpl. f_equal; [|f_equal; [set_solver|by rewrite <-app_assoc]].
        rewrite list_filter_filter. apply list_filter_iff. intros p. set_solver.
      * intros p Hin. simpl. apply elem_of_difference. split; [apply Hu; by right|set_solver].
    + rewrite decide_False by done. apply IH; [done..|]. intros p Hin. apply Hu. by right.
Qed.

Lemma poll_live live w :
  NoDup live -> (forall p, p ∈ live -> p ∈ unreaped w) ->
  exists live' gone, poll exit_at live live w =
    (live', {| now := now w; unreaped := unreaped w ∖ list_to_set gone;
               calls := calls w ++ (Polled <$> gone) |}) /\
    live ≡ₚ live' ++ gone /\ NoDup live' /\ (forall p, p ∈ live' -> p ∉ gone) /\
    Forall (fun p => exited (now w) p = false) live'.
Proof.
  intros Hl Hu. rewrite poll_spec by done. do 2 eexists. split; [done|]. split_and!.
  - rewrite <-(filter_app_complement (fun p => p ∉ ended (now w) live) live) at 1.
    apply Permutation_app_head. unfold ended at 2.
    rewrite (filter_ext_in _ (fun p => exited (now w) p = true)); [done|].
    intros p Hp. unfold ended. rewrite list_elem_of_filter. destruct (exited (now w) p); naive_solver.
  - by apply NoDup_filter.
  - intros p [? ?]%list_elem_of_filter. done.
  - apply Forall_forall. intros p [Hp Hin]%list_elem_of_filter.
    destruct (exited (now w) p) eqn:E; [|done]. destruct Hp. by apply list_elem_of_filter.
Qed.

(** What the loop leaves: the children it reaped are gone from [unreaped], in the
    order of [gone]; those [left] had not ended at time [t]. *)
Definition reaped_from (live : list nat) (w : world) (t : Z) (r : option (list nat * world)) : Prop :=
  exists left gone w', r = Some (left, w') /\ live ≡ₚ left ++ gone /\
    unreaped w' = unreaped w ∖ list_to_set gone /\ calls w' = calls w ++ (Polled <$> gone) /\
    Forall (fun p => exited t p = false) left.

Lemma reaped_from_now live w t :
  Forall (fun p => exited t p = false) live -> reaped_from live w t (Some (live, w)).
Proof. exists live, [], w. rewrite !app_nil_r. split_and!; try done. set_solver. Qed.

(** Reaping [gone] first and going on with [live']. *)
Lemma reaped_from_step live live' gone w w1 t r :
  live ≡ₚ live' ++ gone -> unreaped w1 = unreaped w ∖ list_to_set gone ->
  calls w1 = calls w ++ (Polled <$> gone) -> reaped_from live' w1 t r -> reaped_from live w t r.
Proof.
  intros Hp E1 E2 (left & gone' & w' & -> & Hp' & E1' & E2' & HF).
  exists left, (gone ++ gone'), w'. split_and!; try done.
  - rewrite Hp, Hp', <-app_assoc. by apply Permutation_app_head, Permutation_app_comm.
  - rewrite E1', E1, list_to_set_app_L. set_solver.
  - by rewrite E2', E2, fmap_app, <-app_assoc.
Qed.

(** The loop ends within its fuel; who is left at its end had not ended at the
    last poll, at most [50 + slack] before the deadline. *)
Lemma reap_loop_spec slack deadline fuel i live w :
  (forall i, 0 <= delay i <= slack) ->
  (0 < fuel)%nat -> deadline - now w <= 50 * (Z.of_nat fuel - 1) ->
  NoDup live -> (forall p, p ∈ live -> p ∈ unreaped w) ->
  (deadline <= now w -> Forall (fun p => exited (deadline - 50 - slack) p = false) live) ->
  reaped_from live w (deadline - 50 - slack) (reap_loop exit_at delay fuel deadline i live w).
Proof.
  intros Hd. revert i live w. induction fuel as [|fuel IH]; intros i live w Hf Hfuel Hl Hu Hlate; [lia|].
  simpl. destruct live as [|x live]; [by apply reaped_from_now|].
  destruct (Z.ltb_spec (now w) deadline) as [Hn|Hn]; [|by apply reaped_from_now, Hlate].
  destruct (poll_live (x :: live) w Hl Hu) as (live' & gone & -> & Hp & Hl' & Hg & HF).
  set (w1 := {| now := _; unreaped := _; calls := _ |}).
  destruct live' as [|y live'].
  - apply (reaped_from_step _ [] gone w w1); try done.
    destruct fuel as [|fuel]; [lia|]. by apply reaped_from_now.
  - pose proof (Hd i). apply (reaped_from_step _ (y :: live') gone w (sleep (50 + delay i) w1)); try done.
    apply IH; try done; simpl; [lia..| |].
    + intros p Hin. apply elem_of_difference. rewrite elem_of_list_to_set.
      split; [apply Hu; rewrite Hp; set_solver|by apply Hg].
    + intros Hlt. eapply Forall_impl; [exact HF|]. intros p. apply exited_mono. lia.
Qed.

End Lemmas.

Lemma hard_kill_all l w :
  NoDup l -> (forall p, p ∈ l -> p ∈ unreaped w) ->
  foldl hard_kill w l =
    {| now := now w; unreaped := unreaped w ∖ list_to_set l;
       calls := calls w ++ (l ≫= fun p => [Kill p SIGKILL; Waited p]) |}.
Proof.
  revert w. induction l as [|p l IH]; intros w Hl Hu; simpl.
  - destruct w; simpl; f_equal; [set_solver|by rewrite app_nil_r].
  - apply NoDup_cons in Hl as [Hp Hl].
    assert (p ∈ unreaped w) as Hin by (apply Hu; left).
    assert (hard_kill w p = {| now := now w; unreaped := unreaped w ∖ {[ p ]};
              calls := calls w ++ [Kill p SIGKILL; Waited p] |}) as ->.
    { unfold hard_kill, os_kill. rewrite !(bool_decide_eq_true_2 (p ∈ unreaped w)) by done.
      unfold reap. simpl. by rewrite <-app_assoc. }
    rewrite IH; [|done|]; simpl.
    + f_equal; [set_solver|by rewrite <-app_assoc].
    + intros q Hq. apply elem_of_difference. split; [apply Hu; by right|set_solver].
Qed.

Lemma signal_children_all l s w :
  (forall p, p ∈ l -> p ∈ unreaped w) ->
  _signal_children l s w =
    {| now := now w; unreaped := unreaped w; calls := calls w ++ ((fun p => Kill p s) <$> l) |}.
Proof.
  unfold _signal_children. revert w. induction l as [|p l IH]; intros w Hu; simpl.
  - destruct w. simpl. by rewrite app_nil_r.
  - unfold os_kill at 2. rewrite bool_decide_eq_true_2 by (apply Hu; left).
    rewrite IH by (intros q Hq; apply Hu; by right). simpl. by rewrite <-app_assoc.
Qed.

Lemma fork_all_Ok pids children w :
  fork_all (Some <$> pids) children w =
    (Ok (children ++ pids),
     {| now := now w; unreaped := list_to_set pids ∪ unreaped w; calls := calls w |}).
Proof.
  revert children w. induction pids as [|p pids IH]; intros children w; simpl.
  - rewrite app_nil_r. destruct w. simpl. do 2 f_equal. set_solver.
  - rewrite IH. simpl. rewrite <-app_assoc. do 2 f_equal. set_solver.
Qed.

(** ** Properties *)

(** The number asked for: the variable, else the argument, else the CPUs. *)
Definition requested (env : option text) (cpus workers : option Z) : Z :=
  match env ≫= py_int is_space_latin1, workers, cpus with
  | Some n, _, _ | None, Some n, _ => n
  | None, None, Some n => n
  | None, None, None => 1
  end.

(** the number of workers is at least one, is what was asked for when that
    is positive and forking is safe, and one otherwise; a variable that is not
    a number does not count. *)
Theorem worker_count_bounds env cpus fork main workers :
  let n := _resolve_worker_count env cpus fork main workers in
  1 <= n /\ n = (if fork && main then Z.max 1 (requested env cpus workers) else 1).
Proof.
  unfold _resolve_worker_count, requested.
  destruct env as [t|]; simpl; [destruct (py_int is_space_latin1 t)|]; destruct workers, cpus;
    simpl; repeat case_match; destruct fork, main; simpl in *; try discriminate; lia.
Qed.

Lemma parent_reaps exit_at delay slack fuel grace_env pids serving acceptor w :
  (forall i, 0 <= delay i <= slack) -> NoDup pids -> (forall p, p ∈ pids -> p ∉ unreaped w) ->
  let grace := grace_period grace_env in
  grace + 3000 <= 50 * (Z.of_nat fuel - 1) ->
  exists polled killed w',
    _run_multiworker exit_at delay fuel grace_env (Some <$> pids) serving acceptor w =
      Some (w', acceptor) /\
    pids ≡ₚ killed ++ polled /\ unreaped w' = unreaped w /\
    calls w' = calls w ++ ((fun p => Kill p SIGTERM) <$> pids) ++ (Polled <$> polled) ++
               (killed ≫= fun p => [Kill p SIGKILL; Waited p]) ++ [Unlink] /\
    Forall (fun p => exited exit_at (now w + serving + grace + 2950 - slack) p = false) killed.
Proof.
  intros Hd Hnd Hfresh grace Hfuel. unfold _run_multiworker. rewrite fork_all_Ok. simpl.
  unfold stop_children. fold grace. rewrite signal_children_all; simpl; [|set_solver].
  set (w1 := {| now := _; unreaped := _; calls := _ |}).
  assert (0 <= grace) by (unfold grace, grace_period; repeat case_match; lia).
  assert (reaped_from exit_at pids w1 (now w + serving + grace + 3000 - 50 - slack)
            (reap_loop exit_at delay fuel (now w + serving + grace + 3000) 0 pids w1))
    as (left & gone & w' & -> & Hp & E1 & E2 & HF).
  { apply reap_loop_spec; try done; simpl; [lia|lia|set_solver|lia]. }
  assert (NoDup (left ++ gone)) as (Hl & Hlg & _)%NoDup_app by (by rewrite <-Hp).
  rewrite hard_kill_all; [|done|].
  2:{ intros p Hin. rewrite E1. simpl. apply elem_of_difference. rewrite elem_of_list_to_set.
      split; [|by apply Hlg]. apply elem_of_union_l, elem_of_list_to_set. rewrite Hp. set_solver. }
  exists gone, left. eexists. split; [done|]. split_and!; [done|..]; simpl.
  - rewrite E1. simpl. apply set_eq. intros p. set_unfold. rewrite Hp. set_unfold.
    specialize (Hfresh p). rewrite Hp in Hfresh. set_solver.
  - rewrite E2. simpl. by rewrite <-!app_assoc.
  - eapply Forall_impl; [exact HF|]. intros p. apply exited_mono. lia.
Qed.

(** A failing fork leaves the workers forked before it neither signalled nor
    reaped. *)
Lemma fork_failure_orphans_workers exit_at delay fuel grace_env pids forks serving acceptor w :
  _run_multiworker exit_at delay fuel grace_env ((Some <$> pids) ++ None :: forks) serving acceptor w =
    Some ({| now := now w; unreaped := list_to_set pids ∪ unreaped w; calls := calls w |},
          Raise (RuntimeError "fork")).
Proof.
  unfold _run_multiworker.
  assert (forall children w, fork_all ((Some <$> pids) ++ None :: forks) children w =
    (Raise (RuntimeError "fork"),
     {| now := now w; unreaped := list_to_set pids ∪ unreaped w; calls := calls w |})) as ->; [|done].
  induction pids as [|p pids IH]; intros children w'; simpl.
  - destruct w'; simpl. do 2 f_equal. set_solver.
  - rewrite IH. simpl. do 2 f_equal. set_solver.
Qed.

(** The processes started before the first fork that fails. *)
Fixpoint started (forks : list (option nat)) : list nat :=
  match forks with
  | Some p :: forks' => p :: started forks'
  | _ => []
  end.

Lemma started_all forks : None ∉ forks -> forks = Some <$> started forks.
Proof. induction forks as [|[p|] forks IH]; intros H; [done|simpl; f_equal; apply IH; set_solver|set_solver]. Qed.

Lemma started_failing forks : None ∈ forks -> exists rest, forks = (Some <$> started forks) ++ None :: rest.
Proof.
  induction forks as [|[p|] forks IH]; intros H; [set_solver| |by exists forks].
  destruct IH as [rest IH]; [set_solver|]. exists rest. simpl. by f_equal.
Qed.

(** C37: when every fork succeeds, the parent of the workers returns within
    [(grace + 3 s) / 50 ms] polls and leaves nothing behind: it signals every
    worker, reaps every worker exactly once, polling first and killing after the
    grace period, and removes the socket; a worker that ends at least
    [50 + slack] ms before the deadline is never killed.  When a fork fails, the
    error leaves the function before its [try]: the workers started before it are
    neither signalled nor reaped.  Assumed: the process ids are distinct and none
    is that of an unreaped child, and the work of a poll takes at most [slack]
    ms. *)
Theorem parent_reaps_every_worker exit_at delay slack fuel grace_env forks serving acceptor w :
  let pids := started forks in
  (forall i, 0 <= delay i <= slack) -> NoDup pids -> (forall p, p ∈ pids -> p ∉ unreaped w) ->
  let grace := grace_period grace_env in
  grace + 3000 <= 50 * (Z.of_nat fuel - 1) ->
  (None ∉ forks ->
  exists polled killed w',
    _run_multiworker exit_at delay fuel grace_env forks serving acceptor w =
      Some (w', acceptor) /\
    pids ≡ₚ killed ++ polled /\ unreaped w' = unreaped w /\
    calls w' = calls w ++ ((fun p => Kill p SIGTERM) <$> pids) ++ (Polled <$> polled) ++
               (killed ≫= fun p => [Kill p SIGKILL; Waited p]) ++ [Unlink] /\
    Forall (fun p => exited exit_at (now w + serving + grace + 2950 - slack) p = false) killed) /\
  (None ∈ forks ->
    _run_multiworker exit_at delay fuel grace_env forks serving acceptor w =
      Some ({| now := now w; unreaped := list_to_set pids ∪ unreaped w; calls := calls w |},
            Raise (RuntimeError "fork"))).
Proof.
  intros pids Hd Hnd Hfresh grace Hfuel. split; intros H.
  - rewrite (started_all forks H). by apply parent_reaps.
  - destruct (started_failing forks H) as [rest Hf]. unfold pids. rewrite Hf at 1. apply fork_failure_orphans_workers.
Qed.

(** ** Witnesses *)

Definition demo_world : world := {| now := 0; unreaped := ∅; calls := [] |}.

Definition demo_exit (p : nat) : option Z := if bool_decide (p = 1%nat) then Some 7000 else None.

Lemma parent_reaps_every_worker_witness :
  (exists polled killed w',
    _run_multiworker demo_exit (fun _ => 1) 200 (Some (Some 500)) [Some 1%nat; Some 2%nat] 5000 (Ok tt) demo_world =
      Some (w', Ok tt) /\
    [1%nat; 2%nat] ≡ₚ killed ++ polled /\ unreaped w' = ∅ /\
    calls w' = [] ++ [Kill 1 SIGTERM; Kill 2 SIGTERM] ++ (Polled <$> polled) ++
               (killed ≫= fun p => [Kill p SIGKILL; Waited p]) ++ [Unlink] /\
    Forall (fun p => exited demo_exit (0 + 5000 + 500 + 2950 - 1) p = false) killed) /\
  _run_multiworker demo_exit (fun _ => 1) 200 (Some (Some 500)) [Some 1%nat; None; Some 2%nat] 5000 (Ok tt) demo_world =
    Some ({| now := 0; unreaped := {[1%nat]}; calls := [] |}, Raise (RuntimeError "fork")).
Proof.
  split.
  - apply (parent_reaps_every_worker demo_exit (fun _ => 1) 1 200 (Some (Some 500)) [Some 1%nat; Some 2%nat] 5000
             (Ok tt) demo_world); simpl; try lia; [repeat constructor; set_solver|set_solver|set_solver].
  - refine (proj2 (parent_reaps_every_worker demo_exit (fun _ => 1) 1 200 (Some (Some 500))
             [Some 1%nat; None; Some 2%nat] 5000 (Ok tt) demo_world _ _ _ _) _);
      simpl; try lia; [repeat constructor; set_solver|set_solver|set_solver].
Defined.

End Workers.
