(* ===== verification/Templates.v ===== *)
(** Path templates as the door matches them (applications.py:
    [_oneshot_mutate_outer_scope], [_ws_door_table]): the template is cut at its
    ["{name}"] and ["{name:path}"] groups, turned into a regular expression and
    matched against the request path. *)

From S2P Require Import Prelude.

Module Templates.

(** ** Cutting a template *)

(** An item of the pattern: an escaped character, or the named group of a
    parameter, [.+] under the [path] converter and [[^/]+] otherwise. *)
Inductive item := Chr (c : ascii) | Par (name : text) (path : bool).

Definition is_brace (c : ascii) : bool := bool_decide (c ∈ ["{"; "}"]%char).
Definition is_name_char (c : ascii) : bool := negb (is_brace c || bool_decide (c = ":"%char)).
Definition is_conv_char (c : ascii) : bool := negb (is_brace c).

(** The longest prefix of characters with [p], and the rest. *)
Fixpoint span (p : ascii -> bool) (t : text) : text * text :=
  match t with
  | c :: t' => if p c then let '(l, r) := span p t' in (c :: l, r) else ([], t)
  | [] => ([], [])
  end.

(** [([^{}:]+)(?::([^{}]+))?\}] at the beginning of [t]: the two groups and the
    length of the match. *)
Definition group_at (t : text) : option (text * option text * nat) :=
  let '(name, r) := span is_name_char t in
  match name, r with
  | [], _ => None
  | _, c :: r' =>
      if bool_decide (c = "}"%char) then Some (name, None, S (length name))
      else if bool_decide (c = ":"%char) then
        let '(conv, r'') := span is_conv_char r' in
        match conv, r'' with
        | _ :: _, d :: _ =>
            if bool_decide (d = "}"%char)
            then Some (name, Some conv, S (S (length name + length conv)))
            else None
        | _, _ => None
        end
      else None
  | _, [] => None
  end.

(** The loop over [finditer], left to right; [skip] characters of a match are
    still to be passed over. *)
Fixpoint items (skip : nat) (t : text) : list item :=
  match t, skip with
  | [], _ => []
  | _ :: t', S n => items n t'
  | c :: t', O =>
      if bool_decide (c = "{"%char) then
        match group_at t' with
        | Some (name, conv, n) => Par name (bool_decide (conv = Some (lit "path"))) :: items n t'
        | None => Chr c :: items 0 t'
        end
      else Chr c :: items 0 t'
  end.

Definition names (l : list item) : list text :=
  omap (fun i => match i with Par n _ => Some n | Chr _ => None end) l.

Definition is_ident_start (c : ascii) : bool :=
  let n := code c in
  ((65 <=? n) && (n <=? 90) || (97 <=? n) && (n <=? 122) || (n =? 95))%N.
Definition is_ident_char (c : ascii) : bool :=
  is_ident_start c || ((48 <=? code c) && (code c <=? 57))%N.

(** A group name must be an identifier (of ASCII letters here). *)
Definition is_identifier (n : text) : bool :=
  match n with
  | c :: n' => is_ident_start c && forallb is_ident_char n'
  | [] => false
  end.

(** [re.compile] of the pattern: a name that is no identifier or occurs twice
    is an error. *)
Definition compile (r_path : text) : option (list item) :=
  let l := items 0 r_path in
  if forallb is_identifier (names l) && bool_decide (NoDup (names l)) then Some l else None.

(** ** Matching *)

Fixpoint first_some {A B} (f : A -> option B) (l : list A) : option B :=
  match l with
  | [] => None
  | x :: l' => match f x with Some y => Some y | None => first_some f l' end
  end.

(** The characters a group takes: [.] is anything but a line feed. *)
Definition allowed (path : bool) (c : ascii) : bool :=
  if path then negb (bool_decide (c = LF)) else negb (bool_decide (c = "/"%char)).

(** [n], [n - 1], ..., [1] *)
Fixpoint down_from (n : nat) : list nat :=
  match n with O => [] | S m => n :: down_from m end.

(** [regex.match(path)] with [groupdict()]: groups are greedy and give
    characters back one at a time; [$] also matches before a final line feed. *)
Fixpoint rmatch (l : list item) (t : text) : option (list (text * text)) :=
  match l with
  | [] => if bool_decide (t = [] \/ t = [LF]) then Some [] else None
  | Chr c :: l' =>
      match t with
      | d :: t' => if bool_decide (c = d) then rmatch l' t' else None
      | [] => None
      end
  | Par n p :: l' =>
      first_some (fun k => match rmatch l' (drop k t) with
                           | Some ps => Some ((n, take k t) :: ps)
                           | None => None
                           end)
        (down_from (length (span (allowed p) t).1))
  end.

(** ** What the pattern means *)

(** The text of a pattern under values for its groups, in order. *)
Fixpoint fill (l : list item) (vs : list text) : text :=
  match l, vs with
  | [], _ => []
  | Chr c :: l', _ => c :: fill l' vs
  | Par _ _ :: l', v :: vs' => v ++ fill l' vs'
  | Par _ _ :: l', [] => fill l' []
  end.

Fixpoint fits (l : list item) (vs : list text) : Prop :=
  match l, vs with
  | [], [] => True
  | Chr _ :: l', _ => fits l' vs
  | Par _ p :: l', v :: vs' => v <> [] /\ forallb (allowed p) v = true /\ fits l' vs'
  | _, _ => False
  end.

(** *** Lemmas *)

Lemma span_app p t : t = (span p t).1 ++ (span p t).2.
Proof.
  induction t as [|c t IH]; simpl; [done|]. destruct (p c); [|done].
  destruct (span p t) as [l r]. simpl in *. by f_equal.
Qed.

Lemma span_forall p t : forallb p (span p t).1 = true.
Proof.
  induction t as [|c t IH]; simpl; [done|]. destruct (p c) eqn:E; [|done].
  destruct (span p t) as [l r]. simpl in *. by rewrite E.
Qed.

Lemma span_prefix p v r : forallb p v = true -> exists k, (span p (v ++ r)).1 = v ++ k.
Proof.
  induction v as [|c v IH]; simpl; [by eauto|]. intros [-> Hv]%andb_prop.
  destruct (IH Hv) as [k Hk]. destruct (span p (v ++ r)) as [l s]. simpl in *. exists k. by rewrite Hk.
Qed.

Lemma span_stop p v c r : forallb p v = true -> p c = false -> span p (v ++ c :: r) = (v, c :: r).
Proof. induction v as [|d v IH]; simpl; [by intros _ ->|]. intros [-> Hv]%andb_prop Hc. by rewrite IH. Qed.

Lemma span_all p v : forallb p v = true -> span p v = (v, []).
Proof. induction v as [|d v IH]; simpl; [done|]. intros [-> Hv]%andb_prop. by rewrite IH. Qed.

Lemma elem_of_down_from n k : k ∈ down_from n <-> (1 <= k <= n)%nat.
Proof.
  induction n as [|n IH]; simpl; [split; [by intros ?%not_elem_of_nil|lia]|].
  rewrite elem_of_cons, IH. lia.
Qed.

Lemma first_some_Some {A B} (f : A -> option B) l y :
  first_some f l = Some y -> exists x, x ∈ l /\ f x = Some y.
Proof.
  induction l as [|x l IH]; simpl; [done|]. destruct (f x) eqn:E.
  - intros [= ->]. exists x. split; [left|done].
  - intros (x' & ? & ?)%IH. exists x'. split; [by right|done].
Qed.

Lemma first_some_None {A B} (f : A -> option B) l : first_some f l = None <-> forall x, x ∈ l -> f x = None.
Proof.
  induction l as [|x l IH]; simpl; [set_solver|]. destruct (f x) eqn:E.
  - split; [done|]. intros H. specialize (H x ltac:(left)). congruence.
  - rewrite IH. set_solver.
Qed.

Lemma allowed_take p t k :
  (k <= length (span (allowed p) t).1)%nat -> forallb (allowed p) (take k t) = true.
Proof.
  intros Hk. rewrite (span_app (allowed p) t), take_app_le by done.
  pose proof (span_forall (allowed p) t) as H.
  rewrite <-(take_drop k (span (allowed p) t).1), forallb_app in H. by apply andb_prop in H as [? _].
Qed.

Lemma rmatch_sound l t ps :
  rmatch l t = Some ps ->
  ps.*1 = names l /\ fits l ps.*2 /\ (t = fill l ps.*2 \/ t = fill l ps.*2 ++ [LF]).
Proof.
  revert t ps. induction l as [|[c|n p] l IH]; intros t ps; cbn [rmatch].
  - case_bool_decide as E; [|done]. intros [= <-]. destruct E as [-> | ->]; split_and!; try done; [by left|by right].
  - destruct t as [|d t]; [done|]. case_bool_decide; [subst|done].
    intros (? & ? & Ht)%IH. split_and!; [done|done|]. simpl. destruct Ht as [<- | ->]; auto.
  - intros (k & Hk & H)%first_some_Some. apply elem_of_down_from in Hk.
    destruct (rmatch l (drop k t)) as [ps'|] eqn:E; [|done]. injection H as <-.
    apply IH in E as (Hn & Hf & Ht). cbn [fits fill fmap list_fmap fst snd].
    change (names (Par n p :: l)) with (n :: names l). rewrite <-Hn.
    assert (k <= length t)%nat as Hl.
    { rewrite (span_app (allowed p) t), length_app. lia. }
    split_and!; try done; [|by apply allowed_take; lia|].
    + intros Hnil%(f_equal length). rewrite length_take in Hnil. simpl in Hnil. lia.
    + rewrite <-app_assoc. rewrite <-(take_drop k t) at 1 3.
      destruct Ht as [Ht|Ht]; rewrite Ht at 1 2; auto.
Qed.

(** ** Properties *)

(** a match is right.  The path is the template with each group replaced by
    its value, but for a final line feed, and every value is non-empty and
    contains no slash (under [path]: no line feed). *)
Theorem match_is_sound l t ps :
  rmatch l t = Some ps ->
  ps.*1 = names l /\ fits l ps.*2 /\ (t = fill l ps.*2 \/ t = fill l ps.*2 ++ [LF]).
Proof. apply rmatch_sound. Qed.

Lemma fits_take p v t :
  forallb (allowed p) v = true -> v <> [] ->
  length v ∈ down_from (length (span (allowed p) (v ++ t)).1).
Proof.
  intros Hv Hne. apply elem_of_down_from. destruct (span_prefix (allowed p) v t Hv) as [k ->].
  rewrite length_app. destruct v; [done|]. simpl. lia.
Qed.

(** a path made from the template by values its groups accept is never
    missed. *)
Theorem match_is_complete l vs : fits l vs -> exists ps, rmatch l (fill l vs) = Some ps.
Proof.
  revert vs. induction l as [|[c|n p] l IH]; intros vs; cbn [rmatch fill fits].
  - destruct vs; [|done]. intros _. exists []. by rewrite bool_decide_eq_true_2 by auto.
  - intros H. rewrite bool_decide_eq_true_2 by done. by apply IH.
  - destruct vs as [|v vs]; [done|]. intros (Hne & Hv & Hf). destruct (IH vs Hf) as [ps Hps].
    destruct (first_some _ _) as [ps'|] eqn:E; [by exists ps'|].
    rewrite first_some_None in E. specialize (E (length v) (fits_take p v (fill l vs) Hv Hne)).
    by rewrite drop_app_length, Hps in E.
Qed.

(** Every parameter ends its segment, and a [path] parameter the template. *)
Fixpoint separated (l : list item) : bool :=
  match l with
  | [] => true
  | Chr _ :: l' => separated l'
  | [Par _ _] => true
  | Par _ false :: Chr c :: l' => bool_decide (c = "/"%char) && separated l'
  | Par _ _ :: _ => false
  end.

Lemma first_some_hd {A B} (f : A -> option B) x l y : f x = Some y -> first_some f (x :: l) = Some y.
Proof. intros H. simpl. by rewrite H. Qed.

Lemma par_greedy n p l v t ps :
  v <> [] -> length (span (allowed p) (v ++ t)).1 = length v -> rmatch l t = Some ps ->
  rmatch (Par n p :: l) (v ++ t) = Some ((n, v) :: ps).
Proof.
  intros Hne Hl Ht. cbn [rmatch]. rewrite Hl. destruct (length v) as [|k] eqn:E; [by destruct v|].
  apply first_some_hd. cbv beta. rewrite <-E.
  by rewrite drop_app_length, take_app_length, Ht.
Qed.

Lemma rmatch_separated l vs :
  separated l = true -> fits l vs -> rmatch l (fill l vs) = Some (zip (names l) vs).
Proof.
  revert vs. induction l as [|[c|n p] l IH]; intros vs Hs Hf.
  - by destruct vs.
  - cbn [rmatch fill]. rewrite bool_decide_eq_true_2 by done. by apply IH.
  - destruct vs as [|v vs]; [done|]. destruct Hf as (Hne & Hv & Hf).
    change (zip (names (Par n p :: l)) (v :: vs)) with ((n, v) :: zip (names l) vs).
    destruct l as [|[c|] l].
    + destruct vs; [|done]. change (fill _ _) with (v ++ []).
      apply par_greedy; [done| |done]. by rewrite app_nil_r, span_all.
    + destruct p; [done|]. cbn [separated] in Hs. apply andb_prop in Hs as [->%bool_decide_eq_true Hs].
      apply par_greedy; [done| |by apply IH]. cbn [fill]. by rewrite span_stop.
    + by destruct p.
Qed.

(** round trip.  When every parameter is a whole segment, and a [path]
    parameter comes last, the path made from given values is matched with
    exactly these values. *)
Theorem separated_roundtrip l vs :
  separated l = true -> fits l vs -> rmatch l (fill l vs) = Some (zip (names l) vs).
Proof. apply rmatch_separated. Qed.

(** A template that has a literal text only is matched by itself, and by itself
    with a line feed. *)
Example match_ex :
  rmatch (items 0 "/files/{name}/{rest:path}") "/files/a/b/c" =
    Some [(lit "name", lit "a"); (lit "rest", lit "b/c")] /\
  rmatch (items 0 "/{a}-{b}") "/x-y-z" = Some [(lit "a", lit "x-y"); (lit "b", lit "z")] /\
  rmatch (items 0 "/ok") (lit "/ok" ++ [LF]) = Some [] /\
  items 0 "/{:x}{}" = Chr <$> lit "/{:x}{}".
Proof. vm_compute. done. Qed.

(** ** Witnesses *)

Definition demo_items : list item := items 0 "/files/{name}/{rest:path}".

Lemma match_is_sound_witness :
  fits demo_items [lit "a"; lit "b/c"] /\ lit "/files/a/b/c" = fill demo_items [lit "a"; lit "b/c"].
Proof.
  destruct (match_is_sound demo_items "/files/a/b/c" [(lit "name", lit "a"); (lit "rest", lit "b/c")]
              ltac:(vm_compute; reflexivity)) as (_ & Hf & [H|H]); [by split|].
  exfalso. revert H. vm_compute. discriminate.
Defined.

Lemma match_is_complete_witness : exists ps, rmatch demo_items "/files/a/b/c" = Some ps.
Proof.
  apply (match_is_complete demo_items [lit "a"; lit "b/c"]). split_and!; vm_compute; done.
Defined.

Lemma separated_roundtrip_witness :
  rmatch demo_items "/files/a/b/c" = Some [(lit "name", lit "a"); (lit "rest", lit "b/c")].
Proof.
  apply (separated_roundtrip demo_items [lit "a"; lit "b/c"]); [reflexivity|].
  split_and!; vm_compute; done.
Defined.

End Templates.
