(* ===== verification/Mounts.v ===== *)
(** Requests under a mount (applications.py: [_asgi_try_http_mount], the WebSocket
    mounts of [__call__], [_asgi_call_mounted]): which mounted application gets a
    request, with which scope, and what becomes of the exceptions it raises.

    A path is a sequence of code points, of which only the slash matters; which
    of them Latin-1 has is what the encoding of [raw_path] depends on. *)

From S2P Require Import Prelude.

Module Mounts.

(** ** Choosing a mount *)

(** A mounted object: a router of this package, another ASGI application, or
    something that cannot be called. *)
Inductive mounted := MRouter (n : nat) | MApp (n : nat) | MOther.

Section Select.

Context {C : Type} `{!EqDecision C} (slash : C) (latin1 : C -> option ascii).

Record scope := Scope {
  s_path : list C;
  s_raw_path : option bytes;      (* [None]: what the server set *)
  s_root_path : list C;
  s_method : text }.

(** A route of the root router: its path, its methods (in upper case), and for
    a Starlette [Mount] the application, if it has one. *)
Record route := {
  r_path : option (list C);
  r_methods : list text;
  r_mount : option (option mounted) }.

Definition looks_like_mount (r : route) : bool := match r_mount r with Some _ => true | None => false end.

(** [path.rstrip("/")] *)
Fixpoint lstrip_slash (p : list C) : list C :=
  match p with
  | c :: p' => if bool_decide (c = slash) then lstrip_slash p' else p
  | [] => []
  end.

Definition rstrip_slash (p : list C) : list C := reverse (lstrip_slash (reverse p)).

(** [path == prefix or path.startswith(prefix + "/")] *)
Definition under (prefix path : list C) : bool :=
  bool_decide (path = prefix) || bool_decide (prefix ++ [slash] `prefix_of` path).

Fixpoint encode (p : list C) : option bytes :=
  match p with
  | [] => Some []
  | c :: p' => match latin1 c, encode p' with
               | Some b, Some bs => Some (b :: bs)
               | _, _ => None
               end
  end.

(** The scope of the mounted application. *)
Definition sub_scope (prefix : list C) (s : scope) : res scope :=
  let sub := match drop (length prefix) (s_path s) with [] => [slash] | p => p end in
  match encode sub with
  | Some raw => Ok (Scope sub (Some raw) (s_root_path s ++ prefix) (s_method s))
  | None => Raise UnicodeEncodeError
  end.

(** A route that is not a mount, has exactly this path and takes the method. *)
Definition is_hit (s : scope) (r : route) : bool :=
  bool_decide (r_path r = Some (s_path s)) && bool_decide (s_method s ∈ r_methods r).

Definition callable (m : mounted) : bool := match m with MOther => false | _ => true end.

(** The loop over [_mounts]; root mounts are left to the matcher. *)
Fixpoint try_mounts (ms : list (option (list C) * mounted)) (routes : list route) (s : scope)
    : res (option (mounted * scope)) :=
  match ms with
  | [] => Ok None
  | (mount_path, m) :: ms' =>
      let prefix := rstrip_slash (default [] mount_path) in
      if bool_decide (prefix = []) || negb (under prefix (s_path s)) then try_mounts ms' routes s
      else if existsb (is_hit s) routes then try_mounts ms' routes s
      else match sub_scope prefix s with
           | Raise e => Raise e
           | Ok s' => if callable m then Ok (Some (m, s')) else try_mounts ms' routes s
           end
  end.

(** The loop over the Starlette mounts among the routes. *)
Fixpoint try_route_mounts (rs : list route) (routes : list route) (s : scope)
    : res (option (mounted * scope)) :=
  match rs with
  | [] => Ok None
  | r :: rs' =>
      match r_mount r with
      | None => try_route_mounts rs' routes s
      | Some app =>
          let prefix := rstrip_slash (default [] (r_path r)) in
          if bool_decide (prefix = []) || negb (under prefix (s_path s)) then try_route_mounts rs' routes s
          else if existsb (fun r' => negb (looks_like_mount r') && is_hit s r') routes
          then try_route_mounts rs' routes s
          else match app with
               | None => try_route_mounts rs' routes s
               | Some m => match sub_scope prefix s with
                           | Raise e => Raise e
                           | Ok s' => if callable m then Ok (Some (m, s')) else try_route_mounts rs' routes s
                           end
               end
      end
  end.

Definition _asgi_try_http_mount (ms : list (option (list C) * mounted)) (routes : list route) (s : scope)
    : res (option (mounted * scope)) :=
  res_bind (try_mounts ms routes s) (fun o =>
    match o with
    | Some x => Ok (Some x)
    | None => try_route_mounts routes routes s
    end).

(** The WebSocket mounts of [__call__]: no route shadows a mount, and a router
    of this package is left to the WebSocket door. *)
Fixpoint try_ws_mounts (ms : list (option (list C) * mounted)) (s : scope)
    : res (option (mounted * scope)) :=
  match ms with
  | [] => Ok None
  | (mount_path, m) :: ms' =>
      let prefix := rstrip_slash (default [] mount_path) in
      if bool_decide (prefix = []) || negb (under prefix (s_path s)) then try_ws_mounts ms' s
      else match m with
           | MApp _ => match sub_scope prefix s with Ok s' => Ok (Some (m, s')) | Raise e => Raise e end
           | _ => try_ws_mounts ms' s
           end
  end.

Definition route_mounts (routes : list route) : list (option (list C) * mounted) :=
  omap (fun r => match r_mount r with
                 | Some (Some m) => Some (r_path r, m)
                 | _ => None
                 end) routes.

Definition ws_mount (ms : list (option (list C) * mounted)) (routes : list route) (s : scope)
    : res (option (mounted * scope)) :=
  res_bind (try_ws_mounts ms s) (fun o =>
    match o with
    | Some x => Ok (Some x)
    | None => try_ws_mounts (route_mounts routes) s
    end).

End Select.

(** ** Driving a mounted application *)

Inductive http_msg := Start (status : Z) | Body (n : nat) (more : bool).

(** How an application ends: an [HTTPException], another exception, or not at
    all badly. *)
Inductive failure := HttpExc (e : nat) | OtherExc (e : nat).

(** An application: what it sends before it ends. *)
Record asgi_run := { sends : list http_msg; ends : option failure }.

Definition is_start (m : http_msg) : bool := match m with Start _ => true | _ => false end.

(** [_asgi_call_mounted]: [lookup] is [_lookup_exception_handler], [default] the
    handler of real FastAPI; a handler gives a response, which is an application
    too, or raises. *)
Definition _asgi_call_mounted (lookup : nat -> option (nat -> asgi_run + nat))
    (default : nat -> asgi_run + nat) (app : asgi_run) : list http_msg * option failure :=
  match ends app with
  | Some (HttpExc e) =>
      if existsb is_start (sends app) then (sends app, Some (HttpExc e))
      else match (match lookup e with Some h => h | None => default end) e with
           | inl response => (sends app ++ sends response, ends response)
           | inr e' => (sends app, Some (OtherExc e'))
           end
  | r => (sends app, r)
  end.

(** ** Lemmas *)

Section Facts.

Context {C : Type} `{!EqDecision C} (slash : C) (latin1 : C -> option ascii).
Notation scope := (@scope C).
Notation under := (under slash).
Notation sub_scope := (sub_scope slash latin1).

(** [prefix] ends before a slash of [path], or where [path] ends. *)
Definition segment_prefix (prefix path rest : list C) : Prop :=
  path = prefix ++ rest /\ (rest = [] \/ exists r, rest = slash :: r).

Lemma under_spec prefix path :
  under prefix path = true <-> exists rest, segment_prefix prefix path rest.
Proof.
  unfold Mounts.under, segment_prefix. rewrite orb_true_iff, !bool_decide_eq_true. split.
  - intros [-> | [r ->]]; [exists []; rewrite app_nil_r; auto|].
    exists (slash :: r). rewrite <-app_assoc. eauto.
  - intros (rest & -> & [-> | [r ->]]); [left; by rewrite app_nil_r|].
    right. exists r. by rewrite <-app_assoc.
Qed.

(** What a mounted application is given. *)
Record mounted_scope (prefix : list C) (s s' : scope) : Prop := {
  ms_nonempty : prefix <> [];
  ms_rest : exists rest, segment_prefix prefix (s_path s) rest /\
              s_path s' = match rest with [] => [slash] | _ => rest end;
  ms_raw : s_raw_path s' = encode latin1 (s_path s') /\ encode latin1 (s_path s') <> None;
  ms_root : s_root_path s' = s_root_path s ++ prefix;
  ms_method : s_method s' = s_method s }.

Lemma sub_scope_spec prefix s s' :
  prefix <> [] -> under prefix (s_path s) = true -> sub_scope prefix s = Ok s' ->
  mounted_scope prefix s s'.
Proof.
  intros Hne (rest & Hp & Hr)%under_spec. unfold Mounts.sub_scope. rewrite Hp, drop_app_length.
  destruct (encode latin1 _) as [raw|] eqn:E; [|done]. intros [= <-].
  split; simpl; try done; [|by rewrite E].
  exists rest. split; [done|]. by destruct rest.
Qed.

(** A choice made by one of the loops comes from a mount of the list. *)
Definition chosen (ms : list (option (list C) * mounted)) (s : scope) (x : mounted * scope) : Prop :=
  exists mount_path, (mount_path, x.1) ∈ ms /\ callable x.1 = true /\
    mounted_scope (rstrip_slash slash (default [] mount_path)) s x.2.

Lemma chosen_cons y ms s x : chosen ms s x -> chosen (y :: ms) s x.
Proof. intros (p & Hin & H). exists p. split; [by right|done]. Qed.

Lemma chosen_here mount_path m ms s s' :
  callable m = true ->
  bool_decide (rstrip_slash slash (default [] mount_path) = []) = false ->
  under (rstrip_slash slash (default [] mount_path)) (s_path s) = true ->
  sub_scope (rstrip_slash slash (default [] mount_path)) s = Ok s' ->
  chosen ((mount_path, m) :: ms) s (m, s').
Proof.
  intros Hc Hne%bool_decide_eq_false Hu Hs. exists mount_path. split; [left|split; [done|]].
  by apply sub_scope_spec.
Qed.

(** The guard both loops begin with. *)
Lemma guard_false prefix path :
  bool_decide (prefix = []) || negb (under prefix path) = false ->
  bool_decide (prefix = []) = false /\ under prefix path = true.
Proof. intros [-> ?%negb_false_iff]%orb_false_iff. done. Qed.

Lemma try_mounts_chosen ms routes s x :
  try_mounts slash latin1 ms routes s = Ok (Some x) -> chosen ms s x.
Proof.
  induction ms as [|[mp m] ms IH]; simpl; [done|].
  destruct (_ || _) eqn:E; [intros; by apply chosen_cons, IH|]. apply guard_false in E as [E1 E2].
  destruct (existsb _ _); [intros; by apply chosen_cons, IH|].
  destruct (Mounts.sub_scope _ _ _ s) as [s'|e] eqn:Es; [|done].
  destruct (callable m) eqn:Ec; [|intros; by apply chosen_cons, IH].
  intros [= <-]. by apply chosen_here.
Qed.

Lemma try_route_mounts_chosen rs routes s x :
  try_route_mounts slash latin1 rs routes s = Ok (Some x) -> chosen (route_mounts rs) s x.
Proof.
  induction rs as [|r rs IH]; simpl; [done|].
  unfold route_mounts. simpl. destruct (r_mount r) as [[m|]|] eqn:Em; simpl.
  - destruct (_ || _) eqn:E; [intros; by apply chosen_cons, IH|]. apply guard_false in E as [E1 E2].
    destruct (existsb _ _); [intros; by apply chosen_cons, IH|].
    destruct (Mounts.sub_scope _ _ _ s) as [s'|e] eqn:Es; [|done].
    destruct (callable m) eqn:Ec; [|intros; by apply chosen_cons, IH].
    intros [= <-]. by apply chosen_here.
  - destruct (_ || _); [apply IH|]. destruct (existsb _ _); apply IH.
  - apply IH.
Qed.

Lemma try_ws_mounts_chosen ms s x :
  try_ws_mounts slash latin1 ms s = Ok (Some x) -> chosen ms s x.
Proof.
  induction ms as [|[mp m] ms IH]; simpl; [done|].
  destruct (_ || _) eqn:E; [intros; by apply chosen_cons, IH|]. apply guard_false in E as [E1 E2].
  destruct m; try (intros; by apply chosen_cons, IH).
  destruct (Mounts.sub_scope _ _ _ s) as [s'|e] eqn:Es; [|done].
  intros [= <-]. by apply chosen_here.
Qed.

Lemma chosen_app_l ms ms' s x : chosen ms s x -> chosen (ms ++ ms') s x.
Proof. intros (p & Hin & H). exists p. split; [set_solver|done]. Qed.
Lemma chosen_app_r ms ms' s x : chosen ms' s x -> chosen (ms ++ ms') s x.
Proof. intros (p & Hin & H). exists p. split; [set_solver|done]. Qed.

End Facts.

(** ** Properties *)

(** a request goes to a mounted application only under the mount's own
    path: the prefix is a whole sequence of segments of the request path, the
    application sees the rest (["/"] for the mount point itself) under the
    extended root path, and nothing else of the scope changes.  The same holds
    of WebSocket connections. *)
Theorem mount_gets_its_own_subtree {C} `{!EqDecision C} (slash : C) latin1 ms routes s m s' :
  _asgi_try_http_mount slash latin1 ms routes s = Ok (Some (m, s')) \/
  ws_mount slash latin1 ms routes s = Ok (Some (m, s')) ->
  exists mount_path, (mount_path, m) ∈ ms ++ route_mounts routes /\ callable m = true /\
    mounted_scope slash latin1 (rstrip_slash slash (default [] mount_path)) s s'.
Proof.
  intros H. change (chosen slash latin1 (ms ++ route_mounts routes) s (m, s')).
  destruct H as [H|H]; apply res_bind_Ok in H as ([x|] & Hx & H).
  - injection H as ->. eapply chosen_app_l, try_mounts_chosen, Hx.
  - eapply chosen_app_r, try_route_mounts_chosen, H.
  - injection H as ->. eapply chosen_app_l, try_ws_mounts_chosen, Hx.
  - eapply chosen_app_r, try_ws_mounts_chosen, H.
Qed.

(** mounts compose.  A request under a mount at [p] and there under a mount
    at [q] arrives with the scope of one mount at [p ++ q]. *)
Theorem nested_mounts_compose {C} `{!EqDecision C} (slash : C) latin1 p q s s1 :
  p <> [] -> q <> [] ->
  (exists rest, s_path s = p ++ q ++ rest /\ (rest = [] \/ exists r, rest = slash :: r)) ->
  sub_scope slash latin1 p s = Ok s1 ->
  sub_scope slash latin1 q s1 = sub_scope slash latin1 (p ++ q) s.
Proof.
  intros Hp Hq (rest & Hs & Hr). unfold sub_scope. rewrite Hs, app_assoc, drop_app_length.
  rewrite <-app_assoc, drop_app_length.
  destruct (q ++ rest) as [|c l] eqn:Eq; [by destruct q|].
  destruct (encode latin1 (c :: l)) eqn:E; [|done]. intros [= <-]. simpl.
  rewrite <-Eq, drop_app_length. by rewrite app_assoc.
Qed.

(** a request under a mount whose remaining path has a character outside
    Latin-1 fails with [UnicodeEncodeError], though ASGI paths are Unicode. *)
Theorem mount_rejects_unicode {C} `{!EqDecision C} (slash : C) latin1 mount_path m ms routes s rest c :
  let prefix := rstrip_slash slash mount_path in
  prefix <> [] -> existsb (is_hit s) routes = false ->
  s_path s = prefix ++ slash :: rest -> c ∈ rest -> latin1 c = None ->
  _asgi_try_http_mount slash latin1 ((Some mount_path, m) :: ms) routes s = Raise UnicodeEncodeError.
Proof.
  intros prefix Hne Hh Hp Hc Hl. unfold _asgi_try_http_mount. cbn [try_mounts].
  change (rstrip_slash slash (default [] (Some mount_path))) with prefix. cbv zeta.
  assert (under slash prefix (s_path s) = true) as ->
    by (apply under_spec; exists (slash :: rest); split; eauto).
  rewrite bool_decide_eq_false_2 by done. simpl. rewrite Hh.
  unfold sub_scope. rewrite Hp, drop_app_length.
  assert (encode latin1 (slash :: rest) = None) as ->; [|done].
  assert (encode latin1 rest = None) as H; [|simpl; rewrite H; by destruct (latin1 slash)].
  clear Hp. induction rest as [|d rest IH]; [by apply not_elem_of_nil in Hc|].
  simpl. apply elem_of_cons in Hc as [-> |Hc]; [by rewrite Hl|]. rewrite IH by done. by destruct (latin1 d).
Qed.

(** a mounted application never starts two responses and its
    [HTTPException] never leaves the parent before a response began: the
    parent's handler answers instead. *)
Theorem mounted_app_answers_once lookup default app :
  (length (filter (fun m => is_start m = true) (sends app)) <= 1)%nat ->
  (forall e h r, lookup e = Some h \/ h = default -> h e = inl r ->
    (length (filter (fun m => is_start m = true) (sends r)) <= 1)%nat /\ forall x, ends r <> Some (HttpExc x)) ->
  let '(sent, failed) := _asgi_call_mounted lookup default app in
  (length (filter (fun m => is_start m = true) sent) <= 1)%nat /\
  (forall e, failed = Some (HttpExc e) -> existsb is_start sent = true).
Proof.
  intros Ha Hh. unfold _asgi_call_mounted. destruct (ends app) as [[e|e]|] eqn:E; [|by split..].
  destruct (existsb is_start (sends app)) eqn:Es; [by split|].
  assert (filter (fun m => is_start m = true) (sends app) = []) as Hnil.
  { clear -Es. induction (sends app) as [|m l IH]; [done|]. simpl in Es.
    apply orb_false_iff in Es as [Em El]. rewrite filter_cons, decide_False by congruence. by apply IH. }
  set (h := match lookup e with Some h => h | None => default end).
  assert (lookup e = Some h \/ h = default) as Hor by (subst h; destruct (lookup e); auto).
  destruct (h e) as [r|e'] eqn:Er.
  - destruct (Hh e h r Hor Er) as [H1 H2]. rewrite filter_app, Hnil. split; [done|].
    intros x Hx. by destruct (H2 x).
  - rewrite Hnil. split; [simpl; lia|done].
Qed.

(** ** Witnesses *)

Definition demo_scope (p : text) : scope := Scope p None (lit "/root") (lit "GET").

Lemma mount_gets_its_own_subtree_witness :
  exists mount_path, (mount_path, MApp 1) ∈ [(Some (lit "/api/"), MOther); (Some (lit "/api/"), MApp 1)] ++
      route_mounts [] /\ callable (MApp 1) = true /\
    mounted_scope "/"%char Some (rstrip_slash "/"%char (default [] mount_path)) (demo_scope "/api/x")
      (Scope (lit "/x") (Some (lit "/x")) (lit "/root/api") (lit "GET")).
Proof.
  apply (mount_gets_its_own_subtree "/"%char Some [(Some (lit "/api/"), MOther); (Some (lit "/api/"), MApp 1)]
           [] (demo_scope "/api/x")). left. vm_compute. reflexivity.
Defined.

Lemma nested_mounts_compose_witness :
  sub_scope "/"%char Some (lit "/b") (Scope (lit "/b/x") (Some (lit "/b/x")) (lit "/root/a") (lit "GET")) =
  sub_scope "/"%char Some (lit "/a" ++ lit "/b") (demo_scope "/a/b/x").
Proof.
  apply (nested_mounts_compose "/"%char Some (lit "/a") (lit "/b") (demo_scope "/a/b/x")); try done.
  exists (lit "/x"). split; [done|]. right. by exists (lit "x").
Defined.

Lemma mount_rejects_unicode_witness :
  _asgi_try_http_mount 47%N (fun n => if (n <? 256)%N then Some (ascii_of_N n) else None)
    [(Some [47; 97]%N, MApp 1)] [] (Scope [47; 97; 47; 26085]%N None [] (lit "GET")) =
  Raise UnicodeEncodeError.
Proof.
  apply (mount_rejects_unicode 47%N (fun n => if (n <? 256)%N then Some (ascii_of_N n) else None)
           [47; 97]%N (MApp 1) [] [] (Scope [47; 97; 47; 26085]%N None [] (lit "GET")) [26085%N] 26085%N);
    try done. left.
Defined.

Lemma mounted_app_answers_once_witness :
  let default e := inl {| sends := [Start 404; Body e false]; ends := None |} in
  let '(sent, failed) := _asgi_call_mounted (fun _ => None) default
                           {| sends := []; ends := Some (HttpExc 7) |} in
  (length (filter (fun m => is_start m = true) sent) <= 1)%nat /\
  (forall e, failed = Some (HttpExc e) -> existsb is_start sent = true).
Proof.
  intros default.
  apply (mounted_app_answers_once (fun _ => None) default {| sends := []; ends := Some (HttpExc 7) |});
    [vm_compute; lia|].
  intros e h r [?| ->]; [done|]. intros [= <-]. split; [vm_compute; lia|done].
Defined.

End Mounts.
