(* ===== verification/Door.v ===== *)
(** The ASGI entry point and the in-process door (applications.py): [__call__],
    the registration of the assembled router ([_ensure_oneshot_registered],
    [_door_fingerprint]), the decoration of the scope with the matched route
    ([_oneshot_mutate_outer_scope]), the WebSocket table ([_ws_door_table]), one
    HTTP request through the Rust engine ([_asgi_oneshot_http]) and the chains of
    raw ASGI middlewares around it, around lifespans and around WebSockets. *)

From S2P Require Import Prelude Effects Templates Lifespan Middleware Mounts.

Module Door.
Import Effects.

(** ** The matched route *)

(** A route of the root router: one with a path template (of ASCII methods, in
    upper case), one without a path, or a marker of an included router with the
    contexts real FastAPI gives it, each with its compiled expression (if any)
    and its methods. *)
Record context := {
  ctx_regex : option (text -> option (list (text * text)));
  ctx_methods : list text;
  ctx_route : nat }.

Inductive entry :=
| Plain (id : nat) (path : text) (methods : list text)
| Pathless (id : nat)
| Marker (contexts : list context).

(** What is written to the scope: [route] and [path_params]. *)
Abbreviation decoration := (nat * list (text * text))%type (only parsing).

(** The first loop; [None] is an exception, which the [try] swallows. *)
Fixpoint decorate_plain (method path : text) (es : list entry) : option (option decoration) :=
  match es with
  | [] => Some None
  | Plain id ((_ :: _) as r_path) methods :: es' =>
      match Templates.compile r_path with
      | None => None
      | Some regex =>
          match Templates.rmatch regex path with
          | Some ps => if bool_decide (method ∈ methods) then Some (Some (id, ps))
                       else decorate_plain method path es'
          | None => decorate_plain method path es'
          end
      end
  | _ :: es' => decorate_plain method path es'
  end.

Definition decorate_context (method path : text) (c : context) : option decoration :=
  match ctx_regex c with
  | None => None
  | Some f => match f path with
              | None => None
              | Some ps => if bool_decide (ctx_methods c = []) || bool_decide (method ∈ ctx_methods c)
                           then Some (ctx_route c, ps) else None
              end
  end.

Fixpoint decorate_markers (method path : text) (es : list entry) : option decoration :=
  match es with
  | [] => None
  | Marker cs :: es' => match Templates.first_some (decorate_context method path) cs with
                        | Some d => Some d
                        | None => decorate_markers method path es'
                        end
  | _ :: es' => decorate_markers method path es'
  end.

(** [_oneshot_mutate_outer_scope]: the decoration, if any. *)
Definition _oneshot_mutate_outer_scope (method path : text) (es : list entry) : option decoration :=
  match decorate_plain method path es with
  | None => None
  | Some (Some d) => Some d
  | Some None => decorate_markers method path es
  end.

(** *** The WebSocket table *)

(** A collected route dict, as far as the table reads it. *)
Record route_dict := { rd_websocket : bool; rd_exclude : bool; rd_path : text; rd_endpoint : nat }.

(** [_ws_door_table]: [None] is an error of [re.compile]. *)
Fixpoint ws_table (rds : list route_dict) : option (list (list Templates.item * nat)) :=
  match rds with
  | [] => Some []
  | rd :: rds' =>
      if negb (rd_websocket rd) || rd_exclude rd || bool_decide (rd_path rd = []) then ws_table rds'
      else match Templates.compile (rd_path rd), ws_table rds' with
           | Some regex, Some l => Some ((regex, rd_endpoint rd) :: l)
           | _, _ => None
           end
  end.

(** The choice [_asgi_ws_door] makes: the endpoint and its parameters. *)
Definition ws_match (path : text) (table : list (list Templates.item * nat))
    : option (nat * list (text * text)) :=
  Templates.first_some (fun '(regex, ep) => (fun ps => (ep, ps)) <$> Templates.rmatch regex path) table.

(** ** Registration *)

(** A router below the application: how many routes and low-priority routes it
    has, and the routers it includes. *)
Inductive rtree := RT (routes low_priority : nat) (included : list rtree).

Fixpoint _sub_count (r : rtree) : nat :=
  let 'RT n l cs := r in (n + l + list_sum (_sub_count <$> cs))%nat.

(** What the fingerprint is taken of.  [root_included] are the routers the root
    router itself includes. *)
Record structure := {
  st_routes : nat;
  st_http_middlewares : nat;
  st_middleware_stack : nat;
  st_raw_asgi : nat;
  st_mounts : nat;
  st_overrides : gset nat;
  st_exception_handlers : bool;
  st_sentry : bool;
  st_included : list rtree;
  st_low_priority : nat;
  st_root_included : list rtree }.

Definition _door_fingerprint (s : structure)
    : nat * nat * nat * nat * nat * option (gset nat) * bool * bool * nat * nat :=
  (st_routes s, st_http_middlewares s, st_middleware_stack s, st_raw_asgi s, st_mounts s,
   if bool_decide (st_overrides s = ∅) then None else Some (st_overrides s),
   st_exception_handlers s, st_sentry s, list_sum (_sub_count <$> st_included s), st_low_priority s).

(** The door's caches.  [registered] is the structure the Rust router was built
    from. *)
Record door := {
  structure_now : structure;
  registered : option structure;
  reg_fingerprint : option (nat * nat * nat * nat * nat * option (gset nat) * bool * bool * nat * nat);
  ws_cached : bool;
  watch_cached : option bool }.

(** [_build_server_args] adds the dynamic routes to the root router, once. *)
Definition add_dynamic (n : nat) (s : structure) : structure :=
  {| st_routes := st_routes s + n; st_http_middlewares := st_http_middlewares s;
     st_middleware_stack := st_middleware_stack s; st_raw_asgi := st_raw_asgi s;
     st_mounts := st_mounts s; st_overrides := st_overrides s;
     st_exception_handlers := st_exception_handlers s; st_sentry := st_sentry s;
     st_included := st_included s; st_low_priority := st_low_priority s;
     st_root_included := st_root_included s |}.

(** [_ensure_oneshot_registered]: [n] is how many routes building the arguments
    adds this time. *)
Definition _ensure_oneshot_registered (n : nat) (d : door) : door :=
  if bool_decide (is_Some (registered d)) &&
     bool_decide (reg_fingerprint d = Some (_door_fingerprint (structure_now d)))
  then d
  else
    let s := add_dynamic n (structure_now d) in
    {| structure_now := s; registered := Some s; reg_fingerprint := Some (_door_fingerprint s);
       ws_cached := false; watch_cached := None |}.

(** ** One HTTP request *)

Inductive in_msg := Request (body : bytes) (more : bool) | Disconnect.
Inductive out_msg := Start (status : Z) (headers : list (bytes * bytes)) | Body (b : bytes) (more : bool).

(** How the call ends; [Blocked]: it waits for a message that does not come. *)
Inductive ending := Returned | Raised (e : exn) | Blocked.

(** The body of the request: the loop over [receive]. *)
Inductive drained := Got (body : bytes) | ClientGone | Waits.

Fixpoint drain (ms : list in_msg) (body : bytes) : drained :=
  match ms with
  | [] => Waits
  | Disconnect :: _ => ClientGone
  | Request b more :: ms' => if more then drain ms' (body ++ b) else Got (body ++ b)
  end.

Definition bodiless (status : Z) : bool := (status <? 200) || (status =? 204) || (status =? 304).

Definition is_content_length (h : bytes * bytes) : bool := bool_decide (lower h.1 = lit "content-length").

Definition out_headers (status : Z) (headers : list (bytes * bytes)) : list (bytes * bytes) :=
  if bodiless status then filter (fun h => is_content_length h = false) headers else headers.

Section Oneshot.

(** Whether the disconnect event is set before the [i]th chunk is asked for, and
    the exception the [i]th frame meets in [send]. *)
Context (gone : nat -> bool) (send_fails : nat -> option exn).

(** How the pump ends: the stream is exhausted, or closed because the client is
    gone, or a cancellation passes through. *)
Inductive pumped := Exhausted | Closed | Cancelled (e : exn).

(** The pump over the chunks from the [i]th on: the frames sent, and the end. *)
Fixpoint pump (watched : bool) (i : nat) (chunks : list bytes) : list out_msg * pumped :=
  if watched && gone i then ([], Closed)
  else match chunks with
       | [] => ([], Exhausted)
       | c :: chunks' =>
           match send_fails (S i) with
           | Some e => ([], if is_exception e then Closed else Cancelled e)
           | None => let '(ms, r) := pump watched (S i) chunks' in (Body c true :: ms, r)
           end
       end.

(** [_asgi_oneshot_http]: [engine] is the Rust dispatch of the request with this
    body; it gives the response with the chunks of its body and the server
    exceptions it recorded, or raises.  [watched] says whether the disconnect
    watch is armed, [captured] what was recorded before.  The result: frames
    sent, the recorded exceptions left, and the ending. *)
Definition _asgi_oneshot_http (engine : bytes -> (Z * list (bytes * bytes) * list bytes * list exn) + exn)
    (watched : bool) (ms : list in_msg) (captured : list exn) : list out_msg * list exn * ending :=
  match drain ms [] with
  | ClientGone => ([], captured, Returned)
  | Waits => ([], captured, Blocked)
  | Got body =>
      match engine body with
      | inr e => ([], captured, Raised e)
      | inl (status, headers, chunks, recorded) =>
          let captured := captured ++ recorded in
          let finish frames := match captured with
                               | [] => (frames, [], Returned)
                               | e :: _ => (frames, [], Raised e)
                               end in
          match send_fails 0 with
          | Some e => ([], captured, Raised e)
          | None =>
              let start := Start status (out_headers status headers) in
              match pump watched 0 chunks with
              | (frames, Cancelled e) => (start :: frames, captured, Raised e)
              | (frames, Closed) => finish (start :: frames)
              | (frames, Exhausted) =>
                  match send_fails (S (length chunks)) with
                  | Some e => (start :: frames, captured, Raised e)
                  | None => finish (start :: frames ++ [Body [] false])
                  end
              end
          end
      end
  end.

End Oneshot.

(** ** Chains of raw ASGI middlewares *)

Section Chains.

(** An application, a middleware class with its keywords: constructed around an
    application, or without one, each possibly raising [TypeError]. *)
Context {app : Type}.

Record mw_class := { with_app : app -> option app; without_app : option app }.

(** [try: mw_cls(app=composed, ...) except TypeError: mw_cls(...)] *)
Definition construct (m : mw_class) (composed : app) : res app :=
  match with_app m composed with
  | Some a => Ok a
  | None => match without_app m with Some a => Ok a | None => Raise TypeError end
  end.

Fixpoint wrap (ms : list mw_class) (composed : app) : res app :=
  match ms with
  | [] => Ok composed
  | m :: ms' => res_bind (construct m composed) (wrap ms')
  end.

(** [_asgi_oneshot_http_with_mw]: forward over the registration order. *)
Definition http_chain (registered : list mw_class) (leaf : app) : res app := wrap registered leaf.

(** [_start_lifespan_mw_chain] and [_ws_entry_with_asgi_chain]: backward. *)
Definition lifespan_chain (registered : list mw_class) (inner : app) : res app :=
  wrap (reverse registered) inner.
Definition ws_chain (registered : list mw_class) (inner : app) : res app :=
  wrap (reverse registered) inner.

End Chains.
Arguments mw_class : clear implicits.

(** *** Which middlewares the outer HTTP chain has *)

Definition _door_has_tower_raw_mix (s : Middleware.mst) : bool :=
  match Middleware.raw_asgi_middlewares s with
  | [] => false
  | _ => existsb (fun x => match x.1.1 with Middleware.Tower => true | Middleware.Raw => false end)
           (Middleware.registration_log s)
  end.

(** [_resolve_tower_bound_to_asgi_class]: the class of real Starlette, by name;
    [load] is whether it can be loaded. *)
Definition _resolve_tower_bound_to_asgi_class (load : text -> bool) (m : Middleware.mw_arg) : option text :=
  match Middleware._tower_type_for m with
  | Some t => if Middleware.tower_bound (Some t) && load t then Some t else None
  | None => None
  end.

Definition _door_outer_mw_list (load : text -> bool) (s : Middleware.mst)
    : list (text + Middleware.mw_arg) :=
  if _door_has_tower_raw_mix s then
    omap (fun x => match x.1.1 with
                   | Middleware.Tower => inl <$> _resolve_tower_bound_to_asgi_class load x.1.2
                   | Middleware.Raw => Some (inr x.1.2)
                   end) (Middleware.registration_log s)
  else [].

(** ** The entry point *)

Section Entry.

Context {C : Type} `{!EqDecision C} (slash : C) (latin1 : C -> option ascii).

Inductive scope_type := TLifespan (ms : list Lifespan.message) | THttp | TWebSocket | TOther.

(** Where a request goes. *)
Inductive target :=
| ToMount (m : Mounts.mounted) (s : @Mounts.scope C)
| ToDoor (s : @Mounts.scope C)
| ToProxy (s : @Mounts.scope C)
| ToLifespan (replies : list Lifespan.reply)
| Ignored.

Record config := {
  c_root_path : list C;
  c_mounts : list (option (list C) * Mounts.mounted);
  c_routes : list (@Mounts.route C);
  c_force_proxy : bool }.

(** The configured root path, unless the server gave one. *)
Definition inject_root (cfg : config) (s : @Mounts.scope C) : @Mounts.scope C :=
  match Mounts.s_root_path s with
  | [] => Mounts.Scope (Mounts.s_path s) (Mounts.s_raw_path s) (c_root_path cfg) (Mounts.s_method s)
  | _ => s
  end.

Definition lift {A} (r : res A) : M Lifespan.app Lifespan.event A :=
  match r with Ok a => ret a | Raise e => raise e end.

Definition serve (cfg : config) (door : bool) (s : @Mounts.scope C) : target :=
  if negb (c_force_proxy cfg) && door then ToDoor s else ToProxy s.

Definition __call__ (cfg : config) (ty : scope_type) (s : @Mounts.scope C)
    : M Lifespan.app Lifespan.event target :=
  match ty with
  | TLifespan ms => bind (Lifespan._asgi_lifespan ms) (fun rs => ret (ToLifespan rs))
  | THttp =>
      let s := inject_root cfg s in
      bind Lifespan.http_entry (fun _ =>
      bind (lift (Mounts._asgi_try_http_mount slash latin1 (c_mounts cfg) (c_routes cfg) s)) (fun o =>
        match o with
        | Some (m, s') => ret (ToMount m s')
        | None => bind get (fun a => ret (serve cfg (Lifespan.oneshot_door a) s))
        end))
  | TWebSocket =>
      let s := inject_root cfg s in
      bind (lift (Mounts.ws_mount slash latin1 (c_mounts cfg) (c_routes cfg) s)) (fun o =>
        match o with
        | Some (m, s') => ret (ToMount m s')
        | None => bind get (fun a => ret (serve cfg (Lifespan.oneshot_door a) s))
        end)
  | TOther => ret Ignored
  end.

End Entry.

(** ** Lemmas *)

Lemma pump_spec gone send_fails watched i chunks :
  let '(frames, r) := pump gone send_fails watched i chunks in
  exists k, frames = (fun c => Body c true) <$> take k chunks /\ (r = Exhausted -> k = length chunks).
Proof.
  revert i. induction chunks as [|c chunks IH]; intros i; simpl.
  - destruct (watched && gone i); by exists 0%nat.
  - destruct (watched && gone i); [by exists 0%nat|].
    destruct (send_fails (S i)) as [e|].
    + destruct (is_exception e); by exists 0%nat.
    + specialize (IH (S i)). destruct (pump gone send_fails watched (S i) chunks) as [ms r].
      destruct IH as (k & -> & Hk). exists (S k). split; [done|]. intros ->. simpl. by rewrite Hk.
Qed.

Lemma pump_all gone send_fails watched i chunks :
  (forall j, (watched && gone j) = false) -> (forall j, send_fails j = None) ->
  pump gone send_fails watched i chunks = ((fun c => Body c true) <$> chunks, Exhausted).
Proof.
  intros Hg Hs. revert i. induction chunks as [|c chunks IH]; intros i; simpl; rewrite Hg; [done|].
  by rewrite Hs, IH.
Qed.

(** ** Properties *)

(** The frames of one response: its start, chunks of its body in order, and the
    final empty frame if the body was sent whole. *)
Definition response_frames (status : Z) (headers : list (bytes * bytes)) (chunks : list bytes)
    (frames : list out_msg) : Prop :=
  exists k, frames = Start status (out_headers status headers) :: ((fun c => Body c true) <$> take k chunks) \/
            frames = Start status (out_headers status headers) ::
                       ((fun c => Body c true) <$> chunks) ++ [Body [] false].

(** C26: whatever the client, the sender and the engine do, the frames the door
    sends are none at all or those of exactly one response of the engine, cut
    short at worst; the body is never declared complete before all its chunks
    were sent. *)
Theorem door_sends_one_response gone send_fails engine watched ms captured frames left r :
  _asgi_oneshot_http gone send_fails engine watched ms captured = (frames, left, r) ->
  frames = [] \/
  exists body status headers chunks recorded,
    drain ms [] = Got body /\ engine body = inl (status, headers, chunks, recorded) /\
    response_frames status headers chunks frames.
Proof.
  unfold _asgi_oneshot_http. destruct (drain ms []) as [body| |]; [|by intros [= <- _ _]; auto..].
  destruct (engine body) as [[[[status headers] chunks] recorded]|e] eqn:Ee; [|by intros [= <- _ _]; auto].
  destruct (send_fails 0%nat); [by intros [= <- _ _]; auto|].
  pose proof (pump_spec gone send_fails watched 0 chunks) as Hp.
  destruct (pump gone send_fails watched 0 chunks) as [fs pr]. destruct Hp as (k & Hfs & Hk).
  intros H. right. exists body, status, headers, chunks, recorded. split; [done|split; [done|]].
  exists k. destruct pr; [|destruct (captured ++ recorded)..|].
  - specialize (Hk eq_refl). subst k fs. rewrite firstn_all in H |- *.
    destruct (send_fails _); [left; congruence|].
    right. destruct (captured ++ recorded); congruence.
  - left. congruence.
  - left. congruence.
  - left. congruence.
Qed.

(** an undisturbed request.  The engine gets the whole request body; the
    response is its status, its headers and all its chunks, closed by an empty
    frame; an exception the server recorded is raised only then, and none is
    left for the next request. *)
Theorem undisturbed_request gone send_fails engine watched bodies last rest captured
    status headers chunks recorded :
  (forall j, (watched && gone j) = false) -> (forall j, send_fails j = None) ->
  engine (concat (bodies ++ [last])) = inl (status, headers, chunks, recorded) ->
  _asgi_oneshot_http gone send_fails engine watched
    (((fun b => Request b true) <$> bodies) ++ Request last false :: rest) captured =
  (Start status (out_headers status headers) :: ((fun c => Body c true) <$> chunks) ++ [Body [] false], [],
   match captured ++ recorded with [] => Returned | e :: _ => Raised e end).
Proof.
  intros Hg Hs He.
  assert (forall acc, drain (((fun b => Request b true) <$> bodies) ++ Request last false :: rest) acc =
            Got (acc ++ concat (bodies ++ [last]))) as Hd.
  { clear He. induction bodies as [|b bodies IH]; intros acc; simpl; [by rewrite app_nil_r|].
    rewrite IH. by rewrite <-app_assoc. }
  unfold _asgi_oneshot_http. rewrite Hd. simpl. rewrite He, Hs, pump_all, Hs by done.
  by destruct (captured ++ recorded).
Qed.

(** a bodiless response (1xx, 204, 304) carries no [Content-Length], in
    whatever case it is written, and loses no other header. *)
Theorem bodiless_has_no_content_length status headers :
  bodiless status = true ->
  Forall (fun h => is_content_length h = false) (out_headers status headers) /\
  out_headers status headers `sublist_of` headers /\
  (forall h, h ∈ headers -> is_content_length h = false -> h ∈ out_headers status headers).
Proof.
  unfold out_headers. intros ->. split_and!.
  - apply Forall_forall. by intros h [? _]%list_elem_of_filter.
  - apply sublist_filter.
  - intros h Hin Hh. by apply list_elem_of_filter.
Qed.

(** *** The matched route *)

(** A plain route that takes this request. *)
Definition plain_hit (method path : text) (e : entry) : option decoration :=
  match e with
  | Plain id ((_ :: _) as r_path) methods =>
      if bool_decide (method ∈ methods)
      then (fun ps => (id, ps)) <$> Templates.rmatch (Templates.items 0 r_path) path else None
  | _ => None
  end.

Definition compiles (e : entry) : bool :=
  match e with
  | Plain _ ((_ :: _) as r_path) _ => bool_decide (is_Some (Templates.compile r_path))
  | _ => true
  end.

Lemma compile_items p l : Templates.compile p = Some l -> l = Templates.items 0 p.
Proof. unfold Templates.compile. case_match; congruence. Qed.

Lemma decorate_plain_first method path es :
  forallb compiles es = true ->
  decorate_plain method path es = Some (Templates.first_some (plain_hit method path) es).
Proof.
  induction es as [|[id [|c p] methods|id|cs] es IH]; simpl; intros H; try by auto.
  apply andb_prop in H as [[l Hl]%bool_decide_eq_true Hes]. rewrite Hl.
  rewrite (compile_items _ _ Hl). destruct (Templates.rmatch _ path); case_bool_decide; simpl; auto.
Qed.

(** the scope is decorated with the first route whose template matches the
    path and whose methods contain the request's, as long as the templates are
    valid, and the recorded parameters are right: put into the template they
    give the path back (but for a final line feed). *)
Theorem decorated_with_first_match method path es1 id p methods es2 ps :
  forallb compiles (es1 ++ Plain id p methods :: es2) = true ->
  Forall (fun e => plain_hit method path e = None) es1 ->
  p <> [] -> method ∈ methods -> Templates.rmatch (Templates.items 0 p) path = Some ps ->
  _oneshot_mutate_outer_scope method path (es1 ++ Plain id p methods :: es2) = Some (id, ps) /\
  (path = Templates.fill (Templates.items 0 p) ps.*2 \/
   path = Templates.fill (Templates.items 0 p) ps.*2 ++ [LF]).
Proof.
  intros Hc Hno Hp Hm Hr.
  pose proof (Templates.rmatch_sound _ _ _ Hr) as (_ & _ & Hfill). split; [|done].
  unfold _oneshot_mutate_outer_scope. rewrite decorate_plain_first by done.
  assert (Templates.first_some (plain_hit method path) (es1 ++ Plain id p methods :: es2) = Some (id, ps))
    as ->; [|done].
  induction Hno as [|e es1 He _ IH]; simpl.
  - destruct p; [done|]. rewrite bool_decide_eq_true_2, Hr by done. done.
  - rewrite He. apply IH. simpl in Hc. by apply andb_prop in Hc as [_ ?].
Qed.

(** a WebSocket connection goes to the first WebSocket route, not excluded,
    whose template matches, with parameters that give the path back. *)
Theorem ws_door_takes_first_match rds table path ep ps :
  ws_table rds = Some table -> ws_match path table = Some (ep, ps) ->
  exists rds1 rd rds2, rds = rds1 ++ rd :: rds2 /\ rd_endpoint rd = ep /\
    rd_websocket rd = true /\ rd_exclude rd = false /\
    (path = Templates.fill (Templates.items 0 (rd_path rd)) ps.*2 \/
     path = Templates.fill (Templates.items 0 (rd_path rd)) ps.*2 ++ [LF]) /\
    Forall (fun rd' => rd_websocket rd' && negb (rd_exclude rd') = true -> rd_path rd' <> [] ->
              Templates.rmatch (Templates.items 0 (rd_path rd')) path = None) rds1.
Proof.
  unfold ws_match. revert table. induction rds as [|rd rds IH]; intros table; simpl; [by intros [= <-]|].
  destruct (negb (rd_websocket rd) || rd_exclude rd || bool_decide (rd_path rd = [])) eqn:Eg.
  - intros Ht Hm. destruct (IH table Ht Hm) as (rds1 & rd0 & rds2 & -> & H & Hw & Hx & Hf & HF).
    exists (rd :: rds1), rd0, rds2. split_and!; try done. constructor; [|done].
    intros [Hw' Hx'%negb_true_iff]%andb_prop Hp. rewrite Hw', Hx' in Eg. simpl in Eg.
    by apply bool_decide_eq_true in Eg.
  - apply orb_false_iff in Eg as [[Hw%negb_false_iff Hx]%orb_false_iff Hp%bool_decide_eq_false].
    destruct (Templates.compile (rd_path rd)) as [regex|] eqn:Ec; [|done].
    destruct (ws_table rds) as [table'|] eqn:Et; [|done]. intros [= <-]. simpl.
    pose proof (compile_items _ _ Ec) as ->.
    destruct (Templates.rmatch _ path) as [ps'|] eqn:Er; simpl.
    + intros [= <- <-]. apply Templates.rmatch_sound in Er as (_ & _ & Hf).
      exists [], rd, rds. split_and!; done.
    + intros Hm. destruct (IH table' eq_refl Hm) as (rds1 & rd0 & rds2 & -> & H & Hw' & Hx' & Hf & HF).
      exists (rd :: rds1), rd0, rds2. split_and!; try done. by constructor.
Qed.

(** *** Registration *)

(** A router gained a route, or a router that has one, at any depth. *)
Inductive tree_grows : rtree -> rtree -> Prop :=
| grow_route n l cs : tree_grows (RT n l cs) (RT (S n) l cs)
| grow_low n l cs : tree_grows (RT n l cs) (RT n (S l) cs)
| grow_include n l cs c : (0 < _sub_count c)%nat -> tree_grows (RT n l cs) (RT n l (cs ++ [c]))
| grow_child n l cs1 c c' cs2 : tree_grows c c' -> tree_grows (RT n l (cs1 ++ c :: cs2)) (RT n l (cs1 ++ c' :: cs2)).

(** The same of the routers an application includes. *)
Inductive forest_grows : list rtree -> list rtree -> Prop :=
| forest_child ts1 t t' ts2 : tree_grows t t' -> forest_grows (ts1 ++ t :: ts2) (ts1 ++ t' :: ts2)
| forest_include ts t : (0 < _sub_count t)%nat -> forest_grows ts (ts ++ [t]).

Definition with_structure (s : structure) (d : door) : door :=
  {| structure_now := s; registered := registered d; reg_fingerprint := reg_fingerprint d;
     ws_cached := ws_cached d; watch_cached := watch_cached d |}.

(** An application gained a route, a middleware or a mount, its overrides
    changed, it got its first exception handler or Sentry was installed, or the
    routers it includes grew, any number of times.  (What is below the routers
    that the root router itself includes is not looked at.) *)
Inductive grows (s s' : structure) : Prop :=
| grow_count :
    (st_routes s < st_routes s' \/ st_http_middlewares s < st_http_middlewares s' \/
     st_middleware_stack s < st_middleware_stack s' \/ st_raw_asgi s < st_raw_asgi s' \/
     st_mounts s < st_mounts s' \/ st_low_priority s < st_low_priority s')%nat -> grows s s'
| grow_overrides : st_overrides s <> st_overrides s' -> grows s s'
| grow_handlers : st_exception_handlers s <> st_exception_handlers s' -> grows s s'
| grow_sentry : st_sentry s <> st_sentry s' -> grows s s'
| grow_included : tc forest_grows (st_included s) (st_included s') -> grows s s'.

Lemma sub_count_app cs1 c cs2 :
  list_sum (_sub_count <$> cs1 ++ c :: cs2) =
    (list_sum (_sub_count <$> cs1) + _sub_count c + list_sum (_sub_count <$> cs2))%nat.
Proof. rewrite fmap_app, fmap_cons, list_sum_app. simpl. lia. Qed.

Lemma sub_count_snoc cs c :
  list_sum (_sub_count <$> cs ++ [c]) = (list_sum (_sub_count <$> cs) + _sub_count c)%nat.
Proof. rewrite sub_count_app. simpl. lia. Qed.

Lemma tree_grows_count t t' : tree_grows t t' -> (_sub_count t < _sub_count t')%nat.
Proof.
  induction 1; cbn [_sub_count]; [lia..| |].
  - rewrite sub_count_snoc. lia.
  - rewrite !(sub_count_app cs1). lia.
Qed.

Lemma forest_grows_count ts ts' :
  tc forest_grows ts ts' -> (list_sum (_sub_count <$> ts) < list_sum (_sub_count <$> ts'))%nat.
Proof.
  assert (forall ts ts', forest_grows ts ts' ->
            (list_sum (_sub_count <$> ts) < list_sum (_sub_count <$> ts'))%nat) as H1.
  { intros ? ? [ts1 t t' ts2 Ht%tree_grows_count|us t Ht]; [rewrite !sub_count_app|rewrite sub_count_snoc]; lia. }
  induction 1 as [ts ts' H|ts ts1 ts' H _ IH]; apply H1 in H; lia.
Qed.

Lemma grows_fingerprint s s' : grows s s' -> _door_fingerprint s <> _door_fingerprint s'.
Proof.
  unfold _door_fingerprint. intros [Hlt|Ho|Hh|Hs|Ht%forest_grows_count] H.
  - injection H. lia.
  - injection H as _ _ _ _ _ Hov _ _ _ _. apply Ho. repeat case_bool_decide; congruence.
  - injection H. congruence.
  - injection H. congruence.
  - injection H. lia.
Qed.

(** The recorded fingerprint is that of the registered structure. *)
Definition reg_inv (d : door) : Prop := reg_fingerprint d = _door_fingerprint <$> registered d.

Lemma ensure_inv n d : reg_inv d -> reg_inv (_ensure_oneshot_registered n d).
Proof. unfold _ensure_oneshot_registered. by destruct (_ && _). Qed.

(** A door in use: the application was changed, or a request came (building the
    arguments added [n] routes if it registered). *)
Inductive use := Change (s : structure) | Serve (n : nat).

Definition used (d : door) (u : use) : door :=
  match u with Change s => with_structure s d | Serve n => _ensure_oneshot_registered n d end.

(** The door of a new application. *)
Definition new_door (s : structure) (ws : bool) (watch : option bool) : door :=
  {| structure_now := s; registered := None; reg_fingerprint := None; ws_cached := ws; watch_cached := watch |}.

Lemma used_inv uses d : reg_inv d -> reg_inv (foldl used d uses).
Proof.
  revert d. induction uses as [|[s|n] uses IH]; intros d Hd; [done|apply IH, Hd|]. apply IH, ensure_inv, Hd.
Qed.

Lemma ensure_current n d : reg_inv d ->
  exists s, registered (_ensure_oneshot_registered n d) = Some s /\
    _door_fingerprint s = _door_fingerprint (structure_now (_ensure_oneshot_registered n d)).
Proof.
  intros Hi. unfold _ensure_oneshot_registered. destruct (_ && _) eqn:E; [|by exists (add_dynamic n (structure_now d))].
  apply andb_prop in E as [[s Hs]%bool_decide_eq_true E%bool_decide_eq_true].
  exists s. split; [done|]. unfold reg_inv in Hi. rewrite E, Hs in Hi. simpl in Hi. congruence.
Qed.

(** C31: after an addition that the fingerprint covers, the next request is not
    served by the old router.  At any point in the life of an application,
    whatever changes and requests came before: a request leaves a registered
    structure that has the fingerprint of the application's present structure;
    another request without a change registers nothing; and when the application
    has gained a route, middleware, mount or low-priority route, changed its
    overrides, got its first exception handler or Sentry, or the routers it
    includes have grown (at any depth, any number of times), the next request
    registers the new structure and drops the tables derived from the old one.
    Routers that the root router itself includes are not covered. *)
Theorem additions_are_registered s0 ws watch uses n m s' :
  let d1 := _ensure_oneshot_registered n (foldl used (new_door s0 ws watch) uses) in
  (exists s, registered d1 = Some s /\ _door_fingerprint s = _door_fingerprint (structure_now d1)) /\
  _ensure_oneshot_registered m d1 = d1 /\
  (grows (structure_now d1) s' ->
   let d2 := _ensure_oneshot_registered m (with_structure s' d1) in
   registered d2 = Some (add_dynamic m s') /\ structure_now d2 = add_dynamic m s' /\ ws_cached d2 = false /\
   watch_cached d2 = None).
Proof.
  assert (reg_inv (foldl used (new_door s0 ws watch) uses)) as Hi by (by apply used_inv).
  destruct (ensure_current n _ Hi) as (s & Hs & Hf). pose proof (ensure_inv n _ Hi) as Hi1.
  intros d1. fold d1 in Hs, Hf, Hi1. unfold reg_inv in Hi1. rewrite Hs in Hi1. simpl in Hi1. split_and!.
  - by exists s.
  - unfold _ensure_oneshot_registered at 1. rewrite Hs, Hi1, Hf.
    by rewrite !bool_decide_eq_true_2 by (done || by eexists).
  - intros Hg%grows_fingerprint. cbn zeta. unfold _ensure_oneshot_registered at 1 2 3 4. simpl.
    rewrite Hs, Hi1, Hf. rewrite (bool_decide_eq_false_2 (Some _ = Some _)) by congruence.
    by rewrite andb_false_r.
Qed.

(** routes added to a router that the root router itself includes are not
    noticed: the fingerprint does not look there, and the next request is
    served by the router registered before. *)
Theorem root_included_additions_are_missed n d s' :
  let d1 := _ensure_oneshot_registered n d in
  reg_inv d -> st_included s' = st_included (structure_now d1) ->
  (st_routes s', st_http_middlewares s', st_middleware_stack s', st_raw_asgi s', st_mounts s',
   st_overrides s', st_exception_handlers s', st_sentry s', st_low_priority s') =
  (st_routes (structure_now d1), st_http_middlewares (structure_now d1),
   st_middleware_stack (structure_now d1), st_raw_asgi (structure_now d1), st_mounts (structure_now d1),
   st_overrides (structure_now d1), st_exception_handlers (structure_now d1), st_sentry (structure_now d1),
   st_low_priority (structure_now d1)) ->
  forall m, registered (_ensure_oneshot_registered m (with_structure s' d1)) = registered d1.
Proof.
  intros d1 Hi Hinc Heq m.
  assert (_door_fingerprint s' = _door_fingerprint (structure_now d1)) as Hf
    by (injection Heq as E1 E2 E3 E4 E5 E6 E7 E8 E9; unfold _door_fingerprint;
        by rewrite Hinc, E1, E2, E3, E4, E5, E6, E7, E8, E9).
  assert (is_Some (registered d1) /\ reg_fingerprint d1 = Some (_door_fingerprint (structure_now d1))) as [H1 H2].
  { subst d1. unfold _ensure_oneshot_registered. destruct (_ && _) eqn:E; [|done].
    by apply andb_prop in E as [?%bool_decide_eq_true ?%bool_decide_eq_true]. }
  unfold _ensure_oneshot_registered at 1. simpl. rewrite H2, Hf.
  by rewrite !bool_decide_eq_true_2.
Qed.

(** *** Chains *)

Section ChainFacts.

Context {app : Type}.

(** A class whose constructor takes the application. *)
Definition takes_app (f : app -> app) : mw_class app := {| with_app := fun a => Some (f a); without_app := None |}.

Lemma wrap_takes (fs : list (app -> app)) a :
  wrap (takes_app <$> fs) a = Ok (foldl (fun a f => f a) a fs).
Proof. revert a. induction fs as [|f fs IH]; intros a; simpl; [done|]. apply IH. Qed.

End ChainFacts.

(** A tracing middleware: it notes when it is entered and left. *)
Definition tracing (n : nat) : mw_class (list nat) := takes_app (fun inner => n :: inner ++ [n]).

Lemma tracing_foldl (ns : list nat) (t : list nat) :
  foldl (fun a f => f a) t ((fun n (inner : list nat) => n :: inner ++ [n]) <$> ns) = reverse ns ++ t ++ ns.
Proof.
  revert t. induction ns as [|n ns IH]; intros t; simpl; [by rewrite app_nil_r|].
  rewrite IH, reverse_cons, <-!app_assoc. simpl. by rewrite <-app_assoc.
Qed.

(** around HTTP requests the last registered raw middleware is outermost;
    around lifespans and WebSocket connections the first registered is, so that
    the same registrations nest the opposite way. *)
Theorem raw_chains_nest_opposite_ways (ns : list nat) (leaf : list nat) :
  http_chain (tracing <$> ns) leaf = Ok (reverse ns ++ leaf ++ ns) /\
  lifespan_chain (tracing <$> ns) leaf = Ok (ns ++ leaf ++ reverse ns) /\
  ws_chain (tracing <$> ns) leaf = Ok (ns ++ leaf ++ reverse ns).
Proof.
  assert (forall ns, wrap (tracing <$> ns) leaf = Ok (reverse ns ++ leaf ++ ns)) as H.
  { intros ms.
    assert (tracing <$> ms = takes_app <$> ((fun n inner => n :: inner ++ [n]) <$> ms)) as ->
      by (by rewrite <-list_fmap_compose).
    rewrite wrap_takes. f_equal. apply tracing_foldl. }
  unfold http_chain, lifespan_chain, ws_chain. rewrite <-fmap_reverse, !H, reverse_involutive. done.
Qed.

(** *** The entry point *)

(** an application whose start-up failed refuses every HTTP request, also
    those for its mounts, before anything else happens. *)
Theorem failed_app_refuses_http {C} `{!EqDecision C} (slash : C) latin1 cfg s a :
  Lifespan._startup_state a = Lifespan.Failed ->
  __call__ slash latin1 cfg THttp s a = ([], a, Raise Lifespan.earlier).
Proof.
  intros Hf. cbn [__call__]. unfold bind at 1, Lifespan.http_entry, bind at 1, get. rewrite Hf. simpl.
  unfold Lifespan._run_startup_handlers, Lifespan.run_startup_handlers, bind, get. by rewrite Hf.
Qed.

(** a WebSocket connection meets no such check: whatever state the start-up
    is in, also failed or never run, the connection is dispatched and no
    start-up code runs. *)
Theorem websocket_ignores_startup {C} `{!EqDecision C} (slash : C) latin1 cfg s a :
  c_mounts cfg = [] -> c_routes cfg = [] -> c_force_proxy cfg = false -> Lifespan.oneshot_door a = true ->
  __call__ slash latin1 cfg TWebSocket s a = ([], a, Ok (ToDoor (inject_root cfg s))).
Proof.
  intros Hm Hr Hp Hd. cbn [__call__]. unfold Mounts.ws_mount. rewrite Hm, Hr.
  unfold bind, lift, get, ret, serve. simpl. by rewrite Hp, Hd.
Qed.

(** ** Witnesses *)

Definition demo_engine (b : bytes) : (Z * list (bytes * bytes) * list bytes * list exn) + exn :=
  inl (200, [(lit "content-type", lit "text/plain")], [lit "echo "; b], [ValueError]).

Lemma door_sends_one_response_witness :
  [Start 200 [(lit "content-type", lit "text/plain")]; Body (lit "echo ") true] = [] \/
  exists body status headers chunks recorded,
    drain [Request (lit "a") true; Request (lit "b") false] [] = Got body /\
    demo_engine body = inl (status, headers, chunks, recorded) /\
    response_frames status headers chunks
      [Start 200 [(lit "content-type", lit "text/plain")]; Body (lit "echo ") true].
Proof.
  apply (door_sends_one_response (fun i => bool_decide (i = 1%nat)) (fun _ => None) demo_engine true
    [Request (lit "a") true; Request (lit "b") false] [] _ [] (Raised ValueError)).
  vm_compute. reflexivity.
Defined.

Lemma undisturbed_request_witness :
  _asgi_oneshot_http (fun _ => true) (fun _ => None) demo_engine false
    [Request (lit "a") true; Request (lit "b") false; Disconnect] [] =
  ([Start 200 [(lit "content-type", lit "text/plain")]; Body (lit "echo ") true; Body (lit "ab") true;
    Body [] false], [], Raised ValueError).
Proof.
  apply (undisturbed_request (fun _ => true) (fun _ => None) demo_engine false [lit "a"] (lit "b")
           [Disconnect] [] 200 [(lit "content-type", lit "text/plain")] [lit "echo "; lit "ab"] [ValueError]);
    reflexivity.
Defined.

Lemma bodiless_has_no_content_length_witness :
  let hs := [(lit "Content-Length", lit "0"); (lit "x-a", lit "1")] in
  Forall (fun h => is_content_length h = false) (out_headers 204 hs) /\
  out_headers 204 hs `sublist_of` hs /\
  (forall h, h ∈ hs -> is_content_length h = false -> h ∈ out_headers 204 hs).
Proof. intros hs. apply (bodiless_has_no_content_length 204 hs). reflexivity. Defined.

Lemma decorated_with_first_match_witness :
  let es := [Pathless 0; Plain 1 "/items/{id}" [lit "POST"]; Plain 2 "/items/{id}" [lit "GET"]] in
  _oneshot_mutate_outer_scope "GET" "/items/5" es = Some (2%nat, [(lit "id", lit "5")]) /\
  (lit "/items/5" = Templates.fill (Templates.items 0 "/items/{id}") [lit "5"] \/
   lit "/items/5" = Templates.fill (Templates.items 0 "/items/{id}") [lit "5"] ++ [LF]).
Proof.
  intros es. apply (decorated_with_first_match "GET" "/items/5"
    [Pathless 0; Plain 1 "/items/{id}" [lit "POST"]] 2 "/items/{id}" [lit "GET"] [] [(lit "id", lit "5")]).
  - vm_compute. reflexivity.
  - repeat constructor.
  - done.
  - left.
  - vm_compute. reflexivity.
Defined.

Definition demo_dict (ws : bool) (p : string) (n : nat) : route_dict :=
  {| rd_websocket := ws; rd_exclude := false; rd_path := lit p; rd_endpoint := n |}.

Lemma ws_door_takes_first_match_witness :
  exists rds1 rd rds2, [demo_dict false "/ws/{x}" 1; demo_dict true "/ws/{x}" 2] = rds1 ++ rd :: rds2 /\
    rd_endpoint rd = 2%nat /\ rd_websocket rd = true /\ rd_exclude rd = false /\
    (lit "/ws/a" = Templates.fill (Templates.items 0 (rd_path rd)) [lit "a"] \/
     lit "/ws/a" = Templates.fill (Templates.items 0 (rd_path rd)) [lit "a"] ++ [LF]) /\
    Forall (fun rd' => rd_websocket rd' && negb (rd_exclude rd') = true -> rd_path rd' <> [] ->
              Templates.rmatch (Templates.items 0 (rd_path rd')) "/ws/a" = None) rds1.
Proof.
  apply (ws_door_takes_first_match [demo_dict false "/ws/{x}" 1; demo_dict true "/ws/{x}" 2]
           [(Templates.items 0 "/ws/{x}", 2%nat)] "/ws/a" 2 [(lit "x", lit "a")]);
    vm_compute; reflexivity.
Defined.

Definition demo_structure (routes : nat) (included root_included : list rtree) : structure :=
  {| st_routes := routes; st_http_middlewares := 0; st_middleware_stack := 0; st_raw_asgi := 0;
     st_mounts := 0; st_overrides := ∅; st_exception_handlers := false; st_sentry := false;
     st_included := included; st_low_priority := 0; st_root_included := root_included |}.

Definition demo_door (s : structure) : door := new_door s true (Some true).

Lemma additions_are_registered_witness :
  let s' := demo_structure 4 [RT 1 0 [RT 1 0 []]; RT 1 0 []] [] in
  registered (_ensure_oneshot_registered 0 (with_structure s'
    (_ensure_oneshot_registered 3 (demo_door (demo_structure 1 [RT 1 0 [RT 0 0 []]] []))))) = Some s'.
Proof.
  intros s'.
  destruct (additions_are_registered (demo_structure 1 [RT 1 0 [RT 0 0 []]] []) true (Some true) [] 3 0 s')
    as (_ & _ & H).
  apply H. apply grow_included.
  apply (tc_l _ _ [RT 1 0 [RT 1 0 []]]).
  - apply (forest_child [] (RT 1 0 [RT 0 0 []]) (RT 1 0 [RT 1 0 []]) []).
    apply (grow_child 1 0 [] (RT 0 0 []) (RT 1 0 []) []). constructor.
  - apply tc_once, (forest_include [RT 1 0 [RT 1 0 []]] (RT 1 0 [])). simpl. lia.
Defined.

Lemma root_included_additions_are_missed_witness :
  forall m, registered (_ensure_oneshot_registered m (with_structure (demo_structure 4 [] [RT 1 0 []])
    (_ensure_oneshot_registered 3 (demo_door (demo_structure 1 [] [RT 0 0 []]))))) =
  Some (demo_structure 4 [] [RT 0 0 []]).
Proof.
  apply (root_included_additions_are_missed 3 (demo_door (demo_structure 1 [] [RT 0 0 []]))
           (demo_structure 4 [] [RT 1 0 []])); reflexivity.
Defined.

Definition demo_cfg : config :=
  {| c_root_path := lit "/api"; c_mounts := []; c_routes := []; c_force_proxy := false |}.

Definition failed_app : Lifespan.app :=
  Lifespan.set_phase Lifespan.Failed (Some ValueError) (Lifespan.demo_app [] [] [] None).

Lemma failed_app_refuses_http_witness :
  __call__ "/"%char Some demo_cfg THttp (Mounts.demo_scope "/x") failed_app =
    ([], failed_app, Raise Lifespan.earlier).
Proof. apply (failed_app_refuses_http "/"%char Some demo_cfg). reflexivity. Defined.

Lemma websocket_ignores_startup_witness :
  __call__ "/"%char Some demo_cfg TWebSocket (Mounts.demo_scope "/ws") failed_app =
    ([], failed_app, Ok (ToDoor (Mounts.demo_scope "/ws"))).
Proof. apply (websocket_ignores_startup "/"%char Some demo_cfg); reflexivity. Defined.

End Door.
