(* ===== verification/Drive.v ===== *)
(** Support of the door (_door_support.py): how an [async def] handler is driven
    from synchronous code ([_has_await_in_source], [_uses_running_loop],
    [_make_sync_wrapper] for handlers, [_inline_runner]), the names of parameter
    types ([_get_type_name]) and the validation of request bodies
    ([_FABodyValidator]). *)

From S2P Require Import Prelude.

Module Drive.

(** ** Functions and their source

    A function is its syntax tree, decorated with what happens when a node is
    evaluated: an effect, a suspension, an exception. *)

Inductive susp := KAwait | KAsyncFor | KAsyncWith | KAsyncComp.

Inductive node :=
| Effect (n : nat)                                         (* code of its own, with effect [n] *)
| Other (children : list node)                             (* any other node *)
| Ref (id : text)                                          (* a [Name] or an [Attribute] *)
| CallLoop                                                 (* a call that needs a running loop *)
| RaiseN (e : exn)
| Susp (k : susp) (suspends : bool) (before after : list node)
| Nested (outer inner : list node).                        (* a nested function: decorators and
                                                              defaults, and its body *)

(** [f_source]: whether its source is found and starts with a function. *)
Record func := { f_source : bool; f_decorators : list node; f_body : list node; f_result : nat }.

(** *** Static checks *)

(** [ast.iter_child_nodes] *)
Definition child_nodes (n : node) : list node :=
  match n with
  | Other cs => cs
  | Susp _ _ before after => before ++ after
  | Nested outer inner => outer ++ inner
  | _ => []
  end.

(** The loop over the stack, whose top is the head of the list. *)
Fixpoint scan (fuel : nat) (stack : list node) : option bool :=
  match fuel with
  | O => None
  | S fuel' =>
      match stack with
      | [] => Some false
      | n :: stack' =>
          match n with
          | Susp KAwait _ _ _ | Susp KAsyncFor _ _ _ | Susp KAsyncWith _ _ _ => Some true
          | Nested _ _ => scan fuel' stack'
          | _ => scan fuel' (reverse (child_nodes n) ++ stack')
          end
      end
  end.

Fixpoint size (n : node) : nat :=
  match n with
  | Other cs => S (list_sum (size <$> cs))
  | Susp _ _ before after => S (list_sum (size <$> before) + list_sum (size <$> after))
  | Nested outer inner => S (list_sum (size <$> outer) + list_sum (size <$> inner))
  | _ => 1
  end.

Definition sizes (l : list node) : nat := list_sum (size <$> l).

(** [_has_await_in_source]; it answers [True] when anything goes wrong. *)
Definition _has_await_in_source (f : func) : bool :=
  if f_source f then
    let root := f_decorators f ++ f_body f in
    default true (scan (S (sizes root)) (reverse root))
  else true.

Definition _LOOP_AFFINITY_NAMES : list text :=
  [lit "get_running_loop"; lit "get_event_loop"; lit "current_task"; lit "all_tasks"; lit "create_task";
   lit "ensure_future"; lit "run_coroutine_threadsafe"; lit "call_soon"; lit "call_soon_threadsafe";
   lit "call_later"; lit "call_at"].

(** [any(...)] over [ast.walk] *)
Fixpoint refers (n : node) : bool :=
  match n with
  | Ref id => bool_decide (id ∈ _LOOP_AFFINITY_NAMES)
  | Other cs => existsb refers cs
  | Susp _ _ before after => existsb refers before || existsb refers after
  | Nested outer inner => existsb refers outer || existsb refers inner
  | _ => false
  end.

Definition _uses_running_loop (f : func) : bool :=
  f_source f && existsb refers (f_decorators f ++ f_body f).

(** *** Execution *)

Inductive stop := Done | Suspended | Raised (e : exn).

Definition no_loop : exn := RuntimeError "no running event loop".

Definition seq (r : list nat * stop) (k : list nat * stop) : list nat * stop :=
  match r with
  | (t, Done) => (t ++ k.1, k.2)
  | r => r
  end.

(** Running a node of a coroutine: on a loop a suspension passes; without one
    it ends the [send(None)] that drives the coroutine. *)
Fixpoint exec (loop : bool) (n : node) : list nat * stop :=
  let all := fix all (l : list node) := match l with [] => ([], Done) | n :: l' => seq (exec loop n) (all l') end in
  match n with
  | Effect k => ([k], Done)
  | Other cs => all cs
  | Ref _ => ([], Done)
  | CallLoop => ([], if loop then Done else Raised no_loop)
  | RaiseN e => ([], Raised e)
  | Susp _ s before after =>
      seq (all before) (if s && negb loop then ([], Suspended) else all after)
  | Nested outer _ => all outer
  end.

Fixpoint exec_all (loop : bool) (l : list node) : list nat * stop :=
  match l with
  | [] => ([], Done)
  | n :: l' => seq (exec loop n) (exec_all loop l')
  end.

(** The result of a coroutine that ran to its end. *)
Definition result (f : func) (s : stop) : res nat :=
  match s with Raised e => Raise e | _ => Ok (f_result f) end.

(** [submit(async_func(...))]: the effects and the result. *)
Definition submit (f : func) : list nat * res nat :=
  let '(t, s) := exec_all true (f_body f) in (t, result f s).

Definition is_no_loop (e : exn) : bool :=
  match e with
  | RuntimeError msg => negb (find "no running event loop" msg 0 =? -1)
  | _ => false
  end.

(** [_noawait_caller] *)
Definition _noawait_caller (f : func) : list nat * res nat :=
  match exec_all false (f_body f) with
  | (t, Done) => (t, Ok (f_result f))
  | (t, Raised e) => if is_no_loop e then let '(t', r) := submit f in (t ++ t', r) else (t, Raise e)
  | (t, Suspended) => let '(t', r) := submit f in (t ++ t', r)
  end.

(** [_make_sync_wrapper(..., for_handler=True)] *)
Definition _make_sync_wrapper (f : func) : list nat * res nat :=
  if negb (_has_await_in_source f) && negb (_uses_running_loop f) then _noawait_caller f else submit f.

(** [_inline_runner(coro, send)]: what is sent, a result or an exception. *)
Definition _inline_runner (f : func) : list nat * (option nat * option exn) :=
  match submit f with
  | (t, Ok v) => (t, (Some v, None))
  | (t, Raise e) => (t, (None, Some e))
  end.

(** ** Names of types *)

Inductive prim := PInt | PFloat | PBool | PStr | PBytes.

(** An annotation: none, [None], a union (with [None] members apart), a list,
    tuple, set or frozenset with or without arguments, a class with its bases in
    the type table in the order of its [__mro__], or anything else. *)
Inductive ann :=
| AEmpty
| AUnion (args : list ann)
| ANoneType
| AContainer (args : list ann)
| ABare
| AEnum (bases : list prim)
| APrim (p : prim)
| AOther.

Definition type_map (p : prim) : text :=
  match p with
  | PInt => lit "int" | PFloat => lit "float" | PBool => lit "bool" | PStr => lit "str" | PBytes => lit "bytes"
  end.

Fixpoint _get_type_name (a : ann) : text :=
  let first := fix first (l : list ann) := match l with
                                           | [] => None
                                           | ANoneType :: l' => first l'
                                           | a :: _ => Some (_get_type_name a)
                                           end in
  match a with
  | AEmpty => lit "str"
  | AUnion args => default (lit "str") (first args)
  | AContainer args => lit "list_" ++ match args with [] => lit "str" | a :: _ => _get_type_name a end
  | ABare => lit "list_str"
  | AEnum bases => match bases with p :: _ => type_map p | [] => lit "str" end
  | APrim p => type_map p
  | ANoneType | AOther => lit "str"
  end.

(** ** Request bodies *)

Section Body.

(** Parsed data, of which some values are dicts; validated values. *)
Context {data value : Type} (is_dict : data -> bool).

(** [json.loads]: a value, a [JSONDecodeError] with message and position, or
    another exception. *)
Inductive loaded := Loaded (d : data) | DecodeError (msg : text) (pos : Z) | LoadFails (e : exn).

Context (loads : bytes -> loaded).

(** Entries of a [ValidationError]: built here, or by pydantic. *)
Inductive problem := JsonInvalid (msg : text) (pos : Z) | Missing (field : text) | Pydantic (n : nat).

Inductive outcome := Valid (v : value) | Invalid (ps : list problem) | Http400.

(** [validate_python(..., from_attributes=True)] of the adapter, and the fused
    validator of a model, of which only success matters. *)
Context (validate : data -> value + list problem).

Record validator := {
  v_native : option (bytes -> option value);
  v_combined : list text }.

Definition validate_python (v : validator) (d : data) : outcome :=
  if negb (bool_decide (v_combined v = [])) && negb (is_dict d) then Invalid (Missing <$> v_combined v)
  else match validate d with inl x => Valid x | inr ps => Invalid ps end.

Definition two_pass (v : validator) (body : bytes) : outcome :=
  match loads body with
  | Loaded d => validate_python v d
  | DecodeError msg pos => Invalid [JsonInvalid msg pos]
  | LoadFails _ => Http400
  end.

Definition validate_json (v : validator) (body : bytes) : outcome :=
  match v_native v with
  | Some native => match native body with
                   | Some x => Valid x
                   | None => two_pass v body
                   end
  | None => two_pass v body
  end.

(** [__init__]: [native] is the annotation's [__pydantic_validator__]. *)
Definition _FABodyValidator (native : option (bytes -> option value)) (combined : list text) : validator :=
  {| v_native := match combined with [] => native | _ => None end; v_combined := combined |}.

End Body.

(** ** Lemmas *)

(** Induction over nodes, with the property on all children. *)
Section NodeInd.
Context (P : node -> Prop).
Context (HEffect : forall n, P (Effect n)) (HOther : forall cs, Forall P cs -> P (Other cs))
  (HRef : forall id, P (Ref id)) (HCallLoop : P CallLoop) (HRaise : forall e, P (RaiseN e))
  (HSusp : forall k b before after, Forall P before -> Forall P after -> P (Susp k b before after))
  (HNested : forall outer inner, Forall P outer -> Forall P inner -> P (Nested outer inner)).

Fixpoint node_ind' (n : node) : P n :=
  let all := fix all (l : list node) : Forall P l :=
    match l with [] => Forall_nil_2 P | n :: l' => Forall_cons_2 P n l' (node_ind' n) (all l') end in
  match n with
  | Effect k => HEffect k
  | Other cs => HOther cs (all cs)
  | Ref id => HRef id
  | CallLoop => HCallLoop
  | RaiseN e => HRaise e
  | Susp k b before after => HSusp k b before after (all before) (all after)
  | Nested outer inner => HNested outer inner (all outer) (all inner)
  end.
End NodeInd.

(** The function's own code has an [await], [async for] or [async with]
    statement, bodies, defaults and decorators of nested functions apart. *)
Fixpoint awaits (n : node) : bool :=
  match n with
  | Susp KAsyncComp _ before after => existsb awaits before || existsb awaits after
  | Susp _ _ _ _ => true
  | Other cs => existsb awaits cs
  | _ => false
  end.

Lemma exec_all_eq loop l :
  (fix all (l : list node) := match l with [] => ([], Done) | n :: l' => seq (exec loop n) (all l') end) l =
  exec_all loop l.
Proof. induction l as [|n l IH]; simpl; [done|]. by rewrite IH. Qed.

Lemma sizes_cons n l : sizes (n :: l) = (size n + sizes l)%nat.
Proof. done. Qed.

Lemma sizes_app l k : sizes (l ++ k) = (sizes l + sizes k)%nat.
Proof. unfold sizes. by rewrite fmap_app, list_sum_app. Qed.

Lemma sizes_reverse l : sizes (reverse l) = sizes l.
Proof. induction l as [|n l IH]; [done|]. rewrite reverse_cons, sizes_app, IH, !sizes_cons. unfold sizes at 2. simpl. lia. Qed.

Lemma size_children n : size n = S (sizes (child_nodes n)) .
Proof. destruct n; simpl; rewrite ?sizes_app; done. Qed.

Lemma existsb_reverse {A} (f : A -> bool) l : existsb f (reverse l) = existsb f l.
Proof.
  induction l as [|x l IH]; [done|]. rewrite reverse_cons, existsb_app, IH. simpl.
  rewrite orb_false_r. apply orb_comm.
Qed.

(** The loop ends and finds what there is to find. *)
Lemma scan_spec fuel stack : (sizes stack < fuel)%nat -> scan fuel stack = Some (existsb awaits stack).
Proof.
  revert stack. induction fuel as [|fuel IH]; intros stack Hf; [lia|].
  destruct stack as [|n stack]; [done|].
  assert (sizes (child_nodes n) + sizes stack < fuel)%nat as Hs
    by (rewrite sizes_cons, size_children in Hf; lia).
  assert (awaits n = existsb awaits (child_nodes n) ->
    scan fuel (reverse (child_nodes n) ++ stack) = Some (existsb awaits (n :: stack))) as Hpush.
  { intros Ha. rewrite IH by (rewrite sizes_app, sizes_reverse; lia).
    rewrite existsb_app, existsb_reverse. simpl. by rewrite Ha. }
  destruct n as [m|cs|id| |e|k b before after|outer inner]; cbn [scan]; try by apply Hpush.
  - destruct k; try done. apply Hpush. cbn [awaits child_nodes]. by rewrite existsb_app.
  - rewrite IH by lia. done.
Qed.

Lemma has_await_spec f :
  _has_await_in_source f = negb (f_source f) || existsb awaits (f_decorators f ++ f_body f).
Proof.
  unfold _has_await_in_source. destruct (f_source f); [|done].
  by rewrite scan_spec, existsb_reverse by (rewrite sizes_reverse; lia).
Qed.

(** Code without suspension points of its own: no [async] comprehension, no
    [await] in the decorators and defaults of nested functions, no call that
    needs a loop, no exception that looks as if one was needed. *)
Fixpoint plain (n : node) : bool :=
  match n with
  | CallLoop => false
  | RaiseN e => negb (is_no_loop e)
  | Susp KAsyncComp _ _ _ => false
  | Susp _ _ before after => forallb plain before && forallb plain after
  | Other cs => forallb plain cs
  | Nested outer _ => forallb (fun n => negb (awaits n)) outer && forallb plain outer
  | _ => true
  end.

Definition quiet (s : stop) : Prop :=
  match s with Suspended => False | Raised e => is_no_loop e = false | Done => True end.

Lemma exec_all_plain l :
  Forall (fun n => awaits n = false -> plain n = true ->
            exec false n = exec true n /\ quiet (exec false n).2) l ->
  existsb awaits l = false -> forallb plain l = true ->
  exec_all false l = exec_all true l /\ quiet (exec_all false l).2.
Proof.
  induction 1 as [|n l Hn _ IH]; simpl; [done|].
  intros [Ha Hl]%orb_false_iff [Hp Hpl]%andb_prop.
  destruct (Hn Ha Hp) as [<- Hq], (IH Hl Hpl) as [<- Hql].
  destruct (exec false n) as [t []]; simpl in *; done.
Qed.

Lemma exec_plain n :
  awaits n = false -> plain n = true -> exec false n = exec true n /\ quiet (exec false n).2.
Proof.
  induction n as [k|cs IH|id| |e|k b before after IHb IHa|outer inner IHo IHi] using node_ind';
    intros Ha Hp; try done.
  - cbn [exec]. rewrite !exec_all_eq. by apply exec_all_plain.
  - cbn [exec]. split; [done|]. simpl in *. by apply negb_true_iff.
  - by destruct k.
  - cbn [exec]. rewrite !exec_all_eq. simpl in Hp. apply andb_prop in Hp as [Ho Hp].
    apply exec_all_plain; [done| |done]. clear -Ho. induction outer as [|n outer IH]; [done|].
    simpl in *. apply andb_prop in Ho as [->%negb_true_iff Ho]. by apply IH.
Qed.

(** ** Properties *)

(** the static check for [await] ends and is exact: it finds an [await],
    [async for] or [async with] of the function's own code if and only if there
    is one, and answers yes when there is no source. *)
Theorem await_check_is_exact f :
  (exists b, scan (S (sizes (f_decorators f ++ f_body f))) (reverse (f_decorators f ++ f_body f)) = Some b) /\
  (_has_await_in_source f = true <->
   f_source f = false \/ exists n, n ∈ f_decorators f ++ f_body f /\ awaits n = true).
Proof.
  split.
  - eexists. apply scan_spec. rewrite sizes_reverse. lia.
  - rewrite has_await_spec, orb_true_iff, negb_true_iff, existsb_exists. 
    setoid_rewrite <-list_elem_of_In. done.
Qed.

(** a handler without suspension points of its own is driven to its end by
    one [send] on the calling thread, with the effects, once, and the result it
    has on the worker loop. *)
Theorem await_free_handler_runs_once f :
  f_source f = true -> existsb awaits (f_decorators f ++ f_body f) = false ->
  forallb plain (f_body f) = true ->
  _make_sync_wrapper f = submit f.
Proof.
  intros Hs Ha Hp. unfold _make_sync_wrapper.
  destruct (negb (_has_await_in_source f) && negb (_uses_running_loop f)); [|done].
  rewrite existsb_app in Ha. apply orb_false_iff in Ha as [_ Ha].
  assert (exec_all false (f_body f) = exec_all true (f_body f) /\ quiet (exec_all false (f_body f)).2) as [E Hq].
  { apply exec_all_plain; [|done..]. apply Forall_forall. intros n _. apply exec_plain. }
  unfold _noawait_caller, submit. rewrite <-E.
  destruct (exec_all false (f_body f)) as [t [| |e]]; simpl in *; [done|done|]. by rewrite Hq.
Qed.

Lemma exec_all_app loop l k : exec_all loop (l ++ k) = seq (exec_all loop l) (exec_all loop k).
Proof.
  induction l as [|n l IH]; simpl; [by destruct (exec_all loop k)|]. rewrite IH.
  destruct (exec loop n) as [t []]; [|done..]. simpl.
  destruct (exec_all loop l) as [t' []]; simpl; by rewrite ?app_assoc.
Qed.

Lemma exec_effects loop ks : exec_all loop (Effect <$> ks) = (ks, Done).
Proof. induction ks as [|k ks IH]; [done|]. rewrite fmap_cons. cbn [exec_all]. by rewrite IH. Qed.

(** an asynchronous comprehension is no [async for] statement to the check.
    A handler whose only suspension is in one runs its effects up to there on
    the calling thread, is closed, and runs again from the start on the worker
    loop. *)
Theorem async_comprehension_runs_twice pre post v :
  let f := {| f_source := true; f_decorators := [];
              f_body := (Effect <$> pre) ++ Other [Susp KAsyncComp true [] []] :: (Effect <$> post);
              f_result := v |} in
  _has_await_in_source f = false /\
  _make_sync_wrapper f = (pre ++ pre ++ post, Ok v) /\ submit f = (pre ++ post, Ok v).
Proof.
  intros f.
  assert (forall g ks, (forall k, g (Effect k) = false) -> existsb g (Effect <$> ks) = false) as He.
  { intros g ks Hg. induction ks; simpl; [done|]. by rewrite Hg. }
  assert (_has_await_in_source f = false) as Hf.
  { rewrite has_await_spec. simpl. rewrite existsb_app. simpl. by rewrite !He. }
  assert (submit f = (pre ++ post, Ok v)) as Hsub.
  { unfold submit. simpl. rewrite exec_all_app, exec_effects. simpl. by rewrite exec_effects. }
  split_and!; [done| |done]. unfold _make_sync_wrapper. rewrite Hf.
  assert (_uses_running_loop f = false) as ->.
  { unfold _uses_running_loop. simpl. rewrite existsb_app. simpl. by rewrite !He. }
  simpl. unfold _noawait_caller. rewrite Hsub. simpl. rewrite exec_all_app, exec_effects. simpl.
  by rewrite app_nil_r.
Qed.

(** *** Names of types *)

(** How deep the containers the name is taken from are nested, and the scalar
    inside. *)
Fixpoint scalar (a : ann) : nat * prim :=
  let first := fix first (l : list ann) := match l with
                                           | [] => None
                                           | ANoneType :: l' => first l'
                                           | a :: _ => Some (scalar a)
                                           end in
  match a with
  | AUnion args => default (0%nat, PStr) (first args)
  | AContainer args => let '(n, p) := match args with [] => (0%nat, PStr) | a :: _ => scalar a end in (S n, p)
  | ABare => (1%nat, PStr)
  | AEnum (p :: _) => (0%nat, p)
  | APrim p => (0%nat, p)
  | _ => (0%nat, PStr)
  end.

Fixpoint list_names (n : nat) (p : prim) : text :=
  match n with O => type_map p | S n' => lit "list_" ++ list_names n' p end.

(** The names the router is promised. *)
Definition documented : list text :=
  [lit "int"; lit "float"; lit "bool"; lit "str"; lit "bytes"; lit "list_int"; lit "list_float";
   lit "list_bool"; lit "list_str"].

Fixpoint ann_size (a : ann) : nat :=
  match a with AUnion args | AContainer args => S (list_sum (ann_size <$> args)) | _ => 1 end.

Lemma type_name_scalar a : _get_type_name a = let '(n, p) := scalar a in list_names n p.
Proof.
  remember (ann_size a) as k eqn:Ek. assert (ann_size a <= k)%nat as Hk by lia. clear Ek.
  revert a Hk. induction k as [|k IH]; intros a Hk; [destruct a; simpl in Hk; lia|].
  destruct a as [|args| |args| |[|p l]|p|]; try done; cbn [_get_type_name scalar].
  - induction args as [|a args IHargs]; [done|]. cbn [ann_size] in *. rewrite fmap_cons in Hk. simpl in Hk.
    pose proof (IH a ltac:(lia)) as Ha. destruct a; try exact Ha. apply IHargs. simpl in *. lia.
  - destruct args as [|a args]; [done|]. cbn [ann_size] in Hk. rewrite fmap_cons in Hk. simpl in Hk.
    rewrite IH by lia. by destruct (scalar a).
Qed.

(** C39: the name of a type is the name of a scalar under one ["list_"] for each
    level of containers; it is one of the documented names exactly when there
    is at most one level, and no container of bytes. *)
Theorem type_names_are_list_names a :
  let '(n, p) := scalar a in
  _get_type_name a = list_names n p /\
  (_get_type_name a ∈ documented <-> (n <= 1)%nat /\ ~ (n = 1%nat /\ p = PBytes)).
Proof.
  rewrite type_name_scalar. destruct (scalar a) as [n p]. split; [done|].
  destruct n as [|[|n]].
  - destruct p; (split; [intros _; split; [lia|by intros []]|intros _; by apply (bool_decide_eq_true_1 _)]).
  - destruct p.
    5:{ split; [|by intros [_ []]]. intros H. exfalso. revert H. by apply (bool_decide_eq_false_1 _). }
    all: split; [intros _; split; [lia|by intros []]|intros _; by apply (bool_decide_eq_true_1 _)].
  - split; [|lia]. unfold documented. simpl.
    intros H. exfalso. revert H. generalize (list_names n p). intros t.
    rewrite !elem_of_cons. intros H. destruct_or! H; try discriminate. by apply not_elem_of_nil in H.
Qed.

(** *** Request bodies *)

(** the fused validator changes nothing: if what it accepts is what the
    two-pass validation accepts, with the same value, every body is validated as
    by parsing it with [json] first, including all errors; and a combined body
    that is no object gives one [missing] error per field. *)
Theorem body_validation_is_two_pass {data value} (is_dict : data -> bool) loads
    (validate : data -> value + list problem) native combined body :
  (forall f x, native = Some f -> f body = Some x ->
     exists d, loads body = Loaded d /\ validate d = inl x) ->
  let v := _FABodyValidator native combined in
  validate_json is_dict loads validate v body = two_pass is_dict loads validate v body /\
  (combined <> [] -> forall d, loads body = Loaded d -> is_dict d = false ->
   validate_json is_dict loads validate v body = Invalid (Missing <$> combined)).
Proof.
  intros Hn v.
  assert (validate_json is_dict loads validate v body = two_pass is_dict loads validate v body) as Heq.
  { unfold validate_json, v, _FABodyValidator. simpl. destruct combined; [|done].
    destruct native as [f|]; [|done]. destruct (f body) as [x|] eqn:E; [|done].
    destruct (Hn f x eq_refl E) as (d & Hd & Hv). unfold two_pass, validate_python. by rewrite Hd, Hv. }
  split; [done|]. intros Hc d Hd Hdict. rewrite Heq. unfold two_pass, validate_python. rewrite Hd, Hdict.
  simpl. by rewrite bool_decide_eq_false_2.
Qed.

(** ** Witnesses *)

Lemma await_free_handler_runs_once_witness :
  let f := {| f_source := true; f_decorators := [Ref "router"];
              f_body := [Effect 1; Nested [] [Susp KAwait true [] []]; Other [Effect 2]]; f_result := 7 |} in
  _make_sync_wrapper f = submit f.
Proof. intros f. apply (await_free_handler_runs_once f); reflexivity. Defined.

Lemma body_validation_is_two_pass_witness :
  let loads b := if bool_decide (b = lit "[]") then Loaded 0%nat else DecodeError (lit "no") 0 in
  let validate (d : nat) : nat + list problem := inl d in
  let v := _FABodyValidator (Some (fun b => if bool_decide (b = lit "[]") then Some 0%nat else None)) [lit "a"] in
  validate_json (fun _ => false) loads validate v (lit "[]") =
    two_pass (fun _ => false) loads validate v (lit "[]") /\
  ([lit "a"] <> [] -> forall d, loads (lit "[]") = Loaded d -> false = false ->
   validate_json (fun _ => false) loads validate v (lit "[]") = Invalid (Missing <$> [lit "a"])).
Proof.
  intros loads validate v.
  apply (body_validation_is_two_pass (fun _ => false) loads validate
           (Some (fun b => if bool_decide (b = lit "[]") then Some 0%nat else None)) [lit "a"] (lit "[]")).
  intros f x [= <-] [= <-]. exists 0%nat. split; reflexivity.
Defined.

End Drive.
