(* ===== verification/Sessions.v ===== *)
(** Signed cookie sessions (middleware/sessions.py): the cookie codec
    ([_encode], [_decode]) over URL-safe base64, the cookie attributes, and the
    middleware with the session object it shares with the handler. *)

From S2P Require Import Prelude.

Module Sessions.

(** ** URL-safe base64 *)

Definition b64_table : text :=
  "ABCDEFGHIJKLMNOPQRSTUVWXYZabcdefghijklmnopqrstuvwxyz0123456789-_".

Definition sextet (n : N) : ascii := nth (N.to_nat n) b64_table "A"%char.

(** [urlsafe_b64encode(l).rstrip(b"=")] *)
Fixpoint b64encode (l : bytes) : bytes :=
  match l with
  | a :: b :: c :: l' =>
      (sextet (code a / 4) :: sextet (code a mod 4 * 16 + code b / 16) ::
       sextet (code b mod 16 * 4 + code c / 64) :: sextet (code c mod 64) :: b64encode l')%N
  | [a; b] => [sextet (code a / 4); sextet (code a mod 4 * 16 + code b / 16); sextet (code b mod 16 * 4)]%N
  | [a] => [sextet (code a / 4); sextet (code a mod 4 * 16)]%N
  | [] => []
  end.

(** The value of a character: [-] and [_] stand for [+] and [/], which are still
    accepted themselves. *)
Definition value_of (c : ascii) : option N :=
  let n := code c in
  (if (65 <=? n) && (n <=? 90) then Some (n - 65)
   else if (97 <=? n) && (n <=? 122) then Some (n - 71)
   else if (48 <=? n) && (n <=? 57) then Some (n + 4)
   else if (n =? 45) || (n =? 43) then Some 62
   else if (n =? 95) || (n =? 47) then Some 63
   else None)%N.

(** [binascii.a2b_base64], not strict: [quad] characters of a group were read,
    [left] holds their remaining bits, [pads] padding characters came since.
    Other characters are skipped; enough padding ends the input; [None] is an
    error. *)
Fixpoint a2b (quad : nat) (left : N) (pads : nat) (l : bytes) : option bytes :=
  match l with
  | [] => if bool_decide (quad = 0%nat) then Some [] else None
  | c :: l' =>
      if bool_decide (c = "="%char) then
        if bool_decide (2 <= quad)%nat && bool_decide (4 <= quad + S pads)%nat then Some []
        else a2b quad left (if bool_decide (2 <= quad)%nat then S pads else pads) l'
      else match value_of c with
           | None => a2b quad left pads l'
           | Some v =>
               match quad with
               | O => a2b 1 v 0 l'
               | S O => option_map (cons (ascii_of_N (left * 4 + v / 16))) (a2b 2 (v mod 16) 0 l')
               | S (S O) => option_map (cons (ascii_of_N (left * 16 + v / 4))) (a2b 3 (v mod 4) 0 l')
               | _ => option_map (cons (ascii_of_N (left * 64 + v))) (a2b 0 0 0 l')
               end
           end
  end.

(** [urlsafe_b64decode(l + b"=" * (-len(l) % 4))] *)
Definition b64decode (l : bytes) : option bytes :=
  a2b 0 0 0 (l ++ replicate (Z.to_nat (- zlen l mod 4)) "="%char).

(** ** The middleware *)

Section Session.

Context {V : Type} `{!EqDecision V}.
Abbreviation dict := (gmap text V) (only parsing).

(** [hmac.new(secret_key, ., sha256).digest()], [json.dumps(...).encode("utf-8")]
    and [json.loads], whose exceptions are caught. *)
Context (mac : bytes -> bytes) (dumps : dict -> bytes) (loads : bytes -> option dict).

Record config := {
  session_cookie : text;
  max_age : option Z;
  path : text;
  same_site : text;
  https_only : bool;
  domain : text }.              (* empty for [None] *)

(** [_encode] at time [now] *)
Definition _encode (now : Z) (data : dict) : text :=
  let payload := b64encode (dumps data) ++ lit "." ++ dec now in
  payload ++ lit "." ++ b64encode (mac payload).

Definition is_ascii (t : text) : bool := forallb (fun c => (code c <? 128)%N) t.

(** [_decode] at time [now] *)
Definition _decode (cfg : config) (now : Z) (cookie_val : text) : option dict :=
  if is_ascii cookie_val then
    match split_on "." cookie_val with
    | [b64; ts; sig_b64] =>
        match b64decode sig_b64 with
        | None => None
        | Some actual =>
            if bool_decide (mac (b64 ++ lit "." ++ ts) = actual) then
              match (match max_age cfg with
                     | Some m => match py_int is_space_bytes ts with
                                 | Some t => Some (now - t <=? m)
                                 | None => None
                                 end
                     | None => Some true
                     end) with
              | Some true => match b64decode b64 with Some raw => loads raw | None => None end
              | _ => None
              end
            else None
        end
    | _ => None
    end
  else None.

(** [str.capitalize] on ASCII letters *)
Definition upper_char (c : ascii) : ascii :=
  let n := code c in if ((97 <=? n) && (n <=? 122))%N then ascii_of_N (n - 32) else c.
Definition capitalize (t : text) : text :=
  match t with c :: t' => upper_char c :: lower t' | [] => [] end.

(** [_attach_cookie]: the value of the [Set-Cookie] header *)
Definition cookie_str (cfg : config) (value : text) (clear : bool) : text :=
  join "; " ([session_cookie cfg ++ lit "=" ++ (if clear then [] else value)] ++
             (if clear then [lit "Max-Age=0"]
              else match max_age cfg with Some m => [lit "Max-Age=" ++ dec m] | None => [] end) ++
             [lit "Path=" ++ path cfg] ++
             (match domain cfg with [] => [] | d => [lit "Domain=" ++ d] end) ++
             (if https_only cfg then [lit "Secure"] else []) ++
             [lit "HttpOnly"; lit "SameSite=" ++ capitalize (same_site cfg)]).

(** What a handler does with [request.session]: change the object, or put
    another one into the scope. *)
Inductive action := SetKey (k : text) (v : V) | DelKey (k : text) | Clear | Replace (d : dict).

(** The dict that was loaded, and the one in the scope: [None] is the loaded
    one itself. *)
Record store := { initial : dict; replaced : option dict }.

Definition session (s : store) : dict := match replaced s with Some d => d | None => initial s end.

Definition update (f : dict -> dict) (s : store) : store :=
  match replaced s with
  | Some d => {| initial := initial s; replaced := Some (f d) |}
  | None => {| initial := f (initial s); replaced := None |}
  end.

Definition act (s : store) (x : action) : store :=
  match x with
  | SetKey k v => update (fun d => <[ k := v ]> d) s
  | DelKey k => update (delete k) s
  | Clear => update (fun _ => ∅) s
  | Replace d => {| initial := initial s; replaced := Some d |}
  end.

(** The session loaded for a request whose cookies have [morsel] under the
    session's name. *)
Definition load (cfg : config) (now : Z) (morsel : option text) : dict :=
  match morsel with
  | Some v => match _decode cfg now v with Some d => d | None => ∅ end
  | None => ∅
  end.

(** [__call__]: the session the handler leaves, and the cookie set, if any. *)
Definition __call__ (cfg : config) (now_in now_out : Z) (morsel : option text) (handler : list action)
    : dict * option text :=
  let s := foldl act {| initial := load cfg now_in morsel; replaced := None |} handler in
  (session s,
   if bool_decide (session s = ∅) && bool_decide (initial s = ∅) then None
   else Some (cookie_str cfg (_encode now_out (session s)) (bool_decide (session s = ∅)))).

End Session.

(** ** Lemmas *)

Lemma sextet_facts n :
  (n < 64)%N -> value_of (sextet n) = Some n /\ sextet n <> "="%char /\ sextet n <> "."%char /\
                (code (sextet n) < 128)%N.
Proof.
  intros Hn.
  assert (forallb (fun k => bool_decide (value_of (sextet (N.of_nat k)) = Some (N.of_nat k)) &&
    negb (bool_decide (sextet (N.of_nat k) = "="%char)) && negb (bool_decide (sextet (N.of_nat k) = "."%char)) &&
    (code (sextet (N.of_nat k)) <? 128)%N) (List.seq 0 64) = true) as H by (vm_compute; reflexivity).
  rewrite forallb_forall in H. specialize (H (N.to_nat n)). rewrite N2Nat.id in H.
  assert (In (N.to_nat n) (List.seq 0 64)) as Hin by (apply in_seq; lia).
  specialize (H Hin). repeat rewrite andb_true_iff in H. destruct H as [[[H1 H2] H3] H4].
  apply bool_decide_eq_true in H1. apply negb_true_iff, bool_decide_eq_false in H2, H3.
  apply N.ltb_lt in H4. done.
Qed.

Lemma code_lt c : (code c < 256)%N.
Proof. apply N_ascii_bounded. Qed.

Lemma ascii_code c n : n = code c -> ascii_of_N n = c.
Proof. intros ->. apply ascii_N_embedding. Qed.

(** One character of a group. *)
Lemma a2b_sextet quad left n l :
  (n < 64)%N ->
  a2b quad left 0 (sextet n :: l) =
    match quad with
    | O => a2b 1 n 0 l
    | S O => option_map (cons (ascii_of_N (left * 4 + n / 16))) (a2b 2 (n mod 16) 0 l)
    | S (S O) => option_map (cons (ascii_of_N (left * 16 + n / 4))) (a2b 3 (n mod 4) 0 l)
    | _ => option_map (cons (ascii_of_N (left * 64 + n))) (a2b 0 0 0 l)
    end%N.
Proof.
  intros (Hv & He & _)%sextet_facts. cbn [a2b]. rewrite bool_decide_eq_false_2, Hv by done. done.
Qed.

Lemma b64encode_chars l c : c ∈ b64encode l -> exists n, (n < 64)%N /\ c = sextet n.
Proof.
  remember (length l) as k eqn:Ek. assert (length l <= k)%nat as Hk by lia. clear Ek.
  revert l Hk. induction k as [|k IH]; intros [|a [|b [|d l]]]; simpl; try (intros; lia);
    try (by intros _ ?%not_elem_of_nil).
  all: intros Hk; rewrite !elem_of_cons; intros Hc;
    destruct_or! Hc; try (by apply not_elem_of_nil in Hc); try (apply IH in Hc; [done|lia]);
    (eexists; split; [|exact Hc]); pose proof (code_lt a);
    try pose proof (code_lt b); try pose proof (code_lt d); div_lia.
Qed.

(** Three bytes and their four characters. *)
Lemma sextets_bytes a b c :
  (a < 256)%N -> (b < 256)%N -> (c < 256)%N ->
  (a / 4 < 64 /\ a mod 4 * 16 + b / 16 < 64 /\ b mod 16 * 4 + c / 64 < 64 /\ c mod 64 < 64 /\
   a / 4 * 4 + (a mod 4 * 16 + b / 16) / 16 = a /\
   (a mod 4 * 16 + b / 16) mod 16 * 16 + (b mod 16 * 4 + c / 64) / 4 = b /\
   (b mod 16 * 4 + c / 64) mod 4 * 64 + c mod 64 = c)%N.
Proof. intros. repeat split; div_lia. Qed.

Lemma sextets_two a b :
  (a < 256)%N -> (b < 256)%N ->
  (b mod 16 * 4 < 64 /\ (a mod 4 * 16 + b / 16) mod 16 * 16 + b mod 16 * 4 / 4 = b)%N.
Proof. intros. repeat split; div_lia. Qed.

Lemma sextets_one a :
  (a < 256)%N -> (a mod 4 * 16 < 64 /\ a / 4 * 4 + a mod 4 * 16 / 16 = a)%N.
Proof. intros. repeat split; div_lia. Qed.

(** Lists, three elements at a time. *)
Lemma list_ind3 {A} (P : list A -> Prop) :
  P [] -> (forall a, P [a]) -> (forall a b, P [a; b]) -> (forall a b c l, P l -> P (a :: b :: c :: l)) ->
  forall l, P l.
Proof.
  intros H0 H1 H2 H3. fix IH 1. intros [|a [|b [|c l]]]; [done|done|done|]. apply H3, IH.
Qed.

Lemma b64_roundtrip l : b64decode (b64encode l) = Some l.
Proof.
  unfold b64decode.
  induction l as [|a|a b|a b c l IH] using list_ind3.
  - done.
  - pose proof (code_lt a) as Ha. destruct (sextets_one _ Ha) as [H1 E1].
    destruct (sextets_bytes _ _ _ Ha Ha Ha) as (H0 & _).
    change (Z.to_nat (- zlen (b64encode [a]) mod 4)) with 2%nat. cbn [b64encode app replicate].
    rewrite !a2b_sextet by done. cbn. by rewrite (ascii_code a) by done.
  - pose proof (code_lt a) as Ha. pose proof (code_lt b) as Hb. destruct (sextets_two _ _ Ha Hb) as [H2 E2].
    destruct (sextets_bytes _ _ _ Ha Hb Ha) as (H0 & H1 & _ & _ & E1 & _).
    change (Z.to_nat (- zlen (b64encode [a; b]) mod 4)) with 1%nat. cbn [b64encode app replicate].
    rewrite !a2b_sextet by done. cbn. by rewrite (ascii_code a), (ascii_code b) by done.
  - pose proof (code_lt a) as Ha. pose proof (code_lt b) as Hb. pose proof (code_lt c) as Hc.
    destruct (sextets_bytes _ _ _ Ha Hb Hc) as (H0 & H1 & H2 & H3 & E1 & E2 & E3).
    cbn [b64encode]. rewrite !zlen_cons.
    replace (- (1 + (1 + (1 + (1 + zlen (b64encode l)))))) with (- zlen (b64encode l) + (-1) * 4) by lia.
    rewrite Z.mod_add by lia.
    cbn [app]. rewrite !a2b_sextet by done. rewrite IH. cbn [option_map].
    by rewrite (ascii_code a), (ascii_code b), (ascii_code c) by done.
Qed.

Lemma b64encode_no_dot l : "."%char ∉ b64encode l.
Proof. intros (n & Hn & E)%b64encode_chars. apply sextet_facts in Hn as (_ & _ & H & _). congruence. Qed.

Lemma is_ascii_app t u : is_ascii (t ++ u) = is_ascii t && is_ascii u.
Proof. apply forallb_app. Qed.

Lemma b64encode_ascii l : is_ascii (b64encode l) = true.
Proof.
  unfold is_ascii. apply forallb_forall. intros c Hc. apply list_elem_of_In in Hc.
  apply b64encode_chars in Hc as (n & Hn & ->). apply sextet_facts in Hn as (_ & _ & _ & H). by apply N.ltb_lt.
Qed.

Lemma dec_ascii z : is_ascii (dec z) = true.
Proof.
  unfold is_ascii. apply forallb_forall. intros c Hc. apply list_elem_of_In, dec_chars in Hc as [Hc| ->]; [|done].
  unfold is_digit in Hc. set_unfold in Hc. destruct_or! Hc; by subst.
Qed.

Lemma dec_no_dot z : "."%char ∉ dec z.
Proof. intros [H|H]%dec_chars; [unfold is_digit in H; set_solver|done]. Qed.

Lemma split_on_join c t ws : split_on c t = ws -> t = join [c] ws.
Proof.
  revert ws. induction t as [|a t IH]; intros ws <-; simpl; [done|].
  specialize (IH _ eq_refl). case_bool_decide as E.
  - subst. destruct (split_on c t) as [|w ws] eqn:Et; simpl in *; [by destruct t; [done|]; simpl in Et; repeat case_match|].
    by rewrite IH.
  - destruct (split_on c t) as [|w ws]; simpl in *; [by subst|]. destruct ws; simpl in *; by rewrite IH.
Qed.

Lemma split_on_three c t x y z : split_on c t = [x; y; z] -> t = x ++ [c] ++ y ++ [c] ++ z.
Proof. intros ->%split_on_join. done. Qed.

Section Props.

Context {V : Type} `{!EqDecision V}.
Context (mac : bytes -> bytes) (dumps : gmap text V -> bytes) (loads : bytes -> option (gmap text V)).

Lemma decode_encode cfg now now' data :
  loads (dumps data) = Some data ->
  (forall m, max_age cfg = Some m -> now' - now <= m) ->
  _decode mac loads cfg now' (_encode mac dumps now data) = Some data.
Proof.
  intros Hj Hage. unfold _decode, _encode. set (payload := b64encode (dumps data) ++ lit "." ++ dec now).
  assert (is_ascii (payload ++ lit "." ++ b64encode (mac payload)) = true) as ->.
  { subst payload. by rewrite !is_ascii_app, !b64encode_ascii, dec_ascii. }
  subst payload. rewrite <-!app_assoc. cbn [lit String.list_ascii_of_string app].
  rewrite split_on_app by apply b64encode_no_dot. rewrite split_on_app by apply dec_no_dot.
  rewrite split_on_no by apply b64encode_no_dot. rewrite b64_roundtrip, bool_decide_eq_true_2 by done.
  rewrite b64_roundtrip. destruct (max_age cfg) as [m|] eqn:Em; [|done].
  rewrite py_int_dec by auto with turbo. specialize (Hage m eq_refl).
  destruct (Z.leb_spec (now' - now) m); [done|lia].
Qed.

(** C32: what becomes of a session [s] that a handler leaves, if [s] survives
    [json.dumps] and [json.loads] (string keys, JSON values).  A non-empty one
    is in the cookie that is set, and the next request that brings this cookie
    back, no later than [max_age] seconds after it was made, starts with exactly
    that session.  An empty one never goes into a cookie: when the handler
    replaced a loaded session that is not empty itself, the client is told to
    drop its cookie; when the loaded dict is empty, because there was none or
    because the handler emptied that very object, no cookie is set at all. *)
Theorem session_survives_roundtrip cfg now_in now_out now' now'' morsel handler handler' :
  let final := foldl act {| initial := load mac loads cfg now_in morsel; replaced := None |} handler in
  let '(s, header) := __call__ mac dumps loads cfg now_in now_out morsel handler in
  loads (dumps s) = Some s ->
  (forall m, max_age cfg = Some m -> now' - now_out <= m) ->
  (s <> ∅ ->
     header = Some (cookie_str cfg (_encode mac dumps now_out s) false) /\
     (__call__ mac dumps loads cfg now' now'' (Some (_encode mac dumps now_out s)) handler').1 =
       session (foldl act {| initial := s; replaced := None |} handler')) /\
  (s = ∅ -> initial final <> ∅ -> exists v, header = Some (cookie_str cfg v true)) /\
  (s = ∅ -> initial final = ∅ -> header = None).
Proof.
  unfold __call__ at 1. simpl. intros Hj Hage. split_and!.
  - intros Hne. rewrite bool_decide_eq_false_2 by done. split; [done|].
    unfold __call__. simpl. by rewrite decode_encode.
  - intros -> Hne. rewrite bool_decide_eq_true_2, bool_decide_eq_false_2 by done. simpl. by eexists.
  - intros Hs Hi. by rewrite !bool_decide_eq_true_2 by done.
Qed.

(** only what was signed is accepted, and not for longer than allowed: a
    cookie that yields a session has a payload whose MAC under the key is the
    one in the cookie, and a timestamp no older than [max_age]. *)
Theorem accepted_cookie_is_signed cfg now v d :
  _decode mac loads cfg now v = Some d ->
  exists b64 ts sig raw,
    v = b64 ++ lit "." ++ ts ++ lit "." ++ sig /\
    b64decode sig = Some (mac (b64 ++ lit "." ++ ts)) /\ b64decode b64 = Some raw /\ loads raw = Some d /\
    (forall m, max_age cfg = Some m -> exists t, py_int is_space_bytes ts = Some t /\ now - t <= m).
Proof.
  unfold _decode. destruct (is_ascii v); [|done].
  destruct (split_on "." v) as [|b64 [|ts [|sig [|]]]] eqn:Es; try done.
  destruct (b64decode sig) as [actual|] eqn:Ea; [|done]. case_bool_decide as Hm; [|done].
  intros H. exists b64, ts, sig.
  assert (v = b64 ++ lit "." ++ ts ++ lit "." ++ sig) as Hv by (by apply split_on_three).
  destruct (match max_age cfg with Some _ => _ | None => _ end) as [[]|] eqn:Eage; try done.
  destruct (b64decode b64) as [raw|] eqn:Eb; [|done]. exists raw. split_and!; try done; [by rewrite Hm|].
  intros m Em. rewrite Em in Eage. destruct (py_int is_space_bytes ts) as [t|]; [|done].
  exists t. split; [done|]. injection Eage as Hle%Z.leb_le. lia.
Qed.

(** clearing a session does not clear its cookie.  The handler empties the
    very object the middleware compares with afterwards, no cookie is set, and
    the client's old cookie still opens the old session. *)
Theorem cleared_session_keeps_cookie cfg now_in now_out v d :
  _decode mac loads cfg now_in v = Some d -> d <> ∅ ->
  __call__ mac dumps loads cfg now_in now_out (Some v) [Clear] = (∅, None) /\
  (forall now' now'', _decode mac loads cfg now' v = Some d ->
   (__call__ mac dumps loads cfg now' now'' (Some v) []).1 = d).
Proof.
  intros Hd Hne. unfold __call__. simpl. split; [by rewrite bool_decide_eq_true_2|].
  intros now' now'' ->. done.
Qed.

End Props.

(** ** Witnesses *)

Definition demo_cfg : config :=
  {| session_cookie := "session"; max_age := Some 60; path := "/"; same_site := "lax"; https_only := false;
     domain := [] |}.

(** A JSON codec for at most one key. *)
Definition demo_dumps (d : gmap text nat) : bytes :=
  match map_to_list d with (k, v) :: _ => dec (Z.of_nat v) ++ lit ":" ++ k | [] => lit "{}" end.
Definition demo_loads (b : bytes) : option (gmap text nat) :=
  if bool_decide (b = lit "{}") then Some ∅
  else let '(v, k) := partition_at ":" b in
       match py_int is_space_bytes v with Some z => Some {[ k := Z.to_nat z ]} | None => None end.

Definition demo_mac (b : bytes) : bytes := dec (zlen b).

Definition demo_cookie : text := _encode demo_mac demo_dumps 100 {[ lit "user" := 42%nat ]}.

Lemma session_survives_roundtrip_witness :
  ((__call__ demo_mac demo_dumps demo_loads demo_cfg 90 100 None [SetKey "user" 42%nat]).2 =
     Some (cookie_str demo_cfg demo_cookie false) /\
   (__call__ demo_mac demo_dumps demo_loads demo_cfg 150 151 (Some demo_cookie) []).1 = {[ lit "user" := 42%nat ]}) /\
  (exists v, (__call__ demo_mac demo_dumps demo_loads demo_cfg 120 121 (Some demo_cookie) [Replace ∅]).2 =
     Some (cookie_str demo_cfg v true)).
Proof.
  assert (forall now_out m, max_age demo_cfg = Some m -> (now_out + 50) - now_out <= m) as Hage
    by (intros ? m [= <-]; lia).
  split.
  - refine (proj1 (session_survives_roundtrip demo_mac demo_dumps demo_loads demo_cfg 90 100 150 151 None
             [SetKey "user" 42%nat] [] _ (Hage 100)) _); [vm_compute; reflexivity|done].
  - refine (proj1 (proj2 (session_survives_roundtrip demo_mac demo_dumps demo_loads demo_cfg 120 121 171 172
             (Some demo_cookie) [Replace ∅] [] _ (Hage 121))) _ _); [vm_compute; reflexivity|reflexivity|].
    vm_compute. discriminate.
Defined.

Lemma accepted_cookie_is_signed_witness :
  exists b64 ts sig raw,
    demo_cookie = b64 ++ lit "." ++ ts ++ lit "." ++ sig /\
    b64decode sig = Some (demo_mac (b64 ++ lit "." ++ ts)) /\ b64decode b64 = Some raw /\
    demo_loads raw = Some {[ lit "user" := 42%nat ]} /\
    (forall m, Some 60 = Some m -> exists t, py_int is_space_bytes ts = Some t /\ 120 - t <= m).
Proof.
  apply (accepted_cookie_is_signed demo_mac demo_loads demo_cfg 120 demo_cookie {[ lit "user" := 42%nat ]}).
  vm_compute. reflexivity.
Defined.

Lemma cleared_session_keeps_cookie_witness :
  __call__ demo_mac demo_dumps demo_loads demo_cfg 120 121 (Some demo_cookie) [Clear] = (∅, None) /\
  (forall now' now'', _decode demo_mac demo_loads demo_cfg now' demo_cookie = Some {[ lit "user" := 42%nat ]} ->
   (__call__ demo_mac demo_dumps demo_loads demo_cfg now' now'' (Some demo_cookie) []).1 =
     {[ lit "user" := 42%nat ]}).
Proof.
  apply (cleared_session_keeps_cookie demo_mac demo_dumps demo_loads demo_cfg 120 121 demo_cookie
           {[ lit "user" := 42%nat ]}); [vm_compute; reflexivity|done].
Defined.

End Sessions.
