(* ===== verification/Guards.v ===== *)
(** Middlewares that admit or refuse requests: [TrustedHostMiddleware]
    (middleware/trustedhost.py), [HTTPSRedirectMiddleware]
    (middleware/httpsredirect.py), [AuthenticationMiddleware] and [requires]
    (authentication.py), and the chain that carries them around WebSocket
    connections ([_ws_entry_with_asgi_chain], _ws_support.py). *)

From S2P Require Import Prelude.

Module Guards.

(** ** Trusted hosts *)

(** [TrustedHostMiddleware.__init__] *)
Definition init_allowed_hosts (allowed : option (list text)) : list text :=
  match allowed with Some ((_ :: _) as l) => l | _ => [lit "*"] end.

Definition host_matches (host pattern : text) : bool :=
  let pattern := lower pattern in
  bool_decide (pattern = host) ||
  (starts_with "*." pattern && ends_with (slice pattern 1 (zlen pattern)) host).

Definition is_valid_host (allowed : list text) (host : text) : bool :=
  if bool_decide (lit "*" ∈ allowed) then true
  else
    let host := if bool_decide (":"%char ∈ host) then default [] (head (split_on ":" host)) else host in
    existsb (host_matches (lower host)) allowed.

Inductive scope_type := Http | WebSocket | OtherScope.

(** What a middleware sends. *)
Inductive message := Start (status : Z) (headers : list (text * text)) | Body (b : text) (more : bool)
  | WsClose (code : Z).

Inductive decision := Forward | Reply (ms : list message).

(** The first [Host] header. *)
Fixpoint host_header (headers : list (text * text)) : text :=
  match headers with
  | [] => []
  | (name, value) :: headers' =>
      if bool_decide (lower name = lit "host") then value else host_header headers'
  end.

(** [TrustedHostMiddleware.__call__] around an application *)
Definition trusted_host (allowed : list text) (ty : scope_type) (headers : list (text * text)) : decision :=
  match ty with
  | OtherScope => Forward
  | _ =>
      if is_valid_host allowed (host_header headers) then Forward
      else match ty with
           | Http => Reply [Start 400 [(lit "content-type", lit "text/plain; charset=utf-8");
                                       (lit "content-length", dec (zlen (lit "Invalid host header")))];
                            Body "Invalid host header" false]
           | _ => Reply [WsClose 1008]
           end
  end.

(** *** The chain around WebSocket connections *)

(** A middleware sends messages or passes the connection on. *)
Definition mw := scope_type -> list (text * text) -> decision.

(** [_ws_entry_with_asgi_chain], for the middlewares from the outermost: what
    reaches the socket, which is what [inner] does when the chain gets to it;
    [_send] drops everything the middlewares send. *)
Fixpoint ws_entry_with_chain {A} (chain : list mw) (headers : list (text * text)) (inner : list A) : list A :=
  match chain with
  | [] => inner
  | m :: chain' => match m WebSocket headers with
                   | Forward => ws_entry_with_chain chain' headers inner
                   | Reply _ => []
                   end
  end.

(** ** HTTPS *)

Definition redirect_url (url : text) : text :=
  if starts_with "http://" url then lit "https://" ++ slice url 7 (zlen url) else url.

Definition should_redirect (scheme : text) : bool :=
  negb (bool_decide (lower scheme ∈ [lit "https"; lit "wss"])).

(** ** Authentication *)

Section Auth.

Context {user : Type} (unauthenticated : user).

(** [AuthCredentials]: the granted scopes. *)
Record request := { r_auth : option (list text); r_user : option user }.

(** What a backend's [authenticate] does: no credentials, credentials and a
    user, an [AuthenticationError] or another exception. *)
Inductive authenticated := NoCredentials | Credentials (scopes : list text) (u : user)
  | AuthError (msg : text) | OtherError (e : exn).

(** What a request ends in: the endpoint ran with this request, or a response
    without it, or an exception. *)
Inductive answer := Ran (r : request) | JsonDetail (status : Z) (detail : text) | Redirect (url : text)
  | OnError (msg : text) | Raises (e : exn).

(** [AuthenticationMiddleware.__call__]; [on_error] answers for an
    [AuthenticationError]. *)
Definition auth_call (backend : option (request -> authenticated)) (on_error : text -> answer)
    (call_next : request -> answer) (r : request) : answer :=
  match backend with
  | None =>
      call_next {| r_auth := Some (default [] (r_auth r)); r_user := Some (default unauthenticated (r_user r)) |}
  | Some authenticate =>
      match authenticate r with
      | AuthError msg => on_error msg
      | OtherError e => Raises e
      | NoCredentials => call_next {| r_auth := Some []; r_user := Some unauthenticated |}
      | Credentials scopes u => call_next {| r_auth := Some scopes; r_user := Some u |}
      end
  end.

Definition _default_on_error (msg : text) : answer := JsonDetail 401 msg.

Definition _has_scopes (r : request) (required : list text) : bool :=
  match r_auth r with
  | None => false
  | Some granted => forallb (fun s => bool_decide (s ∈ granted)) required
  end.

Definition _unauthorized (status : Z) (redirect : option text) : answer :=
  match redirect with
  | Some ((_ :: _) as url) => Redirect url
  | _ => JsonDetail status "Forbidden"
  end.

(** An argument of an endpoint: a request or something else. *)
Definition _find_request (args kwargs : list (option request)) : res request :=
  match head (omap id args), head (omap id kwargs) with
  | Some r, _ => Ok r
  | None, Some r => Ok r
  | None, None => Raise (RuntimeError "@requires used on a handler without a Request parameter")
  end.

(** An endpoint decorated with [requires]. *)
Definition requires (required : list text) (status : Z) (redirect : option text)
    (func : list (option request) -> list (option request) -> answer)
    (args kwargs : list (option request)) : answer :=
  match _find_request args kwargs with
  | Raise e => Raises e
  | Ok r => if _has_scopes r required then func args kwargs else _unauthorized status redirect
  end.

End Auth.

(** ** Properties *)

Lemma lower_no_colon t : ":"%char ∉ t -> ":"%char ∉ lower t.
Proof.
  intros H (c & Hc & Hin)%list_elem_of_fmap. assert (c = ":"%char) as ->; [|done].
  clear -Hc. destruct c as [[] [] [] [] [] [] [] []]; vm_compute in Hc; congruence.
Qed.

(** The host name without its port, in lower case. *)
Definition bare_host (host : text) : text := lower (partition_at ":" host).1.

Lemma split_partition c t : default [] (head (split_on c t)) = (partition_at c t).1.
Proof.
  induction t as [|a t IH]; simpl; [done|]. case_bool_decide; [done|].
  destruct (partition_at c t) as [x y]. destruct (split_on c t) as [|w ws]; simpl in *; by rewrite IH.
Qed.

Lemma partition_none c t : c ∉ t -> (partition_at c t).1 = t.
Proof.
  induction t as [|a t IH]; intros H; simpl; [done|]. apply not_elem_of_cons in H as [H1 H2].
  rewrite bool_decide_eq_false_2 by congruence. destruct (partition_at c t) as [x y] eqn:E. simpl in *.
  by rewrite <-IH.
Qed.

Lemma valid_host_bare allowed host :
  lit "*" ∉ allowed -> is_valid_host allowed host = existsb (host_matches (bare_host host)) allowed.
Proof.
  intros H. unfold is_valid_host, bare_host. rewrite bool_decide_eq_false_2 by done.
  case_bool_decide as Hc; [by rewrite split_partition|by rewrite partition_none].
Qed.

Lemma host_matches_spec host pattern :
  host_matches host pattern = true <->
  lower pattern = host \/ exists d x, lower pattern = lit "*." ++ d /\ host = x ++ lit "." ++ d.
Proof.
  unfold host_matches. rewrite orb_true_iff, bool_decide_eq_true, andb_true_iff, starts_with_spec, ends_with_spec.
  split; (intros [H|H]; [by left|right]).
  - destruct H as [[d Hd] [x Hx]]. exists d, x. split; [done|]. rewrite Hx. f_equal. rewrite Hd.
    by apply (slice_suffix (lit "*") (lit "." ++ d)).
  - destruct H as (d & x & Hd & Hh). split; [by exists d|]. exists x. rewrite Hh. f_equal.
    rewrite Hd. symmetry. by apply (slice_suffix (lit "*") (lit "." ++ d)).
Qed.

(** a request is admitted exactly when every host is allowed or its host,
    without port and in lower case, is a pattern of the list or lies under the
    domain of a wildcard pattern, behind a dot. *)
Theorem trusted_host_admits allowed ty headers :
  ty <> OtherScope ->
  trusted_host allowed ty headers = Forward <->
  lit "*" ∈ allowed \/
  exists pattern, pattern ∈ allowed /\
    (lower pattern = bare_host (host_header headers) \/
     exists d x, lower pattern = lit "*." ++ d /\ bare_host (host_header headers) = x ++ lit "." ++ d).
Proof.
  intros Hty.
  assert (trusted_host allowed ty headers = Forward <-> is_valid_host allowed (host_header headers) = true) as ->
    by (unfold trusted_host; destruct ty; [..|done]; destruct (is_valid_host _ _); naive_solver).
  destruct (decide (lit "*" ∈ allowed)) as [Hs|Hs].
  - unfold is_valid_host. rewrite bool_decide_eq_true_2 by done. naive_solver.
  - rewrite valid_host_bare, existsb_exists by done. setoid_rewrite host_matches_spec.
    setoid_rewrite <-list_elem_of_In. naive_solver.
Qed.

(** a WebSocket connection that a middleware of the chain rejects is never
    closed: the handler does not run, but the close the middleware sends is
    dropped and nothing reaches the client. *)
Theorem ws_rejection_is_lost {A} allowed headers (chain1 chain2 : list mw) (inner : list A) :
  Forall (fun m => m WebSocket headers = Forward) chain1 ->
  is_valid_host allowed (host_header headers) = false ->
  trusted_host allowed WebSocket headers = Reply [WsClose 1008] /\
  ws_entry_with_chain (chain1 ++ trusted_host allowed :: chain2) headers inner = [].
Proof.
  intros HF Hv. assert (trusted_host allowed WebSocket headers = Reply [WsClose 1008]) as Hr
    by (unfold trusted_host; by rewrite Hv).
  split; [done|]. induction HF as [|m chain1 Hm _ IH]; cbn [app ws_entry_with_chain]; [by rewrite Hr|]. by rewrite Hm.
Qed.

(** redirecting is idempotent, ends with an [https] URL where it began with
    an [http] one, and keeps the rest of the URL. *)
Theorem redirect_url_secures url rest :
  redirect_url (redirect_url url) = redirect_url url /\
  redirect_url (lit "http://" ++ rest) = lit "https://" ++ rest.
Proof.
  assert (forall rest, redirect_url (lit "http://" ++ rest) = lit "https://" ++ rest) as H.
  { intros r. unfold redirect_url. rewrite starts_with_app. f_equal.
    by apply (slice_suffix (lit "http://") r). }
  split; [|apply H]. destruct (starts_with "http://" url) eqn:E.
  - apply starts_with_spec in E as [r ->]. by rewrite H.
  - assert (redirect_url url = url) as -> by (unfold redirect_url; by rewrite E).
    unfold redirect_url. by rewrite E.
Qed.

(** behind the authentication middleware, an endpoint decorated with
    [requires] runs exactly when the backend returned credentials (or found
    none, which grants no scopes) that cover every required scope; then it sees
    these credentials and this user. *)
Theorem endpoint_runs_iff_scopes_granted {user} (unauthenticated : user) authenticate on_error
    required status redirect r r' :
  (forall msg, on_error msg <> Ran r') ->
  auth_call unauthenticated (Some authenticate) on_error
    (fun q => requires required status redirect (fun args _ => Ran q) [Some q] []) r = Ran r' <->
  exists granted u,
    (authenticate r = Credentials granted u \/
     authenticate r = NoCredentials /\ granted = [] /\ u = unauthenticated) /\
    r' = {| r_auth := Some granted; r_user := Some u |} /\
    forall s, s ∈ required -> s ∈ granted.
Proof.
  intros Herr.
  assert (forall granted u,
    requires required status redirect (fun _ _ => Ran {| r_auth := Some granted; r_user := Some u |})
      [Some {| r_auth := Some granted; r_user := Some u |}] [] = Ran r' <->
    r' = {| r_auth := Some granted; r_user := Some u |} /\ forall s, s ∈ required -> s ∈ granted) as Hreq.
  { intros granted u. unfold requires. simpl. unfold _has_scopes. simpl.
    destruct (forallb _ required) eqn:E.
    - rewrite forallb_forall in E. setoid_rewrite <-list_elem_of_In in E. setoid_rewrite bool_decide_eq_true in E.
      naive_solver.
    - split; [unfold _unauthorized; by destruct redirect as [[]|]|]. intros [_ H].
      assert (forallb (fun s => bool_decide (s ∈ granted)) required = true); [|congruence].
      apply forallb_forall. intros s Hs%list_elem_of_In. by apply bool_decide_eq_true, H. }
  unfold auth_call. destruct (authenticate r) as [|granted u|msg|e] eqn:E.
  - rewrite Hreq. split; [intros H; exists [], unauthenticated; naive_solver|].
    intros (g & u & [?|(_ & -> & ->)] & Hr'); [done|exact Hr'].
  - rewrite Hreq. split; [intros H; exists granted, u; naive_solver|].
    intros (g & u' & [[= <- <-]|(? & _)] & Hr'); [exact Hr'|done].
  - split; [intros H; by destruct (Herr msg)|]. intros (? & ? & [?|[? _]] & _); done.
  - split; [done|]. intros (? & ? & [?|[? _]] & _); done.
Qed.

(** ** Witnesses *)

Lemma trusted_host_admits_witness :
  trusted_host [lit "*.Example.com"] Http [(lit "Host", lit "API.example.com:8000")] = Forward <->
  lit "*" ∈ [lit "*.Example.com"] \/
  exists pattern, pattern ∈ [lit "*.Example.com"] /\
    (lower pattern = bare_host (host_header [(lit "Host", lit "API.example.com:8000")]) \/
     exists d x, lower pattern = lit "*." ++ d /\
       bare_host (host_header [(lit "Host", lit "API.example.com:8000")]) = x ++ lit "." ++ d).
Proof. apply (trusted_host_admits [lit "*.Example.com"] Http). done. Defined.

Lemma ws_rejection_is_lost_witness :
  trusted_host [lit "example.com"] WebSocket [(lit "host", lit "evil.org")] = Reply [WsClose 1008] /\
  ws_entry_with_chain ([] ++ [trusted_host [lit "example.com"]]) [(lit "host", lit "evil.org")] [1%nat] = [].
Proof.
  apply (ws_rejection_is_lost [lit "example.com"] [(lit "host", lit "evil.org")] [] [] [1%nat]);
    [constructor|vm_compute; reflexivity].
Defined.

Lemma endpoint_runs_iff_scopes_granted_witness :
  let authenticate (_ : @request nat) := Credentials [lit "admin"] 7%nat in
  auth_call 0%nat (Some authenticate) _default_on_error
    (fun q => requires [lit "admin"] 403 None (fun args _ => Ran q) [Some q] []) {| r_auth := None; r_user := None |} =
    Ran {| r_auth := Some [lit "admin"]; r_user := Some 7%nat |} <->
  exists granted u,
    (authenticate {| r_auth := None; r_user := None |} = Credentials granted u \/
     authenticate {| r_auth := None; r_user := None |} = NoCredentials /\ granted = [] /\ u = 0%nat) /\
    {| r_auth := Some [lit "admin"]; r_user := Some 7%nat |} = {| r_auth := Some granted; r_user := Some u |} /\
    forall s, s ∈ [lit "admin"] -> s ∈ granted.
Proof.
  intros authenticate.
  apply (endpoint_runs_iff_scopes_granted 0%nat authenticate _default_on_error [lit "admin"] 403 None
           {| r_auth := None; r_user := None |} {| r_auth := Some [lit "admin"]; r_user := Some 7%nat |}).
  by intros msg.
Defined.

End Guards.
