(* ===== verification/Streams.v ===== *)
(** Streaming bodies (responses.py): [_step_anext] drives one step of an async
    generator, [_drive_stream] pumps a whole body into the Rust channel,
    [_spawn_stream_task] starts it on the loop, [_drive_stream_inline] on the
    request's thread, [_gen_is_noawait] and
    [_stream_is_noawait] classify generators; and the [receive] of a request
    built by the door ([_make_disconnect_receive], requests.py). *)

From S2P Require Import Prelude.

Module Streams.

(** ** Async generators *)

(** What the rest of an async generator does: yield a chunk (closed there, it
    runs the effects [on_close]), pass a checkpoint (a bare yield of [None]),
    await a future that the loop answers with a value or an exception, raise, or
    end. *)
Inductive agen :=
| Yield (chunk : nat) (on_close : list nat) (rest : agen)
| Checkpoint (rest : agen)
| AwaitIo (io : nat) (rest : res nat -> agen)
| Fail (e : exn)
| End.

(** What is observed: a future handed to the loop, a turn given to the loop for
    nothing, a chunk pushed, waiting for room in the channel, the clean-up of a
    closed generator, the channel closed. *)
Inductive event := Io (n : nat) | Turn | Pushed (c : nat) | WaitRoom | Cleanup (l : list nat) | CloseChannel.

(** The result of [push]: sent, the receiver is gone, or a future that says
    which once there is room. *)
Inductive push_result := Sent | Gone | Room (ok : bool).

Definition accepted (r : push_result) : bool := match r with Sent => true | Gone => false | Room ok => ok end.
Definition push_events (c : nat) (r : push_result) : list event :=
  Pushed c :: match r with Room _ => [WaitRoom] | _ => [] end.

(** What one [__anext__()] comes to: a chunk with the generator suspended at
    its yield, the end, or an exception. *)
Inductive next := Chunk (c : nat) (on_close : list nat) (rest : agen) | Done | Raised (e : exn).

Section Drive.

(** The loop's answer to a future. *)
Context (io : nat -> res nat).

(** [_step_anext]: checkpoints are resumed at once, futures are passed to the
    loop and its answer, an exception too, goes back into the generator. *)
Fixpoint _step_anext (g : agen) : list event * next :=
  match g with
  | Yield c w rest => ([], Chunk c w rest)
  | Checkpoint rest => _step_anext rest
  | AwaitIo n rest => let '(t, r) := _step_anext (rest (io n)) in (Io n :: t, r)
  | Fail e => ([], Raised e)
  | End => ([], Done)
  end.

(** How many chunks a generator yields at most. *)
Fixpoint yields (g : agen) : nat :=
  match g with
  | Yield _ _ rest => S (yields rest)
  | Checkpoint rest => yields rest
  | AwaitIo n rest => yields (rest (io n))
  | _ => 0
  end.

(** The loop of [_drive_stream] with the driver [step]; [n] chunks were sent.
    [pushes] answers the pushes in order.  [fuel] bounds the chunks. *)
Fixpoint drive_with (step : agen -> list event * next) (fair : bool) (pushes : nat -> push_result)
    (fuel n : nat) (g : agen) : option (list event * option exn) :=
  match fuel with
  | O => None
  | S fuel' =>
      let '(t, r) := step g in
      match r with
      | Done => Some (t ++ [CloseChannel], None)
      | Raised e => Some (t, Some e)
      | Chunk c w rest =>
          let t := t ++ push_events c (pushes n) in
          if accepted (pushes n) then
            let turn := if fair && bool_decide (N.land (N.of_nat (S n)) 63 = 0%N) then [Turn] else [] in
            match drive_with step fair pushes fuel' (S n) rest with
            | Some (t', r') => Some (t ++ turn ++ t', r')
            | None => None
            end
          else Some (t ++ [Cleanup w; CloseChannel], None)
      end
  end.

Definition _drive_stream (fair : bool) (pushes : nat -> push_result) (g : agen)
    : option (list event * option exn) :=
  drive_with _step_anext fair pushes (S (yields g)) 0 g.

(** The reference, by recursion on the generator and without the driver: the
    program
<<
    async for chunk in body:
        sent = push(chunk)            # awaited when it is a future
        if not sent:
            await body.aclose()
            break
    push.close()
>>
    as the language runs it, after [n] chunks: an [await] in the generator, a
    checkpoint included, goes to the loop; an exception of the generator leaves
    the program at once. *)
Fixpoint async_for (pushes : nat -> push_result) (n : nat) (g : agen) : list event * option exn :=
  match g with
  | End => ([CloseChannel], None)
  | Fail e => ([], Some e)
  | Checkpoint rest => let '(t, r) := async_for pushes n rest in (Turn :: t, r)
  | AwaitIo i rest => let '(t, r) := async_for pushes n (rest (io i)) in (Io i :: t, r)
  | Yield c w rest =>
      match pushes n with
      | Sent => let '(t, r) := async_for pushes (S n) rest in (Pushed c :: t, r)
      | Room true => let '(t, r) := async_for pushes (S n) rest in (Pushed c :: WaitRoom :: t, r)
      | Gone => ([Pushed c; Cleanup w; CloseChannel], None)
      | Room false => ([Pushed c; WaitRoom; Cleanup w; CloseChannel], None)
      end
  end.

(** Whether a task waited for the loop. *)
Definition suspends (e : event) : bool := match e with Io _ | Turn | WaitRoom => true | _ => false end.

(** [_spawn_stream_task] with an eager start: [True] when the whole stream ran
    at once, without an exception. *)
Definition _spawn_stream_task (pushes : nat -> push_result) (g : agen) : bool :=
  match _drive_stream true pushes g with
  | Some (t, None) => negb (existsb suspends t)
  | _ => false
  end.

(** *** On the request's own thread *)

(** The running loop of the thread, and the [_thread_id] of the private loop. *)
Record thread := { running_loop : option nat; loop_thread : option nat }.

(** What a run up to the first suspension did. *)
Fixpoint eager (t : list event) : list event :=
  match t with
  | [] => []
  | e :: t' => if suspends e then [] else e :: eager t'
  end.

(** A task: what its first step did, and how it ended if it did. *)
Record task := { did : list event; ended : option (option exn); saw : thread }.

(** [_drive_stream_inline] on thread [me]: [has_id] says whether the loop has a
    [_thread_id], [has_eager] whether tasks can be started eagerly. *)
Definition _drive_stream_inline (has_id has_eager : bool) (me loop : nat) (pushes : nat -> push_result) (g : agen)
    (th : thread) : thread * res (option task) :=
  if negb has_id then (th, Raise AttributeError)
  else
    let inside := {| running_loop := Some loop; loop_thread := Some me |} in
    let restored := {| running_loop := running_loop th; loop_thread := loop_thread th |} in
    (restored,
     if negb has_eager then Raise TypeError
     else Ok ((fun x => {| did := eager x.1;
                           ended := if existsb suspends x.1 then None else Some x.2;
                           saw := inside |}) <$> _drive_stream false pushes g)).

End Drive.

(** ** Classification *)

(** The code of an async generator: its identity and whether it has a
    [GET_AWAITABLE] instruction; [None] for the instructions when they cannot be
    read. *)
Record code_object := { c_id : nat; c_awaits : option bool }.

(** [_gen_is_noawait] with its cache, by identity of the code object. *)
Definition _gen_is_noawait (cache : gmap nat bool) (ag_code : option code_object) : bool * gmap nat bool :=
  match ag_code with
  | None => (false, cache)
  | Some c =>
      match cache !! c_id c with
      | Some b => (b, cache)
      | None =>
          let verdict := match c_awaits c with Some a => negb a | None => false end in
          (verdict, <[ c_id c := verdict ]> cache)
      end
  end.

(** [_stream_is_noawait]: the flag of the response, else its generator. *)
Definition _stream_is_noawait (cache : gmap nat bool) (flag : option bool) (body : option code_object)
    : bool * gmap nat bool :=
  match flag with
  | Some b => (b, cache)
  | None => _gen_is_noawait cache body
  end.

(** ** The [receive] of a door-built request *)

Inductive received := Request (body : bytes) | Disconnect | Forever.

(** [delivered] and whether the disconnect event, if there is one, is set. *)
Definition receive (body : bytes) (delivered gone : bool) : received * bool :=
  if negb delivered then (Request body, true)
  else if gone then (Disconnect, true)
  else (Forever, true).

Fixpoint receive_all (body : bytes) (delivered : bool) (gones : list bool) : list received :=
  match gones with
  | [] => []
  | g :: gones' => let '(r, d) := receive body delivered g in r :: receive_all body d gones'
  end.

(** ** Lemmas *)

Definition is_turn (e : event) : bool := match e with Turn => true | _ => false end.

(** What remains when turns of the loop are not counted. *)
Definition erase (t : list event) : list event := filter (fun e => is_turn e = false) t.

Lemma erase_app t u : erase (t ++ u) = erase t ++ erase u.
Proof. apply filter_app. Qed.

Lemma erase_cons e t : erase (e :: t) = if is_turn e then erase t else e :: erase t.
Proof. unfold erase. rewrite filter_cons. by destruct (is_turn e). Qed.

Lemma erase_push c r : erase (push_events c r) = push_events c r.
Proof. by destruct r. Qed.

Section Facts.

Context (io : nat -> res nat).

(** Up to the next chunk, the end or an exception the reference does what the
    driver's step does. *)
Lemma async_for_step pushes n g :
  let '(t, r) := _step_anext io g in
  erase (async_for io pushes n g).1 =
    erase t ++ match r with
               | Chunk c w rest => erase (async_for io pushes n (Yield c w rest)).1
               | Done => [CloseChannel]
               | Raised _ => []
               end /\
  (async_for io pushes n g).2 =
    match r with
    | Chunk c w rest => (async_for io pushes n (Yield c w rest)).2
    | Done => None
    | Raised e => Some e
    end.
Proof.
  induction g as [c w rest IH|rest IH|i rest IH|e|]; cbn [_step_anext]; try done.
  - cbn [async_for]. destruct (_step_anext io rest) as [t r], (async_for io pushes n rest) as [t' r']. done.
  - specialize (IH (io i)). cbn [async_for].
    destruct (_step_anext io (rest (io i))) as [t r], (async_for io pushes n (rest (io i))) as [t' r'].
    cbn [fst snd] in *. destruct IH as [H1 H2]. split; [|done]. rewrite !erase_cons. cbn. by rewrite H1.
Qed.

Lemma step_yields g t c w rest : _step_anext io g = (t, Chunk c w rest) -> yields io g = S (yields io rest).
Proof.
  revert t. induction g as [c' w' rest' IH|rest' IH|n rest' IH|e|]; simpl; intros t H; try done.
  - by simplify_eq.
  - by eapply IH.
  - destruct (_step_anext io (rest' (io n))) as [t' r'] eqn:E. simplify_eq. by eapply IH.
Qed.

(** The driver ends, and does what [async for] does but for turns of the loop. *)
Lemma drive_async_for fair pushes fuel n g :
  (yields io g < fuel)%nat ->
  exists t, drive_with (_step_anext io) fair pushes fuel n g = Some (t, (async_for io pushes n g).2) /\
    erase t = erase (async_for io pushes n g).1.
Proof.
  revert n g. induction fuel as [|fuel IH]; intros n g Hf; [lia|]. cbn [drive_with].
  pose proof (async_for_step pushes n g) as Ha. destruct (_step_anext io g) as [t r] eqn:E.
  destruct Ha as [H1 H2]. rewrite H1, H2. clear H1 H2. destruct r as [c w rest| |e].
  - apply step_yields in E. cbn [async_for]. destruct (pushes n) as [| |[]] eqn:Ep; cbn [accepted push_events];
      try (eexists; split; [done|]; by rewrite !erase_app, <-?app_assoc).
    all: destruct (IH (S n) rest) as (u & -> & Hu); [lia|]; destruct (async_for io pushes (S n) rest) as [t' r'];
      eexists; (split; [done|]); cbn [fst] in *; rewrite !erase_app, Hu, <-?app_assoc; by destruct (fair && _).
  - eexists. split; [done|]. by rewrite erase_app.
  - eexists. split; [done|]. by rewrite app_nil_r.
Qed.

(** At most [budget] chunks before the loop gets a turn, then at most 64. *)
Fixpoint bounded (budget : nat) (t : list event) : Prop :=
  match t with
  | [] => True
  | Pushed _ :: t' => match budget with O => False | S b => bounded b t' end
  | e :: t' => bounded (if suspends e then 64 else budget) t'
  end.

Lemma bounded_mono b b' t : (b <= b' <= 64)%nat -> bounded b t -> bounded b' t.
Proof.
  revert b b'. induction t as [|e t IH]; intros b b' Hb; simpl; [done|].
  destruct e; try (apply IH; simpl; lia).
  destruct b; [done|]. destruct b'; [lia|]. apply IH. lia.
Qed.

Lemma step_bounded g b u :
  (b <= 64)%nat -> bounded b u -> bounded b ((_step_anext io g).1 ++ u).
Proof.
  intros Hb Hu.
  assert (forall b', (b <= b' <= 64)%nat -> bounded b' ((_step_anext io g).1 ++ u)) as H; [|by apply H; lia].
  induction g as [c w rest IH|rest IH|n rest IH|e|]; intros b' Hb'; simpl;
    try by apply (bounded_mono b). 
  - by apply IH.
  - specialize (IH (io n) 64%nat ltac:(lia)).
    destruct (_step_anext io (rest (io n))) as [t r]. simpl in *. done.
Qed.

Lemma land_63 n : N.land (N.of_nat n) 63 = 0%N <-> (n mod 64 = 0)%nat.
Proof.
  change 63%N with (N.ones 6). rewrite N.land_ones. change (2 ^ 6)%N with (N.of_nat 64).
  rewrite <-Nat2N.inj_mod. lia.
Qed.

Lemma drive_bounded pushes fuel n b g t r :
  (b <= 64)%nat -> (64 <= b + n mod 64)%nat ->
  drive_with (_step_anext io) true pushes fuel n g = Some (t, r) -> bounded b t.
Proof.
  revert n b g t r. induction fuel as [|fuel IH]; intros n b g t r Hb Hn; [done|]. cbn [drive_with].
  pose proof (fun u => step_bounded g b u Hb) as Hstep.
  destruct (_step_anext io g) as [t0 x]. simpl in Hstep. destruct x as [c w rest| |e].
  - assert (n mod 64 < 64)%nat as Hm by (apply Nat.mod_upper_bound; lia).
    destruct b as [|b]; [lia|].
    assert (forall u b', (b <= b' <= 64)%nat -> bounded b u -> bounded (S b) ((t0 ++ push_events c (pushes n)) ++ u))
      as Hpush.
    { intros u b' Hb' Hu. rewrite <-app_assoc. apply Hstep. simpl.
      destruct (pushes n); simpl; try done. by apply (bounded_mono b); [lia|]. }
    destruct (accepted (pushes n)).
    + destruct (drive_with (_step_anext io) true pushes fuel (S n) rest) as [[t' r']|] eqn:E; [|done].
      intros [= <- <-]. apply (Hpush _ 64%nat ltac:(lia)). case_bool_decide as Hl; simpl.
      * apply land_63 in Hl. eapply (IH (S n)); [lia| |exact E]. lia.
      * rewrite land_63 in Hl. eapply (IH (S n)); [lia| |exact E].
        pose proof (Nat.div_mod_eq n 64). pose proof (Nat.div_mod_eq (S n) 64).
        pose proof (Nat.mod_upper_bound (S n) 64 ltac:(lia)). lia.
    + intros [= <- <-]. by apply (Hpush _ 64%nat ltac:(lia)).
  - intros [= <- <-]. by apply Hstep.
  - intros [= <- <-]. specialize (Hstep []). rewrite app_nil_r in Hstep. by apply Hstep.
Qed.

End Facts.

(** *** What is delivered *)

Definition pushed (t : list event) : list nat :=
  omap (fun e => match e with Pushed c => Some c | _ => None end) t.
Definition cleanups (t : list event) : list (list nat) :=
  omap (fun e => match e with Cleanup l => Some l | _ => None end) t.

Section Delivery.

Context (io : nat -> res nat).

(** The chunks of a generator with the clean-up at each, and how it ends. *)
Fixpoint chunks (g : agen) : list (nat * list nat) :=
  match g with
  | Yield c w rest => (c, w) :: chunks rest
  | Checkpoint rest => chunks rest
  | AwaitIo n rest => chunks (rest (io n))
  | _ => []
  end.

Fixpoint failure (g : agen) : option exn :=
  match g with
  | Yield _ _ rest | Checkpoint rest => failure rest
  | AwaitIo n rest => failure (rest (io n))
  | Fail e => Some e
  | End => None
  end.

Lemma step_chunks g :
  let '(t, r) := _step_anext io g in
  pushed t = [] /\ cleanups t = [] /\
  match r with
  | Chunk c w rest => chunks g = (c, w) :: chunks rest /\ failure g = failure rest
  | Done => chunks g = [] /\ failure g = None
  | Raised e => chunks g = [] /\ failure g = Some e
  end.
Proof.
  induction g as [c w rest IH|rest IH|n rest IH|e|]; simpl; try done.
  specialize (IH (io n)). destruct (_step_anext io (rest (io n))) as [t r]. done.
Qed.

Lemma push_events_pushed c r : pushed (push_events c r) = [c] /\ cleanups (push_events c r) = [].
Proof. by destruct r. Qed.

(** The pushes are accepted up to the [k]th, which is refused. *)
Lemma drive_delivery fair pushes fuel n k g t r :
  drive_with (_step_anext io) fair pushes fuel n g = Some (t, r) ->
  (forall i, (i < k)%nat -> accepted (pushes (n + i)%nat) = true) ->
  ((length (chunks g) <= k)%nat -> pushed t = (chunks g).*1 /\ cleanups t = [] /\ r = failure g) /\
  (forall c w, chunks g !! k = Some (c, w) -> accepted (pushes (n + k)%nat) = false ->
   pushed t = take (S k) (chunks g).*1 /\ cleanups t = [w] /\ r = None).
Proof.
  revert n k g t r. induction fuel as [|fuel IH]; intros n k g t r; [done|]. cbn [drive_with].
  pose proof (step_chunks g) as Hs. destruct (_step_anext io g) as [t0 x].
  destruct Hs as (Hp & Hc & Hx). intros H Hacc.
  destruct x as [c w rest| |e]; destruct Hx as [-> ->].
  - destruct (push_events_pushed c (pushes n)) as [Hpe Hce].
    destruct (accepted (pushes n)) eqn:Ea.
    + destruct (drive_with (_step_anext io) fair pushes fuel (S n) rest) as [[t' r']|] eqn:E; [|done].
      injection H as <- <-.
      set (turn := if fair && _ then _ else _).
      assert (pushed turn = [] /\ cleanups turn = []) as [Ht1 Ht2] by (subst turn; by destruct (fair && _)).
      unfold pushed, cleanups in *. rewrite !omap_app, Hp, Hc, Hpe, Hce, Ht1, Ht2. simpl.
      destruct k as [|k].
      { rewrite Nat.add_0_r. split; [simpl; lia|]. intros ? ? _ ?. congruence. }
      destruct (IH (S n) k rest t' r' E) as [IH1 IH2].
      { intros i Hi. replace (S n + i)%nat with (n + S i)%nat by lia. apply Hacc. lia. }
      split.
      * intros Hl. destruct IH1 as (-> & -> & ->); [lia|done].
      * intros c' w' Hk Hf. replace (n + S k)%nat with (S n + k)%nat in Hf by lia.
        destruct (IH2 c' w' Hk Hf) as (-> & -> & ->). done.
    + injection H as <- <-. destruct k as [|k]; [|specialize (Hacc 0%nat ltac:(lia)); rewrite Nat.add_0_r in Hacc; congruence].
      split; [simpl; lia|]. intros c' w' [= <- <-] _.
      unfold pushed, cleanups in *. rewrite !omap_app, Hp, Hc, Hpe, Hce. done.
  - injection H as <- <-. unfold pushed, cleanups in *. rewrite !omap_app, Hp, Hc. split; [done|]. by intros.
  - injection H as <- <-. unfold pushed, cleanups in *. rewrite Hp, Hc. split; [done|]. by intros.
Qed.

End Delivery.

(** ** Properties *)

(** C21: driving a stream by hand is [async for].  Whatever the generator awaits
    and however the loop and the channel answer, fair or not, the driver ends, and
    it ends as the program [async_for] (push every chunk of [async for], close the
    generator and stop when the receiver is gone, close the channel unless the
    generator raised) does on the same generator, with the same futures, chunks,
    waits for room, clean-up and closing in the same order; only turns given to
    the loop for nothing differ. *)
Theorem drive_stream_is_async_for io fair pushes g :
  exists t, _drive_stream io fair pushes g = Some (t, (async_for io pushes 0 g).2) /\
    erase t = erase (async_for io pushes 0 g).1.
Proof. apply drive_async_for. lia. Qed.

(** a fair driver never pushes more than 64 chunks without giving the loop a
    turn, however few awaits the generator has. *)
Theorem fair_stream_yields_every_64 io pushes g t r :
  _drive_stream io true pushes g = Some (t, r) -> bounded 64 t.
Proof. apply drive_bounded; [lia|]. change (0 mod 64)%nat with 0%nat. lia. Qed.

(** what a stream delivers.  If the client stays, all chunks are pushed in
    order and the driver ends as the generator does, with no clean-up forced on
    it.  If the client goes away at the [k]th chunk, no later chunk is produced,
    the generator is closed once, exactly where it stands, and the driver ends
    without an exception. *)
Theorem stream_delivers_or_cleans_up io fair pushes g k :
  (forall i, (i < k)%nat -> accepted (pushes i) = true) ->
  exists t r, _drive_stream io fair pushes g = Some (t, r) /\
    ((length (chunks io g) <= k)%nat -> pushed t = (chunks io g).*1 /\ cleanups t = [] /\ r = failure io g) /\
    (forall c w, chunks io g !! k = Some (c, w) -> accepted (pushes k) = false ->
     pushed t = take (S k) (chunks io g).*1 /\ cleanups t = [w] /\ r = None).
Proof.
  intros Hacc. destruct (drive_async_for io fair pushes (S (yields io g)) 0 g) as (t & Ht & _); [lia|].
  eexists t, _. split; [done|]. apply (drive_delivery io fair pushes _ 0 k g t _ Ht). exact Hacc.
Qed.

Lemma drive_without_turns step pushes fuel : forall n g t r,
  drive_with step true pushes fuel n g = Some (t, r) -> existsb is_turn t = false ->
  drive_with step false pushes fuel n g = Some (t, r).
Proof.
  induction fuel as [|fuel IH]; intros n g t r; [done|]. cbn [drive_with].
  destruct (step g) as [t0 [c w rest| |e]]; [|done..]. destruct (accepted (pushes n)); [|done].
  destruct (drive_with step true pushes fuel (S n) rest) as [[t' r']|] eqn:E; [|done].
  intros [= <- <-]. rewrite !existsb_app, !orb_false_iff. intros (_ & Ht & Ht').
  rewrite (IH _ _ _ _ E Ht'). cbn [andb] in *. by destruct (bool_decide _).
Qed.

Lemma eager_all t : existsb suspends t = false -> eager t = t.
Proof. induction t as [|e t IH]; [done|]. cbn. by destruct (suspends e); [|intros ->%IH]. Qed.

Lemma no_suspension_no_turn t : existsb suspends t = false -> existsb is_turn t = false.
Proof. induction t as [|[] t IH]; cbn; try done; exact IH. Qed.

(** Driving on the request's thread leaves no trace on it: the running loop and
    the private loop's thread are what they were, whether the stream ended,
    suspended, raised or could not be started; and a stream that ran at once on
    the worker loop runs to its end here too, with the chunks, the closing and
    the end of [async for], seeing a running loop of its own thread. *)
Theorem inline_drive_is_invisible io has_id has_eager me loop pushes g th :
  (_drive_stream_inline io has_id has_eager me loop pushes g th).1 = th /\
  (_spawn_stream_task io pushes g = true -> has_id = true -> has_eager = true ->
   exists t, (_drive_stream_inline io has_id has_eager me loop pushes g th).2 =
       Ok (Some {| did := t; ended := Some None; saw := {| running_loop := Some loop; loop_thread := Some me |} |}) /\
     (async_for io pushes 0 g).2 = None /\ erase t = erase (async_for io pushes 0 g).1).
Proof.
  split; [unfold _drive_stream_inline; by destruct has_id, th|].
  unfold _spawn_stream_task. destruct (_drive_stream io true pushes g) as [[t [e|]]|] eqn:E; [done| |done].
  intros Hs -> ->. apply negb_true_iff in Hs.
  assert (_drive_stream io false pushes g = Some (t, None)) as Ef.
  { by apply drive_without_turns, no_suspension_no_turn. }
  destruct (drive_async_for io false pushes (S (yields io g)) 0 g) as (t1 & H1 & He); [lia|].
  unfold _drive_stream in Ef. rewrite Ef in H1. injection H1 as <- Hr. exists t. split_and!; [|done..].
  unfold _drive_stream_inline, _drive_stream. cbn [negb snd]. rewrite Ef. cbn [fmap option_fmap option_map fst snd].
  by rewrite Hs, eager_all.
Qed.

(** a verdict on a generator outlives its code.  The cache keeps no
    reference to the code object it is keyed by, so a later code object with
    the same identity gets the verdict of the earlier one, although it awaits. *)
Theorem noawait_verdict_is_stale cache n :
  cache !! n = None ->
  let '(v1, cache1) := _gen_is_noawait cache (Some {| c_id := n; c_awaits := Some false |}) in
  v1 = true /\ (_gen_is_noawait cache1 (Some {| c_id := n; c_awaits := Some true |})).1 = true.
Proof.
  intros Hc. unfold _gen_is_noawait. simpl. rewrite Hc. simpl. split; [done|].
  by rewrite lookup_insert_eq.
Qed.

(** a request built by the door delivers its body exactly once, in the first
    message, and after that only ever reports a disconnect. *)
Theorem body_received_once body gones :
  receive_all body false gones =
    match gones with
    | [] => []
    | _ :: gones' => Request body :: ((fun g : bool => if g then Disconnect else Forever) <$> gones')
    end.
Proof.
  destruct gones as [|g gones]; [done|]. cbn [receive_all receive negb]. f_equal.
  induction gones as [|g' gones IH]; [done|]. cbn [receive_all]. unfold receive. cbn [negb].
  rewrite fmap_cons, <-IH. by destruct g'.
Qed.

(** ** Witnesses *)

Definition demo_gen : agen :=
  Checkpoint (Yield 1 [10%nat] (AwaitIo 5 (fun r => match r with
                                                     | Ok n => Yield n [20%nat] (Yield 3 [30%nat] End)
                                                     | Raise e => Fail e
                                                     end))).

Lemma fair_stream_yields_every_64_witness :
  bounded 64 [Pushed 1; Io 5; Pushed 2; Pushed 3; CloseChannel].
Proof.
  apply (fair_stream_yields_every_64 (fun _ => Ok 2%nat) (fun _ => Sent) demo_gen _ None).
  vm_compute. reflexivity.
Defined.

Lemma stream_delivers_or_cleans_up_witness :
  exists t r, _drive_stream (fun _ => Ok 2%nat) true (fun i => if bool_decide (i = 1%nat) then Gone else Sent)
                demo_gen = Some (t, r) /\ pushed t = [1; 2]%nat /\ cleanups t = [[20%nat]] /\ r = None.
Proof.
  destruct (stream_delivers_or_cleans_up (fun _ => Ok 2%nat) true
    (fun i => if bool_decide (i = 1%nat) then Gone else Sent) demo_gen 1) as (t & r & H & _ & Hk).
  { intros i Hi. destruct i as [|i]; [reflexivity|lia]. }
  exists t, r. split; [exact H|]. apply (Hk 2%nat [20%nat]); reflexivity.
Defined.

Lemma noawait_verdict_is_stale_witness :
  let '(v1, cache1) := _gen_is_noawait ∅ (Some {| c_id := 1; c_awaits := Some false |}) in
  v1 = true /\ (_gen_is_noawait cache1 (Some {| c_id := 1; c_awaits := Some true |})).1 = true.
Proof. apply (noawait_verdict_is_stale ∅ 1). reflexivity. Defined.

End Streams.
