(* ===== verification/WsDeps.v ===== *)
(** Dependencies of WebSocket endpoints (_ws_support.py): the check of scopes
    ([_ws_check_scope_mismatch], and [_check_scope_mismatch] of
    [_wrap_websocket_endpoint]), the classification of parameters, scalar
    parameters, [_resolve_dep_async] with its cache, [_build_kwargs] and the
    course of a session with the teardown of [yield] dependencies. *)

From S2P Require Import Prelude Effects.

Module WsDeps.
Import Effects.

(** ** Data *)

Inductive dscope := ScFunction | ScRequest.
#[export] Instance dscope_eq_dec : EqDecision dscope.
Proof. solve_decision. Defined.

(** What a parameter is bound to. *)
Inductive value := VConn | VText (t : text) | VObj (n : nat) | VNone.

(** [Depends(function, use_cache, scope)]: the function by its identity. *)
Record depends := { dep_fn : nat; dep_use_cache : bool; dep_scope : dscope }.

(** The class of a parameter's marker; only the first three can be read from
    a handshake. *)
Inductive source := SQuery | SHeader | SCookie | SOther (class : text).

Definition class_name (s : source) : text :=
  match s with
  | SQuery => lit "Query"
  | SHeader => lit "Header"
  | SCookie => lit "Cookie"
  | SOther c => c
  end.

(** A scalar parameter: its marker, with a default value unless it is required,
    and the type to validate against, if annotated. *)
Record scalar := {
  sc_source : source;
  sc_alias : option text;
  sc_convert : bool;
  sc_default : option value;
  sc_type : option nat }.

(** How a parameter of a dependency is found. *)
Inductive dparam :=
| PConn                                  (* a [WebSocket] or [HTTPConnection] *)
| PSub (d : depends)
| PScalar (name : text) (s : scalar)
| PPlain (name : text) (default : option value) (ty : option nat)     (* no marker: a query parameter *)
| PVar.                                  (* [*args], [**kwargs] *)

(** How resolving or running ends: a value, a [WebSocketException], a validation
    error, or another exception. *)
Inductive out (A : Type) := Val (a : A) | WsExc (code : Z) (reason : text) | Invalid (name : text) | Exc (e : exn).
Arguments Val {A} a.
Arguments WsExc {A} code reason.
Arguments Invalid {A} name.
Arguments Exc {A} e.

Definition map_out {A B} (f : A -> B) (r : out A) : out B :=
  match r with
  | Val a => Val (f a)
  | WsExc c m => WsExc c m
  | Invalid n => Invalid n
  | Exc e => Exc e
  end.

(** A function: its name, whether it is a generator, its parameters, and what
    calling it with arguments (up to the [yield]) gives. *)
Record dfn := {
  fn_name : text;
  fn_yields : bool;
  fn_params : list dparam;
  fn_call : list value -> out value }.

(** ** Scalars *)

(** What the handshake brought. *)
Record connection := {
  query : text -> option text;
  headers : text -> option text;
  cookies : text -> option text }.

Definition dashes (t : text) : text := (fun c => if bool_decide (c = "_"%char) then "-"%char else c) <$> t.

Definition _resolve_ws_scalar_raw (ws : connection) (name : text) (s : scalar) : option text :=
  let alias := match sc_alias s with Some ((_ :: _) as a) => a | _ => name end in
  match sc_source s with
  | SQuery => query ws alias
  | SCookie => cookies ws alias
  | SHeader => headers ws (if sc_convert s then dashes alias else alias)
  | SOther _ => None
  end.

Section Resolve.

(** Pydantic: the validated value, or [None] for an error. *)
Context (validate : nat -> text -> option value).

Definition _validate_scalar (val : text) (ty : option nat) (name : text) : out value :=
  match ty with
  | None => Val (VText val)
  | Some n => match validate n val with Some v => Val v | None => Invalid name end
  end.

Definition quoted (name : text) : text := lit "'" ++ name ++ lit "'".
Definition missing (s : source) (name : text) : text := lit "missing " ++ class_name s ++ lit " " ++ quoted name.
Definition missing_query (name : text) : text := lit "missing query parameter " ++ quoted name.

(** A scalar with a marker. *)
Definition resolve_scalar (ws : connection) (name : text) (s : scalar) : out value :=
  match _resolve_ws_scalar_raw ws name s with
  | None => match sc_default s with
            | Some v => Val v
            | None => WsExc 1008 (missing (sc_source s) name)
            end
  | Some raw => _validate_scalar raw (sc_type s) name
  end.

(** A parameter without a marker. *)
Definition resolve_plain (ws : connection) (name : text) (default : option value) (ty : option nat)
    : out value :=
  match query ws name with
  | None => match default with Some v => Val v | None => WsExc 1008 (missing_query name) end
  | Some raw => _validate_scalar raw ty name
  end.

(** ** Resolving a dependency *)

(** The functions, and [app.dependency_overrides]. *)
Context (defs : nat -> dfn) (overrides : gmap nat nat).

Definition _effective_dep_callable (f : nat) : nat := default f (overrides !! f).

(** The values so far, the generators entered (by function), and every call. *)
Record state := St {
  cache : gmap nat value;
  generators : list nat;
  called : list nat }.

Definition call (f : nat) (d : depends) (args : list value) (s : state) : state * out value :=
  let fn := defs (_effective_dep_callable f) in
  match fn_call fn args with
  | Val v =>
      (St (if dep_use_cache d then <[ f := v ]> (cache s) else cache s)
          (if fn_yields fn then generators s ++ [f] else generators s) (called s ++ [f]), Val v)
  | r => (St (cache s) (generators s) (called s ++ [f]), r)
  end.

(** The parameters, in order, with [rec] for sub-dependencies. *)
Fixpoint resolve_params (rec : depends -> state -> state * out value) (ws : connection)
    (ps : list dparam) (args : list value) (s : state) : state * out (list value) :=
  match ps with
  | [] => (s, Val args)
  | p :: ps' =>
      let '(s', r) := match p with
                      | PConn => (s, Val (Some VConn))
                      | PSub d => let '(s', r) := rec d s in (s', map_out Some r)
                      | PScalar name sc => (s, map_out Some (resolve_scalar ws name sc))
                      | PPlain name d ty => (s, map_out Some (resolve_plain ws name d ty))
                      | PVar => (s, Val None)
                      end in
      match r with
      | Val v => resolve_params rec ws ps' (args ++ option_list v) s'
      | WsExc c m => (s', WsExc c m)
      | Invalid n => (s', Invalid n)
      | Exc e => (s', Exc e)
      end
  end.

(** [_resolve_dep_async]; [depth] is the recursion the interpreter allows. *)
Fixpoint _resolve_dep_async (depth : nat) (ws : connection) (d : depends) (s : state) : state * out value :=
  match depth with
  | O => (s, Exc RecursionError)
  | S depth' =>
      match (if dep_use_cache d then cache s !! dep_fn d else None) with
      | Some v => (s, Val v)
      | None =>
          let fn := defs (_effective_dep_callable (dep_fn d)) in
          match resolve_params (_resolve_dep_async depth' ws) ws (fn_params fn) [] s with
          | (s', Val args) => call (dep_fn d) d args s'
          | (s', WsExc c m) => (s', WsExc c m)
          | (s', Invalid n) => (s', Invalid n)
          | (s', Exc e) => (s', Exc e)
          end
      end
  end.

(** ** The endpoint *)

(** A classified parameter of the endpoint. *)
Inductive pspec :=
| SpDep (name : text) (d : depends)
| SpWs (name : text)
| SpPath (name : text) (ty : option nat)
| SpScalar (name : text) (s : scalar).

Definition spec_name (p : pspec) : text :=
  match p with SpDep n _ | SpWs n | SpPath n _ | SpScalar n _ => n end.

(** The parameters of the path, from the router. *)
Context (path_kwargs : gmap text text).

Definition resolve_spec (depth : nat) (ws : connection) (p : pspec) (s : state) : state * out value :=
  match p with
  | SpWs _ => (s, Val VConn)
  | SpPath name ty => (s, match path_kwargs !! name with
                          | Some t => _validate_scalar t ty name
                          | None => Val VNone
                          end)
  | SpScalar name sc => (s, resolve_scalar ws name sc)
  | SpDep _ d => _resolve_dep_async depth ws d s
  end.

Fixpoint resolve_specs (depth : nat) (ws : connection) (ps : list pspec) (s : state)
    : state * out (list value) :=
  match ps with
  | [] => (s, Val [])
  | p :: ps' =>
      match resolve_spec depth ws p s with
      | (s', Val v) => match resolve_specs depth ws ps' s' with
                       | (s'', Val vs) => (s'', Val (v :: vs))
                       | r => r
                       end
      | (s', WsExc c m) => (s', WsExc c m)
      | (s', Invalid n) => (s', Invalid n)
      | (s', Exc e) => (s', Exc e)
      end
  end.

(** The extra dependencies, for their effects only. *)
Fixpoint resolve_extra (depth : nat) (ws : connection) (extra : list depends) (s : state) : state * out unit :=
  match extra with
  | [] => (s, Val tt)
  | d :: extra' => match _resolve_dep_async depth ws d s with
                   | (s', Val _) => resolve_extra depth ws extra' s'
                   | (s', r) => (s', map_out (fun _ => tt) r)
                   end
  end.

(** [_build_kwargs]: all parameters of the path, overwritten by the parameters of
    the endpoint; the extra dependencies come last. *)
Definition kwargs_of (spec : list pspec) (vs : list value) : gmap text value :=
  foldl (fun m nv => <[ nv.1 := nv.2 ]> m) (VText <$> path_kwargs) (zip (spec_name <$> spec) vs).

Definition _build_kwargs (depth : nat) (ws : connection) (spec : list pspec) (extra : list depends)
    : state * out (gmap text value) :=
  match resolve_specs depth ws spec (St ∅ [] []) with
  | (s, Val vs) =>
      let '(s', r) := resolve_extra depth ws extra s in (s', map_out (fun _ => kwargs_of spec vs) r)
  | (s, r) => (s, map_out (fun _ => ∅) r)
  end.

(** ** The classification of parameters ([param_spec]) *)

Inductive pkind := PositionalOnly | PositionalOrKeyword | VarPositional | KeywordOnly | VarKeyword.
#[export] Instance pkind_eq_dec : EqDecision pkind.
Proof. solve_decision. Defined.

(** A parameter of the endpoint: whether it is annotated as a [WebSocket], its
    [Depends] ([Some None] for a blank one), its marker, its default and its
    annotation. *)
Record hparam := {
  hp_name : text;
  hp_kind : pkind;
  hp_ws : bool;
  hp_depends : option (option depends);
  hp_marker : option scalar;
  hp_default : option value;
  hp_type : option nat;
  hp_typed : bool }.

Definition positional (p : hparam) : bool :=
  bool_decide (hp_kind p = PositionalOnly \/ hp_kind p = PositionalOrKeyword).

(** [_ws_fallback_name] *)
Definition ws_fallback (sig : list hparam) : option text :=
  if existsb hp_ws sig then None
  else hp_name <$> (snd <$> list_find (fun p => positional p = true /\ hp_depends p = None /\ hp_marker p = None) sig).

Definition query_marker (default : option value) (ty : option nat) : scalar :=
  {| sc_source := SQuery; sc_alias := None; sc_convert := true; sc_default := default; sc_type := ty |}.

Definition classify (path_names : list text) (fallback : option text) (p : hparam) : option pspec :=
  match hp_depends p with
  | Some d => SpDep (hp_name p) <$> d
  | None =>
      if hp_ws p || bool_decide (fallback = Some (hp_name p)) then Some (SpWs (hp_name p))
      else if bool_decide (hp_name p ∈ path_names) then Some (SpPath (hp_name p) (hp_type p))
      else match hp_marker p with
           | Some sc => Some (SpScalar (hp_name p) sc)
           | None =>
               if bool_decide (hp_kind p = VarPositional \/ hp_kind p = VarKeyword) then None
               else if hp_typed p then Some (SpScalar (hp_name p) (query_marker (hp_default p) (hp_type p)))
               else Some (SpScalar (hp_name p)
                      (query_marker (match hp_default p with Some VNone => None | d => d end) None))
           end
  end.

Definition param_spec (path_names : list text) (sig : list hparam) : list pspec :=
  omap (classify path_names (ws_fallback sig)) sig.

(** ** The session ([_ws_entry]) *)

(** What [except Exception] sees: a validation error or another exception. *)
Inductive failure := FInvalid (name : text) | FExc (e : exn).

(** What is kept for the test client. *)
Inductive captured := CapDisconnect (code : Z) (reason : text) | CapFailure (f : failure).

(** What a session does besides calling functions. *)
Inductive event :=
| Captured (c : captured)
| QueueClose (code : Z) (reason : text)      (* in-process door *)
| Reject (status : Z)                        (* the handshake is refused *)
| Close (code : Z) (reason : text)
| RunHandler (k : nat)
| TornDown (f : nat).

(** A registered exception handler: whether its key is the class of validation
    errors itself, what it catches, and what calling it does: it raises, or it
    returns having closed the connection with a code and reason, if it did. *)
Record handler := {
  h_validation : bool;
  h_catches : failure -> bool;
  h_result : option (option (Z * text)) }.

(** Whether the connection is the in-process door's, whether the endpoint is a
    coroutine function, the parameters it takes by name ([None] for any, with
    [**kwargs]), and [app.exception_handlers], in order. *)
Record entry := {
  in_door : bool;
  is_async_endpoint : bool;
  takes : option (gset text);
  exception_handlers : list handler }.

Definition _teardown_generators (gens : list nat) : list event := TornDown <$> reverse gens.

(** Ending a connection; [connecting]: it is not accepted yet. *)
Definition end_connection (door connecting : bool) (queued : Z * text) (status : Z) (closed : Z * text)
    : list event :=
  if door then [QueueClose queued.1 queued.2]
  else if connecting then [Reject status]
  else [Close closed.1 closed.2].

Definition _handle_ws_exc (en : entry) (connecting : bool) (code : Z) (reason : text) : list event :=
  Captured (CapDisconnect code reason) ::
  end_connection (in_door en) connecting (code, reason) 403 (code, reason).

(** The exception that restarts an [async] endpoint on the worker loop. *)
Definition needs_loop (e : exn) : bool :=
  match e with
  | RuntimeError m => bool_decide (0 <= find (lit "no running event loop") m 0) ||
                      bool_decide (0 <= find (lit "no current event loop") m 0)
  | _ => false
  end.

(** The first handler that catches [f], with its position. *)
Definition first_handler (hs : list handler) (f : failure) : option (nat * handler) :=
  list_find (fun h => h_catches h f = true) hs.

Definition validation_error : Z * text := (1008, lit "validation error").

(** The [except Exception] clause. *)
Definition on_failure (en : entry) (connecting : bool) (f : failure) : list event :=
  match f, exception_handlers en with
  | FInvalid _, (_ :: _) as hs =>
      Captured (CapFailure f) ::
      (match list_find (fun h => h_validation h = true) hs with Some (k, _) => [RunHandler k] | None => [] end) ++
      Captured (CapDisconnect validation_error.1 validation_error.2) ::
      end_connection (in_door en) connecting validation_error 403 validation_error
  | _, hs =>
      let unhandled := Captured (CapFailure f) ::
                       end_connection (in_door en) connecting (1011, []) 500 (1006, []) in
      match first_handler hs f with
      | Some (k, h) =>
          RunHandler k ::
          match h_result h with
          | Some closed => let '(code, reason) := default (1000, []) closed in
                           [Captured (CapDisconnect (if bool_decide (code = 0) then 1000 else code) reason)]
          | None => unhandled
          end
      | None => unhandled
      end
  end.

(** Calling the endpoint by name; it is restarted on the worker loop
    ([resubmit]) if it needs one. *)
Definition run_endpoint (en : entry) (endpoint resubmit : gmap text value -> out unit)
    (kwargs : gmap text value) : out unit :=
  if match takes en with Some names => bool_decide (dom kwargs ⊆ names) | None => true end then
    match endpoint kwargs with
    | Exc e => if is_async_endpoint en && needs_loop e then resubmit kwargs else Exc e
    | r => r
    end
  else Exc TypeError.

(** A session of an application without WebSocket middleware: the generators
    entered, what happened, and the exception that left it, if any.  The list of
    generators is assigned only when the arguments were built, and a
    [WebSocketException] of building them is handled on the spot.  [connecting]
    tells whether the connection is still unaccepted when a failure surfaces. *)
Record session := { entered : list nat; events : list event; raised : option exn }.

Definition torn_down (s : session) : list nat :=
  omap (fun ev => match ev with TornDown f => Some f | _ => None end) (events s).

Definition finish (en : entry) (connecting : bool) (entered gens : list nat) (r : out unit) : session :=
  match r with
  | Val _ => {| entered := entered; events := _teardown_generators gens; raised := None |}
  | WsExc c m => {| entered := entered; events := _handle_ws_exc en connecting c m ++ _teardown_generators gens;
                    raised := None |}
  | Invalid n => {| entered := entered;
                    events := on_failure en connecting (FInvalid n) ++ _teardown_generators gens; raised := None |}
  | Exc e => if is_exception e
             then {| entered := entered; events := on_failure en connecting (FExc e) ++ _teardown_generators gens;
                     raised := None |}
             else {| entered := entered; events := []; raised := Some e |}
  end.

Definition _ws_entry (en : entry) (connecting : bool) (depth : nat) (ws : connection) (spec : list pspec)
    (extra : list depends) (endpoint resubmit : gmap text value -> out unit) : session :=
  match _build_kwargs depth ws spec extra with
  | (s, Val kwargs) => finish en connecting (generators s) (generators s) (run_endpoint en endpoint resubmit kwargs)
  | (s, WsExc c m) => {| entered := generators s; events := _handle_ws_exc en connecting c m; raised := None |}
  | (s, Invalid n) => finish en connecting (generators s) [] (Invalid n)
  | (s, Exc e) => finish en connecting (generators s) [] (Exc e)
  end.

End Resolve.

(** ** The check of scopes *)

Section Scopes.

Context (defs : nat -> dfn).

Definition sub_depends (f : nat) : list depends :=
  omap (fun p => match p with PSub d => Some d | _ => None end) (fn_params (defs f)).

(** A generator of request scope that depends on one of function scope. *)
Definition mismatch (d sub : depends) : bool :=
  fn_yields (defs (dep_fn d)) && fn_yields (defs (dep_fn sub)) &&
  bool_decide (dep_scope d = ScRequest) && bool_decide (dep_scope sub = ScFunction).

(** The functions visited, the function for which [FastAPIError] is raised, or
    the recursion limit. *)
Inductive walked := Visited (v : gset nat) | Mismatch (f : nat) | TooDeep.

(** The loop over the sub-dependencies of [d]. *)
Fixpoint check_subs (walk : depends -> gset nat -> walked) (d : depends) (subs : list depends)
    (visited : gset nat) : walked :=
  match subs with
  | [] => Visited visited
  | sub :: subs' =>
      if mismatch d sub then Mismatch (dep_fn d)
      else match walk sub visited with
           | Visited visited' => check_subs walk d subs' visited'
           | r => r
           end
  end.

(** [_walk], [_check_scope_mismatch] *)
Fixpoint _walk (depth : nat) (d : depends) (visited : gset nat) : walked :=
  match depth with
  | O => TooDeep
  | S depth' =>
      if bool_decide (dep_fn d ∈ visited) then Visited visited
      else check_subs (_walk depth') d (sub_depends (dep_fn d)) ({[ dep_fn d ]} ∪ visited)
  end.

Definition scope_message (f : nat) : text :=
  let dq := ["034"%char] in
  lit "The dependency " ++ dq ++ fn_name (defs f) ++ dq ++ lit " has a scope of " ++ dq ++ lit "request" ++ dq ++
  lit ", it cannot depend on dependencies with scope " ++ dq ++ lit "function" ++ dq.

(** [_ws_check_scope_mismatch]: each parameter of the endpoint from scratch. *)
Fixpoint _ws_check_scope_mismatch (depth : nat) (deps : list depends) : res unit :=
  match deps with
  | [] => Ok tt
  | d :: deps' => match _walk depth d ∅ with
                  | Visited _ => _ws_check_scope_mismatch depth deps'
                  | Mismatch f => Raise (FastAPIError (scope_message f))
                  | TooDeep => Raise RecursionError
                  end
  end.

(** [_check_scope_mismatch] of [_wrap_websocket_endpoint]: the same walk over
    the dependencies of the endpoint and the extra ones. *)
Definition _check_scope_mismatch (depth : nat) (spec : list pspec) (extra : list depends) : res unit :=
  _ws_check_scope_mismatch depth (omap (fun p => match p with SpDep _ d => Some d | _ => None end) spec ++ extra).

End Scopes.

(** ** Lemmas *)

Definition is_val {A} (r : out A) : bool := match r with Val _ => true | _ => false end.

Section Facts.

Context (validate : nat -> text -> option value) (defs : nat -> dfn) (overrides : gmap nat nat).
Context (path_kwargs : gmap text text) (ws : connection) (rank : nat -> nat).

Notation eff := (_effective_dep_callable overrides).
Notation subs f := (sub_depends defs (eff f)).
Notation resolve := (_resolve_dep_async validate defs overrides).

(** Functions depend on functions of lower rank, overrides included, and every
    dependency is cached. *)
Hypothesis Hrank : forall f d, d ∈ subs f -> (rank (dep_fn d) < rank f)%nat /\ dep_use_cache d = true.

(** Every generator comes after those it depends on. *)
Definition ordered (gs : list nat) : Prop :=
  forall l1 f l2, gs = l1 ++ f :: l2 ->
    forall d, d ∈ subs f -> fn_yields (defs (eff (dep_fn d))) = true -> dep_fn d ∈ l1.

Record inv (s : state) : Prop := {
  inv_nodup : NoDup (called s);
  inv_cached : forall f, f ∈ called s -> f ∈ dom (cache s);
  inv_gens : forall f, f ∈ dom (cache s) -> fn_yields (defs (eff f)) = true -> f ∈ generators s;
  inv_ordered : ordered (generators s) }.

(** What resolving a dependency of rank below [n] does to the state. *)
Record post (n : nat) (s s' : state) (ok : bool) : Prop := {
  post_nodup : NoDup (called s');
  post_new : forall f, f ∈ called s' -> f ∈ called s \/ (rank f < n)%nat;
  post_cache : dom (cache s) ⊆ dom (cache s');
  post_inv : ok = true -> inv s';
  post_ordered : ordered (generators s') }.

Lemma post_refl n s ok : inv s -> post n s s ok.
Proof. intros [????]. split; auto. done. Qed.

Lemma post_trans n s s1 s2 ok : post n s s1 true -> post n s1 s2 ok -> post n s s2 ok.
Proof.
  intros [H1 H2 H3 H4 H5] [H1' H2' H3' H4' H5']. split; auto.
  - intros f [Hf|Hf]%H2'; [by apply H2|by right].
  - set_solver.
Qed.

Lemma post_weaken n m s s' ok : (n <= m)%nat -> post n s s' ok -> post m s s' ok.
Proof.
  intros Hle [H1 H2 H3 H4 H5]. split; auto. intros f [Hf|Hf]%H2; [by left|right; lia].
Qed.

(** Parameters, given that sub-dependencies behave; [ds] are resolved on success. *)
Lemma resolve_params_post n rec ps args s :
  (forall d s, d ∈ omap (fun p => match p with PSub d => Some d | _ => None end) ps -> inv s ->
     post n s (rec d s).1 (is_val (rec d s).2) /\
     (is_val (rec d s).2 = true -> dep_fn d ∈ dom (cache (rec d s).1))) ->
  inv s ->
  let '(s', r) := resolve_params validate rec ws ps args s in
  post n s s' (is_val r) /\
  (is_val r = true -> forall d, d ∈ omap (fun p => match p with PSub d => Some d | _ => None end) ps ->
     dep_fn d ∈ dom (cache s')).
Proof.
  revert args s. induction ps as [|p ps IH]; intros args s Hrec Hi; cbn [resolve_params].
  { split; [by apply post_refl|]. intros _ d. simpl. by intros ?%not_elem_of_nil. }
  assert (forall d s, d ∈ omap (fun p => match p with PSub d => Some d | _ => None end) ps -> inv s ->
     post n s (rec d s).1 (is_val (rec d s).2) /\
     (is_val (rec d s).2 = true -> dep_fn d ∈ dom (cache (rec d s).1))) as Hrec'.
  { intros d s0 Hd. apply Hrec. destruct p; simpl; try done. by right. }
  assert (forall (r : out (option value)) ,
    omap (fun p => match p with PSub d => Some d | _ => None end) (p :: ps) =
    omap (fun p => match p with PSub d => Some d | _ => None end) ps ->
    let '(s', r) := match r with
                    | Val v => resolve_params validate rec ws ps (args ++ option_list v) s
                    | WsExc c m => (s, WsExc c m)
                    | Invalid x => (s, Invalid x)
                    | Exc e => (s, Exc e)
                    end in
    post n s s' (is_val r) /\
    (is_val r = true -> forall d, d ∈ omap (fun p => match p with PSub d => Some d | _ => None end) (p :: ps) ->
       dep_fn d ∈ dom (cache s'))) as Hpure.
  { intros [v|c m|x|e] ->; [by apply IH|..]; (split; [by apply post_refl|done]). }
  destruct p as [|d|name sc|name d ty|].
  - by apply (Hpure (Val (Some VConn))).
  - destruct (Hrec d s) as [Hp Hd]; [by left|done|].
    destruct (rec d s) as [s1 [v|c m|x|e]]; simpl in *; [|split; done..].
    specialize (IH (args ++ [v]) s1 Hrec' (post_inv _ _ _ _ Hp eq_refl)).
    destruct (resolve_params validate rec ws ps (args ++ [v]) s1) as [s2 r]. destruct IH as [Hp2 Hd2].
    split; [by eapply post_trans|]. intros Hr d' [->|Hd']%elem_of_cons; [|by apply Hd2].
    apply (post_cache _ _ _ _ Hp2). by apply Hd.
  - destruct (resolve_scalar validate ws name sc) as [v|c m|x|e];
      [by apply (Hpure (Val (Some v)))|by apply (Hpure (WsExc c m))|by apply (Hpure (Invalid x))|by apply (Hpure (Exc e))].
  - destruct (resolve_plain validate ws name d ty) as [v|c m|x|e];
      [by apply (Hpure (Val (Some v)))|by apply (Hpure (WsExc c m))|by apply (Hpure (Invalid x))|by apply (Hpure (Exc e))].
  - by apply (Hpure (Val None)).
Qed.

Lemma ordered_snoc gs f :
  ordered gs -> (forall d, d ∈ subs f -> fn_yields (defs (eff (dep_fn d))) = true -> dep_fn d ∈ gs) ->
  ordered (gs ++ [f]).
Proof.
  intros Ho Hf l1 g l2 E. destruct l2 as [|x l2 _] using rev_ind.
  - apply app_inj_tail in E as [-> ->]. done.
  - rewrite app_comm_cons, app_assoc in E. apply app_inj_tail in E as [-> _]. by eapply Ho.
Qed.

(** The call of a function whose parameters are resolved. *)
Lemma call_post d args s :
  dep_use_cache d = true -> inv s -> dep_fn d ∉ called s ->
  (forall d', d' ∈ subs (dep_fn d) -> dep_fn d' ∈ dom (cache s)) ->
  let '(s', r) := call defs overrides (dep_fn d) d args s in
  post (S (rank (dep_fn d))) s s' (is_val r) /\ (is_val r = true -> dep_fn d ∈ dom (cache s')).
Proof.
  intros Hu [H1 H2 H3 H4] Hnew Hsubs. unfold call. rewrite Hu.
  assert (NoDup (called s ++ [dep_fn d])) as Hnd.
  { apply NoDup_app. split_and!; [done| |apply NoDup_singleton]. intros f Hf ->%list_elem_of_singleton. done. }
  assert (forall f, f ∈ called s ++ [dep_fn d] -> f ∈ called s \/ (rank f < S (rank (dep_fn d)))%nat) as Hc.
  { intros f [Hf| ->%list_elem_of_singleton]%elem_of_app; [by left|right; lia]. }
  destruct (fn_call _ args) as [v|c m|x|e]; cbn [is_val]; [|split; [by split|done]..].
  assert (ordered (if fn_yields (defs (eff (dep_fn d))) then generators s ++ [dep_fn d] else generators s)) as Ho.
  { destruct (fn_yields _); [|done]. apply ordered_snoc; [done|]. intros d' Hd' Hy. by apply H3; [apply Hsubs|]. }
  split; [|intros _; set_solver]. split; simpl; try done; [set_solver|]. intros _. split; simpl; try done.
  - intros f [Hf| ->%list_elem_of_singleton]%elem_of_app; [|set_solver]. apply H2 in Hf. set_solver.
  - intros f. rewrite dom_insert, elem_of_union, elem_of_singleton. intros [-> |Hf] Hy.
    + rewrite Hy. set_solver.
    + destruct (fn_yields (defs (eff (dep_fn d)))); [apply elem_of_app; left|]; by apply H3.
Qed.

Lemma resolve_post depth d s :
  dep_use_cache d = true -> inv s ->
  let '(s', r) := resolve depth ws d s in
  post (S (rank (dep_fn d))) s s' (is_val r) /\ (is_val r = true -> dep_fn d ∈ dom (cache s')).
Proof.
  revert d s. induction depth as [|depth IH]; intros d s Hu Hi; cbn [_resolve_dep_async].
  { split; [by apply post_refl|done]. }
  rewrite Hu. destruct (cache s !! dep_fn d) as [v|] eqn:Ec.
  { split; [by apply post_refl|]. intros _. by apply elem_of_dom. }
  pose proof (resolve_params_post (rank (dep_fn d)) (resolve depth ws) (fn_params (defs (eff (dep_fn d)))) [] s)
    as Hps.
  destruct (resolve_params _ _ _ _ _ s) as [s1 r]. destruct Hps as [Hp Hsubs]; [|done|].
  { intros d' s0 Hd' Hi0. destruct (Hrank (dep_fn d) d' Hd') as [Hlt Hu'].
    specialize (IH d' s0 Hu' Hi0). destruct (resolve depth ws d' s0) as [s2 r2]. destruct IH as [Hp2 Hd2].
    split; [|done]. eapply post_weaken; [|exact Hp2]. lia. }
  destruct r as [args|c m|x|e]; cbn [is_val] in Hp; [|split; [by eapply (post_weaken (rank (dep_fn d))); [lia|]|done]..].
  assert (dep_fn d ∉ called s1) as Hnew.
  { intros [Hf|Hf]%(post_new _ _ _ _ Hp); [|lia]. apply (inv_cached s Hi) in Hf. apply elem_of_dom in Hf as [? ?]. congruence. }
  pose proof (call_post d args s1 Hu (post_inv _ _ _ _ Hp eq_refl) Hnew (Hsubs eq_refl)) as Hcall.
  destruct (call defs overrides (dep_fn d) d args s1) as [s2 r2]. destruct Hcall as [Hp2 Hd2]. split; [|done].
  eapply post_trans; [|exact Hp2]. eapply post_weaken; [|exact Hp]. lia.
Qed.

(** Resolving the parameters of an endpoint. *)
Lemma resolve_specs_good depth spec s :
  (forall n d, SpDep n d ∈ spec -> dep_use_cache d = true) -> inv s ->
  let '(s', r) := resolve_specs validate defs overrides path_kwargs depth ws spec s in
  NoDup (called s') /\ ordered (generators s') /\ (is_val r = true -> inv s').
Proof.
  revert s. induction spec as [|p spec IH]; intros s Hu Hi; cbn [resolve_specs].
  { split_and!; [by apply inv_nodup|by apply inv_ordered|done]. }
  assert (let '(s', r) := resolve_spec validate defs overrides path_kwargs depth ws p s in
          NoDup (called s') /\ ordered (generators s') /\ (is_val r = true -> inv s')) as Hp.
  { assert (NoDup (called s) /\ ordered (generators s) /\ (forall r : out value, is_val r = true -> inv s)) as Hs
      by (split_and!; [by apply inv_nodup|by apply inv_ordered|done]).
    destruct Hs as (Hs1 & Hs2 & _).
    destruct p as [n d| | |]; cbn [resolve_spec]; try (split_and!; [exact Hs1|exact Hs2|intros _; exact Hi]).
    pose proof (resolve_post depth d s (Hu n d ltac:(left)) Hi) as Hd.
    destruct (resolve depth ws d s) as [s1 r1]. destruct Hd as [[H1 _ _ H4 H5] _]. done. }
  destruct (resolve_spec validate defs overrides path_kwargs depth ws p s) as [s1 r1].
  destruct r1 as [v|c m|x|e]; try (destruct Hp as (?&?&_); by split_and!).
  assert (inv s1) as Hi1 by (by apply Hp).
  specialize (IH s1 ltac:(intros n d Hd; apply (Hu n); by right) Hi1).
  destruct (resolve_specs validate defs overrides path_kwargs depth ws spec s1) as [s2 r2]. by destruct r2.
Qed.

Lemma resolve_extra_good depth extra s :
  (forall d, d ∈ extra -> dep_use_cache d = true) -> inv s ->
  let '(s', r) := resolve_extra validate defs overrides depth ws extra s in
  NoDup (called s') /\ ordered (generators s').
Proof.
  revert s. induction extra as [|d extra IH]; intros s Hu Hi; cbn [resolve_extra].
  { split; [by apply inv_nodup|by apply inv_ordered]. }
  pose proof (resolve_post depth d s (Hu d ltac:(left)) Hi) as Hd.
  destruct (resolve depth ws d s) as [s1 r1]. destruct Hd as [[H1 _ _ H4 H5] _].
  destruct r1 as [v|c m|x|e]; try by split.
  apply IH; [|by apply H4]. intros d' Hd'. apply Hu. by right.
Qed.

Lemma inv_init : inv (St ∅ [] []).
Proof.
  split; simpl; [apply NoDup_nil_2| | |].
  - by intros f ?%not_elem_of_nil.
  - intros f. rewrite dom_empty_L. set_solver.
  - intros l1 f l2 E. by destruct l1.
Qed.

(** *** Recursion *)

Hypothesis Hcalls : forall f args, fn_call (defs f) args <> Exc RecursionError.

Lemma resolve_params_depth rec ps args s :
  (forall d s, d ∈ omap (fun p => match p with PSub d => Some d | _ => None end) ps ->
     (rec d s).2 <> Exc RecursionError) ->
  (resolve_params validate rec ws ps args s).2 <> Exc RecursionError.
Proof.
  revert args s. induction ps as [|p ps IH]; intros args s Hrec; cbn [resolve_params]; [done|].
  assert (forall d s, d ∈ omap (fun p => match p with PSub d => Some d | _ => None end) ps ->
     (rec d s).2 <> Exc RecursionError) as Hrec'.
  { intros d s0 Hd. apply Hrec. destruct p; simpl; try done. by right. }
  destruct p as [|d|name sc|name d ty|]; cbn [map_out]; try by apply IH.
  - pose proof (Hrec d s ltac:(left)) as Hd. destruct (rec d s) as [s1 [v|c m|x|e]]; simpl in *;
      [by apply IH|done|done|congruence].
  - unfold resolve_scalar, _validate_scalar. repeat case_match; simplify_eq/=; try done; by apply IH.
  - unfold resolve_plain, _validate_scalar. repeat case_match; simplify_eq/=; try done; by apply IH.
Qed.

Lemma resolve_depth depth d s :
  (rank (dep_fn d) < depth)%nat -> (resolve depth ws d s).2 <> Exc RecursionError.
Proof.
  revert d s. induction depth as [|depth IH]; intros d s Hd; [lia|]. cbn [_resolve_dep_async].
  destruct (if dep_use_cache d then _ else _); [done|].
  pose proof (resolve_params_depth (resolve depth ws) (fn_params (defs (eff (dep_fn d)))) [] s) as Hps.
  destruct (resolve_params _ _ _ _ _ s) as [s1 [args|c m|x|e]]; simpl in Hps; try done.
  - unfold call. pose proof (Hcalls (eff (dep_fn d)) args) as Hc.
    destruct (fn_call _ args); simpl; congruence.
  - simpl. intros [= ->]. apply Hps; [|done]. intros d' s' Hd'. apply IH.
    destruct (Hrank (dep_fn d) d' Hd'). lia.
Qed.

End Facts.

(** *** Arguments *)

Lemma resolve_specs_length validate defs overrides path_kwargs depth ws spec s s' vs :
  resolve_specs validate defs overrides path_kwargs depth ws spec s = (s', Val vs) -> length vs = length spec.
Proof.
  revert s s' vs. induction spec as [|p spec IH]; intros s s' vs; cbn; [by intros [= _ <-]|].
  destruct (resolve_spec _ _ _ _ _ _ p s) as [s1 [v|c m|x|e]]; try done.
  destruct (resolve_specs _ _ _ _ _ _ spec s1) as [s2 [vs2|c m|x|e]] eqn:E; try done.
  intros [= <- <-]. simpl. f_equal. by eapply IH.
Qed.

Lemma dom_foldl_insert (l : list (text * value)) (m : gmap text value) :
  dom (foldl (fun m nv => <[ nv.1 := nv.2 ]> m) m l) = dom m ∪ list_to_set l.*1.
Proof.
  revert m. induction l as [|[n v] l IH]; intros m; simpl; [set_solver|]. rewrite IH, dom_insert_L. set_solver.
Qed.

Lemma dom_kwargs path_kwargs spec vs :
  length vs = length spec -> dom (kwargs_of path_kwargs spec vs) = dom path_kwargs ∪ list_to_set (spec_name <$> spec).
Proof.
  intros Hl. unfold kwargs_of. rewrite dom_foldl_insert, dom_fmap_L, fst_zip; [done|]. rewrite length_fmap. lia.
Qed.

(** *** Events of a session *)

Definition is_closing (ev : event) : Prop :=
  match ev with QueueClose _ _ | Reject _ | Close _ _ => True | _ => False end.
#[export] Instance is_closing_dec ev : Decision (is_closing ev).
Proof. destruct ev; apply _. Defined.

Definition torn (ev : event) : option nat := match ev with TornDown f => Some f | _ => None end.

Lemma omap_teardown gens : omap torn (_teardown_generators gens) = reverse gens.
Proof. unfold _teardown_generators. induction (reverse gens) as [|f l IH]; simpl; [done|by f_equal]. Qed.

Lemma closing_teardown gens : filter is_closing (_teardown_generators gens) = [].
Proof. unfold _teardown_generators. by induction (reverse gens). Qed.

Lemma no_teardown_end door connecting q st c : omap torn (end_connection door connecting q st c) = [].
Proof. by destruct door, connecting. Qed.

Lemma closing_end door connecting q st c :
  length (filter is_closing (end_connection door connecting q st c)) = 1%nat.
Proof. by destruct door, connecting. Qed.

Lemma no_teardown_ws_exc en connecting c m : omap torn (_handle_ws_exc en connecting c m) = [].
Proof. unfold _handle_ws_exc. simpl. apply no_teardown_end. Qed.

Lemma closing_ws_exc en connecting c m : length (filter is_closing (_handle_ws_exc en connecting c m)) = 1%nat.
Proof. unfold _handle_ws_exc. simpl. apply closing_end. Qed.

Lemma no_teardown_failure en connecting f : omap torn (on_failure en connecting f) = [].
Proof.
  unfold on_failure, validation_error.
  repeat (case_match; simplify_eq/=; rewrite ?omap_app, ?no_teardown_end; try done).
Qed.

(** A validation error always closes; another failure unless a handler took it. *)
Lemma closing_failure en connecting f :
  length (filter is_closing (on_failure en connecting f)) =
  match f, exception_handlers en with
  | FInvalid _, _ :: _ => 1%nat
  | _, hs => match first_handler hs f with
             | Some (_, h) => if h_result h then 0%nat else 1%nat
             | None => 1%nat
             end
  end.
Proof.
  unfold on_failure. destruct f as [n|e], (exception_handlers en) as [|h hs].
  - apply closing_end.
  - destruct (list_find _ _) as [[k h']|]; apply closing_end.
  - apply closing_end.
  - destruct (first_handler _ _) as [[k h']|]; [|apply closing_end].
    destruct (h_result h') as [[[c m]|]|]; [done|done|apply closing_end].
Qed.

Lemma finish_nothing en connecting gens r :
  is_val r = false -> entered (finish en connecting gens [] r) = gens /\ torn_down (finish en connecting gens [] r) = [].
Proof.
  destruct r as [v|c m|x|e]; intros Hr; [done|..]; unfold torn_down; cbn [finish].
  - cbn [entered events]. unfold _teardown_generators. rewrite app_nil_r. split; [done|apply no_teardown_ws_exc].
  - cbn [entered events]. unfold _teardown_generators. rewrite app_nil_r. split; [done|apply no_teardown_failure].
  - destruct (is_exception e); [|done]. cbn [entered events]. unfold _teardown_generators. rewrite app_nil_r.
    split; [done|apply no_teardown_failure].
Qed.

(** *** The check of scopes *)

Section ScopeFacts.

Context (defs : nat -> dfn).

(** The dependencies reachable from [d]. *)
Inductive reach : depends -> depends -> Prop :=
| reach_here d : reach d d
| reach_sub d d' d'' : reach d d' -> d'' ∈ sub_depends defs (dep_fn d') -> reach d d''.

Definition violation (d : depends) : Prop :=
  exists d' sub, reach d d' /\ sub ∈ sub_depends defs (dep_fn d') /\ mismatch defs d' sub = true.

Lemma reach_below d sub d' : sub ∈ sub_depends defs (dep_fn d) -> reach sub d' -> reach d d'.
Proof. intros Hs. induction 1; eauto using reach. Qed.

Lemma violation_below d sub : sub ∈ sub_depends defs (dep_fn d) -> violation sub -> violation d.
Proof. intros Hs (d' & s & Hr & ?&?). exists d', s. eauto using reach_below. Qed.

Lemma check_subs_sound walk d subs visited f :
  (forall sub v g, sub ∈ subs -> walk sub v = Mismatch g -> violation sub) ->
  (forall sub, sub ∈ subs -> sub ∈ sub_depends defs (dep_fn d)) ->
  check_subs defs walk d subs visited = Mismatch f -> violation d.
Proof.
  revert visited. induction subs as [|sub subs IH]; intros visited Hw Hs; cbn; [done|].
  destruct (mismatch defs d sub) eqn:Em.
  { intros _. exists d, sub. split_and!; [constructor|apply Hs; by left|done]. }
  destruct (walk sub visited) as [v|g|] eqn:Ew; intros H; simplify_eq.
  - eapply IH; [| |done]; intros; [eapply Hw|apply Hs]; eauto; by right.
  - eapply violation_below; [apply Hs; by left|]. eapply Hw; [by left|done].
Qed.

Lemma walk_sound depth d visited f : _walk defs depth d visited = Mismatch f -> violation d.
Proof.
  revert d visited f. induction depth as [|depth IH]; intros d visited f; cbn; [done|].
  case_bool_decide; [done|]. apply check_subs_sound; [|done]. intros; by eapply IH.
Qed.

(** What a walk that ends normally leaves: everything it marked was checked. *)
Definition clean (visited visited' : gset nat) (d : depends) : Prop :=
  visited ⊆ visited' /\ dep_fn d ∈ visited' /\
  forall f, f ∈ visited' -> f ∉ visited -> exists df, dep_fn df = f /\ reach d df /\
    forall sub, sub ∈ sub_depends defs f -> mismatch defs df sub = false /\ dep_fn sub ∈ visited'.

Lemma check_subs_clean walk d subs visited visited' :
  (forall sub v v', sub ∈ subs -> walk sub v = Visited v' -> clean v v' sub) ->
  (forall sub, sub ∈ subs -> sub ∈ sub_depends defs (dep_fn d)) ->
  check_subs defs walk d subs visited = Visited visited' ->
  visited ⊆ visited' /\
  (forall sub, sub ∈ subs -> mismatch defs d sub = false /\ dep_fn sub ∈ visited') /\
  forall f, f ∈ visited' -> f ∉ visited -> exists df, dep_fn df = f /\ reach d df /\
    forall sub, sub ∈ sub_depends defs f -> mismatch defs df sub = false /\ dep_fn sub ∈ visited'.
Proof.
  revert visited. induction subs as [|sub subs IH]; intros visited Hw Hs; cbn.
  { intros [= <-]. split_and!; [done|by intros ? ?%not_elem_of_nil|done]. }
  destruct (mismatch defs d sub) eqn:Em; [done|].
  destruct (walk sub visited) as [v|g|] eqn:Ew; try done. intros H.
  destruct (Hw sub _ _ ltac:(left) Ew) as (Hsub & Hin & Hv).
  destruct (IH v) as (Hsub' & Hall & Hv'); [intros; eapply Hw; eauto; by right|intros; apply Hs; by right|done|].
  split_and!; [set_solver| |].
  - intros x [->|Hx]%elem_of_cons; [split; [done|set_solver]|by apply Hall].
  - intros f Hf Hnf. destruct (decide (f ∈ v)) as [Hfv|Hfv]; [|by apply Hv'].
    destruct (Hv f Hfv Hnf) as (df & <- & Hr & Hc). exists df. split_and!; [done| |].
    + eapply reach_below; [apply Hs; by left|done].
    + intros x Hx. destruct (Hc x Hx). split; [done|set_solver].
Qed.

Lemma walk_clean depth d visited visited' :
  _walk defs depth d visited = Visited visited' -> clean visited visited' d.
Proof.
  revert d visited visited'. induction depth as [|depth IH]; intros d visited visited'; cbn; [done|].
  case_bool_decide as Hd.
  { intros [= <-]. split_and!; [done|done|]. intros f ??. done. }
  intros H. apply check_subs_clean in H as (Hsub & Hall & Hv); [|intros; by eapply IH|done].
  split_and!; [set_solver|set_solver|]. intros f Hf Hnf.
  destruct (decide (f = dep_fn d)) as [->|Hne].
  - exists d. split_and!; [done|constructor|done].
  - apply Hv; set_solver.
Qed.

(** Enough depth: no more than there are functions. *)
Lemma check_subs_depth walk d subs visited :
  (forall sub v, sub ∈ subs -> visited ⊆ v -> walk sub v <> TooDeep /\
     forall v', walk sub v = Visited v' -> v ⊆ v') ->
  check_subs defs walk d subs visited <> TooDeep.
Proof.
  intros Hw. assert (visited ⊆ visited) as Hsub by done. revert Hsub. generalize visited at 2 3.
  induction subs as [|sub subs IH]; intros v Hv; cbn; [done|].
  destruct (mismatch defs d sub); [done|].
  destruct (Hw sub v ltac:(left) Hv) as [Hn Hm].
  destruct (walk sub v) as [v'|g|]; try done.
  apply IH; [|etrans; [exact Hv|by apply Hm]]. intros; apply Hw; [by right|done].
Qed.

Lemma walk_depth (U : gset nat) depth d visited :
  (forall f sub, f ∈ U -> sub ∈ sub_depends defs f -> dep_fn sub ∈ U) ->
  dep_fn d ∈ U -> (size (U ∖ visited) < depth)%nat -> _walk defs depth d visited <> TooDeep.
Proof.
  intros HU. revert d visited. induction depth as [|depth IH]; intros d visited Hd Hlt; [lia|]. cbn.
  case_bool_decide as Hv; [done|]. apply check_subs_depth. intros sub v Hsub Hvv. split.
  - apply IH; [by eapply HU|].
    assert (size (U ∖ v) < size (U ∖ visited))%nat; [|lia]. apply subset_size. set_solver.
  - intros v' E. by apply walk_clean in E as [? _].
Qed.

(** With one scope per function the marks lose nothing. *)
Lemma clean_no_violation visited' d :
  (forall d1 d2, reach d d1 -> reach d d2 -> dep_fn d1 = dep_fn d2 -> dep_scope d1 = dep_scope d2) ->
  clean ∅ visited' d -> ~ violation d.
Proof.
  intros Huniq (_ & Hd & Hall) (d' & sub & Hr & Hsub & Hm).
  assert (dep_fn d' ∈ visited') as Hd'.
  { clear sub Hsub Hm. remember d as d0. induction Hr as [|d0 d1 d2 Hr IH Hs]; [by subst|].
    subst d0. destruct (Hall (dep_fn d1)) as (df & _ & _ & Hc); [by apply IH|set_solver|]. by apply Hc. }
  destruct (Hall (dep_fn d')) as (df & Ef & Hrf & Hc); [done|set_solver|].
  destruct (Hc sub Hsub) as [Hf _]. unfold mismatch in Hm, Hf. rewrite Ef in Hf.
  rewrite (Huniq df d' Hrf Hr Ef) in Hf. congruence.
Qed.

End ScopeFacts.

(** ** Properties *)

(** C20: within one connection every cached dependency is called at most once,
    however often it is depended on, overrides included; and the [yield]
    dependencies are entered after those they depend on, so that the teardown,
    which goes backwards, closes each before what it uses.  This also holds of
    what was entered before a dependency failed. *)
Theorem dependencies_run_once_in_order validate defs overrides path_kwargs ws rank depth spec extra :
  (forall f d, d ∈ sub_depends defs (_effective_dep_callable overrides f) ->
     (rank (dep_fn d) < rank f)%nat /\ dep_use_cache d = true) ->
  (forall n d, SpDep n d ∈ spec \/ d ∈ extra -> dep_use_cache d = true) ->
  let s := (_build_kwargs validate defs overrides path_kwargs depth ws spec extra).1 in
  NoDup (called s) /\ ordered defs overrides (generators s).
Proof.
  intros Hr Hu s. subst s. unfold _build_kwargs.
  pose proof (resolve_specs_good validate defs overrides path_kwargs ws rank Hr depth spec (St ∅ [] [])
    ltac:(intros n d Hd; apply (Hu n); by left) (inv_init defs overrides rank Hr)) as H.
  destruct (resolve_specs _ _ _ _ depth ws spec (St ∅ [] [])) as [s r].
  destruct r; try (destruct H as (H1 & H2 & _); by split).
  assert (inv defs overrides s) as Hi by (by apply H).
  pose proof (resolve_extra_good validate defs overrides ws rank Hr depth extra s
    ltac:(intros d Hd; apply (Hu []); by right) Hi) as H2.
  by destruct (resolve_extra validate defs overrides depth ws extra s).
Qed.

(** resolution ends: a chain of dependencies that is no cycle needs no more
    recursion than its length. *)
Theorem dependencies_resolve_within_rank validate defs overrides ws rank depth d s :
  (forall f d, d ∈ sub_depends defs (_effective_dep_callable overrides f) ->
     (rank (dep_fn d) < rank f)%nat /\ dep_use_cache d = true) ->
  (forall f args, fn_call (defs f) args <> Exc RecursionError) ->
  (rank (dep_fn d) < depth)%nat ->
  (_resolve_dep_async validate defs overrides depth ws d s).2 <> Exc RecursionError.
Proof. intros Hr Hc. by apply resolve_depth. Qed.

(** Resolving up to a failing dependency. *)
Lemma resolve_specs_fail validate defs overrides path_kwargs depth ws name d spec2 s2 (r : out value) :
  is_val r = false ->
  forall ps s s' vs, resolve_specs validate defs overrides path_kwargs depth ws ps s = (s', Val vs) ->
    _resolve_dep_async validate defs overrides depth ws d s' = (s2, r) ->
    resolve_specs validate defs overrides path_kwargs depth ws (ps ++ SpDep name d :: spec2) s = (s2, map_out (fun _ => []) r).
Proof.
  intros Hr ps. induction ps as [|p ps IH]; intros s s' vs; cbn [resolve_specs app resolve_spec].
  - intros [= <- _] ->. by destruct r.
  - destruct (resolve_spec validate defs overrides path_kwargs depth ws p s) as [s0 [v|c' m'|x|e]]; try done.
    destruct (resolve_specs validate defs overrides path_kwargs depth ws ps s0) as [s0' [vs0|c' m'|x|e]] eqn:E; try done.
    intros [= <- <-] Hd. rewrite (IH _ _ _ E Hd). by destruct r.
Qed.

(** when a dependency fails, the [yield] dependencies entered before it are
    never torn down: the list of generators is lost with the exception. *)
Theorem failed_dependency_leaks_generators validate defs overrides path_kwargs ws depth en connecting spec1 name d spec2 extra
    endpoint resubmit s1 vs s2 r :
  is_val r = false ->
  resolve_specs validate defs overrides path_kwargs depth ws spec1 (St ∅ [] []) = (s1, Val vs) ->
  _resolve_dep_async validate defs overrides depth ws d s1 = (s2, r) ->
  let run := _ws_entry validate defs overrides path_kwargs en connecting depth ws (spec1 ++ SpDep name d :: spec2) extra
               endpoint resubmit in
  entered run = generators s2 /\ torn_down run = [].
Proof.
  intros Hr H1 H2. unfold _ws_entry, _build_kwargs.
  rewrite (resolve_specs_fail validate defs overrides path_kwargs depth ws name d spec2 s2 r Hr _ _ _ _ H1 H2).
  destruct r as [v|c m|x|e]; try done; cbn [map_out]; [split; [done|apply no_teardown_ws_exc]|..];
    by apply finish_nothing.
Qed.

(** every session whose arguments were built tears all its generators down,
    last entered first, and a failing endpoint ends the connection exactly once
    unless a registered handler took the failure. *)
Theorem session_tears_down_and_closes_once validate defs overrides path_kwargs ws depth en connecting spec extra
    endpoint resubmit s kwargs :
  _build_kwargs validate defs overrides path_kwargs depth ws spec extra = (s, Val kwargs) ->
  run_endpoint en endpoint resubmit kwargs <> Exc CancelledError ->
  let run := _ws_entry validate defs overrides path_kwargs en connecting depth ws spec extra endpoint resubmit in
  torn_down run = reverse (entered run) /\ raised run = None /\
  length (filter is_closing (events run)) =
    match run_endpoint en endpoint resubmit kwargs with
    | Val _ => 0%nat
    | Exc e => match first_handler (exception_handlers en) (FExc e) with
               | Some (_, h) => if h_result h then 0%nat else 1%nat
               | None => 1%nat
               end
    | _ => 1%nat
    end.
Proof.
  intros Hk Hb run. subst run. unfold _ws_entry. rewrite Hk. set (r := run_endpoint _ _ _ _) in *.
  assert (forall e, r = Exc e -> is_exception e = true) as He by (intros e ->; by destruct e).
  destruct r as [v|c m|x|e]; cbn [finish]; [| | |rewrite (He e eq_refl)]; cbn [entered events raised torn_down];
    unfold torn_down; cbn [events]; rewrite ?omap_app, ?filter_app, ?length_app, omap_teardown, closing_teardown;
    (split_and!; [|done|]).
  - done.
  - done.
  - by rewrite no_teardown_ws_exc.
  - rewrite closing_ws_exc. done.
  - by rewrite no_teardown_failure.
  - rewrite closing_failure. unfold first_handler. destruct (exception_handlers en); done.
  - by rewrite no_teardown_failure.
  - rewrite closing_failure. by destruct (exception_handlers en), (first_handler _ _) as [[? []]|].
Qed.

(** a scalar that does not validate closes the connection with 1008 (policy
    violation) when the application has any exception handler at all, even one
    that has nothing to do with it, and with 1011 (internal error) when it has
    none. *)
Theorem validation_close_code_depends_on_handlers validate defs overrides path_kwargs ws depth connecting spec extra
    endpoint resubmit s name async names hs :
  _build_kwargs validate defs overrides path_kwargs depth ws spec extra = (s, Invalid name) ->
  filter is_closing (events (_ws_entry validate defs overrides path_kwargs
      {| in_door := true; is_async_endpoint := async; takes := names; exception_handlers := hs |} connecting depth ws spec extra
      endpoint resubmit)) =
  [match hs with [] => QueueClose 1011 [] | _ => QueueClose 1008 (lit "validation error") end].
Proof.
  intros Hk. unfold _ws_entry. rewrite Hk. cbn [finish events]. rewrite filter_app, closing_teardown, app_nil_r.
  destruct hs as [|h hs]; [done|]. unfold on_failure. cbn [exception_handlers].
  by destruct (list_find _ _) as [[k h']|].
Qed.

(** The check, for the theorem below and for registration. *)
Lemma scope_check_dec defs (U : gset nat) depth deps :
  (forall f sub, f ∈ U -> sub ∈ sub_depends defs f -> dep_fn sub ∈ U) ->
  (forall d, d ∈ deps -> dep_fn d ∈ U) ->
  (forall d d1 d2, d ∈ deps -> reach defs d d1 -> reach defs d d2 -> dep_fn d1 = dep_fn d2 ->
     dep_scope d1 = dep_scope d2) ->
  (size U < depth)%nat ->
  _ws_check_scope_mismatch defs depth deps = Ok tt /\ (forall d, d ∈ deps -> ~ violation defs d) \/
  exists f, _ws_check_scope_mismatch defs depth deps = Raise (FastAPIError (scope_message defs f)) /\
    exists d, d ∈ deps /\ violation defs d.
Proof.
  intros HU Hin Huniq Hlt. induction deps as [|d deps IH]; cbn.
  { left. split; [done|]. by intros ? ?%not_elem_of_nil. }
  assert (_walk defs depth d ∅ <> TooDeep) as Hn.
  { eapply walk_depth; [exact HU|apply Hin; by left|]. by rewrite difference_empty_L. }
  destruct (_walk defs depth d ∅) as [v|f|] eqn:Ew; [| |done].
  - destruct IH as [[-> Hv]|(f & -> & x & Hx & Hv)];
      [intros; apply Hin; by right|intros; eapply Huniq; eauto; by right|left|right].
    + split; [done|]. intros x [->|Hx]%elem_of_cons; [|by apply Hv].
      eapply clean_no_violation; [intros; eapply Huniq; eauto; by left|by eapply walk_clean].
    + exists f. split; [done|]. exists x. split; [by right|done].
  - right. exists f. split; [done|]. exists d. split; [by left|]. by eapply walk_sound.
Qed.

(** C25: the check of scopes is exact: with as much recursion as there are
    functions, cycles allowed, it raises if and only if some reachable generator
    of request scope depends on a generator of function scope, provided no
    function is depended on with two scopes. *)
Theorem scope_check_is_exact defs (U : gset nat) depth deps :
  (forall f sub, f ∈ U -> sub ∈ sub_depends defs f -> dep_fn sub ∈ U) ->
  (forall d, d ∈ deps -> dep_fn d ∈ U) ->
  (forall d d1 d2, d ∈ deps -> reach defs d d1 -> reach defs d d2 -> dep_fn d1 = dep_fn d2 ->
     dep_scope d1 = dep_scope d2) ->
  (size U < depth)%nat ->
  _ws_check_scope_mismatch defs depth deps = Ok tt /\ (forall d, d ∈ deps -> ~ violation defs d) \/
  exists f, _ws_check_scope_mismatch defs depth deps = Raise (FastAPIError (scope_message defs f)) /\
    exists d, d ∈ deps /\ violation defs d.
Proof. apply scope_check_dec. Qed.

(** with two scopes for one function the check goes by the first it meets: a
    function that depends on a generator first with function scope and then with
    request scope passes, though the second use violates the rule, and fails with
    the two parameters exchanged. *)
Theorem first_scope_hides_mismatch :
  let dep f sc := {| dep_fn := f; dep_use_cache := true; dep_scope := sc |} in
  let fn y ps := {| fn_name := lit "dep"; fn_yields := y; fn_params := ps; fn_call := fun _ => Val VNone |} in
  let defs first second f :=
    match f with
    | 0%nat => fn false [PSub (dep 1%nat first); PSub (dep 1%nat second)]
    | 1%nat => fn true [PSub (dep 2%nat ScFunction)]
    | _ => fn true []
    end in
  violation (defs ScFunction ScRequest) (dep 0%nat ScRequest) /\
  (forall depth, (3 <= depth)%nat ->
     _ws_check_scope_mismatch (defs ScFunction ScRequest) depth [dep 0%nat ScRequest] = Ok tt /\
     _ws_check_scope_mismatch (defs ScRequest ScFunction) depth [dep 0%nat ScRequest] =
       Raise (FastAPIError (scope_message (defs ScRequest ScFunction) 1%nat))).
Proof.
  intros dep fn defs. split.
  - exists (dep 1%nat ScRequest), (dep 2%nat ScFunction). split_and!; [|simpl; by left|done].
    eapply reach_sub; [constructor|]. simpl. by right; left.
  - intros [|[|[|depth]]] Hd; try lia. done.
Qed.

(** an endpoint that does not declare a parameter of its path is never run:
    all parameters of the path are passed by name, the call fails with a
    [TypeError] and the connection is closed with 1011. *)
Theorem undeclared_path_parameter_refused validate defs overrides path_kwargs ws depth connecting spec extra
    endpoint resubmit s kwargs names async n :
  _build_kwargs validate defs overrides path_kwargs depth ws spec extra = (s, Val kwargs) ->
  n ∈ dom path_kwargs -> n ∉ names ->
  events (_ws_entry validate defs overrides path_kwargs
      {| in_door := true; is_async_endpoint := async; takes := Some names; exception_handlers := [] |} connecting
      depth ws spec extra endpoint resubmit) =
  [Captured (CapFailure (FExc TypeError)); QueueClose 1011 []] ++ _teardown_generators (generators s).
Proof.
  intros Hk Hn Hnames. unfold _ws_entry. rewrite Hk. unfold run_endpoint. cbn [takes].
  rewrite bool_decide_eq_false_2; [done|]. intros Hsub. apply Hnames, Hsub.
  unfold _build_kwargs in Hk.
  destruct (resolve_specs _ _ _ _ depth ws spec _) as [s1 [vs|c m|x|e]] eqn:E; try done.
  destruct (resolve_extra _ _ _ depth ws extra s1) as [s2 [u|c m|x|e]]; try done. injection Hk as _ <-.
  rewrite dom_kwargs; [set_solver|by eapply resolve_specs_length].
Qed.

(** a parameter without annotation whose default is [None] is required: the
    connection is closed with 1008 when the query does not give it, while the
    same parameter with an annotation gets its default. *)
Theorem untyped_none_default_is_required validate defs overrides path_kwargs ws depth s path_names p fallback typed :
  hp_depends p = None -> hp_marker p = None -> hp_ws p = false -> fallback <> Some (hp_name p) ->
  hp_name p ∉ path_names -> hp_kind p = PositionalOrKeyword -> hp_default p = Some VNone -> hp_typed p = typed ->
  query ws (hp_name p) = None ->
  exists spec, classify path_names fallback p = Some spec /\
    resolve_spec validate defs overrides path_kwargs depth ws spec s =
      (s, if typed then Val VNone else WsExc 1008 (missing SQuery (hp_name p))).
Proof.
  intros Hd Hm Hw Hf Hp Hk Hv <- Hq. unfold classify. rewrite Hd, Hw, Hm, Hk, Hv. cbn [orb].
  rewrite !bool_decide_eq_false_2; [|by intros [?|?]|done|done].
  destruct (hp_typed p); (eexists; split; [reflexivity|]); cbn [resolve_spec];
    unfold resolve_scalar; cbn; by rewrite Hq.
Qed.

(** ** Witnesses *)

Definition demo_dep (f : nat) : depends := {| dep_fn := f; dep_use_cache := true; dep_scope := ScRequest |}.

(** 0 and 1 depend on 2; all three are generators; 3 refuses. *)
Definition demo_defs (f : nat) : dfn :=
  match f with
  | 0%nat | 1%nat => {| fn_name := lit "a"; fn_yields := true; fn_params := [PSub (demo_dep 2)];
                        fn_call := fun _ => Val (VObj f) |}
  | 2%nat => {| fn_name := lit "b"; fn_yields := true; fn_params := []; fn_call := fun _ => Val (VObj 2) |}
  | _ => {| fn_name := lit "c"; fn_yields := false; fn_params := []; fn_call := fun _ => WsExc 1008 [] |}
  end.

Definition demo_rank (f : nat) : nat := match f with 0%nat | 1%nat => 1 | _ => 0 end.

Definition demo_ws : connection := {| query := fun _ => None; headers := fun _ => None; cookies := fun _ => None |}.
Definition demo_validate (_ : nat) (_ : text) : option value := None.

Lemma demo_ranked f d : d ∈ sub_depends demo_defs (_effective_dep_callable ∅ f) ->
  (demo_rank (dep_fn d) < demo_rank f)%nat /\ dep_use_cache d = true.
Proof.
  unfold _effective_dep_callable. rewrite lookup_empty. simpl.
  destruct f as [|[|[|f]]]; simpl; intros Hd; set_unfold; destruct_or?; subst; simpl; try done; lia.
Qed.

Lemma dependencies_run_once_in_order_witness :
  let s := (_build_kwargs demo_validate demo_defs ∅ ∅ 3 demo_ws
              [SpDep (lit "x") (demo_dep 0); SpDep (lit "y") (demo_dep 1)] [demo_dep 2]).1 in
  called s = [2; 0; 1]%nat /\ generators s = [2; 0; 1]%nat /\ NoDup (called s) /\
  ordered demo_defs ∅ (generators s).
Proof.
  split_and!; [reflexivity|reflexivity|..];
    apply (dependencies_run_once_in_order demo_validate demo_defs ∅ ∅ demo_ws demo_rank); try apply demo_ranked;
    intros n d Hd; set_unfold; naive_solver.
Defined.

Lemma dependencies_resolve_within_rank_witness :
  (_resolve_dep_async demo_validate demo_defs ∅ 2 demo_ws (demo_dep 0) (St ∅ [] [])).2 <> Exc RecursionError.
Proof.
  apply (dependencies_resolve_within_rank demo_validate demo_defs ∅ demo_ws demo_rank); [apply demo_ranked| |].
  - intros [|[|[|f]]] args; discriminate.
  - simpl. lia.
Defined.

Definition demo_entry : entry :=
  {| in_door := true; is_async_endpoint := true; takes := None; exception_handlers := [] |}.

Lemma failed_dependency_leaks_generators_witness :
  let run := _ws_entry demo_validate demo_defs ∅ ∅ demo_entry true 3 demo_ws
               ([SpDep (lit "x") (demo_dep 0)] ++ SpDep (lit "y") (demo_dep 3) :: []) []
               (fun _ => Val tt) (fun _ => Val tt) in
  entered run = [2; 0]%nat /\ torn_down run = [].
Proof.
  apply (failed_dependency_leaks_generators demo_validate demo_defs ∅ ∅ demo_ws 3 demo_entry true
           [SpDep (lit "x") (demo_dep 0)] (lit "y") (demo_dep 3) [] [] (fun _ => Val tt) (fun _ => Val tt)
           (St {[ 2%nat := VObj 2; 0%nat := VObj 0 ]} [2; 0]%nat [2; 0]%nat) [VObj 0]
           (St {[ 2%nat := VObj 2; 0%nat := VObj 0 ]} [2; 0]%nat [2; 0; 3]%nat) (WsExc 1008 [])); reflexivity.
Defined.

Lemma session_tears_down_and_closes_once_witness :
  let run := _ws_entry demo_validate demo_defs ∅ ∅ demo_entry false 3 demo_ws [SpDep (lit "x") (demo_dep 0)] []
               (fun _ => Exc ValueError) (fun _ => Val tt) in
  torn_down run = reverse (entered run) /\ raised run = None /\ length (filter is_closing (events run)) = 1%nat.
Proof.
  apply (session_tears_down_and_closes_once demo_validate demo_defs ∅ ∅ demo_ws 3 demo_entry false
           [SpDep (lit "x") (demo_dep 0)] [] (fun _ => Exc ValueError) (fun _ => Val tt)
           (St {[ 2%nat := VObj 2; 0%nat := VObj 0 ]} [2; 0]%nat [2; 0]%nat) {[ lit "x" := VObj 0 ]});
    [reflexivity|discriminate].
Defined.

Definition demo_scalar : pspec := SpPath (lit "n") (Some 0%nat).

Lemma validation_close_code_depends_on_handlers_witness :
  filter is_closing (events (_ws_entry demo_validate demo_defs ∅ {[ lit "n" := lit "x" ]} demo_entry true 3 demo_ws
    [demo_scalar] [] (fun _ => Val tt) (fun _ => Val tt))) = [QueueClose 1011 []].
Proof.
  apply (validation_close_code_depends_on_handlers demo_validate demo_defs ∅ {[ lit "n" := lit "x" ]} demo_ws 3 true
           [demo_scalar] [] (fun _ => Val tt) (fun _ => Val tt) (St ∅ [] []) (lit "n") true None []). reflexivity.
Defined.

Lemma scope_check_is_exact_witness :
  _ws_check_scope_mismatch demo_defs 4 [demo_dep 0] = Ok tt /\ (forall d, d ∈ [demo_dep 0] -> ~ violation demo_defs d) \/
  exists f, _ws_check_scope_mismatch demo_defs 4 [demo_dep 0] = Raise (FastAPIError (scope_message demo_defs f)) /\
    exists d, d ∈ [demo_dep 0] /\ violation demo_defs d.
Proof.
  apply (scope_check_is_exact demo_defs {[ 0; 1; 2 ]}%nat).
  - intros [|[|[|f]]] sub Hf Hs; simpl in Hs; set_unfold; destruct_or?; subst; simpl; lia.
  - intros d ->%list_elem_of_singleton. simpl. set_solver.
  - assert (forall d, reach demo_defs (demo_dep 0) d -> dep_scope d = ScRequest) as H.
    { intros d Hr. remember (demo_dep 0) as d0 eqn:E. induction Hr as [|d0 d1 d2 Hr IH Hs]; subst; [done|].
      destruct (dep_fn d1) as [|[|[|f]]]; simpl in Hs; set_unfold; destruct_or?; by subst. }
    intros d d1 d2 ->%list_elem_of_singleton H1 H2 _. by rewrite !H.
  - vm_compute. lia.
Defined.

Lemma undeclared_path_parameter_refused_witness :
  events (_ws_entry demo_validate demo_defs ∅ {[ lit "id" := lit "7" ]}
      {| in_door := true; is_async_endpoint := true; takes := Some {[ lit "ws" ]}; exception_handlers := [] |} true 3
      demo_ws [SpWs (lit "ws")] [] (fun _ => Val tt) (fun _ => Val tt)) =
  [Captured (CapFailure (FExc TypeError)); QueueClose 1011 []] ++ _teardown_generators [].
Proof.
  apply (undeclared_path_parameter_refused demo_validate demo_defs ∅ {[ lit "id" := lit "7" ]} demo_ws 3 true
           [SpWs (lit "ws")] [] (fun _ => Val tt) (fun _ => Val tt) (St ∅ [] [])
           {[ lit "id" := VText (lit "7"); lit "ws" := VConn ]} {[ lit "ws" ]} true (lit "id")).
  - vm_compute. reflexivity.
  - rewrite dom_singleton_L. by apply elem_of_singleton.
  - by intros ?%elem_of_singleton.
Defined.

Definition demo_param : hparam :=
  {| hp_name := lit "token"; hp_kind := PositionalOrKeyword; hp_ws := false; hp_depends := None;
     hp_marker := None; hp_default := Some VNone; hp_type := None; hp_typed := false |}.

Lemma untyped_none_default_is_required_witness :
  exists spec, classify [] (Some (lit "websocket")) demo_param = Some spec /\
    resolve_spec demo_validate demo_defs ∅ ∅ 3 demo_ws spec (St ∅ [] []) =
      (St ∅ [] [], WsExc 1008 (lit "missing Query 'token'")).
Proof.
  apply (untyped_none_default_is_required demo_validate demo_defs ∅ ∅ demo_ws 3 (St ∅ [] []) [] demo_param
           (Some (lit "websocket")) false); try reflexivity; [discriminate|by intros ?%not_elem_of_nil].
Defined.

End WsDeps.
