(* ===== verification/Frontend.v ===== *)
(** The fallback for requests no route of the door matched (_frontend.py, and
    the 404 handler [_build_server_args] installs, applications.py): late and
    custom routes, low-priority (frontend) routes, the application's handlers
    for 404 and its middlewares. *)

From S2P Require Import Prelude Exceptions.

Module Frontend.

(** ** Responses *)

Inductive message := Start (status : Z) (headers : list (bytes * bytes)) | Body (b : bytes) | Other.

(** What code raises: an [HTTPException], another [Exception], or a bare
    [BaseException]. *)
Inductive raised := RHttp (e : Exceptions.exc) | RServer (e : nat) | RBase (e : nat).

(** [TypeError] of calling or awaiting something that is no response. *)
Definition not_a_response : raised := RServer 0.

(** An ASGI call: what it sends and how it ends. *)
Record asgi_run := { sends : list message; ends : option raised }.

(** A response object: its attributes, and what calling it does. *)
Record robj := {
  attr_status : option Z;
  attr_body : option bytes;
  attr_headers : list (bytes * bytes);
  calls : asgi_run }.

(** What the fallback hands to Rust. *)
Record answer := { status : Z; body : bytes; headers : list (bytes * bytes) }.

(** *** [_Buffer] *)

Definition empty_buffer : answer := {| status := 500; body := []; headers := [] |}.

Definition send (b : answer) (m : message) : answer :=
  match m with
  | Start s hs => {| status := s; body := body b; headers := hs |}
  | Body c => {| status := status b; body := body b ++ c; headers := headers b |}
  | Other => b
  end.

Definition buffered (r : asgi_run) : answer * option raised := (foldl send empty_buffer (sends r), ends r).

(** A response made by the framework: [Response(content, status)] with given
    headers, and JSON. *)
Definition plain_response (a : answer) : robj :=
  {| attr_status := Some (status a); attr_body := Some (body a); attr_headers := headers a;
     calls := {| sends := [Start (status a) (headers a); Body (body a)]; ends := None |} |}.

(** ** Low-priority routes *)

(** A router: its low-priority routes (how many) and the routers it includes. *)
Inductive rnode := RNode (low : nat) (included : list rnode).

Fixpoint _router_check (r : rnode) : bool :=
  let 'RNode low cs := r in (0 <? low)%nat || existsb _router_check cs.

(** [app_has_low_priority_routes]: [app.router], and [app._included_routers]. *)
Definition app_has_low_priority_routes (router : rnode) (included : list rnode) : bool :=
  let 'RNode low _ := router in (0 <? low)%nat || existsb _router_check included.

(** ** Serving a route *)

(** What happens besides: effects of middlewares, and exceptions recorded for
    the test client. *)
Inductive event := Eff (n : nat) | Captured (e : nat).

Definition internal_error : answer :=
  {| status := 500; body := lit "Internal Server Error";
     headers := [(lit "content-type", lit "text/plain; charset=utf-8")] |}.

(** JSON text, written with single quotes. *)
Definition json (s : string) : bytes := (fun c => if bool_decide (c = "'"%char) then "034"%char else c) <$> lit s.

Definition not_found : answer := {| status := 404; body := json "{'detail':'Not Found'}"; headers := [] |}.

(** [JSONResponse(content={"detail": "Not Found"}, status_code=404)] *)
Definition synthetic_404 : robj :=
  plain_response {| status := 404; body := body not_found;
                    headers := [(lit "content-length", lit "22"); (lit "content-type", lit "application/json")] |}.

(** A middleware: a coroutine function that may await [call_next] any number of
    times, or a plain function, which cannot. *)
Inductive mwprog :=
| Return (r : option robj)
| RaiseM (x : raised)
| Effect (n : nat) (p : mwprog)
| CallNext (k : robj + raised -> mwprog).

Inductive mwbody := AsyncMw (p : mwprog) | SyncMw (r : option robj + raised).

Record mw := { is_asgi_shim : bool; mw_body : mwbody }.

Section Serve.

(** The classes of the program, the registered handlers, and the objects
    handlers return. *)
Context (mro : Exceptions.cls -> list Exceptions.cls) (HTTPException : Exceptions.cls).
Context (exception_handlers : list (Exceptions.key * Exceptions.handler)) (object : Exceptions.response -> robj).
(** [JSONResponse({"detail": exc.detail}, exc.status_code, exc.headers)] *)
Context (detail_response : Exceptions.exc -> robj).

Definition call_response (r : robj) : answer + raised :=
  match buffered (calls r) with
  | (b, None) => inl b
  | (_, Some x) => inr x
  end.

Definition raised_by (o : Exceptions.outcome) : option robj + raised :=
  match o with
  | Exceptions.Returned r => inl (object <$> r)
  | Exceptions.Raised catchable e => inr (if catchable then RServer e else RBase e)
  end.

(** The handler for an [HTTPException]: by status, else by class. *)
Definition fallback_handler (e : Exceptions.exc) : option Exceptions.handler :=
  match (match Exceptions.e_status e with
         | Some z => Exceptions.dict_get exception_handlers (Exceptions.KStatus z)
         | None => None
         end) with
  | Some h => Some h
  | None => Exceptions.first_class exception_handlers (mro (Exceptions.e_cls e))
  end.

Definition _arender_http_exception (e : Exceptions.exc) : answer + raised :=
  match fallback_handler e with
  | Some h => match raised_by (Exceptions.h_outcome h) with
              | inl (Some r) => call_response r
              | inl None => inr not_a_response
              | inr x => inr x
              end
  | None => call_response (detail_response e)
  end.

(** The route is given by what its [handle] does. *)
Definition _adrive_route (route : asgi_run) : list event * (answer + raised) :=
  match buffered route with
  | (b, None) => ([], inl b)
  | (_, Some (RHttp e)) => ([], _arender_http_exception e)
  | (_, Some (RServer e)) => ([Captured e], inl internal_error)
  | (_, Some (RBase e)) => ([], inr (RBase e))
  end.

Definition outcome : Type := list event * (option robj + raised).

(** A middleware around [next]. *)
Fixpoint run_mw (next : outcome) (p : mwprog) : outcome :=
  match p with
  | Return r => ([], inl r)
  | RaiseM x => ([], inr x)
  | Effect n p => let '(t, r) := run_mw next p in (Eff n :: t, r)
  | CallNext k =>
      let '(t, r) := next in
      let seen := match r with
                  | inl (Some o) => inl o
                  | inl None => inr not_a_response
                  | inr x => inr x
                  end in
      let '(t', r') := run_mw next (k seen) in (t ++ t', r')
  end.

(** [_chain], [_run_chain_async]: the middlewares from the outermost. *)
Fixpoint _chain (inner : outcome) (ms : list mw) : outcome :=
  match ms with
  | [] => inner
  | m :: ms' => match mw_body m with
                | AsyncMw p => run_mw (_chain inner ms') p
                | SyncMw r => ([], r)
                end
  end.

Definition used (strip : bool) (ms : list mw) : list mw :=
  if strip then filter (fun m => is_asgi_shim m = false) ms else ms.

(** [_drive_route], for the registered middlewares [ms]. *)
Definition _drive_route (strip : bool) (ms : list mw) (route : asgi_run) : list event * (answer + raised) :=
  match used strip ms with
  | [] => _adrive_route route
  | mws =>
      let inner := let '(t, r) := _adrive_route route in
                   (t, match r with inl a => inl (Some (plain_response a)) | inr x => inr x end) in
      let '(t, r) := _chain inner (reverse mws) in
      match (match r with
             | inl (Some o) => call_response o
             | inl None => inr not_a_response
             | inr x => inr x
             end) with
      | inl a => (t, inl a)
      | inr (RHttp e) => (t, _arender_http_exception e)
      | inr (RServer e) => (t ++ [Captured e], inl internal_error)
      | inr (RBase e) => (t, inr (RBase e))
      end
  end.

(** *** Matching *)

Inductive match_kind := Full | Partial | NoMatch.

(** A route of [app.router.routes]: whether it is a [BaseRoute], what [matches]
    gives ([None] when it raises), and what its [handle] does. *)
Record nroute := { is_base : bool; matches : option match_kind; handle : asgi_run }.

Fixpoint _match_normal_routes (routes : list nroute) (partial : option asgi_run) : option asgi_run :=
  match routes with
  | [] => partial
  | r :: routes' =>
      if is_base r then
        match matches r with
        | Some Full => Some (handle r)
        | Some Partial => _match_normal_routes routes'
                            (match partial with Some p => Some p | None => Some (handle r) end)
        | _ => _match_normal_routes routes' partial
        end
      else _match_normal_routes routes' partial
  end.

(** [serve_low_priority_request]; [low] is what real FastAPI's
    [_match_low_priority] finds. *)
Definition serve_low_priority_request (strip : bool) (ms : list mw) (routes : list nroute) (low : option asgi_run)
    : option (list event * (answer + raised)) :=
  match _match_normal_routes routes None with
  | Some route => Some (_drive_route strip ms route)
  | None => _drive_route strip ms <$> low
  end.

(** ** The 404 handler *)

Definition default_body : bytes := json "{'detail': 'Not Found'}".

(** [_extract_response]; [None] has none of the attributes. *)
Definition _extract_response (r : option robj) : answer :=
  match r with
  | None => {| status := 404; body := default_body; headers := [] |}
  | Some o => {| status := default 404 (attr_status o); body := default default_body (attr_body o);
                 headers := attr_headers o |}
  end.

Definition not_found_exception_handler : option Exceptions.handler :=
  match Exceptions.dict_get exception_handlers (Exceptions.KStatus 404) with
  | Some h => Some h
  | None => Exceptions.dict_get exception_handlers (Exceptions.KClass HTTPException)
  end.

Definition _dispatch_404_via_handler : option (answer + raised) :=
  match not_found_exception_handler with
  | None => None
  | Some h => Some (match raised_by (Exceptions.h_outcome h) with
                    | inl r => inl (_extract_response r)
                    | inr x => inr x
                    end)
  end.

Definition _dispatch_404_via_middleware (strip : bool) (ms : list mw) : list event * option (answer + raised) :=
  match ms with
  | [] => ([], None)
  | _ =>
      let '(t, r) := _chain ([], inl (Some synthetic_404)) (reverse (used strip ms)) in
      (t, match r with
          | inl None => None
          | inl (Some o) => Some (inl (_extract_response (Some o)))
          | inr x => Some (inr x)
          end)
  end.

(** [_rust_404_handler]; [searches] is [_app_has_low_priority or
    _app_needs_route_fallback]. *)
Definition _rust_404_handler (searches strip : bool) (ms : list mw) (routes : list nroute) (low : option asgi_run)
    : list event * (answer + raised) :=
  match (if searches then serve_low_priority_request strip ms routes low else None) with
  | Some out => out
  | None =>
      match _dispatch_404_via_handler with
      | Some r => ([], r)
      | None => match _dispatch_404_via_middleware strip ms with
                | (t, Some r) => (t, r)
                | (t, None) => (t, inl not_found)
                end
      end
  end.

(** Whether [not_found_handler] is set. *)
Definition installed (searches : bool) (ms : list mw) : bool :=
  match not_found_exception_handler with
  | Some _ => true
  | None => bool_decide (ms <> []) || searches
  end.

End Serve.

(** ** Lemmas *)

(** The choice of a normal route, in two passes. *)
Definition full_match (r : nroute) : Prop := is_base r = true /\ matches r = Some Full.
Definition partial_match (r : nroute) : Prop := is_base r = true /\ matches r = Some Partial.

#[export] Instance match_kind_eq_dec : EqDecision match_kind.
Proof. solve_decision. Defined.
#[export] Instance full_match_dec r : Decision (full_match r).
Proof. apply _. Defined.
#[export] Instance partial_match_dec r : Decision (partial_match r).
Proof. apply _. Defined.

Definition first (P : nroute -> Prop) `{!forall r, Decision (P r)} (routes : list nroute) : option nroute :=
  head (filter P routes).

Definition choice (routes : list nroute) : option asgi_run :=
  handle <$> match first full_match routes with Some r => Some r | None => first partial_match routes end.

Lemma match_normal_routes_spec routes partial :
  _match_normal_routes routes partial =
  match first full_match routes with
  | Some r => Some (handle r)
  | None => match partial with Some p => Some p | None => handle <$> first partial_match routes end
  end.
Proof.
  unfold first. revert partial. induction routes as [|r routes IH]; intros partial; cbn [_match_normal_routes].
  { by destruct partial. }
  rewrite !filter_cons.
  destruct (is_base r) eqn:Eb; [destruct (matches r) as [[]|] eqn:Em|]; rewrite ?IH.
  - by rewrite decide_True.
  - rewrite (decide_False (P := full_match r)) by (intros [??]; congruence).
    rewrite decide_True by done. by destruct partial, (filter full_match routes).
  - by rewrite !decide_False by (intros [??]; congruence).
  - by rewrite !decide_False by (intros [??]; congruence).
  - by rewrite !decide_False by (intros [??]; congruence).
Qed.

Lemma choice_spec routes : _match_normal_routes routes None = choice routes.
Proof. rewrite match_normal_routes_spec. unfold choice. by destruct (first full_match routes). Qed.

(** Middlewares that let the request pass and add an effect on each side. *)
Definition around (n : nat) : mw :=
  {| is_asgi_shim := false;
     mw_body := AsyncMw (Effect n (CallNext (fun r => Effect n (match r with inl o => Return (Some o) | inr x => RaiseM x end)))) |}.

Lemma chain_around inner ns :
  (forall t, inner <> (t, inl None)) ->
  let '(t, r) := inner in
  _chain inner (around <$> ns) = ((Eff <$> ns) ++ t ++ (Eff <$> reverse ns), r).
Proof.
  intros Hi. destruct inner as [t r]. induction ns as [|n ns IH]; [by rewrite app_nil_r|].
  rewrite !fmap_cons, reverse_cons, fmap_app. cbn [_chain around mw_body run_mw]. rewrite IH.
  destruct r as [[o|]|x]; [|by destruct (Hi t)|]; simpl; by rewrite <- !app_assoc.
Qed.

Lemma used_around strip ns : used strip (around <$> ns) = around <$> ns.
Proof.
  destruct strip; [|done]. unfold used. induction ns as [|n ns IH]; [done|].
  rewrite fmap_cons, filter_cons, decide_True by done. by f_equal.
Qed.

Lemma call_plain a : call_response (plain_response a) = inl a.
Proof. by destruct a. Qed.

(** Routers reachable by includes. *)
Inductive includes : rnode -> rnode -> Prop :=
| includes_here r : includes r r
| includes_child low cs c r : c ∈ cs -> includes c r -> includes (RNode low cs) r.

Definition low_priority (r : rnode) : nat := let 'RNode low _ := r in low.

Fixpoint rnode_size (r : rnode) : nat := let 'RNode _ cs := r in S (list_sum (rnode_size <$> cs)).

Lemma child_size c cs : c ∈ cs -> (rnode_size c <= list_sum (rnode_size <$> cs))%nat.
Proof. induction 1 as [|c x cs Hc IH]; rewrite fmap_cons; unfold list_sum in *; cbn [foldr]; lia. Qed.

Lemma router_check_spec r : _router_check r = true <-> exists r', includes r r' /\ (0 < low_priority r')%nat.
Proof.
  remember (rnode_size r) as n eqn:En. revert r En.
  induction n as [n IH] using (well_founded_induction lt_wf). intros [low cs] ->. cbn [_router_check].
  rewrite orb_true_iff, Nat.ltb_lt, existsb_exists. split.
  - intros [Hl|(c & Hc & Hr)]; [exists (RNode low cs); split; [constructor|done]|].
    apply list_elem_of_In in Hc. pose proof (child_size c cs Hc).
    apply (IH (rnode_size c)) in Hr as (r' & ? & ?); [|cbn; lia|done]. exists r'. split; [by econstructor|done].
  - intros (r' & Hi & Hl). inversion Hi as [|? ? c ? Hc Hcr]; subst; [by left|]. right. exists c.
    split; [by apply list_elem_of_In|]. pose proof (child_size c cs Hc).
    apply (IH (rnode_size c)); [cbn; lia|done|]. by exists r'.
Qed.

(** ** Properties *)

(** the order of the fallback.  A normal route that matches fully wins,
    wherever it stands; else the first that matches partly; else the
    low-priority route; a route whose [matches] raises does not count.  Only if
    there is none do the 404 handler, the middlewares and the default answer get
    their turn, in this order. *)
Theorem fallback_priority mro HTTPException handlers object detail strip ms routes low :
  _rust_404_handler mro HTTPException handlers object detail true strip ms routes low =
  match choice routes, low with
  | Some route, _ => _drive_route mro handlers object detail strip ms route
  | None, Some route => _drive_route mro handlers object detail strip ms route
  | None, None =>
      match _dispatch_404_via_handler HTTPException handlers object, _dispatch_404_via_middleware strip ms with
      | Some r, _ => ([], r)
      | None, (t, Some r) => (t, r)
      | None, (t, None) => (t, inl not_found)
      end
  end.
Proof.
  unfold _rust_404_handler, serve_low_priority_request. rewrite choice_spec.
  destruct (choice routes) as [r|]; [done|]. destruct low as [route|]; [done|].
  cbn. repeat case_match; simplify_eq/=; done.
Qed.

(** not installing the fallback is safe: when the application has no handler
    for 404, no middleware and no route to search, the fallback would answer
    every request with the default 404 and do nothing else. *)
Theorem uninstalled_fallback_is_transparent mro HTTPException handlers object detail searches strip ms routes low :
  installed HTTPException handlers searches ms = false ->
  _rust_404_handler mro HTTPException handlers object detail searches strip ms routes low = ([], inl not_found).
Proof.
  unfold installed, _rust_404_handler, _dispatch_404_via_handler.
  destruct (not_found_exception_handler HTTPException handlers); [done|].
  rewrite orb_false_iff. intros [Hms ->]. apply bool_decide_eq_false in Hms. by destruct ms; [|destruct Hms].
Qed.

(** a served route always answers.  Whatever the route does, short of a
    bare [BaseException], the fallback has a response as long as the
    application's handlers give one: the buffered response of the route if it
    ends normally, the rendering of its [HTTPException], or a 500 with the error
    recorded, and never a mixture of two responses. *)
Theorem fallback_route_answers mro handlers object detail route :
  (forall e, exists a, _arender_http_exception mro handlers object detail e = inl a) ->
  (forall e, ends route <> Some (RBase e)) ->
  exists t a, _drive_route mro handlers object detail true [] route = (t, inl a) /\
    match ends route with
    | None => t = [] /\ a = foldl send empty_buffer (sends route)
    | Some (RHttp e) => t = [] /\ _arender_http_exception mro handlers object detail e = inl a
    | Some (RServer e) => t = [Captured e] /\ a = internal_error
    | Some (RBase _) => False
    end.
Proof.
  intros Hh Hb. unfold _drive_route, _adrive_route, used, buffered. rewrite filter_nil.
  destruct (ends route) as [[e|e|e]|].
  - destruct (Hh e) as [a ->]. by exists [], a.
  - by eexists _, _.
  - by destruct (Hb e).
  - by eexists _, _.
Qed.

(** middlewares surround a route the fallback serves as they surround a
    route of the door: the last registered is outermost, each sees the request
    on the way in and the response on the way out, and the answer is the
    route's. *)
Theorem fallback_middleware_onion mro handlers object detail strip ns route t a :
  _adrive_route mro handlers object detail route = (t, inl a) ->
  _drive_route mro handlers object detail strip (around <$> ns) route =
    ((Eff <$> reverse ns) ++ t ++ (Eff <$> ns), inl a).
Proof.
  intros H. unfold _drive_route. rewrite used_around. destruct ns as [|n ns]; [by rewrite H, app_nil_r|].
  pose proof (chain_around (t, inl (Some (plain_response a))) (reverse (n :: ns)) ltac:(done)) as Hc.
  cbn beta iota in Hc. rewrite reverse_involutive, fmap_reverse in Hc. rewrite H.
  destruct (around <$> n :: ns) as [|m ms] eqn:E; [done|]. by rewrite Hc, call_plain.
Qed.

(** when the application has a handler for 404 (or for [HTTPException]), its
    middlewares do not see the requests nothing matched: the handler answers
    and none of their effects happen. *)
Theorem not_found_handler_hides_middleware mro HTTPException handlers object detail strip ms routes h :
  not_found_exception_handler HTTPException handlers = Some h ->
  choice routes = None ->
  forall searches, exists r,
    _rust_404_handler mro HTTPException handlers object detail searches strip ms routes None = ([], r).
Proof.
  intros Hh Hc searches. unfold _rust_404_handler, _dispatch_404_via_handler, serve_low_priority_request.
  rewrite Hh, choice_spec, Hc. destruct searches; by eexists.
Qed.

(** the fallback and the door choose different handlers for one exception:
    with handlers for the status and for the class, the fallback takes the
    first and [_lookup_exception_handler] the second. *)
Theorem fallback_and_door_disagree mro handlers e z hs hc :
  Exceptions.e_status e = Some z ->
  Exceptions.dict_get handlers (Exceptions.KStatus z) = Some hs ->
  Exceptions.dict_get handlers (Exceptions.KClass (Exceptions.e_cls e)) = Some hc ->
  fallback_handler mro handlers e = Some hs /\
  Exceptions._lookup_exception_handler mro handlers e = Some hc.
Proof.
  intros Hz Hs Hc. unfold fallback_handler, Exceptions._lookup_exception_handler. by rewrite Hz, Hs, Hc.
Qed.

(** the search for low-priority routes is exact below the application's own
    includes, and does not look at the routers that [app.router] includes. *)
Theorem low_priority_search low cs included :
  app_has_low_priority_routes (RNode low cs) included = true <->
  (0 < low)%nat \/ exists r r', r ∈ included /\ includes r r' /\ (0 < low_priority r')%nat.
Proof.
  unfold app_has_low_priority_routes. rewrite orb_true_iff, Nat.ltb_lt, existsb_exists. f_equiv.
  setoid_rewrite router_check_spec. setoid_rewrite list_elem_of_In. naive_solver.
Qed.

(** ** Witnesses *)

Definition demo_handler (r : nat) : Exceptions.handler :=
  {| Exceptions.h_is_coroutine := false; Exceptions.h_suspends := false;
     Exceptions.h_outcome := Exceptions.Returned (Some r) |}.
Definition demo_object (r : nat) : robj :=
  plain_response {| status := Z.of_nat r; body := lit "x"; headers := [] |}.
Definition demo_detail (_ : Exceptions.exc) : robj := synthetic_404.
Definition demo_mro (c : nat) : list nat := [c; 0%nat].
Definition demo_exc : Exceptions.exc := {| Exceptions.e_cls := 1%nat; Exceptions.e_status := Some 404; Exceptions.e_id := 7%nat |}.
Definition demo_run : asgi_run := {| sends := [Start 200 []; Body (lit "a"); Body (lit "b")]; ends := None |}.

Lemma uninstalled_fallback_is_transparent_witness :
  _rust_404_handler demo_mro 1%nat [(Exceptions.KStatus 418, demo_handler 1)] demo_object demo_detail false true []
    [{| is_base := true; matches := Some Full; handle := demo_run |}] None = ([], inl not_found).
Proof. apply uninstalled_fallback_is_transparent. reflexivity. Defined.

Lemma fallback_route_answers_witness :
  exists t a, _drive_route demo_mro [] demo_object demo_detail true []
      {| sends := [Start 200 []; Body (lit "a")]; ends := Some (RServer 3) |} = (t, inl a) /\
    t = [Captured 3] /\ a = internal_error.
Proof.
  apply (fallback_route_answers demo_mro [] demo_object demo_detail
           {| sends := [Start 200 []; Body (lit "a")]; ends := Some (RServer 3) |}).
  - intros e. unfold _arender_http_exception, fallback_handler.
    destruct e as [c [z|] n]; eexists; reflexivity.
  - discriminate.
Defined.

Lemma fallback_middleware_onion_witness :
  _drive_route demo_mro [] demo_object demo_detail true (around <$> [1; 2]%nat) demo_run =
    ([Eff 2; Eff 1; Eff 1; Eff 2], inl {| status := 200; body := lit "ab"; headers := [] |}).
Proof.
  apply (fallback_middleware_onion demo_mro [] demo_object demo_detail true [1; 2]%nat demo_run []
           {| status := 200; body := lit "ab"; headers := [] |}). reflexivity.
Defined.

Lemma not_found_handler_hides_middleware_witness :
  exists r, _rust_404_handler demo_mro 1%nat [(Exceptions.KStatus 404, demo_handler 5)] demo_object demo_detail true true
    (around <$> [1; 2]%nat) [] None = ([], r).
Proof.
  apply (not_found_handler_hides_middleware demo_mro 1%nat [(Exceptions.KStatus 404, demo_handler 5)] demo_object
           demo_detail true (around <$> [1; 2]%nat) [] (demo_handler 5)); reflexivity.
Defined.

Lemma fallback_and_door_disagree_witness :
  let d := [(Exceptions.KStatus 404, demo_handler 5); (Exceptions.KClass 1%nat, demo_handler 6)] in
  fallback_handler demo_mro d demo_exc = Some (demo_handler 5) /\
  Exceptions._lookup_exception_handler demo_mro d demo_exc = Some (demo_handler 6).
Proof. apply (fallback_and_door_disagree demo_mro _ demo_exc 404); reflexivity. Defined.

End Frontend.
