(* ===== verification/AsgiShim.v ===== *)
(** Raw ASGI middlewares as HTTP middlewares (_middleware_wrap.py:
    [_make_asgi_middleware_shim]): the adapter that gives a middleware a scope, a
    [receive] and a [send] of its own, calls the rest of the chain when the
    middleware calls its application, and makes a response of what was sent. *)

From S2P Require Import Prelude.

Module AsgiShim.

(** ** Data *)

Inductive message := Start (status : Z) (headers : list (bytes * bytes)) | Body (b : bytes).

(** What is raised: the [HTTPException] of the framework, another [Exception],
    or a bare [BaseException]. *)
Inductive raised := RHttp (e : nat) | RExc (e : nat) | RBase (e : nat).

Definition catchable (x : raised) : bool := match x with RBase _ => false | _ => true end.

(** A response: [None] for a body that is streamed (no [body] attribute), and
    the background tasks attached. *)
Record resp := {
  r_status : Z;
  r_headers : list (bytes * bytes);
  r_body : option bytes;
  r_background : list nat }.

(** [call_next(request)]: the effects of the rest of the chain, and its end. *)
Definition outcome : Type := list nat * (resp + raised).

(** The code of a middleware between its awaits.  [CallApp receive wrap k] calls
    the wrapped application with a [receive] that gives a body or raises and a
    [send] of its own: given the messages before, [wrap] says what it passes on
    for a message and whether it raises; the middleware goes on with the
    exception of the application, if any. *)
Inductive prog :=
| Return
| RaiseP (x : raised)
| Receive (k : bytes -> prog)
| Send (m : message) (p : prog)
| CallApp (receive : bytes + raised) (wrap : list message -> message -> list message * option raised)
    (k : option raised -> prog).

(** ** The adapter *)

(** The messages of the application through the [send] of the middleware. *)
Fixpoint relay (wrap : list message -> message -> list message * option raised) (past ms : list message)
    : list message * option raised :=
  match ms with
  | [] => ([], None)
  | m :: ms' => match wrap past m with
                | (out, Some x) => (out, Some x)
                | (out, None) => let '(out', r) := relay wrap (past ++ [m]) ms' in (out ++ out', r)
                end
  end.

Definition server_error : list message :=
  [Start 500 [(lit "content-type", lit "text/plain; charset=utf-8")]; Body (lit "Internal Server Error")].

Definition frames (r : resp) : list message := [Start (r_status r) (r_headers r); Body (default [] (r_body r))].

(** [_inner_asgi_proxy]: what reaches [_send], the effects, and the exception. *)
Definition _inner_asgi_proxy (call_next : outcome) (receive : bytes + raised)
    (wrap : list message -> message -> list message * option raised) : list message * list nat * option raised :=
  match receive with
  | inr x => ([], [], Some x)
  | inl _ =>
      match call_next with
      | (t, inr x) =>
          let '(out, r) := relay wrap [] server_error in
          (out, t, Some (match r with
                         | Some y => if catchable y then x else y
                         | None => x
                         end))
      | (t, inl r) => let '(out, x) := relay wrap [] (frames r) in (out, t, x)
      end
  end.

(** The middleware instance: what reaches [_send], the effects, and how it
    ends. *)
Fixpoint instance (call_next : outcome) (body : bytes) (p : prog) : list message * list nat * option raised :=
  match p with
  | Return => ([], [], None)
  | RaiseP x => ([], [], Some x)
  | Receive k => instance call_next body (k body)
  | Send m p => let '(out, t, x) := instance call_next body p in (m :: out, t, x)
  | CallApp receive wrap k =>
      let '(out, t, x) := _inner_asgi_proxy call_next receive wrap in
      let '(out', t', x') := instance call_next body (k x) in (out ++ out', t ++ t', x')
  end.

(** [_send]: [captured]. *)
Record captured := { c_start : option (Z * list (bytes * bytes)); c_body : bytes }.

Definition _send (c : captured) (m : message) : captured :=
  match m with
  | Start s hs => {| c_start := Some (s, hs); c_body := c_body c |}
  | Body b => {| c_start := c_start c; c_body := c_body c ++ b |}
  end.

Definition capture (ms : list message) : captured := foldl _send {| c_start := None; c_body := [] |} ms.

(** [_shim]; [steps_aside] for Sentry's own middleware inside another one,
    [on_http] renders an [HTTPException] (the registered handler or a JSON
    body). *)
Definition _shim (steps_aside : bool) (on_http : nat -> resp + raised) (p : prog) (body : bytes)
    (call_next : outcome) : outcome :=
  if steps_aside then call_next
  else
    let '(out, t, x) := instance call_next body p in
    match x with
    | Some (RHttp e) => (t, on_http e)
    | Some x => (t, inr x)
    | None =>
        let c := capture out in
        match c_start c with
        | Some (s, hs) =>
            (t, inl {| r_status := s; r_headers := hs; r_body := Some (c_body c); r_background := [] |})
        | None => let '(t', r) := call_next in (t ++ t', r)
        end
    end.

(** ** Lemmas *)

Definition starts (ms : list message) : list (Z * list (bytes * bytes)) :=
  omap (fun m => match m with Start s hs => Some (s, hs) | Body _ => None end) ms.
Definition bodies (ms : list message) : bytes :=
  concat (omap (fun m => match m with Body b => Some b | Start _ _ => None end) ms).

Lemma capture_spec ms c :
  foldl _send c ms =
  {| c_start := match last (starts ms) with Some s => Some s | None => c_start c end; c_body := c_body c ++ bodies ms |}.
Proof.
  revert c. induction ms as [|m ms IH]; intros c; cbn [foldl].
  { unfold bodies. cbn. rewrite app_nil_r. by destruct c. }
  rewrite IH. destruct m as [s hs|b]; unfold starts, bodies; cbn [_send c_start c_body omap list_omap concat].
  - fold (starts ms). rewrite last_cons. by destruct (last (starts ms)).
  - by rewrite app_assoc.
Qed.

(** A [send] that passes everything on, and the middleware that is not there. *)
Definition pass_on (_ : list message) (m : message) : list message * option raised := ([m], None).
Definition transparent (body : bytes) : prog :=
  CallApp (inl body) pass_on (fun x => match x with Some x => RaiseP x | None => Return end).

Lemma relay_pass_on past ms : relay pass_on past ms = (ms, None).
Proof. revert past. induction ms as [|m ms IH]; intros past; cbn; [done|]. by rewrite IH. Qed.

(** How often the application is called, along the way the middleware takes. *)
Fixpoint app_calls (call_next : outcome) (body : bytes) (p : prog) : nat :=
  match p with
  | Return | RaiseP _ => 0
  | Receive k => app_calls call_next body (k body)
  | Send _ p => app_calls call_next body p
  | CallApp receive wrap k =>
      (if receive then 1 else 0) +
      app_calls call_next body (k (_inner_asgi_proxy call_next receive wrap).2)
  end.

Lemma instance_effects call_next body p :
  (instance call_next body p).1.2 = concat (replicate (app_calls call_next body p) call_next.1).
Proof.
  induction p as [|x|k IH|m p IH|receive wrap k IH]; cbn [instance app_calls]; [done|done|apply IH| |].
  - by destruct (instance call_next body p) as [[out t] x].
  - specialize (IH (_inner_asgi_proxy call_next receive wrap).2).
    assert ((_inner_asgi_proxy call_next receive wrap).1.2 = if receive then call_next.1 else []) as Hp.
    { unfold _inner_asgi_proxy. destruct receive as [b|x]; [|done]. destruct call_next as [t [r|x]]; by destruct (relay _ _ _). }
    destruct (_inner_asgi_proxy call_next receive wrap) as [[out t] x]. cbn in *.
    destruct (instance call_next body (k x)) as [[out' t'] x']. cbn in *. rewrite Hp, IH. by destruct receive.
Qed.

(** ** Properties *)

(** what a middleware sends is what the client gets: when it returns and
    started a response, the status and headers are those of the last start it
    let through, and the body is all body messages joined; the rest of the chain
    ran as often as the middleware called its application, and not at all if it
    never did. *)
Theorem shim_answers_with_what_was_sent on_http p body call_next out t s hs :
  instance call_next body p = (out, t, None) -> last (starts out) = Some (s, hs) ->
  _shim false on_http p body call_next =
    (concat (replicate (app_calls call_next body p) call_next.1),
     inl {| r_status := s; r_headers := hs; r_body := Some (bodies out); r_background := [] |}).
Proof.
  intros Hi Hs. pose proof (instance_effects call_next body p) as He. unfold _shim. rewrite Hi in *. cbn in He.
  unfold capture. rewrite capture_spec, Hs. by subst.
Qed.

(** a middleware that passes everything on changes nothing about a buffered
    response without background tasks: the rest of the chain runs once and its
    response is returned as it is.  Its exceptions come out as they are too, but
    for an [HTTPException], which is rendered. *)
Theorem transparent_middleware_is_invisible on_http body t r :
  (forall q, r = inl q -> r_body q <> None /\ r_background q = []) ->
  _shim false on_http (transparent body) body (t, r) =
    (t, match r with inr (RHttp e) => on_http e | _ => r end).
Proof.
  intros Hb. unfold _shim, transparent. cbn [instance]. unfold _inner_asgi_proxy. rewrite !relay_pass_on.
  destruct r as [q|[e|e|e]]; [|cbn; by rewrite app_nil_r..].
  destruct (Hb q eq_refl) as [H1 H2]. destruct q as [st hs [b|] bg]; cbn in *; [|done]. subst bg.
  by rewrite app_nil_r.
Qed.

(** behind any raw middleware, even one that passes everything on, a
    streaming response arrives with an empty body and loses its background
    tasks. *)
Theorem shim_drops_stream_and_background on_http body t st hs bg :
  _shim false on_http (transparent body) body
    (t, inl {| r_status := st; r_headers := hs; r_body := None; r_background := bg |}) =
  (t, inl {| r_status := st; r_headers := hs; r_body := Some []; r_background := [] |}).
Proof. unfold _shim, transparent. cbn. by rewrite app_nil_r. Qed.

(** a middleware that answers an exception of its application with a
    response of its own sends the client a body that begins with the body of
    the internal 500 response, under its own status and headers. *)
Theorem error_response_bodies_are_joined on_http body t x st hs b :
  let p := CallApp (inl body) pass_on
             (fun x => match x with Some _ => Send (Start st hs) (Send (Body b) Return) | None => Return end) in
  _shim false on_http p body (t, inr x) =
  (t, inl {| r_status := st; r_headers := hs; r_body := Some (lit "Internal Server Error" ++ b);
             r_background := [] |}).
Proof. unfold _shim. cbn. by rewrite app_nil_r. Qed.

(** a middleware that calls its application and lets no response start runs
    the rest of the chain twice in one request. *)
Theorem dropped_response_runs_chain_twice on_http body t r :
  let p := CallApp (inl body) (fun _ _ => ([], None)) (fun _ => Return) in
  _shim false on_http p body (t, r) = (t ++ t, r).
Proof. unfold _shim. cbn. destruct r; cbn; by rewrite app_nil_r. Qed.

(** ** Witnesses *)

Definition demo_resp : resp :=
  {| r_status := 200; r_headers := [(lit "a", lit "b")]; r_body := Some (lit "ok"); r_background := [] |}.

Lemma shim_answers_with_what_was_sent_witness :
  _shim false (fun e => inr (RHttp e)) (Send (Start 403 []) (Send (Body (lit "no")) Return)) [] ([7]%nat, inl demo_resp) =
    ([], inl {| r_status := 403; r_headers := []; r_body := Some (lit "no"); r_background := [] |}).
Proof.
  apply (shim_answers_with_what_was_sent (fun e => inr (RHttp e)) (Send (Start 403 []) (Send (Body (lit "no")) Return)) []
           ([7]%nat, inl demo_resp) [Start 403 []; Body (lit "no")] [] 403 []); reflexivity.
Defined.

Lemma transparent_middleware_is_invisible_witness :
  _shim false (fun e => inr (RHttp e)) (transparent (lit "q")) (lit "q") ([7]%nat, inl demo_resp) = ([7]%nat, inl demo_resp).
Proof.
  apply (transparent_middleware_is_invisible (fun e => inr (RHttp e)) (lit "q") [7]%nat (inl demo_resp)).
  intros q [= <-]. by split.
Defined.

End AsgiShim.
