(* ===== verification/Adapter.v ===== *)
(** The adapter of real FastAPI's routes to the Rust engine
    (_introspect_from_real_fastapi.py): [extract_params_from_route] flattens the
    tree of dependants into the list of parameters the engine works through,
    each stored under a key from which later entries take their inputs;
    [_dep_cache_id] gives dependencies their cache keys. *)

From S2P Require Import Prelude.

Module Adapter.

(** ** Real FastAPI's description of a route *)

Inductive bucket := Path | Query | Header | Cookie.
#[export] Instance bucket_eq_dec : EqDecision bucket.
Proof. solve_decision. Defined.

Definition _SCALAR_BUCKETS : list bucket := [Path; Query; Header; Cookie].

Definition bucket_text (b : bucket) : text :=
  match b with Path => lit "path" | Query => lit "query" | Header => lit "header" | Cookie => lit "cookie" end.

(** The class of a body field's [field_info]. *)
Inductive body_class := CForm | CFile | CBody (embed : bool) | COther.
#[export] Instance body_class_eq_dec : EqDecision body_class.
Proof. solve_decision. Defined.

(** A [ModelField]: its name, its explicit alias, whether its type (without
    [Optional]) is a model, or a union of models, the fields of the model (name
    and alias), and its class in a body. *)
Record field := {
  f_name : text;
  f_alias : option text;
  f_model : bool;
  f_union : bool;
  f_fields : list (text * text);
  f_class : body_class }.

(** A [Dependant] without its dependencies.  [d_special]: the special parameters
    in the order of [_SPECIAL_PARAM_KINDS], as (kind, name). *)
Record dinfo := {
  d_call : nat;
  d_name : option text;
  d_params : bucket -> list field;
  d_body : list field;
  d_special : list (text * text);
  d_websocket : bool;
  d_use_cache : bool;
  d_cache_scopes : list text;
  d_oauth_scopes : list text;
  d_scope : option text;
  d_async_gen : bool;
  d_gen : bool;
  d_coroutine : bool }.

Inductive dependant := Dep (info : dinfo) (subs : list dependant).

(** [route.dependant] and, if there is a combined body model, whether the body
    is required. *)
Record route := { r_dependant : dependant; r_body_field : option bool }.

(** ** Keys of the engine's store *)

Inductive key :=
| KParam (n : text)                            (* the handler's own name for it *)
| KDep (uid : list nat)                        (* _dep{uid} *)
| KDepIn (uid : list nat) (n : text)           (* _dep{uid}__{n} *)
| KDepReq (uid : list nat) (n : text)          (* _pmreq{uid}_{n} *)
| KReq (b : bucket) (idx : nat) (n : text)     (* _pmreq_{kind}{idx}_{n} *)
| KFormReq (n : text)                          (* _fmreq_{n} *)
| KPathField (idx : nat) (n f : text)          (* _pm_path{idx}_{n}__{f} *)
| KFormField (n f : text)                      (* _pm_fm_{n}__{f} *)
| KCombined.

(** Numbers of dependencies, from the handler down: ["0"], ["0_1"], ... *)
Definition uid_text (uid : list nat) : text := join "_" ((fun k => dec (Z.of_nat k)) <$> uid).

Definition key_text (k : key) : text :=
  match k with
  | KParam n => n
  | KDep u => lit "_dep" ++ uid_text u
  | KDepIn u n => lit "_dep" ++ uid_text u ++ lit "__" ++ n
  | KDepReq u n => lit "_pmreq" ++ uid_text u ++ lit "_" ++ n
  | KReq b i n => lit "_pmreq_" ++ bucket_text b ++ dec (Z.of_nat i) ++ lit "_" ++ n
  | KFormReq n => lit "_fmreq_" ++ n
  | KPathField i n f => lit "_pm_path" ++ dec (Z.of_nat i) ++ lit "_" ++ n ++ lit "__" ++ f
  | KFormField n f => lit "_pm_fm_" ++ n ++ lit "__" ++ f
  | KCombined => lit "_combined_body"
  end.

(** ** The flat list *)

Inductive wrapper := Bridge | OverrideAware | Plain.

(** What a dependency entry calls. *)
Inductive callee :=
| UserCall (c : nat) (w : wrapper)
| RequestModel (b : bucket) (f : field)        (* [_make_request_param_model_builder] *)
| FormModel (f : field)                        (* [_make_form_param_model_builder] *)
| BuildModel (f : field)                       (* [_make_model_builder] *)
| Getter (n : text).                           (* [_make_getter] *)

Inductive what :=
| Extract (kind : text) (alias : option text) (f : field)
| Inject (kind : text) (oauth_scopes : list text)
| ExtractField (kind wire : text)
| CombinedBody (required : bool)
| Dependency (c : callee) (id : option Z) (inputs : list (text * key)) (is_async is_gen function_scope : bool).

(** [ParamInfo] *)
Record param := { p_key : key; p_handler : bool; p_what : what }.

Definition inject_request : what := Inject (lit "inject_request") [].

(** A dependency entry made by the adapter itself. *)
Definition synthetic (k : key) (handler : bool) (c : callee) (inputs : list (text * key)) (is_async : bool) : param :=
  {| p_key := k; p_handler := handler; p_what := Dependency c None inputs is_async false false |}.

Definition is_body_form (f : field) : bool := bool_decide (f_class f = CForm).

(** [_param_from_field]: [name] is the key of a dependency's input; a model in a
    scalar bucket is refused. *)
Definition _param_from_field (kind : text) (f : field) (name : option key) : param :=
  match name with
  | Some k => {| p_key := k; p_handler := false;
                 p_what := Extract kind (Some (default (f_name f) (f_alias f))) f |}
  | None => {| p_key := KParam (f_name f); p_handler := true; p_what := Extract kind (f_alias f) f |}
  end.

(** [_emit_request_param_model] *)
Definition _emit_request_param_model (f : field) (b : bucket) (req result : key) (handler : bool) : list param :=
  [ {| p_key := req; p_handler := false; p_what := inject_request |};
    synthetic result handler (RequestModel b f) [(lit "request", req)] false ].

(** [_emit_form_param_model] *)
Definition _emit_form_param_model (f : field) : list param :=
  [ {| p_key := KFormReq (f_name f); p_handler := false; p_what := inject_request |};
    synthetic (KParam (f_name f)) true (FormModel f) [(lit "request", KFormReq (f_name f))] true ].

(** [_expand_param_model]: only headers exchange underscores, and only path and
    form models are expanded. *)
Definition _expand_param_model (f : field) (kind : text) (src : text -> key) : list param :=
  ((fun na => {| p_key := src na.1; p_handler := false; p_what := ExtractField kind na.2 |}) <$> f_fields f) ++
  [synthetic (KParam (f_name f)) true (BuildModel f) ((fun na => (na.2, src na.1)) <$> f_fields f) false].

(** [_emit_combined_body] *)
Definition _emit_combined_body (body_field : option bool) (fs : list field) : option (list param) :=
  match body_field with
  | None => None
  | Some required =>
      Some ({| p_key := KCombined; p_handler := false; p_what := CombinedBody required |} ::
            ((fun f => synthetic (KParam (f_name f)) true (Getter (f_name f)) [(lit "cb", KCombined)] false) <$> fs))
  end.

Definition _scopes_for (info : dinfo) (kind : text) : list text :=
  if bool_decide (kind = lit "inject_security_scopes") then d_oauth_scopes info else [].

(** [_emit_dep_special_params], [_emit_special_params] *)
Definition emit_special (info : dinfo) (k : text -> key) (handler : bool) : list param :=
  (fun kn => {| p_key := k kn.2; p_handler := handler; p_what := Inject kn.1 (_scopes_for info kn.1) |}) <$>
  d_special info.

(** [_emit_body] *)
Definition _emit_body (body_field : option bool) (fs : list field) : option (list param) :=
  match fs with
  | [] => Some []
  | f :: rest =>
      if forallb (fun f => bool_decide (f_class f = CForm \/ f_class f = CFile)) fs then
        if bool_decide (rest = []) && is_body_form f && (f_model f || f_union f) then Some (_emit_form_param_model f)
        else Some (fs ≫= fun f =>
          if is_body_form f && f_model f then _expand_param_model f (lit "form") (KFormField (f_name f))
          else [_param_from_field (if is_body_form f then lit "form" else lit "file") f None])
      else match rest, f_class f with
           | [], CBody true => _emit_combined_body body_field fs
           | [], CBody false => Some [_param_from_field (lit "body") f None]
           | _, _ => _emit_combined_body body_field fs
           end
  end.

(** *** Dependencies *)

Definition _U64_MASK : Z := Z.shiftl 1 64 - 1.

(** [_dep_cache_id], for the address of the function and Python's [hash] of the
    scopes with the scope. *)
Definition _dep_cache_id (address : Z) (hash : list text -> text -> Z) (info : dinfo) : option Z :=
  if d_use_cache info then
    let scope := match d_scope info with Some ((_ :: _) as s) => s | _ => lit "request" end in
    if bool_decide (d_cache_scopes info = []) && bool_decide (scope = lit "request") then Some address
    else Some (Z.land (Z.lxor address (Z.land (hash (d_cache_scopes info) scope) _U64_MASK)) _U64_MASK)
  else None.

Section Emit.

(** [app] is given (so that overrides are honoured); addresses and hashes. *)
Context (app : bool) (address : nat -> Z) (hash : list text -> text -> Z).

Definition emit_scalar (uid : list nat) (bf : bucket * field) : option (list param) :=
  let '(b, f) := bf in
  if f_model f then
    match b with
    | Path => None
    | _ => Some (_emit_request_param_model f b (KDepReq uid (f_name f)) (KDepIn uid (f_name f)) false)
    end
  else Some [_param_from_field (bucket_text b) f (Some (KDepIn uid (f_name f)))].

Definition scalars (info : dinfo) : list (bucket * field) := _SCALAR_BUCKETS ≫= fun b => (pair b) <$> d_params info b.

Definition result_key (uid : list nat) (handler : bool) (info : dinfo) : key :=
  match d_name info with
  | Some ((_ :: _) as n) => if handler then KParam n else KDep uid
  | _ => KDep uid
  end.

Definition user_call (info : dinfo) : callee :=
  UserCall (d_call info) (if d_async_gen info then Bridge else if app then OverrideAware else Plain).

Definition dinfo_of (d : dependant) : dinfo := let 'Dep info _ := d in info.

Definition dep_entry (uid : list nat) (handler : bool) (info : dinfo) (subs : list dependant) : param :=
  {| p_key := result_key uid handler info; p_handler := handler;
     p_what := Dependency (user_call info) (_dep_cache_id (address (d_call info)) hash info)
       (((fun kn => (kn.2, KDepIn uid kn.2)) <$> d_special info) ++
        ((fun bf : bucket * field => (f_name bf.2, KDepIn uid (f_name bf.2))) <$> scalars info) ++
        ((fun ks : nat * dependant =>
            (default [] (d_name (dinfo_of ks.2)), result_key (uid ++ [ks.1]) false (dinfo_of ks.2))) <$>
         zip (seq 0 (length subs)) subs))
       (d_coroutine info) (d_gen info || d_async_gen info) (bool_decide (d_scope info = Some (lit "function"))) |}.

(** [_emit_dep]; [None] for [Undelegable]. *)
Fixpoint _emit_dep (uid : list nat) (handler : bool) (d : dependant) : option (list param) :=
  let 'Dep info subs := d in
  if bool_decide (d_body info <> []) || d_websocket info then None
  else
    own ← mapM (emit_scalar uid) (scalars info);
    below ← (fix go (k : nat) (subs : list dependant) : option (list param) :=
               match subs with
               | [] => Some []
               | sub :: subs' => ps ← _emit_dep (uid ++ [k]) false sub; qs ← go (S k) subs'; Some (ps ++ qs)
               end) 0%nat subs;
    Some (emit_special info (KDepIn uid) false ++ concat own ++ below ++ [dep_entry uid handler info subs]).

(** The handler's own scalars, with their positions in their buckets. *)
Definition emit_own (b : bucket) (i : nat) (f : field) : list param :=
  if f_model f then
    match b with
    | Path => _expand_param_model f (bucket_text b) (KPathField i (f_name f))
    | _ => _emit_request_param_model f b (KReq b i (f_name f)) (KParam (f_name f)) true
    end
  else [_param_from_field (bucket_text b) f None].

Definition extract_params_from_route (r : route) : option (list param) :=
  let 'Dep info subs := r_dependant r in
  body ← _emit_body (r_body_field r) (d_body info);
  deps ← mapM (fun kd => _emit_dep [kd.1] (bool_decide (d_name (dinfo_of kd.2) <> None)) kd.2)
           (zip (seq 0 (length subs)) subs);
  Some (concat (_SCALAR_BUCKETS ≫= fun b => imap (emit_own b) (d_params info b)) ++ body ++
        emit_special info KParam true ++ concat deps).

End Emit.

(** ** What the engine does with the list (router.rs) *)

Section Meaning.

(** Values; what extracting or injecting gives for this request; calls.
    Extraction and calls that fail end the request and are left out. *)
Context {V : Type} (source : what -> V) (apply : callee -> list (text * V) -> V).

Record engine := { resolved : gmap text V; dep_cache : gmap Z text }.

Definition engine0 : engine := {| resolved := ∅; dep_cache := ∅ |}.

(** One entry of the loop over the parameters: only inputs of dependencies and
    dependencies are resolved here; a dependency whose cache key is known takes
    the earlier value, another is called with its inputs, and there is no
    answer if one of them is missing. *)
Definition step (s : engine) (p : param) : option engine :=
  match p_what p with
  | Dependency c id inputs _ _ _ =>
      match (i ← id; t ← dep_cache s !! i; resolved s !! t) with
      | Some v => Some {| resolved := <[ key_text (p_key p) := v ]> (resolved s); dep_cache := dep_cache s |}
      | None =>
          vs ← mapM (fun ak => v ← resolved s !! key_text ak.2; Some (ak.1, v)) inputs;
          Some {| resolved := <[ key_text (p_key p) := apply c vs ]> (resolved s);
                  dep_cache := match id with Some i => <[ i := key_text (p_key p) ]> (dep_cache s) | None => dep_cache s end |}
      end
  | w => if p_handler p then Some s
         else Some {| resolved := <[ key_text (p_key p) := source w ]> (resolved s); dep_cache := dep_cache s |}
  end.

Fixpoint steps (ps : list param) (s : engine) : option engine :=
  match ps with
  | [] => Some s
  | p :: ps' => s' ← step s p; steps ps' s'
  end.

(** What the handler is called with: the entries meant for it, by name;
    dependencies from the resolved values, the others extracted or injected. *)
Definition handler_entries (ps : list param) : list param := filter (fun p => p_handler p = true) ps.

Definition entry_value (s : engine) (p : param) : option V :=
  match p_what p with
  | Dependency _ _ _ _ _ _ => resolved s !! key_text (p_key p)
  | w => Some (source w)
  end.

Definition kwargs (ps : list param) (s : engine) : option (list (text * V)) :=
  mapM (fun p => v ← entry_value s p; Some (key_text (p_key p), v)) (handler_entries ps).

(** The value of a dependency, by recursion on the tree. *)
Definition scalar_value (bf : bucket * field) : V :=
  if f_model bf.2 then apply (RequestModel bf.1 bf.2) [(lit "request", source inject_request)]
  else source (Extract (bucket_text bf.1) (Some (default (f_name bf.2) (f_alias bf.2))) bf.2).

Definition special_args (info : dinfo) : list (text * V) :=
  (fun kn => (kn.2, source (Inject kn.1 (_scopes_for info kn.1)))) <$> d_special info.

Fixpoint dep_value (app : bool) (d : dependant) : V :=
  let 'Dep info subs := d in
  apply (user_call app info)
    (special_args info ++
     ((fun bf : bucket * field => (f_name bf.2, scalar_value bf)) <$> scalars info) ++
     ((fun sub => (default [] (d_name (dinfo_of sub)), dep_value app sub)) <$> subs)).

(** The handler's arguments, argument by argument. *)
Definition own_value (bf : bucket * field) : V :=
  if f_model bf.2 then apply (RequestModel bf.1 bf.2) [(lit "request", source inject_request)]
  else source (Extract (bucket_text bf.1) (f_alias bf.2) bf.2).

Definition body_args (body_field : option bool) (fs : list field) : list (text * V) :=
  match fs with
  | [] => []
  | f :: rest =>
      if forallb (fun f => bool_decide (f_class f = CForm \/ f_class f = CFile)) fs then
        if bool_decide (rest = []) && is_body_form f && (f_model f || f_union f)
        then [(f_name f, apply (FormModel f) [(lit "request", source inject_request)])]
        else (fun f => (f_name f, source (Extract (if is_body_form f then lit "form" else lit "file") (f_alias f) f))) <$> fs
      else match rest, f_class f with
           | [], CBody false => [(f_name f, source (Extract (lit "body") (f_alias f) f))]
           | _, _ => (fun f => (f_name f, apply (Getter (f_name f))
                                            [(lit "cb", source (CombinedBody (default false body_field)))])) <$> fs
           end
  end.

Definition route_args (app : bool) (r : route) : list (text * V) :=
  let 'Dep info subs := r_dependant r in
  ((fun bf : bucket * field => (f_name bf.2, own_value bf)) <$> scalars info) ++
  body_args (r_body_field r) (d_body info) ++ special_args info ++
  omap (fun sub => n ← d_name (dinfo_of sub); Some (n, dep_value app sub)) subs.

End Meaning.

(** ** Lemmas *)

(** *** Keys *)

Definition no_digit (t : text) : Prop := forall c t', t = c :: t' -> ~ is_digit c.

Lemma digits_app_inj (l1 l2 r1 r2 : text) :
  Forall is_digit l1 -> Forall is_digit l2 -> no_digit r1 -> no_digit r2 ->
  l1 ++ r1 = l2 ++ r2 -> l1 = l2 /\ r1 = r2.
Proof.
  intros H1. revert l2. induction H1 as [|c l1 Hc H1 IH]; intros l2 H2 Hr1 Hr2 E.
  - destruct H2 as [|c l2 Hc H2]; [done|]. simpl in E. by destruct (Hr1 _ _ E).
  - destruct H2 as [|c' l2 Hc' H2].
    + simpl in E. by destruct (Hr2 _ _ (eq_sym E)).
    + injection E as -> E. by destruct (IH l2 H2 Hr1 Hr2 E) as [-> ->].
Qed.

Lemma dec_digits k : Forall is_digit (dec (Z.of_nat k)).
Proof.
  apply Forall_forall. intros c. destruct k as [|k]; [intros ->%list_elem_of_singleton; unfold is_digit; set_solver|].
  simpl. apply uint_text_digits.
Qed.

Lemma dec_nat_inj k k' : dec (Z.of_nat k) = dec (Z.of_nat k') -> k = k'.
Proof.
  intros E. pose proof (py_int_dec is_space_bytes (Z.of_nat k)) as H1.
  pose proof (py_int_dec is_space_bytes (Z.of_nat k')) as H2.
  rewrite E in H1. rewrite H1 in H2 by apply digit_not_space_bytes.
  specialize (H2 digit_not_space_bytes). injection H2. lia.
Qed.

Lemma dec_head k : exists c t, dec (Z.of_nat k) = c :: t /\ is_digit c.
Proof.
  pose proof (dec_digits k) as H. destruct (dec (Z.of_nat k)) as [|c t] eqn:E; [by destruct (dec_nonempty _ E)|].
  inversion H; subst. eauto.
Qed.

(** What may follow the number of a dependency. *)
Definition ends_uid (t : text) : Prop := t = [] \/ exists r, t = "_"%char :: r /\ no_digit r.

Lemma uid_text_cons k u : uid_text (k :: u) = dec (Z.of_nat k) ++ match u with [] => [] | _ => lit "_" ++ uid_text u end.
Proof. destruct u as [|k' u]; unfold uid_text; simpl; [by rewrite app_nil_r|done]. Qed.

Lemma underscore_no_digit t : no_digit ("_"%char :: t).
Proof. intros c t' [= <- _]. unfold is_digit. intros H. set_solver. Qed.

Lemma nil_no_digit : no_digit [].
Proof. by intros c t'. Qed.

Lemma ends_uid_no_digit t : ends_uid t -> no_digit t.
Proof. intros [->|(r & -> & _)]; [apply nil_no_digit|apply underscore_no_digit]. Qed.

Lemma uid_app_inj u1 u2 t1 t2 :
  u1 <> [] -> u2 <> [] -> ends_uid t1 -> ends_uid t2 -> uid_text u1 ++ t1 = uid_text u2 ++ t2 -> u1 = u2 /\ t1 = t2.
Proof.
  revert u2. induction u1 as [|k1 u1 IH]; intros [|k2 u2] Hu1 Hu2 H1 H2; try done.
  rewrite !uid_text_cons, <- !app_assoc. intros E.
  assert (forall u t, ends_uid t -> no_digit (match u with [] => [] | _ => lit "_" ++ uid_text u end ++ t)) as Hnd.
  { intros [|??] t Ht; [by apply ends_uid_no_digit|]. apply underscore_no_digit. }
  apply digits_app_inj in E as [->%dec_nat_inj E]; [|apply dec_digits|apply dec_digits|by apply Hnd|by apply Hnd].
  assert (forall k u t t', ends_uid t -> t = (lit "_" ++ uid_text (k :: u)) ++ t' -> False) as Hno.
  { intros k u t t' [->|(r & -> & Hr)]; [done|]. intros [= E']. destruct (dec_head k) as (c & t0 & Ed & Hc).
    rewrite uid_text_cons, Ed in E'. by apply (Hr c _ E'). }
  destruct u1 as [|k1' u1], u2 as [|k2' u2]; [done| | |].
  - by destruct (Hno _ _ _ _ H1 E).
  - by destruct (Hno _ _ _ _ H2 (eq_sym E)).
  - simpl in E. injection E as E. destruct (IH (k2' :: u2)) as [[= -> ->] ->]; done.
Qed.

(** Keys of the flat list: names are identifiers, the handler's do not begin
    with an underscore, and no model is expanded field by field. *)
Definition wf_name (n : text) : Prop := n <> [] /\ no_digit n.

Definition wf_key (k : key) : Prop :=
  match k with
  | KParam n => exists c t, n = c :: t /\ c <> "_"%char
  | KDep u => u <> []
  | KDepIn u n | KDepReq u n => u <> [] /\ wf_name n
  | KReq _ _ n => wf_name n
  | KFormReq _ | KCombined => True
  | KPathField _ _ _ | KFormField _ _ => False
  end.

Lemma ends_uid_nil : ends_uid [].
Proof. by left. Qed.
Lemma ends_uid_in n : ends_uid (lit "__" ++ n).
Proof. right. eexists. split; [reflexivity|]. apply underscore_no_digit. Qed.
Lemma ends_uid_req n : wf_name n -> ends_uid (lit "_" ++ n).
Proof. intros [_ H]. right. by eexists. Qed.

Lemma uid_head k u : exists c t, uid_text (k :: u) = c :: t /\ is_digit c.
Proof. destruct (dec_head k) as (c & t & E & H). rewrite uid_text_cons, E. simpl. eauto. Qed.

Lemma bucket_app_inj b b' i i' t t' :
  bucket_text b ++ dec (Z.of_nat i) ++ lit "_" ++ t = bucket_text b' ++ dec (Z.of_nat i') ++ lit "_" ++ t' ->
  b = b' /\ i = i' /\ t = t'.
Proof.
  intros E. assert (b = b') as <- by (destruct b, b'; done).
  apply app_inv_head in E. apply digits_app_inj in E as [->%dec_nat_inj [= ->]];
    [done|apply dec_digits|apply dec_digits|apply underscore_no_digit|apply underscore_no_digit].
Qed.

Lemma req_apart u n b i n' :
  u <> [] -> uid_text u ++ lit "_" ++ n = lit "_" ++ bucket_text b ++ dec (Z.of_nat i) ++ lit "_" ++ n' -> False.
Proof.
  destruct u as [|k u]; [done|]. intros _. destruct (uid_head k u) as (c & t & -> & Hc). intros [= -> _].
  by apply (underscore_no_digit [] "_"%char []).
Qed.

(** The texts of different keys differ. *)
Lemma key_text_inj k k' : wf_key k -> wf_key k' -> key_text k = key_text k' -> k = k'.
Proof.
  destruct k as [n|u|u n|u n|b i n|n|i n f|n f|], k' as [n'|u'|u' n'|u' n'|b' i' n'|n'|i' n' f'|n' f'|];
    cbn [wf_key]; intros H H' E; try done;
    try (destruct H as (c & t & -> & Hc)); try (destruct H' as (c' & t' & -> & Hc')); cbn in E; try congruence.
  all: try (simplify_eq/=; done).
  - injection E as E. destruct (uid_app_inj u u' [] []) as [-> _]; rewrite ?app_nil_r; auto using ends_uid_nil.
  - injection E as E. destruct (uid_app_inj u u' [] (lit "__" ++ n')) as [_ [=]]; [done|naive_solver|..];
      rewrite ?app_nil_r; auto using ends_uid_nil, ends_uid_in.
  - injection E as E. destruct (uid_app_inj u u' (lit "__" ++ n) []) as [_ [=]]; [naive_solver|done|..];
      rewrite ?app_nil_r; auto using ends_uid_nil, ends_uid_in.
  - injection E as E. destruct (uid_app_inj u u' (lit "__" ++ n) (lit "__" ++ n')) as [-> [= ->]];
      [naive_solver|naive_solver|..]; auto using ends_uid_in.
  - injection E as E. destruct H as [Hu Hn], H' as [Hu' Hn'].
    destruct (uid_app_inj u u' (lit "_" ++ n) (lit "_" ++ n')) as [-> [= ->]]; auto using ends_uid_req.
  - injection E as E. by destruct (req_apart u n b' i' n' (proj1 H)).
  - injection E as E. by destruct (req_apart u' n' b i n (proj1 H')).
  - injection E as E. by apply bucket_app_inj in E as (-> & -> & ->).
Qed.

Lemma elem_of_concat {A} (x : A) ls : x ∈ concat ls <-> exists l, x ∈ l /\ l ∈ ls.
Proof. induction ls as [|l ls IH]; cbn; [set_solver|]. rewrite elem_of_app, IH. set_solver. Qed.

(** *** Execution *)

(** Induction with the hypothesis for every dependency below. *)
Lemma dependant_ind' (P : dependant -> Prop) :
  (forall info subs, Forall P subs -> P (Dep info subs)) -> forall d, P d.
Proof.
  intros H. fix IH 1. intros [info subs]. apply H. induction subs as [|d subs IHs]; constructor; [apply IH|exact IHs].
Qed.

(** Keys that may hold the result of a dependency. *)
Definition is_result (k : key) : Prop := match k with KDep _ | KParam _ => True | _ => False end.

(** The keys below the number [uid]. *)
Definition owns (uid : list nat) (k : key) : Prop :=
  match k with KDep u | KDepIn u _ | KDepReq u _ => uid `prefix_of` u | _ => False end.

Section Exec.

Context {V : Type} (source : what -> V) (apply : callee -> list (text * V) -> V).
Context (app : bool) (address : nat -> Z) (hash : list text -> text -> Z).

Notation step := (step source apply).
Notation steps := (steps source apply).
Notation kwargs := (kwargs source).
Notation emit := (_emit_dep app address hash).
Notation value := (dep_value source apply app).

Definition cache_id (d : dependant) : option Z := _dep_cache_id (address (d_call (dinfo_of d))) hash (dinfo_of d).

(** The dependencies of a route: those that share a cache key have one value. *)
Context (T : dependant -> Prop).
Hypothesis T_sub : forall info subs d, T (Dep info subs) -> d ∈ subs -> T d.
Hypothesis T_same : forall d d' i, T d -> T d' -> cache_id d = Some i -> cache_id d' = Some i -> value d = value d'.

(** What is cached is the value of a dependency with that cache key. *)
Definition sound (s : engine) : Prop :=
  forall i t, dep_cache s !! i = Some t ->
    exists d k, T d /\ wf_key k /\ is_result k /\ t = key_text k /\ cache_id d = Some i /\ resolved s !! t = Some (value d).

(** A part of the list: its entries, the keys it may write, and its results:
    argument name, key and value. *)
Record part := {
  c_ps : list param;
  c_own : key -> Prop;
  c_out : list (text * key * V) }.

Definition out_key (o : text * key * V) : key := o.1.2.

Definition has_outs (outs : list (text * key * V)) (s : engine) : Prop :=
  forall o, o ∈ outs -> resolved s !! key_text (out_key o) = Some o.2.

(** A part runs from any sound state in which none of its keys is cached, stores
    its results, writes and caches only its keys. *)
Definition good (c : part) : Prop :=
  Forall (fun o => wf_key (out_key o)) (c_out c) /\
  forall s, sound s -> (forall i k, wf_key k -> dep_cache s !! i = Some (key_text k) -> ~ c_own c k) ->
  exists s', steps (c_ps c) s = Some s' /\ sound s' /\ has_outs (c_out c) s' /\
    (forall k, wf_key k -> ~ c_own c k -> resolved s' !! key_text k = resolved s !! key_text k) /\
    (forall i k, wf_key k -> dep_cache s' !! i = Some (key_text k) ->
       dep_cache s !! i = Some (key_text k) \/ (c_own c k /\ is_result k)).

Lemma steps_app ps qs s : steps (ps ++ qs) s = steps ps s ≫= steps qs.
Proof. revert s. induction ps as [|p ps IH]; intros s; [done|]. simpl. destruct (step s p); simpl; [apply IH|done]. Qed.

Lemma good_nil own : good {| c_ps := []; c_own := own; c_out := [] |}.
Proof. split; [constructor|]. intros s Hs Hfree. exists s. split_and!; [done|done|by intros ? ?%not_elem_of_nil|done|auto]. Qed.

Lemma good_weaken c (own : key -> Prop) (ps : list param) outs :
  good c -> (forall k, c_own c k -> own k) -> ps = c_ps c -> outs ⊆ c_out c ->
  good {| c_ps := ps; c_own := own; c_out := outs |}.
Proof.
  intros [Hwf Hc] Hown -> Hout. split.
  - apply Forall_forall. intros o Ho. by eapply Forall_forall in Hwf; [|apply Hout].
  - intros s Hs Hfree. destruct (Hc s Hs) as (s' & E & Hs' & Ho & Hf & Hca).
    { intros i k Hk Hi Hn. by apply (Hfree i k Hk Hi), Hown. }
    exists s'. split_and!; [done|done|intros o Hin; by apply Ho, Hout| |].
    + intros k Hk Hn. apply Hf; [done|]. intros H. by apply Hn, Hown.
    + intros i k Hk Hi. destruct (Hca i k Hk Hi) as [?|[? ?]]; [by left|right]. split; [by apply Hown|done].
Qed.

(** Two parts: the second leaves the results of the first alone, and everything
    the first may have cached. *)
Lemma good_app c1 c2 :
  good c1 -> good c2 -> (forall o, o ∈ c_out c1 -> ~ c_own c2 (out_key o)) ->
  (forall k, is_result k -> c_own c1 k -> ~ c_own c2 k) ->
  good {| c_ps := c_ps c1 ++ c_ps c2; c_own := fun k => c_own c1 k \/ c_own c2 k; c_out := c_out c1 ++ c_out c2 |}.
Proof.
  intros [Hw1 H1] [Hw2 H2] Ha Hr. split; [by apply Forall_app|]. intros s Hs Hfree. cbn [c_ps c_own c_out] in *.
  destruct (H1 s Hs) as (s1 & E1 & Hs1 & Ho1 & Hf1 & Hc1); [naive_solver|].
  destruct (H2 s1 Hs1) as (s2 & E2 & Hs2 & Ho2 & Hf2 & Hc2).
  { intros i k Hk Hi. destruct (Hc1 i k Hk Hi) as [Hi'|[Hown Hres]]; [|by apply Hr]. pose proof (Hfree i k Hk Hi'). tauto. }
  exists s2. split_and!; [by rewrite steps_app, E1|done| | |].
  - intros o [Ho|Ho]%elem_of_app; [|by apply Ho2]. rewrite Hf2; [by apply Ho1| |by apply Ha].
    by eapply Forall_forall in Hw1.
  - intros k Hk Hn. rewrite Hf2, Hf1; tauto.
  - intros i k Hk Hi. destruct (Hc2 i k Hk Hi) as [Hi'|[? ?]]; [|tauto]. destruct (Hc1 i k Hk Hi') as [?|[? ?]]; tauto.
Qed.

Lemma sound_insert s k v :
  sound s -> wf_key k -> (forall i, dep_cache s !! i <> Some (key_text k)) ->
  sound {| resolved := <[ key_text k := v ]> (resolved s); dep_cache := dep_cache s |}.
Proof.
  intros Hs Hk Hfree i t Hi. cbn in *. destruct (Hs i t Hi) as (d & k' & HT & Hk' & Hr & -> & Hid & Hv).
  exists d, k'. split_and!; try done. rewrite lookup_insert_ne; [done|]. intros E. by apply (Hfree i); rewrite E.
Qed.

(** A value that needs no inputs. *)
Lemma good_value k (a : text) w :
  wf_key k -> (forall c id ins x y z, w <> Dependency c id ins x y z) ->
  good {| c_ps := [ {| p_key := k; p_handler := false; p_what := w |} ]; c_own := eq k; c_out := [(a, k, source w)] |}.
Proof.
  intros Hk Hw. split; [by repeat constructor|]. intros s Hs Hfree. cbn [c_ps c_own c_out] in *.
  exists {| resolved := <[ key_text k := source w ]> (resolved s); dep_cache := dep_cache s |}. split_and!.
  - cbn. destruct w; try done. by destruct (Hw c id inputs is_async is_gen function_scope).
  - apply sound_insert; [done|done|]. intros i Hi. by apply (Hfree i k).
  - intros o ->%list_elem_of_singleton. cbn. by rewrite lookup_insert_eq.
  - intros k' Hk' Hne. cbn. rewrite lookup_insert_ne; [done|]. intros E%key_text_inj; [|done|done]. by destruct Hne.
  - auto.
Qed.

Lemma lookup_inputs (outs : list (text * key * V)) (s : engine) :
  has_outs outs s ->
  mapM (fun ak : text * key => v ← resolved s !! key_text ak.2; Some (ak.1, v)) outs.*1 =
  Some ((fun o => (o.1.1, o.2)) <$> outs).
Proof.
  intros Ho. apply mapM_Some_2. rewrite Forall2_fmap. apply Forall_Forall2_diag, Forall_forall.
  intros [[a k] v] Hin. specialize (Ho _ Hin). unfold out_key in Ho. simpl in *. by rewrite Ho.
Qed.

(** One dependency entry whose inputs are there: called or taken from the
    cache, it has the value of the dependency. *)
Lemma dep_step s outs k handler ca id is_async is_gen fs :
  sound s -> has_outs outs s -> wf_key k -> (forall i, dep_cache s !! i <> Some (key_text k)) ->
  (id = None \/ is_result k /\ exists d, T d /\ cache_id d = id /\ value d = apply ca ((fun o => (o.1.1, o.2)) <$> outs)) ->
  exists cache, step s {| p_key := k; p_handler := handler; p_what := Dependency ca id outs.*1 is_async is_gen fs |} =
    Some {| resolved := <[ key_text k := apply ca ((fun o => (o.1.1, o.2)) <$> outs) ]> (resolved s); dep_cache := cache |} /\
    sound {| resolved := <[ key_text k := apply ca ((fun o => (o.1.1, o.2)) <$> outs) ]> (resolved s); dep_cache := cache |} /\
    (forall i t, cache !! i = Some t -> dep_cache s !! i = Some t \/ (t = key_text k /\ is_result k)).
Proof.
  intros Hs Ho Hk Hfree Hid. unfold Adapter.step. cbn [p_what p_key]. rewrite (lookup_inputs _ _ Ho). cbn [mbind option_bind].
  pose proof (sound_insert s k (apply ca ((fun o => (o.1.1, o.2)) <$> outs)) Hs Hk Hfree) as Hins.
  destruct Hid as [->|(Hres & d & HT & <- & Hv)]; [exists (dep_cache s); by auto|].
  destruct (cache_id d) as [i|] eqn:Ei; [|exists (dep_cache s); by auto]. cbn [mbind option_bind].
  destruct (dep_cache s !! i) as [t|] eqn:Et.
  - destruct (Hs i t Et) as (d' & k' & HT' & Hk' & _ & -> & Ei' & Hv'). cbn [mbind option_bind]. rewrite Hv'.
    exists (dep_cache s). rewrite (T_same d' d i), Hv by done. auto.
  - exists (<[ i := key_text k ]> (dep_cache s)). split_and!; [done| |].
    + intros j t. cbn [dep_cache resolved]. rewrite lookup_insert_Some. intros [[<- <-]|[Hne Hj]].
      * exists d, k. split_and!; try done. by rewrite lookup_insert_eq, Hv.
      * apply Hins. done.
    + intros j t. rewrite lookup_insert_Some. intros [[<- <-]|[_ Hj]]; [by right|by left].
Qed.

(** A dependency entry on top of a part whose results are its inputs. *)
Lemma good_dep c k (a : text) handler ca id is_async is_gen fs :
  good c -> wf_key k -> ~ c_own c k ->
  (id = None \/ is_result k /\ exists d, T d /\ cache_id d = id /\ value d = apply ca ((fun o => (o.1.1, o.2)) <$> c_out c)) ->
  good {| c_ps := c_ps c ++ [ {| p_key := k; p_handler := handler;
                                  p_what := Dependency ca id (c_out c).*1 is_async is_gen fs |} ];
          c_own := fun k' => c_own c k' \/ k' = k;
          c_out := [(a, k, apply ca ((fun o => (o.1.1, o.2)) <$> c_out c))] |}.
Proof.
  intros [Hwf Hc] Hk Hnew Hid. split; [by repeat constructor|]. intros s Hs Hfree. cbn [c_ps c_own c_out] in *.
  destruct (Hc s Hs) as (s1 & E & Hs1 & Ho & Hf & Hc1); [naive_solver|].
  assert (forall i, dep_cache s1 !! i <> Some (key_text k)) as Hfree1.
  { intros i Hi. destruct (Hc1 i k Hk Hi) as [Hi'|[H _]]; [|done]. apply (Hfree i k Hk Hi'). by right. }
  destruct (dep_step s1 (c_out c) k handler ca id is_async is_gen fs Hs1 Ho Hk Hfree1 Hid) as (cache & Es & Hs2 & Hc2).
  eexists. split_and!; [rewrite steps_app, E; cbn [mbind option_bind Adapter.steps]; rewrite Es; reflexivity|exact Hs2|..].
  - intros o ->%list_elem_of_singleton. cbn. by rewrite lookup_insert_eq.
  - intros k' Hk' Hown. cbn [resolved]. rewrite lookup_insert_ne; [apply Hf; [done|tauto]|].
    intros E'%key_text_inj; [|done|done]. subst. tauto.
  - intros i k' Hk' Hi. cbn [dep_cache] in Hi. destruct (Hc2 i _ Hi) as [Hi'|[E' Hres]].
    + destruct (Hc1 i k' Hk' Hi') as [?|[? ?]]; tauto.
    + apply key_text_inj in E' as ->; [|done|done]. tauto.
Qed.

(** A call on a value kept under a key of its own. *)
Lemma good_call k (a n : text) k0 w handler ca is_async :
  wf_key k -> wf_key k0 -> k0 <> k -> (forall c id ins x y z, w <> Dependency c id ins x y z) ->
  good {| c_ps := [ {| p_key := k0; p_handler := false; p_what := w |}; synthetic k handler ca [(a, k0)] is_async ];
          c_own := fun k' => k' = k0 \/ k' = k;
          c_out := [(n, k, apply ca [(a, source w)])] |}.
Proof.
  intros Hk Hk0 Hne Hw. eapply good_weaken.
  - apply (good_dep _ k n handler ca None is_async false false (good_value k0 a w Hk0 Hw) Hk); [done|by left].
  - cbn. intros k' [<-| ->]; auto.
  - done.
  - done.
Qed.

(** *** Dependencies *)

Fixpoint emit_subs (uid : list nat) (k : nat) (subs : list dependant) : option (list param) :=
  match subs with
  | [] => Some []
  | sub :: subs' => ps ← emit (uid ++ [k]) false sub; qs ← emit_subs uid (S k) subs'; Some (ps ++ qs)
  end.

Lemma emit_dep_eq uid handler info subs :
  emit uid handler (Dep info subs) =
  if bool_decide (d_body info <> []) || d_websocket info then None
  else own ← mapM (emit_scalar uid) (scalars info);
       below ← emit_subs uid 0 subs;
       Some (emit_special info (KDepIn uid) false ++ concat own ++ below ++
             [dep_entry app address hash uid handler info subs]).
Proof.
  cbn [_emit_dep]. destruct (_ || _); [done|]. destruct (mapM _ _); [|done]. cbn [mbind option_bind].
  f_equal. generalize 0%nat. induction subs as [|sub subs IH]; intros k; cbn; [done|].
  destruct (emit (uid ++ [k]) false sub); [|done]. cbn. by rewrite IH.
Qed.

Lemma special_good info uid l :
  uid <> [] -> Forall (fun kn : text * text => wf_name kn.2) l -> NoDup l.*2 ->
  good {| c_ps := (fun kn => {| p_key := KDepIn uid kn.2; p_handler := false;
                                p_what := Inject kn.1 (_scopes_for info kn.1) |}) <$> l;
          c_own := fun k => exists kn, kn ∈ l /\ k = KDepIn uid kn.2;
          c_out := (fun kn => (kn.2, KDepIn uid kn.2, source (Inject kn.1 (_scopes_for info kn.1)))) <$> l |}.
Proof.
  intros Hu Hwf Hnd. induction Hwf as [|kn l Hn Hwf IH]; [apply good_nil|]. apply NoDup_cons in Hnd as [Hnew Hnd].
  eapply (good_weaken _ _ _ _ (good_app _ _ (good_value (KDepIn uid kn.2) kn.2 (Inject kn.1 (_scopes_for info kn.1)) _ _)
            (IH Hnd) _ _)); cbn; [|done|done].
  intros k [<-|(kn' & Hin & ->)]; [exists kn; by split; [left|]|exists kn'; by split; [right|]].
  Unshelve. all: cbn; try done.
  - intros o ->%list_elem_of_singleton (kn' & Hin & [= E]). apply Hnew. rewrite E. by apply list_elem_of_fmap_2.
  - by intros k Hr <-.
Qed.

Lemma scalar_good uid bf ps :
  uid <> [] -> wf_name (f_name bf.2) -> emit_scalar uid bf = Some ps ->
  good {| c_ps := ps; c_own := fun k => k = KDepReq uid (f_name bf.2) \/ k = KDepIn uid (f_name bf.2);
          c_out := [(f_name bf.2, KDepIn uid (f_name bf.2), scalar_value source apply bf)] |}.
Proof.
  intros Hu Hn. destruct bf as [b f]. unfold emit_scalar, scalar_value. cbn [fst snd] in *. destruct (f_model f).
  - intros E. destruct b; simplify_eq; by apply good_call.
  - intros [= <-]. eapply good_weaken.
    + by apply (good_value (KDepIn uid (f_name f)) (f_name f)
               (Extract (bucket_text b) (Some (default (f_name f) (f_alias f))) f)).
    + intros k <-. by right.
    + done.
    + done.
Qed.

Lemma scalars_good uid l pss :
  uid <> [] -> Forall (fun bf : bucket * field => wf_name (f_name bf.2)) l ->
  NoDup ((fun bf : bucket * field => f_name bf.2) <$> l) -> mapM (emit_scalar uid) l = Some pss ->
  good {| c_ps := concat pss;
          c_own := fun k => exists bf, bf ∈ l /\ (k = KDepReq uid (f_name bf.2) \/ k = KDepIn uid (f_name bf.2));
          c_out := (fun bf => (f_name bf.2, KDepIn uid (f_name bf.2), scalar_value source apply bf)) <$> l |}.
Proof.
  intros Hu Hwf. revert pss. induction Hwf as [|bf l Hn Hwf IH]; intros pss Hnd E.
  - injection E as <-. apply good_nil.
  - cbn in E. apply bind_Some in E as (ps & E1 & E). apply bind_Some in E as (qss & E2 & [= <-]).
    apply NoDup_cons in Hnd as [Hnew Hnd]. cbn.
    eapply (good_weaken _ _ _ _ (good_app _ _ (scalar_good uid bf ps Hu Hn E1) (IH qss Hnd E2) _ _)); cbn;
      [|done|done].
    intros k [Hk|(bf' & Hin & Hk)]; [by exists bf; split; [left|]|]. exists bf'. by split; [right|].
    Unshelve. all: cbn.
    + intros o ->%list_elem_of_singleton (bf' & Hin & [?|Hk]); [done|]. injection Hk as Hk. apply Hnew.
      rewrite Hk. by apply (list_elem_of_fmap_2 (fun bf : bucket * field => f_name bf.2)).
    + by intros k Hr [-> | ->].
Qed.

(** Names as Python has them: identifiers, and no two parameters of a function
    share one. *)
Inductive wf_dep : dependant -> Prop :=
| WfDep info subs :
    Forall (fun kn => wf_name kn.2) (d_special info) ->
    Forall (fun bf : bucket * field => wf_name (f_name bf.2)) (scalars info) ->
    NoDup ((d_special info).*2 ++ ((fun bf : bucket * field => f_name bf.2) <$> scalars info)) ->
    Forall wf_dep subs -> wf_dep (Dep info subs).

Definition emitted (d : dependant) : Prop :=
  forall uid handler ps,
    wf_dep d -> T d -> uid <> [] -> wf_key (result_key uid handler (dinfo_of d)) -> emit uid handler d = Some ps ->
    good {| c_ps := ps; c_own := fun k => owns uid k \/ k = result_key uid handler (dinfo_of d);
            c_out := [(default [] (d_name (dinfo_of d)), result_key uid handler (dinfo_of d), value d)] |}.

Lemma result_key_below uid info : result_key uid false info = KDep uid.
Proof. unfold result_key. by destruct (d_name info) as [[]|]. Qed.

Lemma result_key_cases uid handler info :
  result_key uid handler info = KDep uid \/ exists n, result_key uid handler info = KParam n.
Proof. unfold result_key. destruct (d_name info) as [[]|]; [by left|destruct handler; [right; eauto|by left]|by left]. Qed.

Lemma owns_apart uid j j' k : owns (uid ++ [j]) k -> owns (uid ++ [j']) k -> j = j'.
Proof.
  assert (forall u, uid ++ [j] `prefix_of` u -> uid ++ [j'] `prefix_of` u -> j = j') as H.
  { intros u [u1 ->] [u2 E]. rewrite <- !app_assoc in E. apply app_inv_head in E. by injection E. }
  destruct k; cbn; try done; apply H.
Qed.

Lemma subs_good uid subs : uid <> [] -> Forall emitted subs -> Forall wf_dep subs -> Forall T subs -> forall k ps,
  emit_subs uid k subs = Some ps ->
  good {| c_ps := ps; c_own := fun key => exists j, (k <= j)%nat /\ owns (uid ++ [j]) key;
          c_out := (fun ks : nat * dependant =>
                      (default [] (d_name (dinfo_of ks.2)), result_key (uid ++ [ks.1]) false (dinfo_of ks.2), value ks.2))
                   <$> zip (seq k (length subs)) subs |}.
Proof.
  intros Hu Hem Hwf HT. induction Hem as [|d subs Hd Hem IH]; intros k ps E.
  - injection E as <-. apply good_nil.
  - apply Forall_cons in Hwf as [Hwd Hwf']. apply Forall_cons in HT as [HTd HT].
    cbn in E. apply bind_Some in E as (ps1 & E1 & E). apply bind_Some in E as (ps2 & E2 & [= <-]).
    assert (uid ++ [k] <> []) as Hu' by (by destruct uid).
    assert (owns (uid ++ [k]) (KDep (uid ++ [k]))) as Hself by (cbn; reflexivity).
    pose proof (Hd (uid ++ [k]) false ps1 Hwd HTd Hu') as Hg. rewrite result_key_below in Hg.
    eapply (good_weaken _ _ _ _ (good_app _ _ (Hg Hu' E1) (IH Hwf' HT (S k) ps2 E2) _ _)); cbn;
      [|done|by rewrite result_key_below].
    intros key [[Ho| ->]|(j & Hj & Ho)]; [by exists k|by exists k|exists j; split; [lia|done]].
    Unshelve. all: cbn.
    + intros o ->%list_elem_of_singleton (j & Hj & Ho). pose proof (owns_apart _ _ _ _ Hself Ho). lia.
    + intros key _ [Ho'| ->] (j & Hj & Ho); [pose proof (owns_apart _ _ _ _ Ho' Ho)|pose proof (owns_apart _ _ _ _ Hself Ho)]; lia.
Qed.

Lemma owns_self_apart uid n j : owns (uid ++ [j]) (KDepIn uid n) -> False.
Proof. cbn. intros H%prefix_length. rewrite length_app in H. cbn in H. lia. Qed.

(** The value of a dependency, from the results of the parts before it. *)
Lemma value_of_parts uid info subs :
  value (Dep info subs) =
  apply (user_call app info)
    ((fun o : text * key * V => (o.1.1, o.2)) <$>
      (((fun kn => (kn.2, KDepIn uid kn.2, source (Inject kn.1 (_scopes_for info kn.1)))) <$> d_special info) ++
       ((fun bf => (f_name bf.2, KDepIn uid (f_name bf.2), scalar_value source apply bf)) <$> scalars info) ++
       ((fun ks : nat * dependant =>
           (default [] (d_name (dinfo_of ks.2)), result_key (uid ++ [ks.1]) false (dinfo_of ks.2), value ks.2))
        <$> zip (seq 0 (length subs)) subs))).
Proof.
  cbn [dep_value]. f_equal. unfold special_args. generalize (scalars info). intros scs.
  rewrite !fmap_app, <- !list_fmap_compose. do 2 f_equal. generalize 0%nat.
  induction subs as [|d subs IH]; intros k; [done|]. cbn. f_equal. apply IH.
Qed.

Lemma emit_good d : emitted d.
Proof.
  induction d as [info subs IH] using dependant_ind'. intros uid handler ps Hwf HT Hu Hk E.
  inversion_clear Hwf as [? ? Hsp Hsc Hnd Hsubs]. apply NoDup_app in Hnd as (Hnd1 & Hdis & Hnd2).
  rewrite emit_dep_eq in E. destruct (_ || _); [done|].
  apply bind_Some in E as (own & E1 & E). apply bind_Some in E as (below & E2 & [= <-]).
  assert (Forall T subs) as HTs by (apply Forall_forall; intros d; by apply T_sub with info).
  pose proof (special_good info uid (d_special info) Hu Hsp Hnd1) as HS.
  pose proof (scalars_good uid (scalars info) own Hu Hsc Hnd2 E1) as HC.
  pose proof (subs_good uid subs Hu IH Hsubs HTs 0 below E2) as HB.
  eapply (good_weaken _ _ _ _ (good_dep _ (result_key uid handler info) (default [] (d_name info)) handler
            (user_call app info) (_dep_cache_id (address (d_call info)) hash info)
            (d_coroutine info) (d_gen info || d_async_gen info) (bool_decide (d_scope info = Some (lit "function")))
            (good_app _ _ HS (good_app _ _ HC HB _ _) _ _) Hk _ _)); cbn [c_ps c_own c_out].
  - intros k [[(kn & _ & ->)|[(bf & _ & [->| ->])|(j & _ & Ho)]]| ->]; cbn; try (left; reflexivity).
    + left. destruct k; try done; cbn in Ho |- *; by eapply prefix_app_l.
    + by right.
  - rewrite <- !app_assoc. do 3 f_equal. unfold dep_entry. do 3 f_equal. generalize (scalars info). intros scs.
    by rewrite !fmap_app, <- !list_fmap_compose.
  - rewrite (value_of_parts uid). done.
  Unshelve. all: cbn [c_ps c_own c_out].
  + intros o (bf & -> & Hin)%list_elem_of_fmap (j & _ & Ho). by apply owns_self_apart in Ho.
  + by intros k Hr (bf & _ & [-> | ->]).
  + intros o (kn & -> & Hin)%list_elem_of_fmap [(bf & Hbf & [Ho|Ho])|(j & _ & Ho)]; [done| |by apply owns_self_apart in Ho].
    injection Ho as Ho. apply (Hdis kn.2); [by apply (list_elem_of_fmap_2 snd)|]. rewrite Ho.
    by apply (list_elem_of_fmap_2 (fun bf : bucket * field => f_name bf.2)).
  + by intros k Hr (kn & _ & ->).
  + intros [(kn & _ & Ho)|[(bf & _ & [Ho|Ho])|(j & _ & Ho)]];
      destruct (result_key_cases uid handler info) as [Er|[n Er]]; rewrite Er in Ho; try done.
    cbn in Ho. apply prefix_length in Ho. rewrite length_app in Ho. cbn in Ho. lia.
  + right. split; [by destruct (result_key_cases uid handler info) as [-> |[n ->]]|].
    exists (Dep info subs). split_and!; [done|done|apply value_of_parts].
Qed.

(** *** The parts of a route's list *)

Lemma handler_entries_app ps qs : handler_entries (ps ++ qs) = handler_entries ps ++ handler_entries qs.
Proof. apply filter_app. Qed.

Lemma handler_entries_cons p ps :
  handler_entries (p :: ps) = if p_handler p then p :: handler_entries ps else handler_entries ps.
Proof. unfold handler_entries. rewrite filter_cons. by destruct (p_handler p). Qed.

Lemma kwargs_app ps qs s a b : kwargs ps s = Some a -> kwargs qs s = Some b -> kwargs (ps ++ qs) s = Some (a ++ b).
Proof.
  unfold Adapter.kwargs. rewrite handler_entries_app. intros Ha%mapM_Some_1 Hb%mapM_Some_1.
  by apply mapM_Some_2, Forall2_app.
Qed.

(** These entries give the handler these arguments; the numbers of their
    dependencies are from [lo] up to [hi]. *)
Definition gives (lo hi : nat) (ps : list param) (args : list (text * V)) : Prop :=
  exists own outs, good {| c_ps := ps; c_own := own; c_out := outs |} /\
    (forall o, o ∈ outs -> exists n, n ∈ args.*1 /\ out_key o = KParam n) /\
    (forall n, own (KParam n) -> n ∈ args.*1) /\
    (forall u, own (KDep u) -> exists i t, u = i :: t /\ (lo <= i < hi)%nat) /\
    (forall s, has_outs outs s -> kwargs ps s = Some args).

Lemma gives_nil lo : gives lo lo [] [].
Proof.
  exists (fun _ => False), []. split_and!; [apply good_nil|by intros ? ?%not_elem_of_nil|done|done|done].
Qed.

Lemma NoDup_names_app {A} (a b : list (text * A)) : NoDup (a ++ b).*1 -> NoDup a.*1 /\ NoDup b.*1.
Proof. rewrite fmap_app. by intros (? & _ & ?)%NoDup_app. Qed.

Lemma gives_app lo mid hi ps qs a b :
  gives lo mid ps a -> gives mid hi qs b -> (lo <= mid <= hi)%nat -> NoDup (a ++ b).*1 -> gives lo hi (ps ++ qs) (a ++ b).
Proof.
  intros (o1 & u1 & G1 & K1 & P1 & D1 & W1) (o2 & u2 & G2 & K2 & P2 & D2 & W2) Hm Hnd.
  rewrite fmap_app in Hnd. apply NoDup_app in Hnd as (_ & Hdis & _).
  exists (fun k => o1 k \/ o2 k), (u1 ++ u2). rewrite fmap_app. split_and!.
  - apply (good_app _ _ G1 G2); cbn [c_own c_out].
    + intros o Ho Hown. destruct (K1 o Ho) as (n & Hn & E). rewrite E in Hown. by apply (Hdis n Hn), P2.
    + intros [n|u| | | | | | |] Hr H1 H2; try done; [by apply (Hdis n); [apply P1|apply P2]|].
      destruct (D1 u H1) as (i & t & -> & Hi), (D2 _ H2) as (i' & t' & [= <- <-] & Hi'). lia.
  - intros o [Ho|Ho]%elem_of_app; [destruct (K1 o Ho) as (n & Hn & E)|destruct (K2 o Ho) as (n & Hn & E)];
      exists n; set_solver.
  - intros n [Hn|Hn]; [apply P1 in Hn|apply P2 in Hn]; set_solver.
  - intros u [Hu|Hu]; [destruct (D1 u Hu) as (i & t & -> & Hi)|destruct (D2 u Hu) as (i & t & -> & Hi)];
      exists i, t; (split; [done|lia]).
  - intros s Ho. apply kwargs_app; [apply W1|apply W2]; intros o Hin; apply Ho, elem_of_app; auto.
Qed.

(** Entries for a list of things, with their positions. *)
Lemma gives_imap {A} lo (g : nat -> A -> list param) (arg : A -> text * V) l :
  (forall i x, x ∈ l -> gives lo lo (g i x) [arg x]) -> NoDup (arg <$> l).*1 -> gives lo lo (concat (imap g l)) (arg <$> l).
Proof.
  revert g. induction l as [|x l IH]; intros g Hg Hnd; [apply gives_nil|].
  cbn [imap concat]. rewrite fmap_cons in *. change (arg x :: (arg <$> l)) with ([arg x] ++ (arg <$> l)) in *.
  apply (gives_app lo lo lo); [apply Hg; by left| |lia|done]. apply NoDup_names_app in Hnd as [_ Hnd].
  apply (IH (fun i => g (S i))); [|done]. intros i y Hy. apply Hg. by right.
Qed.

Lemma gives_bind {A} lo (g : A -> list param) (arg : A -> text * V) l :
  (forall x, x ∈ l -> gives lo lo (g x) [arg x]) -> NoDup (arg <$> l).*1 -> gives lo lo (l ≫= g) (arg <$> l).
Proof.
  intros Hg Hnd. pose proof (gives_imap lo (fun _ => g) arg l) as H.
  replace (l ≫= g) with (concat (imap (fun _ => g) l)); [apply H; auto|].
  clear. induction l as [|x l IH]; [done|]. cbn in *. by rewrite <- IH.
Qed.

Lemma gives_value lo n w :
  (forall c id ins x y z, w <> Dependency c id ins x y z) ->
  gives lo lo [ {| p_key := KParam n; p_handler := true; p_what := w |} ] [(n, source w)].
Proof.
  intros Hw. exists (fun _ => False), []. split_and!; [|by intros ? ?%not_elem_of_nil|done|done|].
  - split; [constructor|]. intros s Hs _. exists s. split_and!; [|done|by intros ? ?%not_elem_of_nil|done|auto].
    cbn. destruct w; try done. by destruct (Hw c id inputs is_async is_gen function_scope).
  - intros s _. unfold Adapter.kwargs. rewrite handler_entries_cons. cbn.
    destruct w; try done. by destruct (Hw c id inputs is_async is_gen function_scope).
Qed.

Lemma gives_call lo n a k w ca is_async :
  wf_key (KParam n) -> wf_key k -> ~ is_result k -> (forall c id ins x y z, w <> Dependency c id ins x y z) ->
  gives lo lo [ {| p_key := k; p_handler := false; p_what := w |}; synthetic (KParam n) true ca [(a, k)] is_async ]
        [(n, apply ca [(a, source w)])].
Proof.
  intros Hn Hk Hr Hw. eexists _, [(n, KParam n, apply ca [(a, source w)])]. split_and!.
  - apply good_call; try done. by intros ->.
  - intros o ->%list_elem_of_singleton. exists n. split; [by left|done].
  - cbn. intros m [E|[= ->]]; [by subst|by left].
  - cbn. intros u [E|[=]]. by subst.
  - intros s Ho. unfold Adapter.kwargs. rewrite !handler_entries_cons. cbn.
    pose proof (Ho _ (list_elem_of_here _ _)) as E. cbn in E. by rewrite E.
Qed.

(** Arguments taken from the one combined body. *)
Definition getters (fs : list field) : list param :=
  (fun f => synthetic (KParam (f_name f)) true (Getter (f_name f)) [(lit "cb", KCombined)] false) <$> fs.

Definition getter_outs (cb : V) (fs : list field) : list (text * key * V) :=
  (fun f => (f_name f, KParam (f_name f), apply (Getter (f_name f)) [(lit "cb", cb)])) <$> fs.

Lemma getters_run cb fs :
  Forall (fun f => wf_key (KParam (f_name f))) fs -> NoDup (f_name <$> fs) ->
  forall s, sound s -> has_outs [(lit "cb", KCombined, cb)] s ->
  (forall i f, f ∈ fs -> dep_cache s !! i <> Some (f_name f)) ->
  exists s', steps (getters fs) s = Some s' /\ sound s' /\ has_outs (getter_outs cb fs) s' /\ dep_cache s' = dep_cache s /\
    (forall k, wf_key k -> (forall f, f ∈ fs -> k <> KParam (f_name f)) -> resolved s' !! key_text k = resolved s !! key_text k).
Proof.
  intros Hwf. induction Hwf as [|f fs Hf Hwf IH]; intros Hnd s Hs Hcb Hfree.
  { exists s. split_and!; [done|done|by intros ? ?%not_elem_of_nil|done|done]. }
  apply NoDup_cons in Hnd as [Hnew Hnd]. set (v := apply (Getter (f_name f)) [(lit "cb", cb)]).
  assert (sound {| resolved := <[ f_name f := v ]> (resolved s); dep_cache := dep_cache s |}) as Hs1.
  { apply (sound_insert s (KParam (f_name f))); [done|done|]. intros i. apply Hfree. by left. }
  destruct (IH Hnd _ Hs1) as (s' & E & Hs' & Ho & Hc & Hfr).
  { intros o ->%list_elem_of_singleton. cbn -[key_text]. rewrite lookup_insert_ne; [exact (Hcb _ (list_elem_of_here _ _))|].
    intros E. by apply (key_text_inj (KParam (f_name f)) KCombined) in E. }
  { intros i g Hg. apply Hfree. by right. }
  exists s'. split_and!; [|done| |done|].
  - cbn -[key_text]. pose proof (Hcb _ (list_elem_of_here _ _)) as Ecb. cbn -[key_text] in Ecb. rewrite Ecb. exact E.
  - intros o [->|Hin]%elem_of_cons; [|by apply Ho]. unfold out_key. cbn [fst snd]. rewrite (Hfr _ Hf).
    + cbn. by rewrite lookup_insert_eq.
    + intros g Hin [= E']. apply Hnew. rewrite E'. by apply list_elem_of_fmap_2.
  - intros k Hk Hn. rewrite Hfr; [|done|intros g Hin; apply Hn; by right]. cbn [resolved].
    rewrite lookup_insert_ne; [done|]. intros E'. apply (Hn f); [by left|]. symmetry. by apply key_text_inj.
Qed.

Lemma combined_good required fs :
  Forall (fun f => wf_key (KParam (f_name f))) fs -> NoDup (f_name <$> fs) ->
  good {| c_ps := {| p_key := KCombined; p_handler := false; p_what := CombinedBody required |} :: getters fs;
          c_own := fun k => k = KCombined \/ exists f, f ∈ fs /\ k = KParam (f_name f);
          c_out := getter_outs (source (CombinedBody required)) fs |}.
Proof.
  intros Hwf Hnd. split; [by apply Forall_fmap|]. intros s Hs Hfree. cbn [c_ps c_own c_out] in *.
  destruct (proj2 (good_value KCombined (lit "cb") (CombinedBody required) I ltac:(done)) s Hs) as (s1 & E1 & Hs1 & Ho1 & Hf1 & Hc1).
  { cbn. intros i k Hk Hi <-. apply (Hfree i KCombined Hk Hi). by left. }
  cbn [c_ps c_own c_out] in *.
  destruct (getters_run (source (CombinedBody required)) fs Hwf Hnd s1 Hs1 Ho1) as (s' & E & Hs' & Ho & Hc & Hf).
  { intros i f Hin Hi. assert (wf_key (KParam (f_name f))) as Hk by (by eapply Forall_forall in Hwf).
    destruct (Hc1 i (KParam (f_name f)) Hk Hi) as [Hi'|[[=] _]]. apply (Hfree i _ Hk Hi'). right. eauto. }
  exists s'. split_and!; [|done|done| |].
  - cbn [Adapter.steps] in E1 |- *. destruct (step s _); [|done]. cbn in E1. injection E1 as ->. exact E.
  - intros k Hk Hn. rewrite Hf; [|done|intros f Hin E'; apply Hn; right; by exists f].
    apply Hf1; [done|]. intros <-. apply Hn. by left.
  - intros i k Hk Hi. rewrite Hc in Hi. destruct (Hc1 i k Hk Hi) as [?|[<- []]]. by left.
Qed.

Lemma combined_gives lo required fs :
  Forall (fun f => wf_key (KParam (f_name f))) fs -> NoDup (f_name <$> fs) ->
  gives lo lo ({| p_key := KCombined; p_handler := false; p_what := CombinedBody required |} :: getters fs)
        ((fun f => (f_name f, apply (Getter (f_name f)) [(lit "cb", source (CombinedBody required))])) <$> fs).
Proof.
  intros Hwf Hnd. eexists _, _. split_and!; [by apply combined_good|..].
  - intros o (f & -> & Hin)%list_elem_of_fmap. exists (f_name f). split; [|done]. rewrite <- list_fmap_compose.
    by apply (list_elem_of_fmap_2 f_name).
  - cbn. intros n [[=]|(f & Hin & [= ->])]. rewrite <- list_fmap_compose. by apply (list_elem_of_fmap_2 f_name).
  - cbn. by intros u [[=]|(f & Hin & [=])].
  - intros s Ho. unfold Adapter.kwargs, getters. rewrite handler_entries_cons. cbn [p_handler]. revert Ho.
    clear. induction fs as [|f fs IH]; intros Ho; [done|]. rewrite !fmap_cons, handler_entries_cons. cbn [synthetic p_handler].
    pose proof (Ho _ (list_elem_of_here _ _)) as E. cbn in E. cbn [mapM entry_value p_what p_key synthetic key_text].
    rewrite E. cbn [mbind option_bind]. rewrite IH; [done|]. intros o Hin. apply Ho. by right.
Qed.

(** The handler's names: distinct identifiers that do not begin with an
    underscore. *)
Definition arg_name (n : text) : Prop := wf_key (KParam n) /\ wf_name n.

Lemma own_gives lo b i f :
  arg_name (f_name f) -> (b = Path -> f_model f = false) ->
  gives lo lo (emit_own b i f) [(f_name f, own_value source apply (b, f))].
Proof.
  intros [Hn Hw] Hp. unfold emit_own, own_value. cbn [fst snd]. destruct (f_model f).
  - destruct b; [by discriminate Hp|..]; by apply gives_call; auto.
  - by apply gives_value.
Qed.

Lemma body_gives lo body_field fs ps :
  Forall (fun f => arg_name (f_name f)) fs -> NoDup (f_name <$> fs) ->
  ((length fs <= 1)%nat \/ Forall (fun f => is_body_form f && f_model f = false) fs) ->
  _emit_body body_field fs = Some ps -> gives lo lo ps (body_args source apply body_field fs).
Proof.
  intros Hwf Hnd Hm E. destruct fs as [|f rest]; [injection E as <-; apply gives_nil|].
  assert (forall ps, _emit_combined_body body_field (f :: rest) = Some ps -> gives lo lo ps
    ((fun f => (f_name f, apply (Getter (f_name f)) [(lit "cb", source (CombinedBody (default false body_field)))])) <$> f :: rest)) as Hcomb.
  { intros qs. unfold _emit_combined_body. destruct body_field as [required|]; [|done]. intros [= <-].
    apply (combined_gives lo required (f :: rest)); [|done]. eapply Forall_impl; [exact Hwf|]. by intros g []. }
  pose proof (Forall_inv Hwf) as [Hf _].
  unfold _emit_body in E. unfold body_args. destruct (forallb _ _).
  - destruct (bool_decide (rest = []) && is_body_form f && (f_model f || f_union f)) eqn:Eb; apply (inj Some) in E as <-.
    + by apply gives_call; auto.
    + apply gives_bind; [|by rewrite <- list_fmap_compose]. intros g Hg.
      assert (is_body_form g && f_model g = false) as Eg; [|by rewrite Eg; apply gives_value].
      destruct Hm as [Hlen|Hm]; [|by eapply Forall_forall in Hm]. destruct rest; [|cbn in Hlen; lia].
      apply list_elem_of_singleton in Hg as ->. cbn in Eb. destruct (is_body_form f), (f_model f); done.
  - destruct rest as [|g rest]; [destruct (f_class f) as [| |[]|]|]; try by apply Hcomb.
    injection E as <-. by apply gives_value.
Qed.

(** Only the last entry of a dependency is for the handler. *)
Lemma no_entries ps : Forall (fun p => p_handler p = false) ps -> handler_entries ps = [].
Proof. induction 1 as [|p ps Hp Hps IH]; [done|]. by rewrite handler_entries_cons, Hp. Qed.

Lemma scalar_entries uid bf ps : emit_scalar uid bf = Some ps -> Forall (fun p => p_handler p = false) ps.
Proof. destruct bf as [b f]. unfold emit_scalar. destruct (f_model f), b; intros E; simplify_eq; repeat constructor. Qed.

Lemma dep_entries d : forall uid handler ps,
  emit uid handler d = Some ps -> exists qs, Forall (fun p => p_handler p = false) qs /\
    ps = qs ++ [dep_entry app address hash uid handler (dinfo_of d) (let 'Dep _ subs := d in subs)].
Proof.
  induction d as [info subs IH] using dependant_ind'. intros uid handler ps E. rewrite emit_dep_eq in E.
  destruct (_ || _); [done|]. apply bind_Some in E as (own & E1 & E). apply bind_Some in E as (below & E2 & [= <-]).
  exists (emit_special info (KDepIn uid) false ++ concat own ++ below). split; [|by rewrite <- !app_assoc].
  rewrite !Forall_app. split_and!.
  - apply Forall_fmap, Forall_forall. done.
  - apply mapM_Some_1 in E1. induction E1 as [|bf ps l pss Hps E1 IHl]; [constructor|].
    apply Forall_app. split; [by eapply scalar_entries|done].
  - revert below E2. generalize 0%nat. induction IH as [|d subs Hd IH IHl]; intros k below E2.
    + by injection E2 as <-.
    + cbn in E2. apply bind_Some in E2 as (ps & Eps & E2). apply bind_Some in E2 as (qs & Eqs & [= <-]).
      apply Forall_app. split; [|by eapply IHl]. destruct (Hd _ _ _ Eps) as (ps' & Hps' & ->).
      apply Forall_app. split; [done|]. by repeat constructor.
Qed.

Lemma dep_gives k d ps :
  wf_dep d -> T d -> (forall n, d_name (dinfo_of d) = Some n -> arg_name n) ->
  emit [k] (bool_decide (d_name (dinfo_of d) <> None)) d = Some ps ->
  gives k (S k) ps (option_list (n ← d_name (dinfo_of d); Some (n, value d))).
Proof.
  intros Hd HT Hn E. destruct (dep_entries _ _ _ _ E) as (qs & Hqs & Eps).
  pose proof (emit_good d [k] (bool_decide (d_name (dinfo_of d) <> None)) ps Hd HT ltac:(done)) as Hg. unfold result_key in Hg.
  assert (handler_entries ps = if bool_decide (d_name (dinfo_of d) <> None)
    then [dep_entry app address hash [k] true (dinfo_of d) (let 'Dep _ subs := d in subs)] else []) as Hents.
  { rewrite Eps, handler_entries_app, handler_entries_cons, (no_entries qs Hqs). cbn. by destruct (bool_decide _). }
  destruct (d_name (dinfo_of d)) as [n|] eqn:En.
  - destruct (Hn n eq_refl) as [(c & t & -> & Hc) _]. cbn in Hg, Hents. specialize (Hg ltac:(eauto) E).
    eexists _, _. split_and!; [exact Hg|..].
    + intros o ->%list_elem_of_singleton. eexists. split; [by left|done].
    + cbn. intros m [[]|[= <-]]. by left.
    + cbn. intros u [[u' ->]|[=]]. exists k, u'. split; [done|lia].
    + intros s Ho. unfold Adapter.kwargs. rewrite Hents. cbn. unfold result_key. rewrite En.
      pose proof (Ho _ (list_elem_of_here _ _)) as Ev. cbn in Ev. cbn. by rewrite Ev.
  - cbn in Hg. specialize (Hg ltac:(done) E). eexists _, []. split_and!.
    + eapply good_weaken; [exact Hg|cbn; intros k' H; exact H|done|set_solver].
    + by intros ? ?%not_elem_of_nil.
    + by intros m [[]|[=]].
    + cbn. intros u [[u' ->]|[= ->]]; [exists k, u'|exists k, []]; (split; [done|lia]).
    + intros s _. unfold Adapter.kwargs. by rewrite Hents.
Qed.

Lemma deps_give subs : Forall wf_dep subs -> Forall T subs ->
  Forall (fun d => forall n, d_name (dinfo_of d) = Some n -> arg_name n) subs ->
  forall k pss,
  mapM (fun kd : nat * dependant => emit [kd.1] (bool_decide (d_name (dinfo_of kd.2) <> None)) kd.2)
    (zip (seq k (length subs)) subs) = Some pss ->
  NoDup (omap (fun sub => n ← d_name (dinfo_of sub); Some (n, value sub)) subs).*1 ->
  gives k (k + length subs) (concat pss) (omap (fun sub => n ← d_name (dinfo_of sub); Some (n, value sub)) subs).
Proof.
  intros Hwf HT Hn. induction Hwf as [|d subs Hd Hwf IH]; intros k pss E Hnd.
  - injection E as <-. rewrite Nat.add_0_r. apply gives_nil.
  - cbn [length seq zip] in E. cbn in E. apply bind_Some in E as (ps & E1 & E). apply bind_Some in E as (qss & E2 & [= <-]).
    apply Forall_cons in Hn as [Hnd1 Hn]. apply Forall_cons in HT as [HTd HT].
    assert (forall l, omap (fun sub => n ← d_name (dinfo_of sub); Some (n, value sub)) (d :: l) =
      option_list (n ← d_name (dinfo_of d); Some (n, value d)) ++
      omap (fun sub => n ← d_name (dinfo_of sub); Some (n, value sub)) l) as Ho.
    { intros l. cbn. by destruct (d_name (dinfo_of d)). }
    rewrite Ho in *. cbn [concat length]. rewrite Nat.add_succ_r.
    apply (gives_app k (S k)); [by apply dep_gives| |lia|done].
    apply NoDup_names_app in Hnd as [_ Hnd]. by apply (IH HT Hn (S k)).
Qed.

Lemma special_gives lo info :
  NoDup (d_special info).*2 -> gives lo lo (emit_special info KParam true) (special_args source info).
Proof.
  intros Hnd. unfold emit_special, special_args.
  pose proof (gives_bind lo (fun kn => [ {| p_key := KParam kn.2; p_handler := true; p_what := Inject kn.1 (_scopes_for info kn.1) |} ])
    (fun kn => (kn.2, source (Inject kn.1 (_scopes_for info kn.1)))) (d_special info)) as H.
  rewrite <- list_fmap_compose in H. replace (_ <$> d_special info) with (d_special info ≫= fun kn =>
    [ {| p_key := KParam kn.2; p_handler := true; p_what := Inject kn.1 (_scopes_for info kn.1) |} ]).
  - apply H; [|done]. intros kn Hin. by apply gives_value.
  - clear. induction (d_special info) as [|kn l IH]; [done|]. cbn in *. by rewrite IH.
Qed.

Lemma own_names (l : list (bucket * field)) :
  ((fun bf : bucket * field => (f_name bf.2, own_value source apply bf)) <$> l).*1 =
  (fun bf : bucket * field => f_name bf.2) <$> l.
Proof. by rewrite <- list_fmap_compose. Qed.

Lemma scalars_give lo info :
  Forall arg_name ((fun bf : bucket * field => f_name bf.2) <$> scalars info) ->
  NoDup ((fun bf : bucket * field => f_name bf.2) <$> scalars info) ->
  Forall (fun f => f_model f = false) (d_params info Path) ->
  gives lo lo (concat (_SCALAR_BUCKETS ≫= fun b => imap (emit_own b) (d_params info b)))
        ((fun bf : bucket * field => (f_name bf.2, own_value source apply bf)) <$> scalars info).
Proof.
  unfold scalars. intros Hwf Hnd Hp.
  assert (forall bs, bs ⊆ _SCALAR_BUCKETS ->
    NoDup ((fun bf : bucket * field => f_name bf.2) <$> (bs ≫= fun b => pair b <$> d_params info b)) ->
    gives lo lo (concat (bs ≫= fun b => imap (emit_own b) (d_params info b)))
      ((fun bf : bucket * field => (f_name bf.2, own_value source apply bf)) <$> (bs ≫= fun b => pair b <$> d_params info b)))
    as H; [|by apply H].
  intros bs. induction bs as [|b bs IH]; intros Hsub Hn; [apply gives_nil|].
  rewrite bind_cons, fmap_app in Hn. rewrite !bind_cons, concat_app, fmap_app.
  apply NoDup_app in Hn as Hn'. destruct Hn' as (Hn1 & _ & Hn2).
  apply (gives_app lo lo lo); [|apply IH; [set_solver|done]|lia|by rewrite fmap_app, !own_names].
  rewrite <- list_fmap_compose. apply (gives_imap lo (emit_own b) (fun f => (f_name f, own_value source apply (b, f)))).
  - intros i f Hf. apply own_gives.
    + rewrite Forall_fmap in Hwf. eapply (proj1 (Forall_forall _ _) Hwf (b, f)). apply list_elem_of_bind.
      exists b. split; [by apply list_elem_of_fmap_2|]. apply Hsub. by left.
    + intros ->. by eapply Forall_forall in Hp.
  - rewrite <- list_fmap_compose. by rewrite <- list_fmap_compose in Hn1.
Qed.

(** Routes whose handler's names are distinct identifiers without a leading
    underscore, whose path parameters are no models and which have at most one
    form model, alone in its body. *)
Definition arg_names (r : route) : list text :=
  let 'Dep info subs := r_dependant r in
  ((fun bf : bucket * field => f_name bf.2) <$> scalars info) ++ (f_name <$> d_body info) ++
  (d_special info).*2 ++ omap (fun d => d_name (dinfo_of d)) subs.

Definition wf_route (r : route) : Prop :=
  let 'Dep info subs := r_dependant r in
  Forall arg_name (arg_names r) /\ NoDup (arg_names r) /\ Forall wf_dep subs /\
  Forall (fun f => f_model f = false) (d_params info Path) /\
  ((length (d_body info) <= 1)%nat \/ Forall (fun f => is_body_form f && f_model f = false) (d_body info)).

Lemma dep_args_names l :
  (omap (fun sub => n ← d_name (dinfo_of sub); Some (n, value sub)) l).*1 = omap (fun d => d_name (dinfo_of d)) l.
Proof. induction l as [|d l IH]; [done|]. cbn. destruct (d_name (dinfo_of d)); cbn; by rewrite IH. Qed.

Lemma body_args_names body_field fs : (body_args source apply body_field fs).*1 = f_name <$> fs.
Proof.
  unfold body_args. destruct fs as [|f rest]; [done|]. destruct (forallb _ _).
  - destruct (bool_decide (rest = [])) eqn:Er; cbn [andb]; [apply bool_decide_eq_true in Er as ->|].
    + by destruct (is_body_form f && _).
    + by rewrite <- list_fmap_compose.
  - destruct rest; [destruct (f_class f) as [| |[]|]|]; try done; by rewrite <- list_fmap_compose.
Qed.

Lemma route_args_names r : (route_args source apply app r).*1 = arg_names r.
Proof.
  unfold route_args, arg_names. destruct (r_dependant r) as [info subs].
  rewrite !fmap_app, dep_args_names, body_args_names. unfold special_args. by rewrite own_names, <- list_fmap_compose.
Qed.

Lemma gives_kwargs lo hi ps args :
  gives lo hi ps args -> exists s, steps ps engine0 = Some s /\ kwargs ps s = Some args.
Proof.
  intros (own & outs & [_ Hg] & _ & _ & _ & Hk). destruct (Hg engine0) as (s & E & _ & Ho & _).
  - intros i t Hi. unfold engine0 in Hi. cbn in Hi. by rewrite lookup_empty in Hi.
  - intros i k _ Hi. unfold engine0 in Hi. cbn in Hi. by rewrite lookup_empty in Hi.
  - exists s. split; [exact E|]. by apply Hk.
Qed.

Lemma route_gives r ps :
  wf_route r -> (let 'Dep _ subs := r_dependant r in Forall T subs) ->
  extract_params_from_route app address hash r = Some ps -> exists hi, gives 0 hi ps (route_args source apply app r).
Proof.
  intros Hwf HT E. pose proof (route_args_names r) as Hargs.
  unfold wf_route, extract_params_from_route, route_args, arg_names in *.
  destruct (r_dependant r) as [info subs]. destruct Hwf as (Hn & Hnd & Hsubs & Hp & Hm).
  apply bind_Some in E as (body & Eb & E). apply bind_Some in E as (deps & Ed & [= <-]).
  rewrite !Forall_app in Hn. destruct Hn as (Hn1 & Hn2 & Hn3 & Hn4).
  pose proof Hnd as Hall. rewrite <- Hargs in Hall. clear Hargs.
  apply NoDup_app in Hnd as (Hnd1 & _ & Hnd). apply NoDup_app in Hnd as (Hnd2 & _ & Hnd).
  apply NoDup_app in Hnd as (Hnd3 & _ & Hnd4). exists (0 + length subs)%nat.
  apply (gives_app 0 0); [by apply scalars_give| |lia|done]. apply NoDup_names_app in Hall as [_ Hall].
  apply (gives_app 0 0); [by apply body_gives with (body_field := r_body_field r); [rewrite Forall_fmap in Hn2|..]| |lia|done].
  apply NoDup_names_app in Hall as [_ Hall].
  apply (gives_app 0 0); [by apply special_gives| |lia|done].
  apply (deps_give subs Hsubs HT); [|done|by rewrite dep_args_names].
  apply Forall_forall. intros d Hd n En. eapply Forall_forall in Hn4; [exact Hn4|]. apply list_elem_of_omap. eauto.
Qed.

End Exec.

(** The dependencies of a route, at any depth. *)
Inductive depends : list dependant -> dependant -> Prop :=
| DependsOn ds d : d ∈ ds -> depends ds d
| DependsBelow ds info subs d : depends ds (Dep info subs) -> d ∈ subs -> depends ds d.

Definition route_deps (r : route) : list dependant := let 'Dep _ subs := r_dependant r in subs.

Lemma route_kwargs {V} (source : what -> V) apply app address hash r ps :
  wf_route r ->
  (forall d d' i, depends (route_deps r) d -> depends (route_deps r) d' ->
     cache_id address hash d = Some i -> cache_id address hash d' = Some i ->
     dep_value source apply app d = dep_value source apply app d') ->
  extract_params_from_route app address hash r = Some ps ->
  exists s, steps source apply ps engine0 = Some s /\ kwargs source ps s = Some (route_args source apply app r).
Proof.
  intros Hwf Hsame E.
  destruct (route_gives source apply app address hash (depends (route_deps r)) (fun info subs d => DependsBelow _ info subs d)
              Hsame r ps Hwf) as (hi & H); [|done|by eapply gives_kwargs].
  unfold route_deps. destruct (r_dependant r). apply Forall_forall. by constructor.
Qed.

(** C16: the flat list computes what the tree of dependencies means.  The engine
    works once through the list [extract_params_from_route] emits: it never
    asks for a value that is not there yet, and it calls the handler with
    exactly the arguments the route's dependants determine (its own
    parameters, its body, its special objects and the results of its
    dependencies, each called on the values of its own parameters and
    dependencies, down the whole tree), although a dependency whose cache key
    was met before is not called again, as long as dependencies that share a
    cache key have one value. *)
Theorem flat_list_computes_arguments {V} (source : what -> V) apply app address hash r ps :
  wf_route r ->
  (forall d d' i, depends (route_deps r) d -> depends (route_deps r) d' ->
     cache_id address hash d = Some i -> cache_id address hash d' = Some i ->
     dep_value source apply app d = dep_value source apply app d') ->
  extract_params_from_route app address hash r = Some ps ->
  exists s, steps source apply ps engine0 = Some s /\ kwargs source ps s = Some (route_args source apply app r).
Proof. apply route_kwargs. Qed.

(** *** Cache keys *)

Lemma u64_land z : Z.land z _U64_MASK = z mod 2 ^ 64.
Proof. apply (Z.land_ones z 64). lia. Qed.

Lemma u64_lxor_inj a b h :
  0 <= a < 2 ^ 64 -> 0 <= b < 2 ^ 64 -> 
  Z.land (Z.lxor a h) _U64_MASK = Z.land (Z.lxor b h) _U64_MASK -> a = b.
Proof.
  intros Ha Hb E. apply Z.bits_inj'. intros n Hn. destruct (Z_lt_le_dec n 64) as [Hlt|Hge].
  - apply (f_equal (fun z => Z.testbit z n)) in E. rewrite !u64_land, !Z.mod_pow2_bits_low, !Z.lxor_spec in E by lia.
    by destruct (Z.testbit a n), (Z.testbit b n), (Z.testbit h n).
  - assert (forall z, 0 <= z < 2 ^ 64 -> Z.testbit z n = false) as Hz.
    { intros z Hz. rewrite <- (Z.mod_small z (2 ^ 64)) by done. apply Z.mod_pow2_bits_high. lia. }
    by rewrite !Hz.
Qed.

(** C30: cache keys are unsigned 64-bit numbers, whatever Python's [hash]
    returns, and dependencies with the same scopes share one only if they are
    the same function; a dependency that is not to be cached has none. *)
Theorem cache_ids_fit_and_separate (hash : list text -> text -> Z) a b i1 i2 :
  0 <= a < 2 ^ 64 -> 0 <= b < 2 ^ 64 ->
  d_cache_scopes i1 = d_cache_scopes i2 -> d_scope i1 = d_scope i2 ->
  (forall id, _dep_cache_id a hash i1 = Some id -> 0 <= id < 2 ^ 64) /\
  (_dep_cache_id a hash i1 = None <-> d_use_cache i1 = false) /\
  (d_use_cache i1 = true -> d_use_cache i2 = true ->
   (_dep_cache_id a hash i1 = _dep_cache_id b hash i2 <-> a = b)).
Proof.
  intros Ha Hb Es Esc. unfold _dep_cache_id. rewrite <- Es, <- Esc. clear Es Esc.
  destruct (d_use_cache i1); [|by split_and!]. destruct (bool_decide _ && _).
  - split_and!; [by intros id [= <-]|done|]. intros _ ->. split; [by intros [= ->]|by intros ->].
  - split_and!; [|done|].
    + intros id [= <-]. rewrite u64_land. by apply Z.mod_pos_bound.
    + intros _ ->. split; [|by intros ->]. intros E. injection E as E. by eapply u64_lxor_inj.
Qed.

(** *** Examples *)

Lemma wf_name_check n : match n with c :: _ => bool_decide (c ∈ lit "0123456789") | [] => true end = false -> wf_name n.
Proof.
  destruct n as [|c t]; [done|]. intros E. split; [done|]. intros c' t' [= <- <-] H. apply bool_decide_eq_false in E.
  apply E. unfold is_digit in H. set_solver.
Qed.

Lemma arg_name_check n :
  match n with c :: _ => bool_decide (c ∈ lit "_0123456789") | [] => true end = false -> arg_name n.
Proof.
  destruct n as [|c t]; [done|]. intros E. apply bool_decide_eq_false in E. split.
  - exists c, t. split; [done|]. intros ->. set_solver.
  - apply wf_name_check, bool_decide_eq_false. set_solver.
Qed.

(** Values as terms: what was extracted, and what was called on what. *)
Inductive term := Src (w : what) | App (c : callee) (args : list (text * term)).

Definition scalar (n : string) : field :=
  {| f_name := lit n; f_alias := None; f_model := false; f_union := false; f_fields := []; f_class := COther |}.

Definition function (c : nat) (n : option string) (headers queries : list field) (special : list (text * text)) : dinfo :=
  {| d_call := c; d_name := (fun s => lit s) <$> n;
     d_params := fun b => match b with Header => headers | Query => queries | _ => [] end;
     d_body := []; d_special := special; d_websocket := false; d_use_cache := true; d_cache_scopes := [];
     d_oauth_scopes := []; d_scope := None; d_async_gen := false; d_gen := false; d_coroutine := false |}.

(** [def handler(q, request, user = Depends(current_user), db = Depends(get_db))],
    where [def current_user(token, db = Depends(get_db))]. *)
Definition example_route : route :=
  {| r_dependant := Dep (function 0 None [] [scalar "q"] [(lit "inject_request", lit "request")])
       [Dep (function 1 (Some "user") [scalar "token"] [] []) [Dep (function 2 (Some "db") [] [] []) []];
        Dep (function 2 (Some "db") [] [] []) []];
     r_body_field := None |}.

Lemma example_deps d :
  depends (route_deps example_route) d ->
  d ∈ [Dep (function 1 (Some "user") [scalar "token"] [] []) [Dep (function 2 (Some "db") [] [] []) []];
       Dep (function 2 (Some "db") [] [] []) []].
Proof.
  remember (route_deps example_route) as ds eqn:E. induction 1 as [ds d Hd|ds info subs d Hds IH Hd]; subst; [done|].
  specialize (IH eq_refl). rewrite !elem_of_cons in IH. destruct IH as [[= -> ->]|[[= -> ->]|[]%not_elem_of_nil]];
    set_solver.
Qed.

Lemma example_wf : wf_route example_route.
Proof.
  split_and!.
  - repeat constructor; apply arg_name_check; reflexivity.
  - apply (bool_decide_unpack _). vm_compute. exact I.
  - repeat constructor; try (apply wf_name_check; reflexivity); apply (bool_decide_unpack _); vm_compute; exact I.
  - constructor.
  - left. cbn. lia.
Qed.

Lemma example_coherent d d' i :
  depends (route_deps example_route) d -> depends (route_deps example_route) d' ->
  cache_id Z.of_nat (fun _ _ => 0) d = Some i -> cache_id Z.of_nat (fun _ _ => 0) d' = Some i ->
  dep_value Src App true d = dep_value Src App true d'.
Proof.
  intros Hd%example_deps Hd'%example_deps.
  rewrite !elem_of_cons in Hd, Hd'. destruct Hd as [->|[->|[]%not_elem_of_nil]], Hd' as [->|[->|[]%not_elem_of_nil]];
    vm_compute; congruence.
Qed.

Lemma flat_list_computes_arguments_witness :
  exists ps s, extract_params_from_route true Z.of_nat (fun _ _ => 0) example_route = Some ps /\
    length ps = 6%nat /\ steps Src App ps engine0 = Some s /\
    kwargs Src ps s = Some (route_args Src App true example_route).
Proof.
  eexists.
  edestruct (flat_list_computes_arguments Src App true Z.of_nat (fun _ _ => 0) example_route) as (st & E & K).
  - apply example_wf.
  - apply example_coherent.
  - vm_compute. reflexivity.
  - exists st. split_and!; [vm_compute; reflexivity|reflexivity|exact E|exact K].
Defined.

Lemma cache_ids_fit_and_separate_witness :
  0 <= 5 < 2 ^ 64 /\
  (_dep_cache_id 5 (fun _ _ => -7) (function 1 None [] [] []) = _dep_cache_id 5 (fun _ _ => -7) (function 2 None [] [] []) <-> 5 = 5).
Proof.
  split; [lia|].
  apply (cache_ids_fit_and_separate (fun _ _ => -7) 5 5 (function 1 None [] [] []) (function 2 None [] [] []));
    done.
Defined.

End Adapter.
