(* ===== verification/Bridge.v ===== *)
(** Yield dependencies on the worker loop: [_async_gen_sync_bridge] and
    [_override_aware_dep] of _introspect_from_real_fastapi.py.  The bridge shows
    an asynchronous generator to the engine as a synchronous one and carries its
    context variables over to the thread of the request and back. *)

From S2P Require Import Prelude.

Module Bridge.

(** ** Generators *)

(** Context variables and their values; what a generator does besides. *)
Notation context := (gmap nat nat).
Definition event : Type := nat.

Inductive exc := Exc (e : nat) | GeneratorExit | RuntimeError.
#[export] Instance exc_eq_dec : EqDecision exc.
Proof. solve_decision. Defined.

Inductive signal := Next | Throw (e : exc).

(** A suspended generator, synchronous or asynchronous: what it does in a
    context when it is resumed. *)
Inductive gen := Gen (resume : signal -> context -> list event * context * outcome)
with outcome := Yield (v : nat) (g : gen) | Done | Raised (e : exc).

Definition resume (g : gen) : signal -> context -> list event * context * outcome := let 'Gen r := g in r.

(** [g.close()], [g.aclose()]: the generator must not yield again; its own
    ending and [GeneratorExit] are not errors. *)
Definition closing (o : outcome) : option exc :=
  match o with
  | Yield _ _ => Some RuntimeError
  | Done | Raised GeneratorExit => None
  | Raised e => Some e
  end.

(** What the engine sees of [send(None)] and [throw(e)]. *)
Inductive seen := Value (v : nat) | StopIteration | Error (e : exc).
#[export] Instance seen_eq_dec : EqDecision seen.
Proof. solve_decision. Defined.

Definition see (o : outcome) : seen :=
  match o with Yield v _ => Value v | Done => StopIteration | Raised e => Error e end.

(** ** The bridge *)

(** [home] is the [Context] object that was current when the tokens were made:
    Python accepts a token only while that object is current. *)
Record bridge := { agen : gen; ctx : context; home : nat; restore_tokens : list (nat * option nat) }.

(** [_propagate]: the tokens are the variable and its value before. *)
Definition set_var (s : list (nat * option nat) * context) (xv : nat * nat) : list (nat * option nat) * context :=
  (s.1 ++ [(xv.1, s.2 !! xv.1)], <[ xv.1 := xv.2 ]> s.2).

Definition changed (before new : context) : context := filter (fun xv => before !! xv.1 <> Some xv.2) new.

Definition _propagate (before new thread : context) : list (nat * option nat) * context :=
  foldl set_var ([], thread) (map_to_list (changed before new)).

(** [var.reset(tok)], valid in the [Context] the token was made in. *)
Definition reset_var (thread : context) (tok : nat * option nat) : context :=
  match tok.2 with Some v => <[ tok.1 := v ]> thread | None => delete tok.1 thread end.

(** [_restore], with the [Context] object current now: in another one than
    [home] each reset raises [ValueError], which is swallowed. *)
Definition try_reset (valid : bool) (thread : context) (tok : nat * option nat) : context :=
  if valid then reset_var thread tok else thread.

Definition _restore (here : nat) (home : nat) (tokens : list (nat * option nat)) (thread : context) : context :=
  foldl (try_reset (bool_decide (here = home))) thread (reverse tokens).

(** The first [send(None)]: up to the yield.  [here] is the current [Context]
    object and [thread] its variables. *)
Definition enter (here : nat) (g : gen) (thread : context) : list event * context * (seen * option bridge) :=
  let '(t, c, o) := resume g Next thread in
  match o with
  | Yield v g' =>
      let '(tokens, thread') := _propagate thread c thread in
      (t, thread', (Value v, Some {| agen := g'; ctx := c; home := here; restore_tokens := tokens |}))
  | Done => (t, thread, (StopIteration, None))
  | Raised e => (t, thread, (Error e, None))
  end.

(** The second [send(None)], [throw(e)] and [close()]. *)
Definition leave (here : nat) (b : bridge) (thread : context) : list event * context * seen :=
  let '(t, _, o) := resume (agen b) Next (ctx b) in
  (t, _restore here (home b) (restore_tokens b) thread,
   match o with Yield _ _ | Done => StopIteration | Raised e => Error e end).

Definition throw (here : nat) (b : bridge) (e : exc) (thread : context) : list event * context * seen :=
  let '(t, _, o) := resume (agen b) (Throw e) (ctx b) in
  (t, _restore here (home b) (restore_tokens b) thread,
   match e, o with
   | GeneratorExit, _ => Error e
   | _, Yield _ _ => Error e
   | _, Done => StopIteration
   | _, Raised e' => Error e'
   end).

Definition close (here : nat) (b : bridge) (thread : context) : list event * context * option exc :=
  let '(t, _, _) := resume (agen b) (Throw GeneratorExit) (ctx b) in
  (t, _restore here (home b) (restore_tokens b) thread, None).

(** *** Overrides, looked up at each call *)

Definition _override_aware_dep (dependency_overrides : gmap nat nat) (original : nat) : nat :=
  default original (dependency_overrides !! original).

(** What the effective function gives the bridge. *)
Inductive made := AsyncGen (g : gen) | SyncGen (g : gen) | Plain (v : nat).

(** [_g] up to the yield: a synchronous generator is resumed in its place on
    the thread of the request, a plain value is yielded. *)
Inductive entered := OnLoop (b : bridge) | Inline (g : gen) | Constant.

Definition _g (here : nat) (eff : made) (thread : context) : list event * context * (seen * option entered) :=
  match eff with
  | AsyncGen g => let '(t, c, (s, b)) := enter here g thread in (t, c, (s, OnLoop <$> b))
  | SyncGen g =>
      let '(t, c, o) := resume g Next thread in
      (t, c, (see o, match o with Yield _ g' => Some (Inline g') | _ => None end))
  | Plain v => (([], thread), (Value v, Some Constant))
  end.

(** ** Lemmas *)

Lemma set_vars_spec l :
  forall thread tokens, NoDup l.*1 ->
  foldl set_var (tokens, thread) l = (tokens ++ ((fun xv : nat * nat => (xv.1, thread !! xv.1)) <$> l), list_to_map l ∪ thread).
Proof.
  induction l as [|[x v] l IH]; intros thread tokens Hnd.
  - cbn. rewrite app_nil_r. f_equal. by rewrite (left_id_L ∅ (∪)).
  - apply NoDup_cons in Hnd as [Hx Hnd]. cbn in Hx. cbn [foldl].
    change (set_var (tokens, thread) (x, v)) with (tokens ++ [(x, thread !! x)], <[ x := v ]> thread).
    rewrite IH by done. rewrite <- app_assoc. cbn. f_equal.
    + do 2 f_equal. apply list_fmap_ext. intros i [y w] Hy. cbn. rewrite lookup_insert_ne; [done|].
      intros <-. apply Hx, list_elem_of_fmap. exists (x, w). split; [done|]. by eapply list_elem_of_lookup_2.
    + rewrite <- insert_union_r, insert_union_l; [done|]. by apply not_elem_of_list_to_map.
Qed.

Lemma restore_elsewhere here home tokens thread : here <> home -> _restore here home tokens thread = thread.
Proof.
  intros H. unfold _restore. rewrite bool_decide_eq_false_2 by done.
  by induction (reverse tokens) as [|tok l IH].
Qed.

Lemma restore_spec here tokens thread x : NoDup tokens.*1 ->
  _restore here here tokens thread !! x = match list_to_map (M := gmap nat (option nat)) tokens !! x with Some old => old | None => thread !! x end.
Proof.
  unfold _restore. rewrite bool_decide_eq_true_2 by done. intros Hnd. induction tokens as [|[y old] tokens IH]; [done|].
  rewrite reverse_cons, foldl_app. cbn.
  apply NoDup_cons in Hnd as [Hy Hnd]. specialize (IH Hnd). unfold try_reset at 1, reset_var at 1. cbn.
  destruct (decide (x = y)) as [->|Hne].
  - rewrite lookup_insert_eq. destruct old; [by rewrite lookup_insert_eq|by rewrite lookup_delete_eq].
  - rewrite lookup_insert_ne by done. destruct old; [rewrite lookup_insert_ne by done|rewrite lookup_delete_ne by done]; exact IH.
Qed.

Lemma propagate_spec before new thread :
  _propagate before new thread =
  ((fun xv : nat * nat => (xv.1, thread !! xv.1)) <$> map_to_list (changed before new), changed before new ∪ thread).
Proof. unfold _propagate. by rewrite set_vars_spec, list_to_map_to_list by apply NoDup_fst_map_to_list. Qed.

Lemma changed_spec before new x :
  changed before new !! x = if decide (before !! x = new !! x) then None else new !! x.
Proof.
  unfold changed. destruct (new !! x) as [v|] eqn:E.
  - case_decide as Hd.
    + apply map_lookup_filter_None. right. intros w Hw. rewrite E in Hw. injection Hw as <-. cbn. tauto.
    + by apply map_lookup_filter_Some.
  - rewrite map_lookup_filter_None_2 by (by left). by case_decide.
Qed.

Lemma hand_over_spec thread new :
  (forall x, is_Some (thread !! x) -> is_Some (new !! x)) -> changed thread new ∪ thread = new.
Proof.
  intros Hdom. apply map_eq. intros x. rewrite lookup_union, changed_spec. case_decide as Hd.
  - rewrite (left_id_L None _). exact Hd.
  - destruct (new !! x) as [v|] eqn:E; [by destruct (thread !! x)|]. destruct (thread !! x) eqn:Et; [|done].
    destruct (Hdom x) as [w Hw]; [by rewrite Et|]. congruence.
Qed.

Definition tokens_of (thread new : context) : list (nat * option nat) := (_propagate thread new thread).1.

Lemma restore_tokens_spec here thread new th2 x :
  _restore here here (tokens_of thread new) th2 !! x = if decide (changed thread new !! x = None) then th2 !! x else thread !! x.
Proof.
  unfold tokens_of. rewrite propagate_spec. cbn [fst]. rewrite restore_spec.
  - generalize (changed thread new). intros m. 
    assert (list_to_map ((fun xv : nat * nat => (xv.1, thread !! xv.1)) <$> map_to_list m) =
            map_imap (fun y _ => Some (thread !! y)) m :> gmap nat (option nat)) as ->.
    { apply map_eq. intros y. rewrite map_lookup_imap. apply option_eq. intros old.
      rewrite <- elem_of_list_to_map by (rewrite <- list_fmap_compose; apply NoDup_fst_map_to_list).
      rewrite list_elem_of_fmap, bind_Some. setoid_rewrite <- elem_of_map_to_list. split.
      - intros ([z w] & [= -> ->] & Hz). eauto.
      - intros (w & Hw & [= <-]). by exists (y, w). }
    rewrite map_lookup_imap. by destruct (m !! x).
  - rewrite <- list_fmap_compose. apply NoDup_fst_map_to_list.
Qed.

(** The bridge of a generator that yielded. *)
Definition bridge_of (here : nat) (thread c : context) (g : gen) : bridge :=
  {| agen := g; ctx := c; home := here; restore_tokens := tokens_of thread c |}.

Lemma enter_yield here g thread t c v g' :
  resume g Next thread = (t, c, Yield v g') -> (forall x, is_Some (thread !! x) -> is_Some (c !! x)) ->
  enter here g thread = (t, c, (Value v, Some (bridge_of here thread c g'))).
Proof.
  intros E Hdom. unfold enter, bridge_of, tokens_of. rewrite E, propagate_spec. cbn [fst].
  by rewrite hand_over_spec.
Qed.

Lemma restore_unchanged here thread new : (forall x, is_Some (thread !! x) -> is_Some (new !! x)) ->
  _restore here here (tokens_of thread new) new = thread.
Proof.
  intros Hdom. apply map_eq. intros x. rewrite restore_tokens_spec, changed_spec.
  destruct (decide (thread !! x = new !! x)) as [E|E]; cbn; [by rewrite E|].
  destruct (new !! x) eqn:En; cbn; [done|]. destruct (thread !! x) eqn:Et; [|done].
  destruct (Hdom x) as [w Hw]; [by rewrite Et|]. congruence.
Qed.

(** A generator that yields no second time. *)
Definition yields_once (g : gen) : Prop := forall s c v g', (resume g s c).2 <> Yield v g'.

(** What the engine does with an entered generator after a successful handler
    ([teardown_generator_deps]), for the bridge and for a generator in place. *)
Definition teardown_bridged (here : nat) (b : bridge) (thread : context) : list event * context :=
  let '(t, c, s) := leave here b thread in
  match s with Value _ => let '(t', c', _) := close here b c in (t ++ t', c') | _ => (t, c) end.

Definition teardown_inline (g : gen) (thread : context) : list event * context :=
  let '(t, c, o) := resume g Next thread in
  match o with Yield _ g' => let '(t', c', _) := resume g' (Throw GeneratorExit) c in (t ++ t', c') | _ => (t, c) end.

(** ** Theorems *)

(** C28: the context variables a bridged dependency sets reach the handler and,
    when the dependency is ended in the [Context] in which it was entered, do
    not outlive the request.  When the dependency yields, the thread of the
    request has exactly the context the dependency ran in; then, whichever way
    it is ended ([send], [throw] or [close]) in that [Context], the variables it
    had changed have their old values again and all others are as the handler
    left them, so a handler that changed none leaves the thread as it was found.
    Ended in another [Context], as after a streamed body, it changes nothing
    there and the first one keeps the dependency's values.  (The dependency may
    set variables but not remove one the thread had.) *)
Theorem context_is_lent_to_the_thread here g thread t c v g' :
  resume g Next thread = (t, c, Yield v g') -> (forall x, is_Some (thread !! x) -> is_Some (c !! x)) ->
  exists b, enter here g thread = (t, c, (Value v, Some b)) /\
    (forall where_ th2 e, (leave where_ b th2).1.2 = (close where_ b th2).1.2 /\
                          (throw where_ b e th2).1.2 = (close where_ b th2).1.2) /\
    (forall th2 x, (close here b th2).1.2 !! x = if decide (thread !! x = c !! x) then th2 !! x else thread !! x) /\
    (close here b c).1.2 = thread /\
    (forall elsewhere th2, elsewhere <> here -> (close elsewhere b th2).1.2 = th2).
Proof.
  intros E Hdom. exists (bridge_of here thread c g'). split; [by apply enter_yield|].
  assert (forall where_ th2, (close where_ (bridge_of here thread c g') th2).1.2 =
            _restore where_ here (tokens_of thread c) th2) as Hc.
  { intros where_ th2. unfold close. cbn [agen ctx home bridge_of restore_tokens].
    by destruct (resume g' _ _) as [[? ?] ?]. }
  split_and!; [| |by rewrite Hc; apply restore_unchanged|].
  - intros where_ th2 e. rewrite Hc. split; [unfold leave|unfold throw];
      cbn [agen ctx home bridge_of restore_tokens]; by destruct (resume g' _ _) as [[? ?] ?].
  - intros th2 x. rewrite Hc, restore_tokens_spec, changed_spec.
    destruct (decide (thread !! x = c !! x)); [done|]. case_decide as Hn; [|done].
    destruct (thread !! x) eqn:Et; [|congruence]. destruct (Hdom x) as [w Hw]; [by rewrite Et|]. congruence.
  - intros elsewhere th2 Hne. rewrite Hc. by apply restore_elsewhere.
Qed.

(** for a dependency that yields once, the engine cannot tell the bridge
    from a generator on its own thread.  Entering has the same effects and
    shows the same value, ending or error; after a yield, with the context the
    handler was given, going on and throwing an error have the same effects
    and show the same, and closing has the same effects. *)
Theorem bridge_is_transparent here g thread :
  (_g here (AsyncGen g) thread).1.1 = (_g here (SyncGen g) thread).1.1 /\
  (_g here (AsyncGen g) thread).2.1 = (_g here (SyncGen g) thread).2.1 /\
  (forall t c v g', resume g Next thread = (t, c, Yield v g') -> yields_once g' ->
    (forall x, is_Some (thread !! x) -> is_Some (c !! x)) ->
    exists b, enter here g thread = (t, c, (Value v, Some b)) /\ forall where_,
      ((leave where_ b c).1.1, (leave where_ b c).2) = ((resume g' Next c).1.1, see (resume g' Next c).2) /\
      (forall e, e <> GeneratorExit ->
         ((throw where_ b e c).1.1, (throw where_ b e c).2) =
         ((resume g' (Throw e) c).1.1, see (resume g' (Throw e) c).2)) /\
      (close where_ b c).1.1 = (resume g' (Throw GeneratorExit) c).1.1).
Proof.
  split_and!.
  - unfold _g, enter. destruct (resume g Next thread) as [[t c] [v g'| |e]]; [|done..]. by destruct (_propagate _ _ _).
  - unfold _g, enter. destruct (resume g Next thread) as [[t c] [v g'| |e]]; [|done..]. by destruct (_propagate _ _ _).
  - intros t c v g' E Honce Hdom. exists (bridge_of here thread c g'). split; [by apply enter_yield|].
    intros where_. unfold leave, throw, close. cbn [agen ctx bridge_of]. split_and!.
    + specialize (Honce Next c). destruct (resume g' Next c) as [[t' c'] [w g''| |e]]; [by destruct (Honce w g'')|done..].
    + intros e He. specialize (Honce (Throw e) c).
      destruct (resume g' (Throw e) c) as [[t' c'] [w g''| |e']]; [by destruct (Honce w g'')|by destruct e..].
    + by destruct (resume g' (Throw GeneratorExit) c) as [[? ?] ?].
Qed.

(** a second yield makes a difference.  A synchronous dependency that
    yields again is closed by the engine, so what it does after that yield
    happens; the bridge ends its own generator with [StopIteration], the
    engine has nothing to close, and the asynchronous dependency is left
    suspended there. *)
Theorem second_yield_is_never_closed here thread c g' t c1 v g'' :
  resume g' Next c = (t, c1, Yield v g'') ->
  (teardown_inline g' c).1 = t ++ (resume g'' (Throw GeneratorExit) c1).1.1 /\
  (teardown_bridged here (bridge_of here thread c g') c).1 = t.
Proof.
  intros E. unfold teardown_inline, teardown_bridged, leave. cbn [agen ctx bridge_of]. rewrite E.
  split; [by destruct (resume g'' (Throw GeneratorExit) c1) as [[? ?] ?]|done].
Qed.

(** A dependency that sets a variable and yields. *)
Definition setter (x a : nat) : gen :=
  Gen (fun _ c => ([], <[ x := a ]> c, Yield 0 (Gen (fun _ c => ([], c, Done))))).

(** variables leak when dependencies are not ended in reverse order.  Of
    two bridged dependencies that set the same variable, the first of function
    scope and the second of request scope, the engine ends the first one first;
    the thread then keeps the value the first one had set, and the next
    request on it starts with that value. *)
Theorem scopes_leak_a_variable here x a b thread :
  a <> b ->
  exists b1 b2 th1 th2,
    enter here (setter x a) thread = ([], th1, (Value 0, Some b1)) /\
    enter here (setter x b) th1 = ([], th2, (Value 0, Some b2)) /\
    (teardown_bridged here b1 (teardown_bridged here b2 th2).2).2 = thread /\
    (teardown_bridged here b2 (teardown_bridged here b1 th2).2).2 !! x = Some a.
Proof.
  intros Hab.
  assert (forall y v (th : context), forall z, is_Some (th !! z) -> is_Some (<[ y := v ]> th !! z)) as Hdom.
  { intros y v th z Hz. rewrite lookup_insert. by case_decide. }
  pose (th1 := <[ x := a ]> thread). pose (th2 := <[ x := b ]> th1).
  exists (bridge_of here thread th1 (Gen (fun _ c => ([], c, Done)))),
         (bridge_of here th1 th2 (Gen (fun _ c => ([], c, Done)))), th1, th2.
  assert (forall th c th', (teardown_bridged here (bridge_of here th c (Gen (fun _ c => ([], c, Done)))) th').2 =
            _restore here here (tokens_of th c) th') as Htd by done.
  split_and!; [by apply enter_yield; [|apply Hdom]|by apply enter_yield; [|apply Hdom]|..]; rewrite !Htd.
  - rewrite restore_unchanged by apply Hdom. apply restore_unchanged, Hdom.
  - rewrite restore_tokens_spec, changed_spec. subst th1 th2.
    rewrite !lookup_insert_eq. rewrite (decide_False (P := Some a = Some b)) by congruence. by rewrite decide_False.
Qed.

(** After a streamed body the dependencies of request scope are ended where the
    body was driven, in another [Context]: the reset fails silently, and the
    thread of the request keeps the value the dependency had set, for the next
    request it serves. *)
Theorem streamed_teardown_leaks_a_variable here elsewhere x a thread driver :
  elsewhere <> here -> thread !! x <> Some a ->
  exists b th1,
    enter here (setter x a) thread = ([], th1, (Value 0, Some b)) /\ th1 !! x = Some a /\
    (teardown_bridged here b th1).2 = thread /\
    (teardown_bridged elsewhere b driver).2 = driver.
Proof.
  intros Hne Hx. pose (th1 := <[ x := a ]> thread).
  assert (forall z, is_Some (thread !! z) -> is_Some (th1 !! z)) as Hdom.
  { intros z Hz. unfold th1. rewrite lookup_insert. by case_decide. }
  exists (bridge_of here thread th1 (Gen (fun _ c => ([], c, Done)))), th1. split_and!.
  - by apply enter_yield.
  - apply lookup_insert_eq.
  - change (_restore here here (tokens_of thread th1) th1 = thread). by apply restore_unchanged.
  - change (_restore elsewhere here (tokens_of thread th1) driver = driver). by apply restore_elsewhere.
Qed.

(** *** Witnesses *)

Lemma context_is_lent_to_the_thread_witness :
  exists b, enter 1 (setter 3 7) ∅ = ([], <[ 3%nat := 7%nat ]> ∅, (Value 0, Some b)) /\
    (close 1 b (<[ 3%nat := 7%nat ]> ∅)).1.2 = (∅ : context).
Proof.
  destruct (context_is_lent_to_the_thread 1 (setter 3 7) ∅ [] (<[ 3%nat := 7%nat ]> ∅) 0 (Gen (fun _ c => ([], c, Done))))
    as (b & E & _ & _ & H & _).
  - reflexivity.
  - intros x [? Hx]. by rewrite lookup_empty in Hx.
  - by exists b.
Defined.

Lemma bridge_is_transparent_witness :
  exists b, enter 1 (setter 3 7) ∅ = ([], <[ 3%nat := 7%nat ]> ∅, (Value 0, Some b)) /\
    ((leave 1 b (<[ 3%nat := 7%nat ]> ∅)).1.1, (leave 1 b (<[ 3%nat := 7%nat ]> ∅)).2) = ([], StopIteration).
Proof.
  destruct (proj2 (proj2 (bridge_is_transparent 1 (setter 3 7) ∅)) [] (<[ 3%nat := 7%nat ]> ∅) 0%nat
              (Gen (fun _ c => ([], c, Done)))) as (b & E & L).
  - reflexivity.
  - by intros s c v g'.
  - intros x [? Hx]. by rewrite lookup_empty in Hx.
  - exists b. split; [exact E|exact (proj1 (L 1%nat))].
Defined.

(** [yield], then [yield] again, then an effect. *)
Definition twice : gen :=
  Gen (fun _ c => ([1%nat], c, Yield 0 (Gen (fun _ c => ([2%nat], c, Done))))).

Lemma second_yield_is_never_closed_witness :
  (teardown_inline twice ∅).1 = [1%nat; 2%nat] /\ (teardown_bridged 1 (bridge_of 1 ∅ ∅ twice) ∅).1 = [1%nat].
Proof.
  apply (second_yield_is_never_closed 1 ∅ ∅ twice [1%nat] ∅ 0 (Gen (fun _ c => ([2%nat], c, Done)))). reflexivity.
Defined.

Lemma scopes_leak_a_variable_witness :
  exists b1 b2 th1 th2,
    enter 1 (setter 3 7) ∅ = ([], th1, (Value 0, Some b1)) /\ enter 1 (setter 3 8) th1 = ([], th2, (Value 0, Some b2)) /\
    (teardown_bridged 1 b1 (teardown_bridged 1 b2 th2).2).2 = (∅ : context) /\
    (teardown_bridged 1 b2 (teardown_bridged 1 b1 th2).2).2 !! 3%nat = Some 7%nat.
Proof. apply (scopes_leak_a_variable 1 3 7 8 ∅). lia. Defined.

Lemma streamed_teardown_leaks_a_variable_witness :
  exists b th1,
    enter 1 (setter 3 7) ∅ = ([], th1, (Value 0, Some b)) /\ th1 !! 3%nat = Some 7%nat /\
    (teardown_bridged 1 b th1).2 = (∅ : context) /\ (teardown_bridged 2 b ∅).2 = (∅ : context).
Proof. apply (streamed_teardown_leaks_a_variable 1 2 3 7 ∅ ∅); [lia|by rewrite lookup_empty]. Defined.

End Bridge.
