(* ===== verification/Background.v ===== *)
(** Background tasks (background.py): [BackgroundTasks.run_sync], which drains
    the list of tasks while tasks may add to it, and [_run_background_obj],
    which drains whatever a response carries as its [background]. *)

From S2P Require Import Prelude.

Module Background.

(** ** Tasks *)

(** A task: what it adds to the list it is in while it runs, and how it ends. *)
Inductive task := Task (id : nat) (is_async : bool) (adds : list task) (raises : option exn).

Definition t_id (t : task) : nat := let 'Task n _ _ _ := t in n.
Definition t_async (t : task) : bool := let 'Task _ a _ _ := t in a.
Definition t_adds (t : task) : list task := let 'Task _ _ l _ := t in l.
Definition t_raises (t : task) : option exn := let 'Task _ _ _ r := t in r.

(** Where a task ran: on the calling thread, or on the worker loop of an
    application. *)
Inductive event := Inline (id : nat) | OnLoop (app : option nat) (id : nat).

Definition e_id (e : event) : nat := match e with Inline n | OnLoop _ n => n end.

(** [func(...)] inline, or [submit(func(...), app=app)] *)
Definition run_task (app : option nat) (t : task) : event :=
  if t_async t then OnLoop app (t_id t) else Inline (t_id t).

(** [BackgroundTasks]: the list and the application. *)
Record tasks := { queue : list task; _door_app : option nat }.

Definition add_task (b : tasks) (t : task) : tasks := {| queue := queue b ++ [t]; _door_app := _door_app b |}.

(** [for task in self.tasks], by position in a list that may grow. *)
Fixpoint loop (fuel : nat) (app : option nat) (l : list task) (i : nat) : option (list event * list task * res unit) :=
  match fuel with
  | O => None
  | S fuel' =>
      match l !! i with
      | None => Some ([], l, Ok tt)
      | Some t =>
          match t_raises t with
          | Some e => Some ([run_task app t], l ++ t_adds t, Raise e)
          | None => '(evs, l', r) ← loop fuel' app (l ++ t_adds t) (S i); Some (run_task app t :: evs, l', r)
          end
      end
  end.

(** All tasks, with those they add. *)
Fixpoint size (t : task) : nat :=
  let 'Task _ _ l _ := t in S (list_sum (size <$> l)).

Fixpoint everything (t : task) : list nat :=
  let 'Task n _ l _ := t in n :: concat (everything <$> l).

Definition run_sync (b : tasks) : option (list event * tasks * res unit) :=
  '(evs, l, r) ← loop (S (list_sum (size <$> queue b))) (_door_app b) (queue b) 0;
  Some (evs, {| queue := match r with Ok _ => [] | Raise _ => l end; _door_app := _door_app b |}, r).

(** ** The [background] of a response *)

(** What a user can attach: nothing, this package's tasks, Starlette's tasks,
    one task, another callable and whether it returns a coroutine, or something
    that cannot be called. *)
Inductive bg :=
| BNone
| BTurbo (b : tasks)
| BStarlette (l : list bg)
| BTask (t : task)
| BCallable (id : nat) (coroutine : bool) (raises : option exn)
| BOther.

(** Several drains, up to one that raises. *)
Definition ended (r : option (list event * res unit)) (k : option (list event * res unit)) : option (list event * res unit) :=
  '(t, o) ← r;
  match o with
  | Raise e => Some (t, Raise e)
  | Ok _ => '(t', o') ← k; Some (t ++ t', o')
  end.

Definition raised (o : option exn) : res unit := match o with Some e => Raise e | None => Ok tt end.

Fixpoint _run_background_obj (app : option nat) (b : bg) : option (list event * res unit) :=
  match b with
  | BNone | BOther => Some ([], Ok tt)
  | BTurbo b =>
      let owner := match _door_app b with Some a => Some a | None => app end in
      '(t, _, r) ← run_sync {| queue := queue b; _door_app := owner |}; Some (t, r)
  | BStarlette l =>
      (fix each (l : list bg) : option (list event * res unit) :=
         match l with
         | [] => Some ([], Ok tt)
         | b :: l' => ended (_run_background_obj app b) (each l')
         end) l
  | BTask t => Some ([run_task app t], raised (t_raises t))
  | BCallable n coroutine r => Some ([if coroutine then OnLoop app n else Inline n], raised r)
  end.

(** ** Lemmas *)

Definition quiet (t : task) : Prop := t_raises t = None.

Fixpoint all_quiet (t : task) : Prop := let 'Task _ _ l r := t in r = None /\ Forall id (all_quiet <$> l).

Lemma task_ind' (P : task -> Prop) :
  (forall n a l r, Forall P l -> P (Task n a l r)) -> forall t, P t.
Proof.
  intros H. fix IH 1. intros [n a l r]. apply H. induction l as [|t l IHl]; constructor; [apply IH|exact IHl].
Qed.

Lemma all_quiet_split t : all_quiet t -> quiet t /\ Forall all_quiet (t_adds t).
Proof. destruct t as [n a l r]. cbn. rewrite Forall_fmap. by intros [-> H]. Qed.

Lemma size_split t : size t = S (list_sum (size <$> t_adds t)).
Proof. by destruct t. Qed.

Lemma everything_split t : everything t = t_id t :: concat (everything <$> t_adds t).
Proof. by destruct t. Qed.

Lemma concat_fmap_app {A B} (f : A -> list B) l l' : concat (f <$> l ++ l') = concat (f <$> l) ++ concat (f <$> l').
Proof. by rewrite fmap_app, concat_app. Qed.

Lemma list_sum_fmap_app {A} (f : A -> nat) l l' : list_sum (f <$> l ++ l') = (list_sum (f <$> l) + list_sum (f <$> l'))%nat.
Proof. by rewrite fmap_app, list_sum_app. Qed.

Lemma list_sum_fmap_cons {A} (f : A -> nat) x l : list_sum (f <$> x :: l) = (f x + list_sum (f <$> l))%nat.
Proof. done. Qed.

(** The loop over what is left of the list. *)
Lemma loop_quiet app : forall fuel l i,
  Forall all_quiet (drop i l) -> (list_sum (size <$> drop i l) < fuel)%nat ->
  exists evs l', loop fuel app l i = Some (evs, l', Ok tt) /\ l `prefix_of` l' /\ 
    evs = run_task app <$> drop i l' /\ e_id <$> evs ≡ₚ concat (everything <$> drop i l).
Proof.
  induction fuel as [|fuel IH]; intros l i Hq Hf; [lia|]. cbn [loop].
  destruct (l !! i) as [t|] eqn:E.
  - rewrite (drop_S l t i E) in Hq, Hf. apply Forall_cons in Hq as [Ht Hq]. apply all_quiet_split in Ht as [Ht Hadds].
    rewrite Ht. rewrite list_sum_fmap_cons, size_split in Hf.
    pose proof (lookup_lt_Some _ _ _ E) as Hi.
    assert (drop (S i) (l ++ t_adds t) = drop (S i) l ++ t_adds t) as Hd by (apply drop_app_le; lia).
    destruct (IH (l ++ t_adds t) (S i)) as (evs & l' & El & Hp & -> & Hperm).
    + rewrite Hd. by apply Forall_app.
    + rewrite Hd, list_sum_fmap_app. lia.
    + rewrite El. cbn. eexists _, l'. split; [reflexivity|].
      assert (l `prefix_of` l') as Hpre by (by eapply prefix_app_l).
      assert (l' !! i = Some t) as E' by (by eapply prefix_lookup_Some).
      split_and!; [done| |].
      * by rewrite (drop_S l' t i E').
      * rewrite (drop_S l t i E). cbn. rewrite everything_split. cbn.
        assert (e_id (run_task app t) = t_id t) as -> by (unfold run_task; by destruct (t_async t)).
        rewrite Hperm, Hd, concat_fmap_app. by rewrite (Permutation_app_comm (concat (everything <$> t_adds t))).
  - exists [], l. apply lookup_ge_None_1 in E. by rewrite !drop_ge.
Qed.

Lemma run_sync_quiet b : Forall all_quiet (queue b) ->
  exists evs, run_sync b = Some (evs, {| queue := []; _door_app := _door_app b |}, Ok tt) /\
    (run_task (_door_app b) <$> queue b) `prefix_of` evs /\ e_id <$> evs ≡ₚ concat (everything <$> queue b).
Proof.
  intros Hq. destruct (loop_quiet (_door_app b) (S (list_sum (size <$> queue b))) (queue b) 0) as (evs & l' & E & Hp & -> & Hperm);
    [done|rewrite drop_0; lia|].
  exists (run_task (_door_app b) <$> l'). unfold run_sync. rewrite E. cbn. split_and!; [done| |done].
  destruct Hp as [k ->]. rewrite fmap_app. by eexists.
Qed.

(** Tasks that neither raise nor add. *)
Definition plain (t : task) : Prop := t_raises t = None /\ t_adds t = [].

(** The loop up to a task that raises. *)
Lemma loop_raise app t e l1 l2 : forall l0 fuel,
  Forall plain l1 -> t_raises t = Some e -> (length l1 < fuel)%nat ->
  loop fuel app (l0 ++ l1 ++ t :: l2) (length l0) =
  Some ((run_task app <$> l1) ++ [run_task app t], (l0 ++ l1 ++ t :: l2) ++ t_adds t, Raise e).
Proof.
  induction l1 as [|x l1 IH]; intros l0 fuel Hp Ht Hf; (destruct fuel as [|fuel]; [cbn in Hf; lia|]); cbn [loop Datatypes.app];
    rewrite list_lookup_middle by done.
  - by rewrite Ht.
  - apply Forall_cons in Hp as [[Hx Hax] Hp]. rewrite Hx, Hax, app_nil_r.
    replace (l0 ++ x :: l1 ++ t :: l2) with ((l0 ++ [x]) ++ l1 ++ t :: l2) by (by rewrite <- app_assoc).
    replace (S (length l0)) with (length (l0 ++ [x])) by (rewrite length_app; cbn; lia).
    rewrite IH by (done || (cbn in Hf; lia)). done.
Qed.

Lemma size_pos l : (length l <= list_sum (size <$> l))%nat.
Proof. induction l as [|t l IH]; [done|]. rewrite list_sum_fmap_cons, size_split. cbn [length]. lia. Qed.

Lemma run_sync_raise app l1 t l2 e : Forall plain l1 -> t_raises t = Some e ->
  run_sync {| queue := l1 ++ t :: l2; _door_app := app |} =
  Some ((run_task app <$> l1) ++ [run_task app t], {| queue := (l1 ++ t :: l2) ++ t_adds t; _door_app := app |}, Raise e).
Proof.
  intros Hp Ht. unfold run_sync. cbn [queue _door_app].
  rewrite (loop_raise app t e l1 l2 []); [done|done|done|]. pose proof (size_pos (l1 ++ t :: l2)) as H.
  rewrite length_app in H. cbn in H. lia.
Qed.

(** ** Theorems *)

(** C29: a drain runs every task.  If none raises, [run_sync] returns, has run
    the registered tasks first and in order, each inline or on the loop of the
    owning application, and every task those tasks added, at any depth, each
    exactly once; the list is empty then, so a second drain does nothing. *)
Theorem drain_runs_everything_once b :
  Forall all_quiet (queue b) ->
  exists evs b', run_sync b = Some (evs, b', Ok tt) /\ (run_task (_door_app b) <$> queue b) `prefix_of` evs /\
    e_id <$> evs ≡ₚ concat (everything <$> queue b) /\ run_sync b' = Some ([], b', Ok tt).
Proof.
  intros Hq. destruct (run_sync_quiet b Hq) as (evs & E & Hp & Hperm).
  exists evs, {| queue := []; _door_app := _door_app b |}. by split_and!.
Qed.

(** a failed drain is repeated.  A task that raises ends the drain before
    the tasks after it, and the list is not cleared: draining the object a
    second time, as happens when the response carries the injected tasks as its
    [background], runs the tasks before it again. *)
Theorem failed_drain_runs_tasks_again app l1 t l2 e :
  Forall plain l1 -> t_raises t = Some e ->
  exists b', run_sync {| queue := l1 ++ t :: l2; _door_app := app |} =
      Some ((run_task app <$> l1) ++ [run_task app t], b', Raise e) /\
    _run_background_obj None (BTurbo b') = Some ((run_task app <$> l1) ++ [run_task app t], Raise e).
Proof.
  intros Hp Ht. eexists. split; [by apply run_sync_raise|]. cbn [_run_background_obj queue _door_app].
  rewrite <- app_assoc, <- app_comm_cons.
  assert (match app with Some a => Some a | None => None end = app) as -> by (by destruct app).
  by rewrite (run_sync_raise app l1 t (l2 ++ t_adds t) e Hp Ht).
Qed.

(** of Starlette's own task lists only the registered tasks are drained.
    [_run_background_obj] runs a copy of the list, so tasks added while it is
    drained never run, whereas [run_sync], like Starlette, runs them all. *)
Theorem starlette_list_drops_added_tasks app l t :
  Forall all_quiet l -> t ∈ l -> t_adds t <> [] ->
  exists evs b', _run_background_obj app (BStarlette (BTask <$> l)) = Some (run_task app <$> l, Ok tt) /\
    run_sync {| queue := l; _door_app := app |} = Some (evs, b', Ok tt) /\ (length l < length evs)%nat.
Proof.
  intros Hq Ht Hadds. destruct (run_sync_quiet {| queue := l; _door_app := app |} Hq) as (evs & E & _ & Hperm).
  exists evs, {| queue := []; _door_app := app |}. split_and!; [|done|].
  - clear - Hq. induction Hq as [|x l Hx Hq IH]; [done|]. apply all_quiet_split in Hx as [Hx _].
    cbn in *. rewrite IH, Hx. done.
  - apply Permutation_length in Hperm. rewrite length_fmap in Hperm. cbn [queue] in Hperm. rewrite Hperm.
    clear - Ht Hadds.
    assert (forall l, (length l <= length (concat (everything <$> l)))%nat) as Hle.
    { intros k. induction k as [|x k IH]; [done|]. rewrite fmap_cons. cbn [concat length].
      rewrite everything_split, length_app. cbn [length]. lia. }
    apply list_elem_of_split in Ht as (l1 & l2 & ->). rewrite concat_fmap_app, fmap_cons. cbn [concat].
    rewrite everything_split, !length_app. cbn [length]. pose proof (Hle l1). pose proof (Hle l2). pose proof (Hle (t_adds t)).
    destruct (t_adds t); [done|]. cbn [length] in *. lia.
Qed.

(** *** Witnesses *)

Definition demo_child : task := Task 2 true [] None.
Definition demo_parent : task := Task 1 false [demo_child] None.

Lemma drain_runs_everything_once_witness :
  exists evs b', run_sync {| queue := [demo_parent]; _door_app := Some 9%nat |} = Some (evs, b', Ok tt) /\
    e_id <$> evs ≡ₚ [1%nat; 2%nat] /\ run_sync b' = Some ([], b', Ok tt).
Proof.
  destruct (drain_runs_everything_once {| queue := [demo_parent]; _door_app := Some 9%nat |}) as (evs & b' & E & _ & P & R).
  - repeat constructor.
  - exists evs, b'. split_and!; [exact E|exact P|exact R].
Defined.

Lemma failed_drain_runs_tasks_again_witness :
  exists b', run_sync {| queue := [demo_child] ++ Task 3 false [] (Some ValueError) :: []; _door_app := None |} =
      Some ([OnLoop None 2; Inline 3], b', Raise ValueError) /\
    _run_background_obj None (BTurbo b') = Some ([OnLoop None 2; Inline 3], Raise ValueError).
Proof.
  apply (failed_drain_runs_tasks_again None [demo_child] (Task 3 false [] (Some ValueError)) [] ValueError); [|reflexivity].
  by repeat constructor.
Defined.

Lemma starlette_list_drops_added_tasks_witness :
  exists evs b', _run_background_obj None (BStarlette (BTask <$> [demo_parent])) = Some ([Inline 1], Ok tt) /\
    run_sync {| queue := [demo_parent]; _door_app := None |} = Some (evs, b', Ok tt) /\ (1 < length evs)%nat.
Proof.
  apply (starlette_list_drops_added_tasks None [demo_parent] demo_parent).
  - repeat constructor.
  - left.
  - done.
Defined.

End Background.
