(* ===== verification/WsEndpoint.v ===== *)
(** Class-based WebSocket endpoints ([_adapt_websocket_endpoint_class] of
    _ws_support.py): the adapter drives [on_connect], [on_receive] for every
    message and [on_disconnect]. *)

From S2P Require Import Prelude.

Module WsEndpoint.

(** ** The connection *)

(** Raised by the socket or by the user's methods: a disconnect with its code,
    another exception, or a bare [BaseException] such as a cancellation. *)
Inductive raised := Disconnect (code : Z) | Exc (e : nat) | Base (e : nat).
#[export] Instance raised_eq_dec : EqDecision raised.
Proof. solve_decision. Defined.

(** What a method is given: a decoded payload, or [None]. *)
Inductive payload := Text (t : text) | Bytes (b : bytes) | NoneValue | Dict (id : nat).
#[export] Instance payload_eq_dec : EqDecision payload.
Proof. solve_decision. Defined.

(** A raw ASGI message: the keys "text" and "bytes" may be absent, hold None,
    or a value. *)
Record message := { m_text : option payload; m_bytes : option payload; m_id : nat }.

(** What arrives, up to the end of the connection: messages, then a disconnect
    with an optional code or an error. *)
Inductive feed := Msg (m : message) (rest : feed) | Gone (code : option Z) | Broken (r : raised).

(** ** The endpoint *)

Inductive encoding := EText | EBytes | EJson | ERaw.

(** A class: how a payload is decoded for the typed encodings, and how its
    methods end. *)
Record endpoint_class := {
  e_encoding : encoding;
  decode : message -> payload + raised;
  on_connect : option raised;
  on_receive : payload -> option raised;
  on_disconnect : Z -> option raised }.

Inductive event := Connected | Received (p : payload) | Disconnected (code : Z).

(** [message["text"] if "text" in message else message["bytes"] if ...] *)
Definition raw_payload (m : message) : payload :=
  match m_text m with
  | Some p => p
  | None => match m_bytes m with Some p => p | None => Dict (m_id m) end
  end.

Definition receive (c : endpoint_class) (m : message) : payload + raised :=
  match e_encoding c with ERaw => inl (raw_payload m) | _ => decode c m end.

(** The loop; the close code it ended with, or what it raised. *)
Fixpoint messages (c : endpoint_class) (f : feed) : list event * (Z + raised) :=
  match f with
  | Gone code =>
      ([], match e_encoding c with ERaw => inl (default 1000 code) | _ => inr (Disconnect (default 1000 code)) end)
  | Broken r => ([], inr r)
  | Msg m rest =>
      match receive c m with
      | inr r => ([], inr r)
      | inl p =>
          match on_receive c p with
          | Some r => ([Received p], inr r)
          | None => let '(t, o) := messages c rest in (Received p :: t, o)
          end
      end
  end.

(** The [except] clauses: the close code, and what is raised again. *)
Definition settle (o : Z + raised) : Z * option raised :=
  match o with
  | inl code | inr (Disconnect code) => (code, None)
  | inr (Exc e) => (1011, Some (Exc e))
  | inr (Base e) => (1000, Some (Base e))
  end.

Definition session (c : endpoint_class) (f : feed) : list event * (Z + raised) :=
  match on_connect c with
  | Some r => ([], inr r)
  | None => messages c f
  end.

(** [_endpoint] *)
Definition _endpoint (c : endpoint_class) (f : feed) : list event * option raised :=
  let '(t, o) := session c f in
  let '(close_code, pending) := settle o in
  (Connected :: t ++ [Disconnected close_code],
   match on_disconnect c close_code with Some r => Some r | None => pending end).

(** ** Theorems *)

Definition no_disconnect (t : list event) : Prop := Forall (fun e => forall code, e <> Disconnected code) t.

Lemma messages_no_disconnect c f : no_disconnect (messages c f).1.
Proof.
  unfold no_disconnect. induction f as [m rest IH|code|r]; cbn; [|constructor|constructor].
  destruct (receive c m); [|constructor]. destruct (on_receive c p); [by repeat constructor|].
  destruct (messages c rest). by constructor.
Qed.

(** The payloads of a connection. *)
Fixpoint payloads (f : feed) : list message := match f with Msg m rest => m :: payloads rest | _ => [] end.

Fixpoint last_code (f : feed) : option (option Z) :=
  match f with Msg _ rest => last_code rest | Gone code => Some code | Broken _ => None end.

Lemma messages_all c f code :
  (forall m, m ∈ payloads f -> exists p, receive c m = inl p /\ on_receive c p = None) -> last_code f = Some code ->
  exists ps, Forall2 (fun m p => receive c m = inl p) (payloads f) ps /\
    messages c f = (Received <$> ps, match e_encoding c with ERaw => inl (default 1000 code) | _ => inr (Disconnect (default 1000 code)) end).
Proof.
  induction f as [m rest IH|k|r]; cbn; intros H Hc; simplify_eq.
  - destruct (H m ltac:(left)) as (p & Hr & Ho). destruct IH as (ps & Hf & E); [|done|].
    { intros m' Hm'. apply H. by right. }
    exists (p :: ps). rewrite Hr, Ho, E. split; [by constructor|done].
  - by exists [].
Qed.

Lemma session_no_disconnect c f : no_disconnect (session c f).1.
Proof. unfold session. destruct (on_connect c); [constructor|apply messages_no_disconnect]. Qed.

(** an endpoint is told of the end exactly once, and last, whatever the
    client, the socket and its own methods do.  The code is the client's when
    the connection ended with a disconnect, 1011 after an error and 1000 after
    a cancellation; errors and cancellations are raised again unless
    [on_disconnect] raises itself, a disconnect is not. *)
Theorem endpoint_disconnects_once c f :
  exists t code, (_endpoint c f).1 = Connected :: t ++ [Disconnected code] /\ no_disconnect t /\
    code = match (session c f).2 with inl k | inr (Disconnect k) => k | inr (Exc _) => 1011 | inr (Base _) => 1000 end /\
    (_endpoint c f).2 = match on_disconnect c code, (session c f).2 with
                        | Some r, _ => Some r
                        | None, inr (Disconnect _) | None, inl _ => None
                        | None, inr r => Some r
                        end.
Proof.
  pose proof (session_no_disconnect c f) as Hn. unfold _endpoint. destruct (session c f) as [t o].
  exists t, (settle o).1. destruct o as [k|[k|e|e]]; cbn; by split_and!.
Qed.

(** every message is delivered, once and in order.  If decoding and
    [on_receive] accept what the client sends, the endpoint receives the
    payloads of all messages in order, and [on_disconnect] gets the code the
    client closed with, 1000 if it gave none, for every encoding. *)
Theorem endpoint_receives_every_message c f code :
  on_connect c = None -> on_disconnect c (default 1000 code) = None ->
  (forall m, m ∈ payloads f -> exists p, receive c m = inl p /\ on_receive c p = None) -> last_code f = Some code ->
  exists ps, Forall2 (fun m p => receive c m = inl p) (payloads f) ps /\
    _endpoint c f = (Connected :: (Received <$> ps) ++ [Disconnected (default 1000 code)], None).
Proof.
  intros Hc Hd Hm Hl. destruct (messages_all c f code Hm Hl) as (ps & Hf & E). exists ps. split; [done|].
  unfold _endpoint, session. rewrite Hc, E. destruct (e_encoding c); cbn; by rewrite Hd.
Qed.

(** a server that sends both keys hides binary messages.  ASGI allows a
    binary message to carry "text" with the value None; an endpoint without an
    encoding then gets None instead of the bytes. *)
Theorem binary_message_is_lost c f b n :
  e_encoding c = ERaw -> on_connect c = None ->
  exists t, (_endpoint c (Msg {| m_text := Some NoneValue; m_bytes := Some (Bytes b); m_id := n |} f)).1 =
    Connected :: Received NoneValue :: t.
Proof.
  intros He Hc. unfold _endpoint, session. rewrite Hc. cbn [messages]. unfold receive. rewrite He. cbn.
  destruct (on_receive c NoneValue) as [r|]; [by destruct (settle (inr r)) as [? ?]; eexists|].
  destruct (messages c f) as [t o]. destruct (settle o) as [? ?]. by eexists.
Qed.

(** *** Witnesses *)

Definition demo : endpoint_class :=
  {| e_encoding := ERaw; decode := fun _ => inr (Exc 0); on_connect := None; on_receive := fun _ => None;
     on_disconnect := fun _ => None |}.

Lemma endpoint_receives_every_message_witness :
  exists ps, Forall2 (fun m p => receive demo m = inl p) [ {| m_text := Some (Text (lit "hi")); m_bytes := None; m_id := 0 |} ] ps /\
    _endpoint demo (Msg {| m_text := Some (Text (lit "hi")); m_bytes := None; m_id := 0 |} (Gone (Some 1001))) =
    (Connected :: (Received <$> ps) ++ [Disconnected 1001], None).
Proof.
  apply (endpoint_receives_every_message demo
    (Msg {| m_text := Some (Text (lit "hi")); m_bytes := None; m_id := 0 |} (Gone (Some 1001))) (Some 1001)); try reflexivity.
  intros m ->%list_elem_of_singleton. by eexists.
Defined.

Lemma binary_message_is_lost_witness :
  exists t, (_endpoint demo (Msg {| m_text := Some NoneValue; m_bytes := Some (Bytes (lit "x")); m_id := 0 |} (Gone None))).1 =
    Connected :: Received NoneValue :: t.
Proof. apply (binary_message_is_lost demo (Gone None) (lit "x") 0); reflexivity. Defined.

End WsEndpoint.
