(* ===== verification/Dicts.v ===== *)
(** Python dicts from text to text as association lists in insertion order. *)

From S2P Require Import Prelude.

Module Dicts.

Abbreviation dict := (list (text * text)) (only parsing).

(** [d[k] = v], [d.update(d')] and [d.get(k)]. *)
Definition set_item (d : dict) (kv : text * text) : dict :=
  if existsb (fun p => bool_decide (p.1 = kv.1)) d
  then (fun p => if bool_decide (p.1 = kv.1) then kv else p) <$> d
  else d ++ [kv].

Definition update (d d' : dict) : dict := fold_left set_item d' d.

Definition get (d : dict) (k : text) : option text := snd <$> (snd <$> list_find (fun p => p.1 = k) d).

Lemma get_cons p d k : get (p :: d) k = if bool_decide (p.1 = k) then Some p.2 else get d k.
Proof.
  unfold get. cbn. case_bool_decide; [by rewrite decide_True|]. rewrite decide_False by done.
  by destruct (list_find _ d) as [[? ?]|].
Qed.

Lemma get_app d d' k : get (d ++ d') k = match get d k with Some v => Some v | None => get d' k end.
Proof.
  induction d as [|p d IH]; [done|]. cbn [Datatypes.app]. rewrite !get_cons. by case_bool_decide.
Qed.

Lemma get_replace d k v k' :
  get ((fun p => if bool_decide (p.1 = k) then (k, v) else p) <$> d) k' =
  if bool_decide (k = k') then (fun _ => v) <$> get d k else get d k'.
Proof.
  induction d as [|p d IH]; [by case_bool_decide|]. cbn [fmap list_fmap]. rewrite !get_cons, IH.
  destruct (decide (p.1 = k)) as [Hp|Hp].
  - rewrite (bool_decide_eq_true_2 (p.1 = k)) by done. cbn [fst snd].
    destruct (decide (k = k')) as [Hk|Hk].
    + by rewrite (bool_decide_eq_true_2 (k = k')).
    + rewrite (bool_decide_eq_false_2 (k = k')) by done. by rewrite bool_decide_eq_false_2 by congruence.
  - rewrite (bool_decide_eq_false_2 (p.1 = k)) by done. destruct (decide (p.1 = k')) as [Hk|Hk].
    + rewrite (bool_decide_eq_true_2 (p.1 = k')) by done. by rewrite bool_decide_eq_false_2 by congruence.
    + by rewrite (bool_decide_eq_false_2 (p.1 = k')).
Qed.

Lemma get_existsb d k : existsb (fun p => bool_decide (p.1 = k)) d = bool_decide (is_Some (get d k)).
Proof.
  induction d as [|p d IH]; [done|]. cbn [existsb]. rewrite get_cons, IH.
  destruct (decide (p.1 = k)) as [Hk|Hk].
  - rewrite (bool_decide_eq_true_2 (p.1 = k)) by done. symmetry. apply bool_decide_eq_true_2. by eexists.
  - by rewrite (bool_decide_eq_false_2 (p.1 = k)).
Qed.

Lemma get_set_item d k v k' : get (set_item d (k, v)) k' = if bool_decide (k = k') then Some v else get d k'.
Proof.
  unfold set_item. cbn [fst snd]. rewrite get_existsb. case_bool_decide as E.
  - rewrite get_replace. destruct E as [x ->]. done.
  - rewrite get_app, get_cons. cbn [fst snd]. change (get [] k') with (@None text).
    case_bool_decide as Hk; [subst k'|by destruct (get d k')].
    destruct (get d k); [|done]. destruct E. by eexists.
Qed.

Lemma get_update d d' k :
  get (update d d') k = match get (reverse d') k with Some v => Some v | None => get d k end.
Proof.
  unfold update. revert d. induction d' as [|[k' v'] d' IH]; intros d; [done|]. cbn [fold_left].
  rewrite IH, get_set_item, reverse_cons, get_app, get_cons. cbn [fst snd]. change (get [] k) with (@None text).
  destruct (get (reverse d') k); [done|]. by case_bool_decide.
Qed.

Lemma get_fmap_values f hs k : get ((fun p : text * text => (p.1, f p.2)) <$> hs) k = f <$> get hs k.
Proof.
  induction hs as [|p hs IH]; [done|]. cbn [fmap list_fmap]. rewrite !get_cons. cbn [fst snd]. rewrite IH.
  by case_bool_decide.
Qed.

(** The keys of a dict stay distinct. *)
Lemma set_item_keys d kv : NoDup d.*1 -> NoDup (set_item d kv).*1.
Proof.
  intros Hd. unfold set_item. rewrite get_existsb. case_bool_decide as E.
  - replace ((fun p : text * text => if bool_decide (p.1 = kv.1) then kv else p) <$> d).*1 with d.*1; [done|].
    rewrite <-list_fmap_compose. apply list_fmap_ext. intros i p _. cbn. by case_bool_decide.
  - rewrite fmap_app. apply NoDup_app. split_and!; [done| |apply NoDup_singleton].
    intros x Hx ->%list_elem_of_singleton. apply E. clear E Hd. induction d as [|p d IH]; [by inversion Hx|].
    rewrite get_cons. case_bool_decide; [by eexists|]. apply IH. cbn in Hx. apply elem_of_cons in Hx as [Hx|Hx]; [by destruct H|done].
Qed.

Lemma update_keys d d' : NoDup d.*1 -> NoDup (update d d').*1.
Proof. unfold update. revert d. induction d' as [|kv d' IH]; intros d Hd; [done|]. apply IH. by apply set_item_keys. Qed.

End Dicts.
