(* ===== verification/HostRouting.v ===== *)
(** Requests for a registered host ([_host_dispatch] of [FastAPI.host] and
    [_dispatch_to_subapp_route] of applications.py), and ASGI applications run to
    a response ([_run_asgi_http_app_to_response], [_run_starlette_http_endpoint],
    [_mounted_route_asgi_app]).  The dispatcher is an element of the middleware
    chain of [Middleware]; paths are matched as in [Templates]. *)

From S2P Require Import Prelude Exceptions Teardown Templates Middleware.

Module HostRouting.

(** ** Endpoints of a sub-application *)

Inductive annotation := AInt | AFloat | AOther.

(** A parameter's kind in the signature. *)
Inductive kind := PositionalOnly | ByName | VarPositional | VarKeyword.

(** A default value: a marker ([Depends(...)], [Query(...)] and their kin), or
    an ordinary object. *)
Inductive default_value := Marker (n : nat) | Plain (n : nat).

Record parameter := {
  p_name : text;
  p_kind : kind;
  p_ann : annotation;
  p_default : option default_value }.

Section Dispatch.

(** The floating-point numbers, and [float(text)]. *)
Context {F : Type}.
Variable py_float : text -> option F.

(** A value an endpoint is called with. *)
Inductive arg := Text (t : text) | Int (z : Z) | Float (f : F) | Default (d : default_value).

(** What an endpoint returns: something with a [status_code], a dict or a list,
    [None], or another object. *)
Inductive result := RResponse (n : nat) | RDict (n : nat) | RNone | ROther (n : nat).

(** What it raises: the framework's [HTTPException], another [Exception], or a
    [BaseException] that is none. *)
Inductive raised :=
| HTTPException (status : Z) (detail : nat) (headers : list (text * text))
| Error (n : nat)
| BaseError (n : nat).

Record endpoint := {
  e_async : bool;                               (* [iscoroutinefunction] *)
  e_inspectable : bool;                         (* [signature] does not raise *)
  e_params : list parameter;
  e_run : list (text * arg) -> result + raised }.

Record route := {
  r_path : option text;
  r_methods : list text;                        (* [route.methods or set()] *)
  r_endpoint : endpoint;
  r_settable : bool;                            (* attributes can be set *)
  r_regex : option (list Templates.item) }.     (* [_fastapi_turbo_host_regex] *)

Definition set_regex (r : route) (x : list Templates.item) : route :=
  {| r_path := r_path r; r_methods := r_methods r; r_endpoint := r_endpoint r;
     r_settable := r_settable r; r_regex := Some x |}.

(** *** Calling with keyword arguments *)

Definition has_kind (k : kind) (ps : list parameter) : bool :=
  existsb (fun p => match p_kind p, k with
                    | PositionalOnly, PositionalOnly | ByName, ByName
                    | VarPositional, VarPositional | VarKeyword, VarKeyword => true
                    | _, _ => false end) ps.

Definition get (n : text) (kw : list (text * arg)) : option arg :=
  snd <$> (snd <$> list_find (fun p => p.1 = n) kw).

(** The values of the parameters; [None] where a required one is missing. *)
Fixpoint bind_params (ps : list parameter) (kw : list (text * arg)) : option (list (text * arg)) :=
  match ps with
  | [] => Some []
  | p :: ps' =>
      let v := match p_kind p with
               | ByName => match get (p_name p) kw with
                           | Some a => Some [(p_name p, a)]
                           | None => match p_default p with
                                     | Some d => Some [(p_name p, Default d)]
                                     | None => None
                                     end
                           end
               | PositionalOnly => match p_default p with
                                   | Some d => Some [(p_name p, Default d)]
                                   | None => None
                                   end
               | VarPositional | VarKeyword => Some []
               end in
      match v, bind_params ps' kw with
      | Some l, Some l' => Some (l ++ l')
      | _, _ => None
      end
  end.

Definition by_name (ps : list parameter) (n : text) : bool :=
  existsb (fun p => match p_kind p with ByName => bool_decide (p_name p = n) | _ => false end) ps.

(** [endpoint( **kwargs)]: the values the body sees, [None] for the [TypeError] of
    the call. *)
Definition bind (ps : list parameter) (kw : list (text * arg)) : option (list (text * arg)) :=
  let extra := filter (fun p => by_name ps p.1 = false) kw in
  match bind_params ps kw with
  | Some l => if has_kind VarKeyword ps then Some (l ++ extra)
              else match extra with [] => Some l | _ => None end
  | None => None
  end.

(** ** [_dispatch_to_subapp_route] *)

Definition upper_char (c : ascii) : ascii :=
  let n := code c in if ((97 <=? n) && (n <=? 122))%N then ascii_of_N (n - 32) else c.

Definition upper (t : text) : text := upper_char <$> t.

(** One turn of the loop over the routes: the route with its expression cached,
    and the match; [Raise] for an expression [re.compile] refuses. *)
Definition attempt (r : route) (method path : text) : route * res (option (list (text * text))) :=
  match r_path r with
  | None | Some [] => (r, Ok None)
  | Some route_path =>
      if bool_decide (method ∈ upper <$> r_methods r) then
        match r_regex r with
        | Some regex => (r, Ok (Templates.rmatch regex path))
        | None =>
            match Templates.compile route_path with
            | None => (r, Raise ValueError)
            | Some regex => (if r_settable r then set_regex r regex else r,
                             Ok (Templates.rmatch regex path))
            end
        end
      else (r, Ok None)
  end.

Fixpoint find_route (rs : list route) (method path : text)
    : list route * res (option (route * list (text * text))) :=
  match rs with
  | [] => ([], Ok None)
  | r :: rs' =>
      match attempt r method path with
      | (r0, Raise e) => (r0 :: rs', Raise e)
      | (r0, Ok (Some ps)) => (r0 :: rs', Ok (Some (r0, ps)))
      | (r0, Ok None) => let '(l, m) := find_route rs' method path in (r0 :: l, m)
      end
  end.

(** A path parameter converted to the annotation of its parameter; what cannot be
    converted stays text. *)
Definition coerce_to (a : annotation) (t : text) : arg :=
  match a with
  | AInt => match py_int is_space_latin1 t with Some z => Int z | None => Text t end
  | AFloat => match py_float t with Some f => Float f | None => Text t end
  | AOther => Text t
  end.

Definition annotation_of (ps : list parameter) (n : text) : option annotation :=
  p_ann <$> (snd <$> list_find (fun p => p_name p = n) ps).

Definition call_kwargs (e : endpoint) (matched_params : list (text * text)) : list (text * arg) :=
  (fun p => (p.1, match (if e_inspectable e then annotation_of (e_params e) p.1 else None) with
                  | Some a => coerce_to a p.2
                  | None => Text p.2
                  end)) <$> matched_params.

(** The content of a [JSONResponse] of the dispatcher. *)
Inductive content :=
| NotFound
| Detail (detail : nat)
| InternalServerError
| Raw (r : result)
| Encoded (n : nat).

Inductive answer := JSON (status : Z) (c : content) | Own (n : nat).

(** An outcome: a response, an exception of the dispatcher itself, one of the
    endpoint that is no [Exception]. *)
Inductive outcome := Answer (a : answer) | Raises (e : exn) | Escapes (n : nat).

(** [jsonable_encoder], and the contents [JSONResponse] cannot render. *)
Variable jsonable_encoder : nat -> res nat.
Variable json_error : content -> option exn.

Definition _JR (status : Z) (c : content) : outcome :=
  match json_error c with Some e => Raises e | None => Answer (JSON status c) end.

Definition invoke (e : endpoint) (kw : list (text * arg)) : outcome :=
  let run := match bind (e_params e) kw with Some vs => e_run e vs | None => inr (Error 0) end in
  match run with
  | inr (HTTPException s d _) => _JR s (Detail d)
  | inr (Error _) => _JR 500 InternalServerError
  | inr (BaseError n) => Escapes n
  | inl (RResponse n) => Answer (Own n)
  | inl (RDict n) => _JR 200 (Raw (RDict n))
  | inl RNone => _JR 200 (Raw RNone)
  | inl (ROther n) => match jsonable_encoder n with
                      | Ok m => _JR 200 (Encoded m)
                      | Raise x => Raises x
                      end
  end.

Definition _dispatch_to_subapp_route (routes : list route) (method path : text)
    : list route * outcome :=
  match find_route routes (upper method) path with
  | (rs, Raise e) => (rs, Raises e)
  | (rs, Ok None) => (rs, _JR 404 NotFound)
  | (rs, Ok (Some (r, ps))) =>
      (rs, invoke (r_endpoint r) (call_kwargs (r_endpoint r) ps))
  end.

(** ** [_host_dispatch] *)

(** Where a request goes. *)
Inductive target := ToSubApp (n : nat) | CallNext_.

Definition host_target (s : Middleware.mst) (host_header : option text) : target :=
  match Middleware._match_host s (default [] host_header) with
  | Some n => ToSubApp n
  | None => CallNext_
  end.

(** The dispatcher as a program of the middleware chain; [embed] is the response
    of a sub-application as a value of the chain. *)
Definition _host_dispatch (s : Middleware.mst) (host_header : option text)
    (subapp : nat -> Middleware.outcome) : Middleware.prog :=
  match host_target s host_header with
  | CallNext_ =>
      Middleware.CallNext (fun o => match o with
                                    | Middleware.Value v => Middleware.Ret v
                                    | Middleware.Raises x => Middleware.Throw x
                                    end)
  | ToSubApp n => match subapp n with
                  | Middleware.Value v => Middleware.Ret v
                  | Middleware.Raises x => Middleware.Throw x
                  end
  end.

(** ** Theorems *)

(** *** The cached expressions *)

(** The cache holds the expression of the route's own path. *)
Definition cache_ok (r : route) : Prop :=
  match r_regex r with
  | None => True
  | Some x => exists p, r_path r = Some p /\ Templates.compile p = Some x
  end.

(** The route without its cache. *)
Definition forget (r : route) : route :=
  {| r_path := r_path r; r_methods := r_methods r; r_endpoint := r_endpoint r;
     r_settable := r_settable r; r_regex := None |}.

(** What the loop finds, without looking at a cache. *)
Definition serves (r : route) (method path : text) : res (option (list (text * text))) :=
  (attempt (forget r) method path).2.

Fixpoint first_serving (rs : list route) (method path : text) : res (option (endpoint * list (text * text))) :=
  match rs with
  | [] => Ok None
  | r :: rs' => match serves r method path with
                | Raise e => Raise e
                | Ok (Some ps) => Ok (Some (r_endpoint r, ps))
                | Ok None => first_serving rs' method path
                end
  end.

Lemma serves_forget r r' method path : forget r = forget r' -> serves r method path = serves r' method path.
Proof. unfold serves. by intros ->. Qed.

Lemma attempt_spec r method path :
  cache_ok r ->
  cache_ok (attempt r method path).1 /\ forget (attempt r method path).1 = forget r /\
  (attempt r method path).2 = serves r method path.
Proof.
  unfold serves, attempt, cache_ok. cbn [forget r_path r_methods r_regex r_settable].
  intros Hr. destruct (r_path r) as [[|c p]|] eqn:Ep; cbn [fst snd]; rewrite ?Ep; [done| |done].
  case_bool_decide; cbn [fst snd]; rewrite ?Ep; [|done].
  destruct (r_regex r) as [x|] eqn:Ex.
  - destruct Hr as (p' & [= <-] & Hc). rewrite Hc. cbn [fst snd]. rewrite Ep, Ex. split_and!; [|done..].
    by exists (c :: p).
  - destruct (Templates.compile (c :: p)) as [x|] eqn:Ec; cbn [fst snd]; rewrite ?Ex, ?Ep; [|done].
    destruct (r_settable r) eqn:Es; cbn [set_regex r_regex r_path]; rewrite ?Ex, ?Ep; [|done].
    split_and!; [by exists (c :: p)| |done]. unfold forget, set_regex. simpl. by rewrite Ep, Es.
Qed.

Lemma find_route_spec rs method path :
  Forall cache_ok rs ->
  Forall cache_ok (find_route rs method path).1 /\
  forget <$> (find_route rs method path).1 = forget <$> rs /\
  res_bind (find_route rs method path).2
    (fun m => Ok ((fun p => (r_endpoint p.1, p.2)) <$> m)) = first_serving rs method path.
Proof.
  induction 1 as [|r rs Hr Hrs (IH1 & IH2 & IH3)]; [done|]. cbn [find_route first_serving].
  destruct (attempt_spec r method path Hr) as (Hc & Hf & Hm).
  destruct (attempt r method path) as [r0 m]. cbn [fst snd] in *. rewrite <-Hm.
  destruct m as [[ps|]|e].
  - cbn. rewrite Hf. split_and!; [by constructor|done|]. by injection Hf as _ _ -> _.
  - destruct (find_route rs method path) as [l m]. cbn in *. rewrite Hf, IH2. split_and!; [by constructor|done|done].
  - cbn. rewrite Hf. split_and!; [by constructor|done|done].
Qed.

Lemma first_serving_forget rs rs' method path :
  forget <$> rs = forget <$> rs' -> first_serving rs method path = first_serving rs' method path.
Proof.
  revert rs'. induction rs as [|r rs IH]; intros [|r' rs']; try done. cbn. intros [= Hp Hm He Hs H].
  assert (forget r = forget r') as Hf by (unfold forget; by rewrite Hp, Hm, He, Hs).
  rewrite (serves_forget r r' method path Hf). destruct (serves _ _ _) as [[ps|]|e]; [by rewrite He|by apply IH|done].
Qed.

(** The answer to one request, without a cache. *)
Definition answer_of (rs : list route) (method path : text) : outcome :=
  match first_serving rs (upper method) path with
  | Raise e => Raises e
  | Ok None => _JR 404 NotFound
  | Ok (Some (e, ps)) => invoke e (call_kwargs e ps)
  end.

Lemma dispatch_spec rs method path :
  Forall cache_ok rs ->
  let '(rs', o) := _dispatch_to_subapp_route rs method path in
  Forall cache_ok rs' /\ forget <$> rs' = forget <$> rs /\ o = answer_of rs method path.
Proof.
  intros Hrs. unfold _dispatch_to_subapp_route, answer_of.
  destruct (find_route_spec rs (upper method) path Hrs) as (H1 & H2 & H3). rewrite <-H3.
  destruct (find_route rs (upper method) path) as [rs' [[[r ps]|]|e]]; done.
Qed.

(** The requests of a session, one after the other on the same routes. *)
Fixpoint serve_all (rs : list route) (reqs : list (text * text)) : list outcome :=
  match reqs with
  | [] => []
  | (method, path) :: reqs' =>
      let '(rs', o) := _dispatch_to_subapp_route rs method path in o :: serve_all rs' reqs'
  end.

(** C27: the expressions cached on the routes never show: whatever requests a
    sub-application has served, each is answered as by a scan of the routes in
    order that compiles every path anew, the first route with the method and a
    matching path wins, and what it raises or returns becomes the response. *)
Theorem cached_dispatch_is_stateless rs reqs :
  Forall cache_ok rs ->
  serve_all rs reqs = (fun q => answer_of rs q.1 q.2) <$> reqs.
Proof.
  revert rs. induction reqs as [|[method path] reqs IH]; intros rs Hrs; [done|]. cbn.
  pose proof (dispatch_spec rs method path Hrs) as H.
  destruct (_dispatch_to_subapp_route rs method path) as [rs' o]. destruct H as (H1 & H2 & ->).
  rewrite IH by done. f_equal. apply list_fmap_ext. intros i [m p] _. unfold answer_of. cbn.
  by rewrite (first_serving_forget rs' rs _ _ H2).
Qed.

(** *** Path parameters *)

Lemma call_kwargs_zip e ns vs :
  call_kwargs e (zip ns vs) =
  zip_with (fun n v => (n, match (if e_inspectable e then annotation_of (e_params e) n else None) with
                           | Some a => coerce_to a v | None => Text v end)) ns vs.
Proof.
  revert vs. induction ns as [|n ns IH]; intros [|v vs]; try done. cbn. f_equal. apply IH.
Qed.

Lemma coerce_int z : coerce_to AInt (dec z) = Int z.
Proof. unfold coerce_to. by rewrite (py_int_dec is_space_latin1) by auto with turbo. Qed.

(** Values of path parameters, as a client writes them into the path. *)
Inductive pvalue := PInt (z : Z) | PText (t : text).

Definition print (v : pvalue) : text := match v with PInt z => dec z | PText t => t end.
Definition meant (v : pvalue) : arg := match v with PInt z => Int z | PText t => Text t end.

(** The annotations go with the values. *)
Definition agrees (e : endpoint) (n : text) (v : pvalue) : Prop :=
  annotation_of (e_params e) n = Some (match v with PInt _ => AInt | PText _ => AOther end).

Lemma call_kwargs_typed e ns vs :
  e_inspectable e = true -> Forall2 (agrees e) ns vs ->
  call_kwargs e (zip ns (print <$> vs)) = zip ns (meant <$> vs).
Proof.
  intros He. rewrite call_kwargs_zip, He. induction 1 as [|n v ns vs Hv _ IH]; [done|].
  cbn. rewrite IH. f_equal. f_equal. rewrite Hv. destruct v; [apply coerce_int|done].
Qed.

(** the round trip of a path: a path built from a route's template and
    values for its parameters, integers in decimal, is answered by the first
    route with that template (no earlier one serves it), whose endpoint is
    called with exactly these values. *)
Theorem built_path_reaches_endpoint earlier r later method p l vs :
  Forall (fun r' => serves r' (upper method) (Templates.fill l (print <$> vs)) = Ok None) earlier ->
  r_path r = Some p -> p <> [] -> upper method ∈ upper <$> r_methods r ->
  Templates.compile p = Some l -> Templates.separated l = true ->
  Templates.fits l (print <$> vs) ->
  e_inspectable (r_endpoint r) = true -> Forall2 (agrees (r_endpoint r)) (Templates.names l) vs ->
  answer_of (earlier ++ r :: later) method (Templates.fill l (print <$> vs)) =
  invoke (r_endpoint r) (zip (Templates.names l) (meant <$> vs)).
Proof.
  intros Hearlier Hp Hne Hm Hc Hsep Hfit He Hag. unfold answer_of.
  assert (first_serving (earlier ++ r :: later) (upper method) (Templates.fill l (print <$> vs)) =
          Ok (Some (r_endpoint r, zip (Templates.names l) (print <$> vs)))) as ->.
  { induction Hearlier as [|r' earlier Hr' _ IH]; cbn; [|by rewrite Hr'].
    unfold serves, attempt. cbn. rewrite Hp. destruct p as [|c p]; [done|].
    rewrite bool_decide_eq_true_2 by done. rewrite Hc. cbn.
    by rewrite (Templates.rmatch_separated l) by done. }
  by rewrite call_kwargs_typed.
Qed.

(** *** What the dispatcher leaves out *)

Lemma bind_params_default ps kw vs p d :
  bind_params ps kw = Some vs -> p ∈ ps -> p_kind p = ByName -> p_default p = Some d ->
  get (p_name p) kw = None -> (p_name p, Default d) ∈ vs.
Proof.
  revert vs. induction ps as [|q ps IH]; intros vs Hb Hp Hk Hd Hg; [by apply elem_of_nil in Hp|].
  cbn in Hb. apply elem_of_cons in Hp as [->|Hp].
  - rewrite Hk, Hg, Hd in Hb. destruct (bind_params ps kw); [|done]. injection Hb as <-. left.
  - destruct (match p_kind q with ByName => _ | _ => _ end); [|done].
    destruct (bind_params ps kw) as [l'|]; [|done]. injection Hb as <-.
    apply elem_of_app. right. by apply IH.
Qed.

Lemma get_names n kw : n ∉ kw.*1 -> get n kw = None.
Proof.
  intros Hn. unfold get. rewrite (proj2 (list_find_None _ _)); [done|].
  apply Forall_forall. intros x Hx <-. apply Hn. by apply list_elem_of_fmap_2.
Qed.

Lemma call_kwargs_names e ps : (call_kwargs e ps).*1 = ps.*1.
Proof. unfold call_kwargs. rewrite <-list_fmap_compose. by apply list_fmap_ext. Qed.

(** the dispatcher calls the endpoint with the path parameters alone: a
    parameter declared by a marker ([Depends(...)], [Security(...)],
    [Header(...)]) that is no path parameter is given the marker object itself,
    nothing is resolved and no check behind it runs, yet the endpoint does. *)
Theorem markers_reach_the_endpoint e matched p n bound :
  p ∈ e_params e -> p_kind p = ByName -> p_default p = Some (Marker n) -> p_name p ∉ matched.*1 ->
  bind (e_params e) (call_kwargs e matched) = Some bound ->
  (p_name p, Default (Marker n)) ∈ bound.
Proof.
  intros Hp Hk Hd Hn. unfold bind.
  destruct (bind_params (e_params e) _) as [l|] eqn:E; [|done].
  assert ((p_name p, Default (Marker n)) ∈ l) as Hl.
  { eapply bind_params_default; [exact E|done..|]. apply get_names. by rewrite call_kwargs_names. }
  destruct (has_kind VarKeyword (e_params e)).
  - intros [= <-]. apply elem_of_app. by left.
  - destruct (filter _ _); [|done]. by intros [= <-].
Qed.

End Dispatch.

(** ** The dispatcher in the middleware chain *)

Definition accepts (hn h : text) : bool :=
  bool_decide (lower hn = h) ||
  negb (bool_decide ("."%char ∈ lower hn)) && bool_decide ((partition_at "." h).1 = lower hn).

Lemma match_host_find hs h :
  Middleware.match_host hs h =
  match hs with
  | [] => None
  | (hn, Some a) :: hs' => if accepts hn h then Some a else Middleware.match_host hs' h
  | (_, None) :: hs' => Middleware.match_host hs' h
  end.
Proof.
  destruct hs as [|[hn [a|]] hs]; [done| |done]. cbn. unfold accepts.
  by repeat case_bool_decide.
Qed.

(** A request is for a sub-application exactly when some registered host accepts
    its header, and then it is for the first such, registered with an
    application. *)
Lemma match_host_first hs h a :
  Middleware.match_host hs h = Some a <->
  exists l hn l', hs = l ++ (hn, Some a) :: l' /\ accepts hn h = true /\
    Forall (fun e => e.2 = None \/ accepts e.1 h = false) l.
Proof.
  split.
  - induction hs as [|[hn [b|]] hs IH]; [done|..]; rewrite match_host_find.
    + destruct (accepts hn h) eqn:E.
      * intros [= ->]. by exists [], hn, hs.
      * intros (l & hn' & l' & -> & ? & ?)%IH. exists ((hn, Some b) :: l), hn', l'.
        split_and!; [done|done|]. constructor; [by right|done].
    + intros (l & hn' & l' & -> & ? & ?)%IH. exists ((hn, None) :: l), hn', l'.
      split_and!; [done|done|]. constructor; [by left|done].
  - intros (l & hn & l' & -> & Ha & Hl). induction Hl as [|[hn' [b|]] l Hx _ IH];
      cbn [Datatypes.app]; rewrite match_host_find.
    + by rewrite Ha.
    + cbn in Hx. destruct Hx as [?|Hx]; [done|]. by rewrite Hx.
    + exact IH.
Qed.

Section Chain.

Variable mro : Exceptions.cls -> list Exceptions.cls.
Variable HTTPException_ : Exceptions.cls.
Variable type_error : Exceptions.exc.
Variable jsonable_error json_error : Middleware.data -> option Exceptions.exc.

(** The chain of a main application: its exception handlers, endpoint and
    request. *)
Local Notation run_chain H ep q :=
  (Middleware._run_chain mro HTTPException_ type_error jsonable_error H ep q).
Local Notation wrapped H ep q :=
  (Middleware.wrapped_sync mro HTTPException_ type_error jsonable_error json_error H ep q).

Variable s : Middleware.mst.
Variable header : option text.
Variable subapp : nat -> Middleware.outcome.

Let dispatcher : Middleware.mw := Middleware.AsyncFunction (_host_dispatch s header subapp).

Lemma after_nil (r : list Middleware.event * Middleware.outcome) : Middleware.after r.1 ([], r.2) = r.
Proof. destruct r. unfold Middleware.after. cbn. by rewrite app_nil_r. Qed.

Lemma dispatcher_next next :
  host_target s header = CallNext_ ->
  Middleware.drive next (_host_dispatch s header subapp) = next /\
  Middleware.run_on_loop next (_host_dispatch s header subapp) = next.
Proof.
  intros H. unfold _host_dispatch. rewrite H. cbn.
  destruct next as [t [v|x]]; cbn; unfold Middleware.after; cbn; by rewrite app_nil_r.
Qed.

Lemma dispatcher_subapp next n :
  host_target s header = ToSubApp n ->
  Middleware.drive next (_host_dispatch s header subapp) = ([], subapp n) /\
  Middleware.run_on_loop next (_host_dispatch s header subapp) = ([], subapp n).
Proof.
  intros H. unfold _host_dispatch. rewrite H. by destruct (subapp n).
Qed.

Lemma chain_next H ep q ms :
  host_target s header = CallNext_ ->
  run_chain H ep q (ms ++ [dispatcher]) = run_chain H ep q ms.
Proof.
  intros Ht. induction ms as [|[p|p|b] ms IH]; cbn; [by apply dispatcher_next|by rewrite IH..|done].
Qed.

Lemma build_next ep stamped ms :
  host_target s header = CallNext_ ->
  Middleware.build type_error json_error ep stamped (ms ++ [dispatcher]) =
  Middleware.build type_error json_error ep stamped ms.
Proof.
  intros Ht. induction ms as [|[p|p|b] ms IH]; cbn; [by apply dispatcher_next|by rewrite IH|done..].
Qed.

(** a request whose host is not registered is served as if [host] had
    never been called: whatever the other middlewares, the endpoint and the
    request are, the chain with the dispatcher in it has the same effects and
    the same outcome, on the synchronous drive and on the event loop it falls
    back to. *)
Theorem other_hosts_pass_through H ep q ms :
  host_target s header = CallNext_ ->
  wrapped H ep q (ms ++ [dispatcher]) = wrapped H ep q ms.
Proof.
  intros Ht. unfold Middleware.wrapped_sync, Middleware._drive_async_fallback.
  rewrite (chain_next H ep q ms) by done.
  destruct (run_chain H ep q ms) as [t [v|[|e|n]]]; try done. by rewrite build_next.
Qed.

Lemma build_subapp ep ep' stamped stamped' ms n :
  host_target s header = ToSubApp n ->
  Middleware.build type_error json_error ep stamped (ms ++ [dispatcher]) =
  Middleware.build type_error json_error ep' stamped' (ms ++ [dispatcher]).
Proof.
  intros Ht. induction ms as [|[p|p|b] ms IH]; cbn; [|by rewrite IH|done..].
  by rewrite !(proj2 (dispatcher_subapp _ n Ht)).
Qed.

Lemma chain_subapp H H' ep ep' q q' ms n :
  host_target s header = ToSubApp n ->
  run_chain H ep q (ms ++ [dispatcher]) = run_chain H' ep' q' (ms ++ [dispatcher]).
Proof.
  intros Ht. induction ms as [|[p|p|b] ms IH]; cbn; [|by rewrite IH..|done].
  by rewrite !(proj1 (dispatcher_subapp _ n Ht)).
Qed.

(** a request for a registered host never reaches the main application:
    the outcome does not depend on the endpoint the main application would have
    run, on its exception handlers, or on the errors the engine found in the
    request's parameters; the middlewares of the main application do run, all of
    them outside the dispatcher. *)
Theorem main_application_is_not_consulted H H' ep ep' q q' ms n :
  host_target s header = ToSubApp n -> Middleware.q_tasks q = Middleware.q_tasks q' ->
  wrapped H ep q (ms ++ [dispatcher]) = wrapped H' ep' q' (ms ++ [dispatcher]).
Proof.
  intros Ht Hq. unfold Middleware.wrapped_sync, Middleware._drive_async_fallback.
  rewrite (chain_subapp H H' ep ep' q q' ms n Ht).
  destruct (run_chain H' ep' q' _) as [t [v|[|e|k]]]; unfold Middleware.finally; rewrite ?Hq; try done.
  by rewrite (build_subapp ep ep' (Middleware.adopted t) (Middleware.adopted t) ms n Ht).
Qed.

End Chain.

(** ** An ASGI application run to a response *)

(** A message an application sends; [None] where the key is missing. *)
Inductive message :=
| Start (status : option Z) (headers : list (bytes * bytes))
| Body (chunk : option bytes)
| OtherMessage (ty : text).

(** What it receives. *)
Inductive event := Request (body : bytes) (more_body : bool) | Disconnect.

(** An application called with a scope: it receives, sends, returns or raises. *)
Inductive asgi :=
| Done
| Fails (e : exn)
| Receive (k : event -> asgi)
| Send (m : message) (k : asgi).

Record collected := { c_status : Z; c_headers : list (bytes * bytes); c_body : list bytes }.

Definition collected0 : collected := {| c_status := 200; c_headers := []; c_body := [] |}.

Definition _receive (body_bytes : bytes) (sent_body : bool) : event * bool :=
  if sent_body then (Disconnect, true) else (Request body_bytes false, true).

Definition _send (c : collected) (m : message) : collected :=
  match m with
  | Start st hs => {| c_status := default 200 st; c_headers := hs; c_body := c_body c |}
  | Body b => match default [] b with
              | [] => c
              | chunk => {| c_status := c_status c; c_headers := c_headers c; c_body := c_body c ++ [chunk] |}
              end
  | OtherMessage _ => c
  end.

Fixpoint run_app (a : asgi) (body_bytes : bytes) (sent_body : bool) (c : collected) : res collected :=
  match a with
  | Done => Ok c
  | Fails e => Raise e
  | Receive k => let '(ev, b) := _receive body_bytes sent_body in run_app (k ev) body_bytes b c
  | Send m k => run_app k body_bytes sent_body (_send c m)
  end.

Record http_response := { h_status : Z; h_headers : list (text * bytes); h_content : bytes }.

(** [_response_from_asgi_messages]: the body at once, the headers appended in
    order, names in lower case as [MutableHeaders] keeps them. *)
Definition _response_from_asgi_messages (c : collected) : http_response :=
  {| h_status := c_status c; h_headers := (fun p => (lower p.1, p.2)) <$> c_headers c;
     h_content := mjoin (c_body c) |}.

Definition _run_asgi_http_app_to_response (a : asgi) (body_bytes : bytes) : res http_response :=
  res_bind (run_app a body_bytes false collected0) (fun c => Ok (_response_from_asgi_messages c)).

(** An endpoint of a Starlette route: a class with [HTTPEndpoint] in its MRO, or a
    callable whose result may be awaitable. *)
Inductive starlette_endpoint :=
| EClass (mro_names : list text) (app : asgi) (instance : res nat)
| ECallable (awaitable : bool) (r : res nat).

Definition _is_http_endpoint_class (e : starlette_endpoint) : bool :=
  match e with
  | EClass names _ _ => bool_decide (lit "HTTPEndpoint" ∈ names)
  | ECallable _ _ => false
  end.

Definition _run_starlette_http_endpoint (e : starlette_endpoint) (body_bytes : bytes)
    : res (http_response + nat) :=
  match e with
  | EClass _ app instance =>
      if _is_http_endpoint_class e
      then res_bind (_run_asgi_http_app_to_response app body_bytes) (fun r => Ok (inl r))
      else res_bind instance (fun n => Ok (inr n))
  | ECallable _ r => res_bind r (fun n => Ok (inr n))
  end.

(** [_mounted_route_asgi_app]: the route's own application, an application made
    of its routes, or none. *)
Inductive mounted := OwnApp (n : nat) | AppOfRoutes (routes : list nat).

Definition _mounted_route_asgi_app (app : option nat) (routes : list nat) : option mounted :=
  match app with
  | Some n => Some (OwnApp n)
  | None => match routes with [] => None | _ => Some (AppOfRoutes routes) end
  end.

(** The messages an application sends when it gets the body once and then a
    disconnect; [None] if it raises. *)
Fixpoint sent (a : asgi) (evs : list event) : option (list message) :=
  match a with
  | Done => Some []
  | Fails _ => None
  | Send m k => cons m <$> sent k evs
  | Receive k => match evs with
                 | ev :: evs' => sent (k ev) evs'
                 | [] => sent (k Disconnect) []
                 end
  end.

Definition last_start (ms : list message) : option (Z * list (bytes * bytes)) :=
  last (omap (fun m => match m with Start s h => Some (default 200 s, h) | _ => None end) ms).

Definition chunks (ms : list message) : list bytes :=
  omap (fun m => match m with Body b => Some (default [] b) | _ => None end) ms.

Lemma run_app_sent a body (b : bool) c :
  match sent a (if b then [] else [Request body false]) with
  | Some ms => run_app a body b c = Ok (fold_left _send ms c)
  | None => exists e, run_app a body b c = Raise e
  end.
Proof.
  revert b c. induction a as [|e|k IH|m k IH]; intros b c; cbn; [done|by eexists| |].
  - destruct b; cbn; [apply (IH Disconnect true)|apply (IH (Request body false) true)].
  - specialize (IH b (_send c m)). destruct (sent k _); cbn; done.
Qed.

Lemma fold_send ms c :
  c_status (fold_left _send ms c) = default (c_status c) (fst <$> last_start ms) /\
  c_headers (fold_left _send ms c) = default (c_headers c) (snd <$> last_start ms) /\
  mjoin (c_body (fold_left _send ms c)) = mjoin (c_body c) ++ mjoin (chunks ms).
Proof.
  revert c. induction ms as [|m ms IH]; intros c; cbn [fold_left]; [by cbn; rewrite app_nil_r|].
  destruct (IH (_send c m)) as (H1 & H2 & H3). rewrite H1, H2, H3. unfold last_start, chunks in *.
  destruct m as [st hs|[[|x b]|]|ty]; cbn; try done.
  - rewrite last_cons. by destruct (last _).
  - rewrite join_app. cbn. by rewrite app_nil_r, <-app_assoc.
Qed.

(** an ASGI application that gets through is answered by what it sent:
    the status and headers of its last start message and all the chunks of its
    bodies in order; it gets the request's body once and then disconnects only,
    and what it raises is passed on. *)
Theorem asgi_response_is_what_was_sent a body :
  match sent a [Request body false] with
  | Some ms => exists r, _run_asgi_http_app_to_response a body = Ok r /\
      h_status r = default 200 (fst <$> last_start ms) /\
      h_headers r = (fun p : bytes * bytes => (lower p.1, p.2)) <$> default [] (snd <$> last_start ms) /\
      h_content r = mjoin (chunks ms)
  | None => exists e, _run_asgi_http_app_to_response a body = Raise e
  end.
Proof.
  unfold _run_asgi_http_app_to_response. pose proof (run_app_sent a body false collected0) as H. cbn in H.
  destruct (sent a _) as [ms|]; [rewrite H|destruct H as [e ->]; by eexists].
  destruct (fold_send ms collected0) as (H1 & H2 & H3). eexists. split; [done|]. cbn.
  by rewrite H1, H2, H3.
Qed.

(** ** Witnesses *)

Definition param0 (n : string) (a : annotation) (d : option default_value) : parameter :=
  {| p_name := lit n; p_kind := ByName; p_ann := a; p_default := d |}.

(** An endpoint [item_id: int, user = Depends(...)] that returns a dict when it
    is called with 7. *)
Definition endpoint0 : @endpoint nat :=
  {| e_async := true; e_inspectable := true;
     e_params := [param0 "item_id" AInt None; param0 "user" AOther (Some (Marker 1))];
     e_run := fun vs => match vs with
                        | [(_, Int 7); (_, Default (Marker 1))] => inl (RDict 1)
                        | _ => inr (HTTPException 401 2 [])
                        end |}.

Definition route0 : @route nat :=
  {| r_path := Some (lit "/items/{item_id}"); r_methods := [lit "get"]; r_endpoint := endpoint0;
     r_settable := true; r_regex := None |}.

Definition ping0 : @route nat :=
  {| r_path := Some (lit "/ping"); r_methods := [lit "GET"]; r_endpoint := endpoint0;
     r_settable := false; r_regex := None |}.

Definition items0 : list Templates.item := Templates.items 0 "/items/{item_id}".

Definition no_float (t : text) : option nat := None.

Lemma cached_dispatch_is_stateless_witness :
  serve_all no_float (fun n => Ok n) (fun _ => None) [ping0; route0]
    [(lit "get", lit "/items/7"); (lit "GET", lit "/items/x"); (lit "get", lit "/items/7"); (lit "POST", lit "/ping")] =
  [Answer (JSON 200 (Raw (RDict 1))); Answer (JSON 401 (Detail 2)); Answer (JSON 200 (Raw (RDict 1)));
   Answer (JSON 404 NotFound)].
Proof.
  rewrite (cached_dispatch_is_stateless no_float (fun n => Ok n) (fun _ => None) [ping0; route0]);
    [vm_compute; reflexivity|]. repeat constructor.
Defined.

Lemma built_path_reaches_endpoint_witness :
  answer_of no_float (fun n => Ok n) (fun _ => None) [ping0; route0] "get" "/items/7" =
  invoke (fun n => Ok n) (fun _ => None) endpoint0 [(lit "item_id", Int 7)].
Proof.
  apply (built_path_reaches_endpoint no_float (fun n => Ok n) (fun _ => None) [ping0] route0 [] "get"
    "/items/{item_id}" items0 [PInt 7]).
  - constructor; [vm_compute; reflexivity|constructor].
  - reflexivity.
  - discriminate.
  - vm_compute. left.
  - vm_compute. reflexivity.
  - vm_compute. reflexivity.
  - vm_compute. split; [discriminate|]. split; [reflexivity|exact I].
  - reflexivity.
  - vm_compute. constructor; [reflexivity|constructor].
Defined.

Lemma markers_reach_the_endpoint_witness :
  (lit "user", @Default nat (Marker 1)) ∈ [(lit "item_id", Int 7); (lit "user", Default (Marker 1))].
Proof.
  apply (markers_reach_the_endpoint no_float endpoint0 [(lit "item_id", lit "7")]
    (param0 "user" AOther (Some (Marker 1))) 1).
  - right. left.
  - reflexivity.
  - reflexivity.
  - vm_compute. intros H. inversion H as [|? ? ? H']; subst. inversion H'.
  - vm_compute. reflexivity.
Defined.

(** An application with the host [api] registered for the sub-application 5. *)
Definition hosts0 : Middleware.mst :=
  match Middleware.host Middleware.mst0 (Some (lit "api")) (Some 5%nat) with Ok s => s | Raise _ => Middleware.mst0 end.

Example host_ex :
  host_target hosts0 (Some (lit "API.example.org:8000")) = ToSubApp 5 /\
  host_target hosts0 (Some (lit "www.example.org")) = CallNext_ /\
  host_target hosts0 None = CallNext_.
Proof. vm_compute. done. Qed.

Lemma main_application_is_not_consulted_witness :
  forall subapp,
  Middleware.wrapped_sync Exceptions.mro0 3%nat Middleware.type_error0 Middleware.no_error Middleware.no_error []
    (Middleware.ep0 true true) Middleware.request0
    ([] ++ [Middleware.AsyncFunction (_host_dispatch hosts0 (Some (lit "api")) subapp)]) =
  Middleware.wrapped_sync Exceptions.mro0 3%nat Middleware.type_error0 Middleware.no_error Middleware.no_error []
    (Middleware.ep0 false false) Middleware.request0
    ([] ++ [Middleware.AsyncFunction (_host_dispatch hosts0 (Some (lit "api")) subapp)]).
Proof.
  intros subapp.
  apply (main_application_is_not_consulted Exceptions.mro0 3%nat Middleware.type_error0 Middleware.no_error
    Middleware.no_error hosts0 (Some (lit "api")) subapp [] [] _ _ _ _ [] 5); reflexivity.
Defined.

End HostRouting.
