(* ===== verification/Register.v ===== *)
(** How a collected route becomes a [RouteInfo] of the Rust router
    (applications.py: [_route_obj_reusable], [_adapter_route_info],
    [_delegated_route_info], the loop of [_build_server_args]).  The adapter's
    parameters are those of [Adapter]; the middlewares are the registrations of
    [Middleware], which [Door] composes into its outer chain where it must. *)

From S2P Require Import Prelude Templates Middleware Lifespan Mounts Door Adapter.

Module Register.

(** ** Routes and what the registration reads of them *)

Inductive gen_kind := NoGen | SyncGen | AsyncGen.

(** An endpoint; [ep_sig] has the names of its parameters with whether they are
    variadic, and is [None] where [inspect.signature] raises. *)
Record endpoint := {
  ep_id : nat;
  ep_gen : gen_kind;
  ep_async : bool;                         (* [_callable_is_async] *)
  ep_clone_type : bool;                    (* [_signature_uses_clone_framework_type] *)
  ep_sig : option (list (text * bool)) }.

(** A route object; dependencies, classes and models are compared by identity. *)
Record route := {
  ro_id : nat;
  ro_path : text;
  ro_endpoint : option endpoint;
  ro_dependencies : list nat;
  ro_response_class : option nat;          (* after [_unset_to_none] *)
  ro_response_model : option nat;
  ro_status : option Z;
  ro_settings : nat }.                     (* the [response_model_*] settings *)

(** A dict of [_collect_all_routes]. *)
Record rdict := {
  rd_path : text;
  rd_methods : list text;
  rd_websocket : bool;
  rd_from_mount : bool;
  rd_door_exclude : bool;
  rd_route_obj : option route;
  rd_status : option Z;
  rd_dependencies : list nat;              (* [_combined_dependencies] *)
  rd_response_class : option nat;
  rd_response_model : option nat;
  rd_lax : bool;
  rd_endpoint : nat;
  rd_endpoint_door : option nat;
  rd_is_async : bool;
  rd_handler_name : text;
  rd_params : list nat }.

(** The arguments of real FastAPI's [APIRoute]. *)
Record args := {
  a_path : text;
  a_endpoint : endpoint;
  a_methods : list text;
  a_dependencies : list nat;
  a_response_model : option nat;
  a_status : option Z;
  a_response_class : option nat;           (* [None]: [Default(JSONResponse)] *)
  a_settings : nat }.

(** The route object itself, or one built anew. *)
Inductive real := Live (r : route) | Rebuilt (a : args).

(** A handler, layer by layer. *)
Inductive handler :=
| Built (r : real) (ctx_path : text)       (* [build_handler] *)
| Stream (e : endpoint) (model cls : option nat)
                                           (* [_build_stream_handler] *)
| Delegated (r : real) (apm defer : bool)  (* real FastAPI's own handler *)
| RawEndpoint (n : nat)                    (* [rd["endpoint"]] *)
| SyncCaller (h : handler)                 (* [_make_sync_wrapper] *)
| Catching (h : handler)                   (* [_wrap_with_exception_handlers] *)
| CatchingAsync (h : handler)              (* its asynchronous twin *)
| Chain (ms : list Middleware.http_mw) (h : handler).
                                           (* [_wrap_with_http_middlewares] *)

Inductive params :=
| Flat (ps : list Adapter.param)
| InjectRequest
| RawParams (ps : list nat).

Definition served : Type := params * handler * bool.

Record route_info := {
  i_path : text;
  i_methods : list text;
  i_handler : handler;
  i_async : bool;
  i_name : text;
  i_params : params;
  i_websocket : bool;
  i_lax : bool;
  i_status : option Z }.

Record app := {
  ap_id : nat;
  ap_overrides : bool;                     (* [dependency_overrides] is not empty *)
  ap_catches : bool;                       (* so is [exception_handlers] *)
  ap_mw : Middleware.mst }.

(** The process: a routing patch of an APM, [FASTAPI_TURBO_DELEGATE=0],
    [FASTAPI_TURBO_ASYNC_INLINE]. *)
Record env := { e_patched : bool; e_delegate_off : bool; e_inline : bool }.

(** [_fastapi_turbo_is_asgi_shim] *)
Definition is_shim (m : Middleware.http_mw) : bool :=
  match m with Middleware.Shim _ => true | _ => false end.

(** The middlewares a handler is wrapped with. *)
Definition inner_mws (mix : bool) (a : app) : list Middleware.http_mw :=
  let all := Middleware.http_middlewares (ap_mw a) in
  if mix then filter (fun m => is_shim m = false) all else all.

(** [_route_obj_reusable] *)
Definition _route_obj_reusable (rd : rdict) (r : route) (allow_prefixed : bool) : bool :=
  (bool_decide (rd_path rd = ro_path r) ||
   allow_prefixed && ends_with (ro_path r) (rd_path rd) &&
   negb (bool_decide ("{"%char ∈ slice (rd_path rd) 0 (zlen (rd_path rd) - zlen (ro_path r))))) &&
  bool_decide (rd_dependencies rd = ro_dependencies r) &&
  bool_decide (rd_response_class rd = ro_response_class r) &&
  bool_decide (rd_response_model rd = ro_response_model r).

Definition http_verbs : list text :=
  [lit "GET"; lit "POST"; lit "PUT"; lit "PATCH"; lit "DELETE"; lit "OPTIONS"; lit "HEAD"; lit "TRACE"].

Definition custom_status (s : option Z) : option Z :=
  match s with Some 200 => None | s => s end.

(** The arguments both rebuilds pass; the adapter drops a generator's model. *)
Definition rebuild_args (drop_model : bool) (rd : rdict) (r : route) (e : endpoint) : args :=
  {| a_path := rd_path rd; a_endpoint := e;
     a_methods := match filter (fun m => m ∈ http_verbs) (rd_methods rd) with
                  | [] => rd_methods rd | l => l end;
     a_dependencies := rd_dependencies rd;
     a_response_model := if drop_model then None else rd_response_model rd;
     a_status := custom_status (rd_status rd);
     a_response_class := rd_response_class rd;
     a_settings := ro_settings r |}.

Section Registration.

(** Real FastAPI: the dependants of a route object, the construction of a new
    one, and [get_route_handler]. *)
Variable own : route -> Adapter.route.
Variable construct : args -> res Adapter.route.
Variable get_route_handler : real -> res unit.
(** [id], [hash], and what a handler's source says ([Drive]); whether a handler
    takes attributes. *)
Variable address : nat -> Z.
Variable hash : list text -> text -> Z.
Variable suspends : handler -> bool.
Variable settable : handler -> bool.
Variable en : env.

Definition dependants (r : real) : res Adapter.route :=
  match r with Live x => Ok (own x) | Rebuilt a => construct a end.

Definition catching (a : app) (h : handler) : handler := if ap_catches a then Catching h else h.
Definition catching_async (a : app) (h : handler) : handler :=
  if ap_catches a then CatchingAsync h else h.

Definition chain (ms : list Middleware.http_mw) (h : handler) : handler :=
  match ms with [] => h | _ => Chain ms h end.

Definition is_gen (e : endpoint) : bool := match ep_gen e with NoGen => false | _ => true end.

Definition is_dependency (p : Adapter.param) : bool :=
  match Adapter.p_what p with Adapter.Dependency _ _ _ _ _ _ => true | _ => false end.

Definition name_of (p : Adapter.param) : text := Adapter.key_text (Adapter.p_key p).

(** A leaked variadic input of a dependency. *)
Definition leaked (p : Adapter.param) : bool :=
  ends_with "__kwargs" (name_of p) || ends_with "__args" (name_of p).

Definition no_http_mws (a : app) : bool :=
  bool_decide (Middleware.http_middlewares (ap_mw a) = []).

(** ** [_adapter_route_info] *)

(** The tail: how the adapter's handler is wrapped. *)
Definition wrap_adapted (a : app) (mix : bool) (is_coroutine : bool) (ps : list Adapter.param)
    (h : handler) : served :=
  let classic h' := (Flat ps, chain (inner_mws mix a) (catching a h'), false) in
  if is_coroutine then
    let inline := catching_async a h in
    if e_inline en && no_http_mws a && negb (existsb is_dependency ps) && suspends h && settable inline
    then (Flat ps, inline, true)
    else classic (SyncCaller h)
  else classic h.

Definition sig_names (e : endpoint) : option (list text) :=
  (fun l => (filter (fun p : text * bool => p.2 = false) l).*1) <$> ep_sig e.

Definition same_names (l l' : list text) : bool :=
  forallb (fun n => bool_decide (n ∈ l')) l && forallb (fun n => bool_decide (n ∈ l)) l'.

(** The route object the adapter reads. *)
Definition adapter_source (rd : rdict) (r : route) (e : endpoint) : real :=
  if _route_obj_reusable rd r true then Live r else Rebuilt (rebuild_args (is_gen e) rd r e).

Definition _adapter_route_info (a : app) (mix : bool) (rd : rdict) : option served :=
  if rd_websocket rd || rd_from_mount rd then None
  else if e_patched en then None
  else if ap_overrides a then None
  else match rd_route_obj rd with
  | None => None
  | Some r =>
      match ro_endpoint r with
      | None => None
      | Some e =>
          if bool_decide (custom_status (rd_status rd) <> None) && negb (no_http_mws a) then None
          else if ep_clone_type e then None
          else
            let source := adapter_source rd r e in
            match dependants source with
            | Raise _ => None
            | Ok d =>
                match Adapter.extract_params_from_route true address hash d with
                | None => None
                | Some ps =>
                    let h := if is_gen e then Stream e (rd_response_model rd) (rd_response_class rd)
                             else Built source (rd_path rd) in
                    if existsb leaked ps then None
                    else match sig_names e with
                    | None => None
                    | Some names =>
                        if negb (same_names (name_of <$> Adapter.handler_entries ps) names) then None
                        else if bool_decide (inner_mws mix a <> []) && existsb is_dependency ps then None
                        else Some (wrap_adapted a mix (negb (is_gen e) && ep_async e) ps h)
                    end
                end
            end
      end
  end.

(** ** [_delegated_route_info] *)

(** [inspect.isasyncgenfunction(call)] is the flag [d_async_gen] of the
    dependant. *)
Fixpoint _has_async_gen_dep (d : Adapter.dependant) : bool :=
  let 'Adapter.Dep info subs := d in Adapter.d_async_gen info || existsb _has_async_gen_dep subs.

(** The wrapping; deferral of teardowns is enabled when the chain is there to
    drain them. *)
Definition wrap_delegated (a : app) (mix : bool) (source : real) : served :=
  let h0 defer := Delegated source (e_patched en) defer in
  let inline := catching_async a (h0 false) in
  if e_inline en && no_http_mws a && settable inline then (InjectRequest, inline, true)
  else
    let ms := inner_mws mix a in
    (InjectRequest,
     chain ms (catching a (SyncCaller (h0 (bool_decide (ms <> []))))), false).

(** [dependency_overrides_provider] of the route objects, which applications
    share: none, or this application. *)
Definition provider_ok (a : app) (r : route) (pv : gmap nat nat) : bool :=
  match pv !! ro_id r with Some p => bool_decide (p = ap_id a) | None => true end.

(** The result with the providers; [Raise] only under [force]. *)
Definition _delegated_route_info (a : app) (mix force : bool) (rd : rdict) (pv : gmap nat nat)
    : res (option served) * gmap nat nat :=
  let on_error x := if force then Raise x else Ok None in
  if negb force && negb (ap_overrides a) && e_delegate_off en then (Ok None, pv)
  else if rd_websocket rd then (Ok None, pv)
  else if rd_from_mount rd && negb force then (Ok None, pv)
  else match rd_route_obj rd with
  | None => (Ok None, pv)
  | Some r =>
      match ro_endpoint r with
      | None => (Ok None, pv)
      | Some e =>
          if (match ep_gen e with SyncGen => true | _ => false end) && negb force then (Ok None, pv)
          else
            let source := if _route_obj_reusable rd r false && provider_ok a r pv then Live r
                          else Rebuilt (rebuild_args false rd r e) in
            match dependants source with
            | Raise x => (on_error x, pv)
            | Ok d =>
                if _has_async_gen_dep (Adapter.r_dependant d) && negb force then (Ok None, pv)
                else
                  let pv' := match source with
                             | Live r' => <[ ro_id r' := ap_id a ]> pv
                             | Rebuilt _ => pv
                             end in
                  match get_route_handler source with
                  | Raise x => (on_error x, pv')
                  | Ok _ => (Ok (Some (wrap_delegated a mix source)), pv')
                  end
            end
      end
  end.

(** ** The loop of [_build_server_args] *)

Definition info_of (rd : rdict) (s : served) : route_info :=
  let '(ps, h, is_async) := s in
  {| i_path := rd_path rd; i_methods := rd_methods rd; i_handler := h; i_async := is_async;
     i_name := rd_handler_name rd; i_params := ps; i_websocket := false;
     i_lax := rd_lax rd && settable h; i_status := rd_status rd |}.

Definition raw_info (mix : bool) (rd : rdict) : route_info :=
  {| i_path := rd_path rd; i_methods := rd_methods rd;
     i_handler := RawEndpoint (match mix, rd_endpoint_door rd with
                               | true, Some n => n | _, _ => rd_endpoint rd end);
     i_async := rd_is_async rd; i_name := rd_handler_name rd; i_params := RawParams (rd_params rd);
     i_websocket := rd_websocket rd; i_lax := false; i_status := None |}.

(** One route: the adapter, the delegation, the forced delegation. *)
Definition serve_route (a : app) (mix : bool) (rd : rdict) (pv : gmap nat nat)
    : res (option route_info) * gmap nat nat :=
  if rd_door_exclude rd then (Ok None, pv)
  else match _adapter_route_info a mix rd with
  | Some s => (Ok (Some (info_of rd s)), pv)
  | None =>
      match _delegated_route_info a mix false rd pv with
      | (Ok (Some s), pv') => (Ok (Some (info_of rd s)), pv')
      | (Raise x, pv') => (Raise x, pv')
      | (Ok None, pv') =>
          if negb (rd_websocket rd) && bool_decide (is_Some (rd_route_obj rd)) then
            match _delegated_route_info a mix true rd pv' with
            | (Ok (Some s), pv'') => (Ok (Some (info_of rd s)), pv'')
            | (Ok None, pv'') => (Ok (Some (raw_info mix rd)), pv'')
            | (Raise x, pv'') => (Raise x, pv'')
            end
          else (Ok (Some (raw_info mix rd)), pv')
      end
  end.

Fixpoint build_routes (a : app) (mix : bool) (rds : list rdict) (pv : gmap nat nat)
    : res (list route_info) * gmap nat nat :=
  match rds with
  | [] => (Ok [], pv)
  | rd :: rds' =>
      match serve_route a mix rd pv with
      | (Raise x, pv') => (Raise x, pv')
      | (Ok o, pv') =>
          match build_routes a mix rds' pv' with
          | (Ok l, pv'') => (Ok (option_list o ++ l), pv'')
          | (Raise x, pv'') => (Raise x, pv'')
          end
      end
  end.

(** ** Theorems *)

(** *** Delegation *)

Definition delegate_source (a : app) (rd : rdict) (r : route) (e : endpoint) (pv : gmap nat nat) : real :=
  if _route_obj_reusable rd r false && provider_ok a r pv then Live r
  else Rebuilt (rebuild_args false rd r e).

Definition stamp (a : app) (source : real) (pv : gmap nat nat) : gmap nat nat :=
  match source with Live r => <[ ro_id r := ap_id a ]> pv | Rebuilt _ => pv end.

(** What delegation without declining does. *)
Definition delegate (a : app) (mix : bool) (rd : rdict) (r : route) (e : endpoint) (pv : gmap nat nat)
    : res served * gmap nat nat :=
  let source := delegate_source a rd r e pv in
  match dependants source with
  | Raise x => (Raise x, pv)
  | Ok _ => match get_route_handler source with
            | Raise x => (Raise x, stamp a source pv)
            | Ok _ => (Ok (wrap_delegated a mix source), stamp a source pv)
            end
  end.

Lemma delegated_forced a mix rd r e pv :
  rd_websocket rd = false -> rd_route_obj rd = Some r -> ro_endpoint r = Some e ->
  _delegated_route_info a mix true rd pv =
  (res_bind (delegate a mix rd r e pv).1 (fun s => Ok (Some s)), (delegate a mix rd r e pv).2).
Proof.
  intros Hw Hr He. unfold _delegated_route_info, delegate, delegate_source, stamp. rewrite Hw, Hr, He. cbn.
  rewrite !andb_false_r. set (src := if _ && _ then _ else _).
  destruct (dependants src) as [d|x]; [|done]. rewrite andb_false_r.
  by destruct (get_route_handler src).
Qed.

(** Without force, delegation either declines or does the same. *)
Lemma delegated_unforced a mix rd pv :
  match _delegated_route_info a mix false rd pv with
  | (Ok (Some s), pv') => rd_websocket rd = false /\ exists r e,
      rd_route_obj rd = Some r /\ ro_endpoint r = Some e /\ delegate a mix rd r e pv = (Ok s, pv')
  | (Ok None, pv') => pv' = pv \/ exists r e,
      rd_route_obj rd = Some r /\ ro_endpoint r = Some e /\ pv' = (delegate a mix rd r e pv).2
  | (Raise _, _) => False
  end.
Proof.
  unfold _delegated_route_info, delegate, delegate_source, stamp.
  destruct (negb false && _ && _); [by left|]. destruct (rd_websocket rd) eqn:Ew; [by left|].
  destruct (rd_from_mount rd && _); [by left|]. destruct (rd_route_obj rd) as [r|] eqn:Er; [|by left].
  destruct (ro_endpoint r) as [e|] eqn:Ee; [|by left]. destruct (_ && negb false); [by left|].
  set (src := if _ && provider_ok _ _ _ then _ else _). destruct (dependants src) as [d|x] eqn:Ed; [|by left].
  destruct (_has_async_gen_dep _ && _); [by left|].
  destruct (get_route_handler src) as [u|x] eqn:Eg.
  - split; [done|]. exists r, e. fold src. by rewrite Ed, Eg.
  - right. exists r, e. fold src. by rewrite Ed, Eg.
Qed.

(** Delegating again changes nothing. *)
Lemma delegate_again a mix rd r e pv :
  delegate a mix rd r e (delegate a mix rd r e pv).2 = delegate a mix rd r e pv.
Proof.
  unfold delegate. set (src := delegate_source a rd r e pv).
  assert (delegate_source a rd r e (stamp a src pv) = src /\
          stamp a src (stamp a src pv) = stamp a src pv) as [Hs Hp].
  { unfold src, delegate_source. destruct (_route_obj_reusable rd r false); cbn; [|done].
    destruct (provider_ok a r pv) eqn:E; cbn; rewrite ?E; [|done].
    unfold provider_ok at 1. rewrite lookup_insert_eq. rewrite bool_decide_eq_true_2 by done. cbn.
    by rewrite insert_insert_eq. }
  destruct (dependants src) as [d|x] eqn:Ed; cbn; [|by fold src; rewrite Ed].
  destruct (get_route_handler src) as [u|x] eqn:Eg; cbn; rewrite Hs, Ed, Eg, Hp; done.
Qed.

Lemma serve_route_http a mix rd r e pv :
  rd_door_exclude rd = false -> rd_websocket rd = false ->
  rd_route_obj rd = Some r -> ro_endpoint r = Some e ->
  serve_route a mix rd pv =
  match _adapter_route_info a mix rd with
  | Some s => (Ok (Some (info_of rd s)), pv)
  | None => (res_bind (delegate a mix rd r e pv).1 (fun s => Ok (Some (info_of rd s))),
             (delegate a mix rd r e pv).2)
  end.
Proof.
  intros Hx Hw Hr He. unfold serve_route. rewrite Hx. destruct (_adapter_route_info a mix rd); [done|].
  pose proof (delegated_unforced a mix rd pv) as H.
  destruct (_delegated_route_info a mix false rd pv) as [[[s|]|x] pv']; [| |done].
  - destruct H as (_ & r' & e' & Hr' & He' & Hd). rewrite Hr in Hr'. injection Hr' as <-.
    rewrite He in He'. injection He' as <-. by rewrite Hd.
  - rewrite Hw, bool_decide_eq_true_2 by (rewrite Hr; by eexists). cbn [negb andb].
    rewrite (delegated_forced a mix rd r e pv' Hw Hr He).
    assert (delegate a mix rd r e pv' = delegate a mix rd r e pv) as ->.
    { destruct H as [->|(r' & e' & Hr' & He' & ->)]; [done|]. rewrite Hr in Hr'. injection Hr' as <-.
      rewrite He in He'. injection He' as <-. apply delegate_again. }
    destruct (delegate a mix rd r e pv) as [[s|x] pv'']; done.
Qed.

(** The innermost layer of a handler. *)
Fixpoint innermost (h : handler) : handler :=
  match h with
  | SyncCaller h | Catching h | CatchingAsync h | Chain _ h => innermost h
  | h => h
  end.

Lemma innermost_chain ms h : innermost (chain ms h) = innermost h.
Proof. by destruct ms. Qed.

Lemma innermost_catching a h :
  innermost (catching a h) = innermost h /\ innermost (catching_async a h) = innermost h.
Proof. unfold catching, catching_async. by destruct (ap_catches a). Qed.

Lemma wrap_delegated_innermost a mix src :
  exists defer, innermost (wrap_delegated a mix src).1.2 = Delegated src (e_patched en) defer.
Proof.
  unfold wrap_delegated. destruct (_ && settable _); cbn.
  - rewrite (proj2 (innermost_catching a _)). by eexists.
  - rewrite innermost_chain, (proj1 (innermost_catching a _)). by eexists.
Qed.

(** The conditions under which the adapter takes a route, with what it gives. *)
Lemma adapter_Some a mix rd s :
  _adapter_route_info a mix rd = Some s ->
  rd_websocket rd = false /\ rd_from_mount rd = false /\ e_patched en = false /\ ap_overrides a = false /\
  exists r e src d ps names,
    rd_route_obj rd = Some r /\ ro_endpoint r = Some e /\
    (custom_status (rd_status rd) = None \/ Middleware.http_middlewares (ap_mw a) = []) /\
    ep_clone_type e = false /\
    src = adapter_source rd r e /\
    dependants src = Ok d /\ Adapter.extract_params_from_route true address hash d = Some ps /\
    existsb leaked ps = false /\ sig_names e = Some names /\
    same_names (name_of <$> Adapter.handler_entries ps) names = true /\
    (inner_mws mix a = [] \/ existsb is_dependency ps = false) /\
    s = wrap_adapted a mix (negb (is_gen e) && ep_async e) ps
          (if is_gen e then Stream e (rd_response_model rd) (rd_response_class rd) else Built src (rd_path rd)).
Proof.
  unfold _adapter_route_info.
  destruct (rd_websocket rd), (rd_from_mount rd); try done. destruct (e_patched en); [done|].
  destruct (ap_overrides a); [done|]. destruct (rd_route_obj rd) as [r|]; [|done].
  destruct (ro_endpoint r) as [e|] eqn:Ee; [|done]. destruct (_ && negb (no_http_mws a)) eqn:Est; [done|].
  destruct (ep_clone_type e) eqn:Ec; [done|]. set (src := adapter_source rd r e).
  destruct (dependants src) as [d|] eqn:Ed; [|done].
  destruct (Adapter.extract_params_from_route _ _ _ d) as [ps|] eqn:Eps; [|done].
  destruct (existsb leaked ps) eqn:El; [done|]. destruct (sig_names e) as [names|] eqn:En; [|done].
  destruct (same_names _ names) eqn:Es; [|done]. cbn [negb].
  destruct (bool_decide (inner_mws mix a <> []) && _) eqn:Em; [done|]. intros [= <-].
  split_and!; [done..|]. exists r, e, src, d, ps, names. split_and!; try done.
  - apply andb_false_iff in Est as [H|H].
    + left. by apply bool_decide_eq_false, dec_stable in H.
    + right. unfold no_http_mws in H. by apply negb_false_iff, bool_decide_eq_true in H.
  - apply andb_false_iff in Em as [H|H]; [left|by right].
    by apply bool_decide_eq_false, dec_stable in H.
Qed.

(** C18: the registration is total: every HTTP route with an endpoint is either
    served off real FastAPI, by the adapter's flat parameters or by delegation,
    or starting the application raises; whatever its dependencies, generators,
    mounts and the environment variables, it never falls through to the raw
    parameters of the route dict. *)
Theorem http_routes_are_never_raw a mix rd r e pv :
  rd_door_exclude rd = false -> rd_websocket rd = false ->
  rd_route_obj rd = Some r -> ro_endpoint r = Some e ->
  match (serve_route a mix rd pv).1 with
  | Raise x => exists src, dependants src = Raise x \/ get_route_handler src = Raise x
  | Ok None => False
  | Ok (Some i) =>
      (exists ps, i_params i = Flat ps) \/
      (i_params i = InjectRequest /\
       exists src defer, innermost (i_handler i) = Delegated src (e_patched en) defer)
  end.
Proof.
  intros Hx Hw Hr He. rewrite (serve_route_http a mix rd r e pv) by done.
  destruct (_adapter_route_info a mix rd) as [s|] eqn:Ea.
  - left. apply adapter_Some in Ea as (_ & _ & _ & _ & r' & e' & src & d & ps & ns & Ha).
    destruct Ha as (_ & _ & _ & _ & _ & _ & _ & _ & _ & _ & _ & ->).
    exists ps. unfold wrap_adapted. destruct (_ && ep_async e'); [|done].
    by destruct (_ && settable _).
  - unfold delegate. set (src := delegate_source _ _ _ _ _). cbn [fst].
    destruct (dependants src) as [d|x] eqn:Ed; cbn; [|by exists src; left].
    destruct (get_route_handler src) as [u|x] eqn:Eg; cbn; [|by exists src; right].
    right. destruct (wrap_delegated_innermost a mix src) as (defer & Hd).
    destruct (wrap_delegated a mix src) as [[ps h] b] eqn:E. cbn in *. split.
    + unfold wrap_delegated in E. destruct (_ && settable _); by injection E as <- _ _.
    + by exists src, defer.
Qed.

(** while dependency overrides are registered every HTTP route is served
    by real FastAPI with this application as the provider of the overrides: the
    source is a route built for it, or the route object itself, stamped with it. *)
Theorem overrides_reach_every_route a mix rd r e pv i pv' :
  ap_overrides a = true -> rd_door_exclude rd = false -> rd_websocket rd = false ->
  rd_route_obj rd = Some r -> ro_endpoint r = Some e ->
  serve_route a mix rd pv = (Ok (Some i), pv') ->
  exists src defer, innermost (i_handler i) = Delegated src (e_patched en) defer /\
    match src with Live r' => r' = r /\ pv' !! ro_id r = Some (ap_id a) | Rebuilt _ => True end.
Proof.
  intros Ho Hx Hw Hr He. rewrite (serve_route_http a mix rd r e pv) by done.
  destruct (_adapter_route_info a mix rd) as [s|] eqn:Ea.
  { apply adapter_Some in Ea as (_ & _ & _ & Ha & _). congruence. }
  unfold delegate. set (src := delegate_source _ _ _ _ _).
  destruct (dependants src) as [d|]; cbn; [|done]. destruct (get_route_handler src) as [u|]; cbn; [|done].
  intros [= <- <-]. destruct (wrap_delegated_innermost a mix src) as (defer & Hd). exists src, defer. split.
  - destruct (wrap_delegated a mix src) as [[ps h] b]. done.
  - unfold src, delegate_source. destruct (_ && provider_ok a r pv); [|done]. split; [done|]. cbn.
    by rewrite lookup_insert_eq.
Qed.

(** *** Shared route objects *)

Lemma provider_ok_insert a r pv : provider_ok a r pv = true -> pv ⊆ <[ ro_id r := ap_id a ]> pv.
Proof.
  unfold provider_ok. intros H. destruct (pv !! ro_id r) as [p|] eqn:E.
  - apply bool_decide_eq_true in H as ->. by rewrite insert_id.
  - by apply insert_subseteq.
Qed.

Lemma delegate_providers a mix rd r e pv : pv ⊆ (delegate a mix rd r e pv).2.
Proof.
  unfold delegate. set (src := delegate_source a rd r e pv).
  assert (pv ⊆ stamp a src pv) as Hs.
  { unfold src, delegate_source. destruct (_route_obj_reusable rd r false); cbn; [|done].
    destruct (provider_ok a r pv) eqn:E; cbn; [by apply provider_ok_insert|done]. }
  destruct (dependants src); [|done]. by destruct (get_route_handler src).
Qed.

Lemma delegated_providers a mix force rd pv : pv ⊆ (_delegated_route_info a mix force rd pv).2.
Proof.
  destruct force.
  - destruct (rd_websocket rd) eqn:Ew.
    { unfold _delegated_route_info. cbn. by rewrite Ew. }
    destruct (rd_route_obj rd) as [r|] eqn:Er; [destruct (ro_endpoint r) as [e|] eqn:Ee|].
    + rewrite (delegated_forced a mix rd r e pv) by done. apply delegate_providers.
    + unfold _delegated_route_info. cbn. rewrite Ew, Er, Ee. by destruct (_ && _).
    + unfold _delegated_route_info. cbn. rewrite Ew, Er. by destruct (_ && _).
  - pose proof (delegated_unforced a mix rd pv) as H.
    destruct (_delegated_route_info a mix false rd pv) as [[[s|]|x] pv']; [| |done].
    + destruct H as (_ & r & e & _ & _ & H). pose proof (delegate_providers a mix rd r e pv) as Hp.
      by rewrite H in Hp.
    + destruct H as [->|(r & e & _ & _ & ->)]; [done|]. apply delegate_providers.
Qed.

Lemma serve_route_providers a mix rd pv : pv ⊆ (serve_route a mix rd pv).2.
Proof.
  unfold serve_route. destruct (rd_door_exclude rd); [done|]. destruct (_adapter_route_info a mix rd); [done|].
  pose proof (delegated_providers a mix false rd pv) as H.
  destruct (_delegated_route_info a mix false rd pv) as [[[s|]|x] pv']; [done| |done]. cbn in H.
  destruct (_ && _); [|done]. pose proof (delegated_providers a mix true rd pv') as H'.
  destruct (_delegated_route_info a mix true rd pv') as [[[s|]|x] pv'']; cbn in *; by etrans.
Qed.

(** Applications built one after the other, over the same route objects. *)
Fixpoint build_apps (l : list (app * bool * list rdict)) (pv : gmap nat nat) : gmap nat nat :=
  match l with
  | [] => pv
  | (a, mix, rds) :: l' => build_apps l' (build_routes a mix rds pv).2
  end.

Lemma build_routes_providers a mix rds pv : pv ⊆ (build_routes a mix rds pv).2.
Proof.
  revert pv. induction rds as [|rd rds IH]; intros pv; [done|]. cbn.
  pose proof (serve_route_providers a mix rd pv) as H.
  destruct (serve_route a mix rd pv) as [[o|x] pv']; [|done]. cbn in H. specialize (IH pv').
  destruct (build_routes a mix rds pv') as [[l|x] pv'']; by etrans.
Qed.

(** a router shared by several applications stays with the first: in
    whatever order applications are built and rebuilt over the same route
    objects, the provider of dependency overrides of a route object, once
    stamped, is never changed, so no application resolves overrides of
    another through a route it reuses. *)
Theorem providers_are_never_flipped l pv r p :
  pv !! r = Some p -> build_apps l pv !! r = Some p.
Proof.
  revert pv. induction l as [|[[a mix] rds] l IH]; intros pv Hp; [done|]. cbn. apply IH.
  eapply lookup_weaken; [done|apply build_routes_providers].
Qed.

(** *** The layers *)

Definition classic (a : app) (mix : bool) (h : handler) : handler := chain (inner_mws mix a) (catching a h).

Lemma innermost_classic a mix h : innermost (classic a mix h) = innermost h.
Proof. unfold classic. by rewrite innermost_chain, (proj1 (innermost_catching a h)). Qed.

Lemma no_http_mws_spec a : no_http_mws a = true <-> Middleware.http_middlewares (ap_mw a) = [].
Proof. apply bool_decide_eq_true. Qed.

Lemma wrap_adapted_shape a mix co ps h :
  (Middleware.http_middlewares (ap_mw a) = [] /\ wrap_adapted a mix co ps h = (Flat ps, catching_async a h, true)) \/
  (exists h', (h' = h \/ h' = SyncCaller h) /\ wrap_adapted a mix co ps h = (Flat ps, classic a mix h', false)).
Proof.
  unfold wrap_adapted. destruct co; [|right; by eauto].
  destruct (no_http_mws a) eqn:Em; [apply no_http_mws_spec in Em|rewrite andb_false_r; right; by eauto].
  destruct (_ && settable _); [by left|right; by eauto].
Qed.

Lemma wrap_delegated_shape a mix src :
  let h defer := Delegated src (e_patched en) defer in
  (Middleware.http_middlewares (ap_mw a) = [] /\
   wrap_delegated a mix src = (InjectRequest, catching_async a (h false), true)) \/
  wrap_delegated a mix src =
    (InjectRequest, classic a mix (SyncCaller (h (bool_decide (inner_mws mix a <> [])))), false).
Proof.
  unfold wrap_delegated. destruct (no_http_mws a) eqn:Em; [apply no_http_mws_spec in Em|rewrite andb_false_r; by right].
  destruct (_ && settable _); [by left|by right].
Qed.

Lemma catching_async_no_chain a src apm defer :
  ~ exists ms h, catching_async a (Delegated src apm defer) = Chain ms h.
Proof. unfold catching_async. destruct (ap_catches a); by intros (? & ? & ?). Qed.

Lemma classic_is_chain a mix h :
  (forall ms h', h <> Chain ms h') -> inner_mws mix a <> [] <-> exists ms h', classic a mix h = Chain ms h'.
Proof.
  intros Hh. unfold classic, chain, catching. destruct (inner_mws mix a) as [|m ms].
  - split; [done|]. destruct (ap_catches a); intros (ms & h' & E); [done|by apply Hh in E].
  - split; [by eauto|done].
Qed.

(** a handler is registered as a coroutine function only when no
    middleware is to run around it; every other handler is synchronous with the
    middlewares outermost and the exception handlers inside them; and a
    delegated handler defers its teardowns exactly when it is wrapped by the
    chain of middlewares whose end drains them. *)
Theorem layers_are_ordered a mix rd r e pv i :
  rd_door_exclude rd = false -> rd_websocket rd = false ->
  rd_route_obj rd = Some r -> ro_endpoint r = Some e ->
  (serve_route a mix rd pv).1 = Ok (Some i) ->
  (if i_async i
   then Middleware.http_middlewares (ap_mw a) = [] /\
        exists h, i_handler i = catching_async a h /\ innermost h = h
   else exists h, i_handler i = chain (inner_mws mix a) (catching a h) /\
        (innermost h = h \/ exists h', h = SyncCaller h' /\ innermost h' = h')) /\
  (forall src apm defer, innermost (i_handler i) = Delegated src apm defer ->
     (defer = true <-> exists ms h, i_handler i = Chain ms h)).
Proof.
  intros Hx Hw Hr He. rewrite (serve_route_http a mix rd r e pv) by done.
  destruct (_adapter_route_info a mix rd) as [s|] eqn:Ea.
  - intros [= <-]. apply adapter_Some in Ea as (_ & _ & _ & _ & r' & e' & src & d & ps & ns & Ha).
    destruct Ha as (_ & _ & _ & _ & _ & _ & _ & _ & _ & _ & _ & ->). set (h := if is_gen e' then _ else _).
    assert (innermost h = h /\ forall src apm defer, h <> Delegated src apm defer) as [Hh Hn]
      by (unfold h; by destruct (is_gen e')).
    destruct (wrap_adapted_shape a mix (negb (is_gen e') && ep_async e') ps h) as [(Hm & ->)|(h' & Hh' & ->)]; cbn.
    + split; [by eauto|]. intros ? ? ?. rewrite (proj2 (innermost_catching a h)), Hh. by intros ?%Hn.
    + split; [exists h'; split; [done|]; destruct Hh' as [->| ->]; eauto|]. intros ? ? ?.
      rewrite innermost_classic. destruct Hh' as [->| ->]; cbn; rewrite Hh; by intros ?%Hn.
  - unfold delegate. set (src := delegate_source _ _ _ _ _). cbn [fst].
    destruct (dependants src) as [d|]; cbn; [|done]. destruct (get_route_handler src) as [u|]; cbn; [|done].
    intros [= <-]. destruct (wrap_delegated_shape a mix src) as [(Hm & ->)| ->]; cbn.
    + split; [by eauto|]. intros ? ? ?. rewrite (proj2 (innermost_catching a _)). cbn. intros [= <- <- <-].
      split; [done|]. intros H. by apply catching_async_no_chain in H.
    + split; [by eauto 6|]. intros ? ? ?. rewrite innermost_classic. cbn. intros [= <- <- <-].
      rewrite bool_decide_eq_true. by apply classic_is_chain.
Qed.

(** *** What the adapter's handler is called with *)

Lemma mapM_names {A V} (f : A -> option V) (g : A -> text) l args :
  mapM (fun p => v ← f p; Some (g p, v)) l = Some args -> args.*1 = g <$> l.
Proof.
  revert args. induction l as [|p l IH]; intros args; cbn; [by intros [= <-]|].
  intros (y & Hy & (ys & Hys & [= <-])%bind_Some)%bind_Some.
  apply bind_Some in Hy as (v & _ & [= <-]). cbn. by rewrite (IH ys).
Qed.

Lemma same_names_spec l l' : same_names l l' = true <-> forall n, n ∈ l <-> n ∈ l'.
Proof.
  unfold same_names. rewrite andb_true_iff, !forallb_forall. setoid_rewrite <-list_elem_of_In.
  split.
  - intros [H1 H2] n. split; intros Hn; [apply H1 in Hn|apply H2 in Hn]; by apply bool_decide_eq_true in Hn.
  - intros H. split; intros n Hn; apply bool_decide_eq_true; by apply H.
Qed.

(** the adapter and the engine together call the endpoint as Python
    would: for a route the adapter took, the engine works through the flat list
    without ever missing a value and calls the handler with keyword arguments
    that name each parameter of the endpoint's own signature, exactly once, and
    nothing else, each with the value the route's dependants give it.  (The
    dependants of the route name no parameter twice, and dependencies that share
    a cache key give the same value.) *)
Theorem adapted_endpoint_gets_its_signature {V} (value : Adapter.what -> V) apply a mix rd s r e d :
  _adapter_route_info a mix rd = Some s ->
  rd_route_obj rd = Some r -> ro_endpoint r = Some e -> dependants (adapter_source rd r e) = Ok d ->
  Adapter.wf_route d ->
  (forall x y i, Adapter.depends (Adapter.route_deps d) x -> Adapter.depends (Adapter.route_deps d) y ->
     Adapter.cache_id address hash x = Some i -> Adapter.cache_id address hash y = Some i ->
     Adapter.dep_value value apply true x = Adapter.dep_value value apply true y) ->
  exists ps names st args, s.1.1 = Flat ps /\ sig_names e = Some names /\
    Adapter.steps value apply ps Adapter.engine0 = Some st /\ Adapter.kwargs value ps st = Some args /\
    args = Adapter.route_args value apply true d /\ NoDup args.*1 /\ forall n, n ∈ args.*1 <-> n ∈ names.
Proof.
  intros Ha Hr He Hd Hwf Hsame.
  apply adapter_Some in Ha as (_ & _ & _ & _ & r' & e' & src & d' & ps & names & Hr' & He' & _ & _ & -> & Hd' &
    Hps & _ & Hn & Hs & _ & ->).
  rewrite Hr in Hr'. injection Hr' as <-. rewrite He in He'. injection He' as <-.
  rewrite Hd in Hd'. injection Hd' as <-.
  destruct (Adapter.route_kwargs value apply true address hash d ps Hwf Hsame Hps) as (st & Hst & Hk).
  exists ps, names, st, (Adapter.route_args value apply true d). split_and!; try done.
  - by destruct (wrap_adapted_shape a mix (negb (is_gen e) && ep_async e) ps
      (if is_gen e then Stream e (rd_response_model rd) (rd_response_class rd)
       else Built (adapter_source rd r e) (rd_path rd))) as [(_ & ->)|(? & _ & ->)].
  - rewrite Adapter.route_args_names. unfold Adapter.wf_route in Hwf.
    destruct (Adapter.r_dependant d). by destruct Hwf as (_ & ? & _).
  - pose proof (proj1 (same_names_spec _ _) Hs) as Hs'. intros n. rewrite <-Hs'. unfold Adapter.kwargs in Hk.
    by rewrite (mapM_names _ _ _ _ Hk).
Qed.

End Registration.

(** *** Reuse of route objects *)

Lemma items_no_brace pre t :
  "{"%char ∉ pre -> Templates.items 0 (pre ++ t) = (Templates.Chr <$> pre) ++ Templates.items 0 t.
Proof.
  induction pre as [|c pre IH]; intros H; [done|]. apply not_elem_of_cons in H as [Hc H]. cbn.
  rewrite bool_decide_eq_false_2 by congruence. by rewrite IH.
Qed.

Lemma names_chars pre l : Templates.names ((Templates.Chr <$> pre) ++ l) = Templates.names l.
Proof. by induction pre. Qed.

Lemma slice_prefix {A} (l k : list A) : slice (l ++ k) 0 (zlen (l ++ k) - zlen k) = l.
Proof.
  unfold slice, norm_index. rewrite zlen_app. pose proof (zlen_nonneg l). pose proof (zlen_nonneg k).
  replace (zlen l + zlen k - zlen k) with (zlen l) by lia.
  rewrite (proj2 (Z.ltb_ge (zlen l) 0)) by lia. change (0 <? 0) with false. cbv iota.
  rewrite Z.min_l by lia. rewrite Z.min_l by lia. change (Z.to_nat 0) with 0%nat. rewrite drop_0.
  unfold zlen. rewrite Z.sub_0_r, Nat2Z.id. apply take_app_length.
Qed.

(** a route object that is reused under a longer path agrees with the
    route that would be built in its place: the prefix added by includes, routers
    and mounts brings no path parameter, so the names of the path parameters are
    the same in the same order, and so are the dependencies, the response class
    and the response model the rebuilt route would be given. *)
Theorem reused_route_agrees_with_rebuild rd r e prefixed :
  _route_obj_reusable rd r prefixed = true ->
  let a := rebuild_args false rd r e in
  Templates.names (Templates.items 0 (a_path a)) = Templates.names (Templates.items 0 (ro_path r)) /\
  a_dependencies a = ro_dependencies r /\ a_response_class a = ro_response_class r /\
  a_response_model a = ro_response_model r /\ (prefixed = false -> a_path a = ro_path r).
Proof.
  unfold _route_obj_reusable. rewrite !andb_true_iff, orb_true_iff, !andb_true_iff, !bool_decide_eq_true.
  intros [[[Hp Hd] Hc] Hm]. cbn. split_and!; try done.
  - destruct Hp as [->|[[_ Hs] Hb]]; [done|]. apply ends_with_spec in Hs as (pre & Hs). rewrite Hs in *.
    rewrite slice_prefix in Hb. apply negb_true_iff, bool_decide_eq_false in Hb.
    by rewrite items_no_brace, names_chars.
  - intros ->. by destruct Hp as [->|[[? _] _]].
Qed.

(** *** The opt-out *)

Definition set_delegate_off (b : bool) (en : env) : env :=
  {| e_patched := e_patched en; e_delegate_off := b; e_inline := e_inline en |}.

(** [FASTAPI_TURBO_DELEGATE=0] has no effect: a route whose delegation was
    opted out of is delegated all the same by the forced delegation behind it,
    to the same handler, for every route with an endpoint. *)
Theorem delegate_opt_out_is_ineffective own construct get_handler address hash suspends settable en b
    a mix rd r e pv :
  rd_route_obj rd = Some r -> ro_endpoint r = Some e -> rd_websocket rd = false ->
  serve_route own construct get_handler address hash suspends settable (set_delegate_off b en) a mix rd pv =
  serve_route own construct get_handler address hash suspends settable en a mix rd pv.
Proof.
  intros Hr He Hw. destruct (rd_door_exclude rd) eqn:Hx; [unfold serve_route; by rewrite Hx|].
  rewrite !(serve_route_http _ _ _ _ _ _ _ _ a mix rd r e) by done. done.
Qed.

(** *** Every middleware once *)

Definition shim_of (m : Middleware.http_mw) : option Middleware.mw_cls :=
  match m with Middleware.Shim c => Some c | _ => None end.

Definition raw_of (x : text + Middleware.mw_arg) : option Middleware.mw_cls :=
  match x with inr (Middleware.Class c) => Some c | _ => None end.

Definition logged_raw (x : Middleware.log_kind * Middleware.mw_arg * nat) : option Middleware.mw_cls :=
  match x with (Middleware.Raw, Middleware.Class c, _) => Some c | _ => None end.

(** What registration keeps of the raw ASGI middlewares. *)
Definition raw_inv (s : Middleware.mst) : Prop :=
  omap shim_of (Middleware.http_middlewares s) ≡ₚ Middleware.raw_asgi_middlewares s /\
  omap logged_raw (Middleware.registration_log s) = Middleware.raw_asgi_middlewares s.

Lemma filter_split {A} (f : A -> bool) (l : list A) :
  filter (fun x => f x = false) l ++ filter (fun x => f x = true) l ≡ₚ l.
Proof.
  induction l as [|x l IH]; [done|]. rewrite !filter_cons.
  repeat case_decide; try (destruct (f x); congruence).
  - by rewrite <-app_comm_cons, IH.
  - by rewrite <-Permutation_middle, IH.
Qed.

Lemma raw_inv_op s o : raw_inv s -> raw_inv (Middleware.do_mop s o).
Proof.
  intros [H1 H2]. destruct o as [m|f|h x]; cbn.
  - assert (raw_inv (Middleware._add_middleware_impl s m)) as [H3 H4].
    { unfold Middleware._add_middleware_impl. destruct m as [t|c]; cbn; [by split; cbn; rewrite ?omap_app, ?app_nil_r|].
      repeat case_match; split; cbn; rewrite ?omap_app; cbn; by rewrite ?app_nil_r, ?H1, ?H2. }
    split; [|done]. cbn. by rewrite <-H3, (filter_split Middleware.is_sentry).
  - split; cbn; [by rewrite omap_app, app_nil_r|done].
  - split; cbn; [by destruct (Middleware.host_installed s)|done].
Qed.

Lemma raw_inv_ops ops s : raw_inv s -> raw_inv (fold_left Middleware.do_mop ops s).
Proof. revert s. induction ops as [|o ops IH]; intros s H; [done|]. cbn. by apply IH, raw_inv_op. Qed.

(** every raw ASGI middleware runs exactly once around a request of the
    in-process door: whatever was registered in whatever order, the classes of the
    outer chain and the shims wrapped around the handler are together the
    registered ones, each as often as it was registered. *)
Theorem raw_middlewares_run_once load ops a :
  let s := fold_left Middleware.do_mop ops Middleware.mst0 in
  ap_mw a = s ->
  omap raw_of (Door._door_outer_mw_list load s) ++
  omap shim_of (inner_mws (Door._door_has_tower_raw_mix s) a) ≡ₚ Middleware.raw_asgi_middlewares s.
Proof.
  intros s Hs. assert (raw_inv s) as [H1 H2] by (by apply raw_inv_ops).
  unfold Door._door_outer_mw_list, inner_mws. rewrite Hs.
  destruct (Door._door_has_tower_raw_mix s); [|done].
  assert (forall l, omap shim_of (filter (fun m => is_shim m = false) l) = []) as ->.
  { induction l as [|m l IH]; [done|]. rewrite filter_cons. destruct m; cbn; exact IH. }
  rewrite app_nil_r, <-H2. clear. induction (Middleware.registration_log s) as [|[[k m] n] l IH]; [done|].
  destruct k; cbn.
  - destruct (Door._resolve_tower_bound_to_asgi_class load m); exact IH.
  - destruct m; cbn; by rewrite IH.
Qed.

(** ** The dynamic OpenAPI route *)

(** A route of [app.router.routes]: whether the framework added it, the name of
    its endpoint, its path, and what it is otherwise. *)
Record listed := { l_dynamic : bool; l_ep_name : option text; l_path : option text; l_tag : nat }.

#[export] Instance listed_eq_dec : EqDecision listed.
Proof. solve_decision. Defined.

Record urls := {
  u_openapi : option text; u_docs : option text; u_redoc : option text; u_oauth2 : option text }.

Definition _is_prior_dynamic (r : listed) (ep_name path_val : text) : bool :=
  l_dynamic r && bool_decide (l_ep_name r = Some ep_name) && bool_decide (l_path r = Some path_val).

Definition dynamic_routes (u : urls) : list (text * option text) :=
  [(lit "openapi", u_openapi u); (lit "swagger_ui", u_docs u); (lit "redoc", u_redoc u);
   (lit "swagger_ui_redirect", u_oauth2 u)].

Definition prior (u : urls) (r : listed) : bool :=
  existsb (fun p => match p.2 with
                    | None | Some [] => false
                    | Some path_val => _is_prior_dynamic r p.1 path_val
                    end) (dynamic_routes u).

Definition _openapi_route (url : text) : listed :=
  {| l_dynamic := true; l_ep_name := Some (lit "openapi"); l_path := Some url; l_tag := 0 |}.

(** The part of [_build_server_args] before the collection. *)
Definition register_openapi (u : urls) (routes : list listed) : list listed :=
  match u_openapi u with
  | None | Some [] => routes
  | Some url => _openapi_route url :: filter (fun r => prior u r = false) routes
  end.

Lemma prior_openapi u c url : u_openapi u = Some (c :: url) -> prior u (_openapi_route (c :: url)) = true.
Proof.
  intros H. unfold prior, dynamic_routes. cbn. rewrite H. unfold _is_prior_dynamic. cbn.
  rewrite !bool_decide_eq_true_2 by done. reflexivity.
Qed.

Lemma filter_filter_same {A} (f : A -> bool) (l : list A) :
  filter (fun x => f x = false) (filter (fun x => f x = false) l) = filter (fun x => f x = false) l.
Proof. apply filter_all. by intros x [? _]%list_elem_of_filter. Qed.

(** building the arguments again and again (every run, every
    registration at the door) leaves one OpenAPI route, the first of all, and the
    user's routes as they are and in their order. *)
Theorem openapi_route_is_registered_once u c url routes n :
  u_openapi u = Some (c :: url) ->
  Nat.iter (S n) (register_openapi u) routes = _openapi_route (c :: url) :: filter (fun r => prior u r = false) routes /\
  filter (fun r => l_dynamic r = false) (Nat.iter (S n) (register_openapi u) routes) =
  filter (fun r => l_dynamic r = false) routes.
Proof.
  intros H. assert (forall l, register_openapi u l = _openapi_route (c :: url) :: filter (fun r => prior u r = false) l)
    as Hr by (intros l; unfold register_openapi; by rewrite H).
  assert (Nat.iter (S n) (register_openapi u) routes =
    _openapi_route (c :: url) :: filter (fun r => prior u r = false) routes) as ->.
  { induction n as [|n IH]; [apply Hr|]. change (Nat.iter (S (S n)) (register_openapi u) routes) with (register_openapi u (Nat.iter (S n) (register_openapi u) routes)). rewrite IH, Hr.
    rewrite filter_cons_False by (by rewrite (prior_openapi u c url H)). by rewrite filter_filter_same. }
  split; [done|]. rewrite filter_cons_False by done.
  induction routes as [|r routes IH]; [done|]. rewrite (filter_cons (fun r => prior u r = false)).
  case_decide as Hp; rewrite !(filter_cons (fun r => l_dynamic r = false)), IH; [done|].
  rewrite decide_False; [done|]. intros Hd. apply Hp. unfold prior. apply not_true_is_false. intros Hx.
  apply existsb_exists in Hx as (x & _ & Hx). unfold _is_prior_dynamic in Hx. rewrite Hd in Hx. by destruct x.2 as [[|]|].
Qed.

(** turning the schema off after the first build does not take the route
    away: with [openapi_url] unset, or moved to another path, the route of the
    earlier build stays registered and serves the schema. *)
Theorem disabled_openapi_route_stays u u' c url routes :
  u_openapi u = Some (c :: url) ->
  u_openapi u' <> Some (c :: url) ->
  _openapi_route (c :: url) ∈ register_openapi u' (register_openapi u routes).
Proof.
  intros H H'. unfold register_openapi at 2. rewrite H. unfold register_openapi.
  destruct (u_openapi u') as [[|d url']|] eqn:E; [left| |left]. right. apply list_elem_of_filter. split; [|left].
  unfold prior, dynamic_routes, _is_prior_dynamic. cbn. rewrite E.
  rewrite (bool_decide_eq_false_2 (Some (c :: url) = Some (d :: url'))) by congruence.
  rewrite !andb_false_r. cbn. by repeat case_match.
Qed.

(** ** Witnesses *)

Definition endpoint0 : endpoint :=
  {| ep_id := 0; ep_gen := NoGen; ep_async := true; ep_clone_type := false;
     ep_sig := Some [(lit "q", false); (lit "request", false); (lit "user", false); (lit "db", false); (lit "kw", true)] |}.

Definition route0 : route :=
  {| ro_id := 7; ro_path := lit "/items/{q}"; ro_endpoint := Some endpoint0; ro_dependencies := [1%nat];
     ro_response_class := None; ro_response_model := None; ro_status := None; ro_settings := 0 |}.

Definition rdict0 (path : string) (mount : bool) : rdict :=
  {| rd_path := lit path; rd_methods := [lit "GET"]; rd_websocket := false; rd_from_mount := mount;
     rd_door_exclude := false; rd_route_obj := Some route0; rd_status := None; rd_dependencies := [1%nat];
     rd_response_class := None; rd_response_model := None; rd_lax := false; rd_endpoint := 0;
     rd_endpoint_door := None; rd_is_async := true; rd_handler_name := lit "items"; rd_params := [] |}.

Definition app0 (overrides : bool) (s : Middleware.mst) : app :=
  {| ap_id := 3; ap_overrides := overrides; ap_catches := false; ap_mw := s |}.

Definition env0 : env := {| e_patched := false; e_delegate_off := true; e_inline := false |}.

Local Notation serve0 := (serve_route (fun _ => Adapter.example_route) (fun _ => Ok Adapter.example_route)
  (fun _ => Ok tt) Z.of_nat (fun _ _ => 0) (fun _ => true) (fun _ => true) env0).

Lemma http_routes_are_never_raw_witness :
  match (serve0 (app0 true Middleware.mst0) false (rdict0 "/v1/items/{q}" true) ∅).1 with
  | Ok (Some i) => i_params i = InjectRequest | _ => False end.
Proof.
  pose proof (http_routes_are_never_raw (fun _ => Adapter.example_route) (fun _ => Ok Adapter.example_route)
    (fun _ => Ok tt) Z.of_nat (fun _ _ => 0) (fun _ => true) (fun _ => true) env0 (app0 true Middleware.mst0) false
    (rdict0 "/v1/items/{q}" true) route0 endpoint0 ∅ eq_refl eq_refl eq_refl eq_refl) as H.
  vm_compute in H |- *. destruct H as [[ps H]|[H _]]; [discriminate H|exact H].
Defined.

Lemma adapted_endpoint_gets_its_signature_witness :
  exists ps st args,
    Adapter.steps Adapter.Src Adapter.App ps Adapter.engine0 = Some st /\
    Adapter.kwargs Adapter.Src ps st = Some args /\ forall n, n ∈ args.*1 <-> n ∈ [lit "q"; lit "request"; lit "user"; lit "db"].
Proof.
  destruct (adapted_endpoint_gets_its_signature (fun _ => Adapter.example_route) (fun _ => Ok Adapter.example_route)
    Z.of_nat (fun _ _ => 0) (fun _ => true) (fun _ => true) env0 Adapter.Src Adapter.App (app0 false Middleware.mst0) false
    (rdict0 "/v1/items/{q}" false)
    (Flat (default [] (Adapter.extract_params_from_route true Z.of_nat (fun _ _ => 0) Adapter.example_route)),
     SyncCaller (Built (Live route0) "/v1/items/{q}"), false) route0 endpoint0 Adapter.example_route)
    as (ps & names & st & args & _ & Hn & Hs & Hk & _ & _ & H).
  - vm_compute. reflexivity.
  - reflexivity.
  - reflexivity.
  - vm_compute. reflexivity.
  - exact Adapter.example_wf.
  - exact Adapter.example_coherent.
  - exists ps, st, args. split; [exact Hs|]. split; [exact Hk|].
    vm_compute in Hn. injection Hn as <-. exact H.
Defined.

Lemma providers_are_never_flipped_witness :
  (<[ 7%nat := 9%nat ]> ∅ : gmap nat nat) !! 7%nat = Some 9%nat /\
  build_apps (fun _ => Adapter.example_route) (fun _ => Ok Adapter.example_route)
    (fun _ => Ok tt) Z.of_nat (fun _ _ => 0) (fun _ => true) (fun _ => true) env0
    [(app0 true Middleware.mst0, false, [rdict0 "/items/{q}" false])] (<[ 7%nat := 9%nat ]> ∅) !! 7%nat = Some 9%nat.
Proof.
  split; [vm_compute; reflexivity|].
  apply (providers_are_never_flipped (fun _ => Adapter.example_route) (fun _ => Ok Adapter.example_route)
    (fun _ => Ok tt) Z.of_nat (fun _ _ => 0) (fun _ => true) (fun _ => true) env0
    [(app0 true Middleware.mst0, false, [rdict0 "/items/{q}" false])] (<[ 7%nat := 9%nat ]> ∅) 7 9).
  vm_compute. reflexivity.
Defined.

Definition tracer0 : Middleware.mw_cls :=
  {| Middleware.c_id := 1; Middleware.c_marker := None; Middleware.c_mro_names := [lit "Tracer"];
     Middleware.c_base_http := false; Middleware.c_accepts_app := true; Middleware.c_sentry := false |}.

Definition ops0 : list Middleware.mop :=
  [Middleware.OpAdd (Middleware.Class tracer0); Middleware.OpAdd (Middleware.Shorthand "cors");
   Middleware.OpMiddleware 4; Middleware.OpAdd (Middleware.Class tracer0)].

Lemma raw_middlewares_run_once_witness :
  let s := fold_left Middleware.do_mop ops0 Middleware.mst0 in
  Door._door_has_tower_raw_mix s = true /\
  omap raw_of (Door._door_outer_mw_list (fun _ => true) s) ++
  omap shim_of (inner_mws (Door._door_has_tower_raw_mix s) (app0 false s)) ≡ₚ [tracer0; tracer0].
Proof.
  intros s. split; [vm_compute; reflexivity|].
  exact (raw_middlewares_run_once (fun _ => true) ops0 (app0 false s) eq_refl).
Defined.

End Register.
