(* ===== verification/BuildHandler.v ===== *)
(** The handlers built around an endpoint: [build_handler] with
    [_serialize_via_field] and the closing of uploads
    (_introspect_from_real_fastapi.py, _route_helpers.py), the endpoint of a
    route with its own [get_route_handler] ([_build_custom_route_handler_endpoint],
    _route_helpers.py), and the bridge from the engine's validation errors to the
    user's handler ([_rust_validation_handler], applications.py). *)

From S2P Require Import Prelude Exceptions Teardown Drive.

Module BuildHandler.

(** ** Asynchronous callables *)

(** A callable: whether it is a coroutine function, its [__wrapped__], its
    [__call__] where it is an instance. *)
Inductive callable := Callable (coroutine : bool) (wrapped call : option callable).

Definition is_coroutine (c : callable) : bool := let 'Callable b _ _ := c in b.
Definition wrapped (c : callable) : option callable := let 'Callable _ w _ := c in w.
Definition call_of (c : callable) : option callable := let 'Callable _ _ k := c in k.

(** The loop along [__wrapped__], ten steps at most. *)
Fixpoint walk (n : nat) (probe : callable) : bool :=
  match n with
  | O => false
  | S n' => match wrapped probe with
            | None => false
            | Some nxt => is_coroutine nxt || walk n' nxt
            end
  end.

Definition _is_async_callable (f : callable) : bool :=
  is_coroutine f || walk 10 f ||
  match call_of f with
  | Some c => is_coroutine c || walk 10 c
  | None => false
  end.

(** [inspect.unwrap]: the end of the chain. *)
Fixpoint unwrap (c : callable) : callable :=
  match c with
  | Callable _ (Some w) _ => unwrap w
  | c => c
  end.

Definition _callable_is_async (f : callable) : bool := is_coroutine f || is_coroutine (unwrap f).

(** ** [build_handler] *)

(** A value given to the endpoint: an object with [close] and [filename], whose
    [close] takes effect at once, or only if it is awaited beyond its first step,
    or raises; a list; another object. *)
Inductive closing := AtOnce | Suspends | Raises.
Inductive arg := Upload (u : nat) (c : closing) | Many (l : list arg) | Other.

(** [_close_one_upload], [_close_upload_files]: the uploads closed. *)
Fixpoint _close_one_upload (a : arg) : list nat :=
  match a with
  | Upload u AtOnce => [u]
  | Upload _ _ => []
  | Many l => l ≫= _close_one_upload
  | Other => []
  end.

Definition _close_upload_files (kwargs : list (text * arg)) : list nat :=
  kwargs.*2 ≫= _close_one_upload.

(** A body field of the route: the class of its [field_info], and whether its
    annotation is [UploadFile], or has it among its arguments. *)
Record body_field := { bf_file : bool; bf_upload : bool; bf_args : list bool }.

Definition _route_has_uploads (fs : list body_field) : bool :=
  existsb (fun f => bf_file f || bf_upload f || existsb id (bf_args f)) fs.

Section Build.

(** Values, responses, and real FastAPI's response field and classes. *)
Context {V R E : Type}.

Inductive value := Response (r : R) | Generator (n : nat) | Data (v : V).

Inductive raised :=
| UserRaised (e : E)
| ResponseValidationError (errors : nat) (ctx_path : text).

Record flags := {
  include_ : option nat; exclude_ : option nat; by_alias : bool;
  exclude_unset : bool; exclude_defaults : bool; exclude_none : bool }.

(** A [ModelField]: [validate] and [serialize]. *)
Record field := {
  validate : V -> V + nat;
  serialize : flags -> V -> V }.

Record route := {
  r_field : option field;
  r_class : option (V -> option Z -> R);   (* a custom [response_class] *)
  r_status : option Z;
  r_flags : flags;
  r_path : text;
  r_body : list body_field }.

Definition _serialize_via_field (content : value) (f : field) (fl : flags) (ctx : text) : value + raised :=
  match content with
  | Response _ | Generator _ => inl content
  | Data v => match validate f v with
              | inl v' => inl (Data (serialize f fl v'))
              | inr errors => inr (ResponseValidationError errors ctx)
              end
  end.

(** [custom_rc(result)] of a generator object is given to the class too. *)
Context (of_generator : nat -> V).

Definition _finish (r : route) (ctx : text) (result : value) : value + raised :=
  match (match r_field r with
         | Some f => _serialize_via_field result f (r_flags r) ctx
         | None => inl result
         end) with
  | inr e => inr e
  | inl result =>
      match r_class r, result with
      | None, _ | _, Response _ => inl result
      | Some c, Data v => inl (Response (c v (r_status r)))
      | Some c, Generator n => inl (Response (c (of_generator n) (r_status r)))
      end
  end.

(** What happens during a call: effects of the endpoint, uploads closed. *)
Inductive event := Effect (n : nat) | Close (u : nat).

(** An endpoint run to its end. *)
Definition endpoint : Type := list (text * arg) -> list event * (value + raised).

(** The wrapper [build_handler] returns, run to its end; whether it is a
    coroutine function. *)
Definition build_handler (r : route) (ctx_path : option text) (f : callable) (e : endpoint)
    : endpoint * bool :=
  let has_uploads := _route_has_uploads (r_body r) in
  match r_field r, r_class r, has_uploads with
  | None, None, false => (e, is_coroutine f || _callable_is_async f)
  | _, _, _ =>
      let ctx := match ctx_path with Some ((_ :: _) as p) => p | _ => r_path r end in
      let finished kw :=
        match e kw with
        | (t, inl v) => (t, _finish r ctx v)
        | (t, inr x) => (t, inr x)
        end in
      ((fun kw => let '(t, o) := finished kw in
                  (if has_uploads then t ++ (Close <$> _close_upload_files kw) else t, o)),
       _callable_is_async f)
  end.

End Build.

(** ** A route with its own [get_route_handler] *)

(** What the user's handler for the request comes to: it entered context
    managers on the three stacks, and returned a response with background tasks,
    another object, or raised. *)
Inductive returned :=
| RResponse (r : Exceptions.response) (bg : Teardown.background)
| RObject (n : nat).

(** Exceptions are those of [Teardown]; [kind] tells the two the endpoint
    renders. *)
Inductive exc_kind := KHTTP | KValidation | KOther.

Record custom := {
  cu_hook : option Teardown.exc;        (* [get_route_handler()] raises *)
  cu_stacks : Teardown.stacks;
  cu_result : returned + Teardown.exc }.

(** What the endpoint comes to: the user's response (with whether its background
    tasks are still set), the answer of an exception handler, a rendered
    exception or object, or a raise. *)
Inductive custom_outcome :=
| Own (r : Exceptions.response) (background_set : bool)
| Handled (r : Exceptions.response)
| Rendered (status : Z) (e : Teardown.exc)
| Encoded (n : nat)
| Raised (e : Teardown.exc)
| UnboundLocal.                          (* UnboundLocalError: [response] *)

Section Custom.

Variable kind : Teardown.exc -> exc_kind.
Variable status_of : Teardown.exc -> Z.
(** [app._invoke_exception_handler(exc)], or its strict twin: a response, or
    none ([Exceptions]). *)
Variable invoke invoke_strict : Teardown.exc -> option Exceptions.response.
Variable has_handlers rve_registered : bool.

(** The [except] clauses. *)
Definition render (e : Teardown.exc) : custom_outcome :=
  match kind e with
  | KHTTP => match (if has_handlers then invoke e else None) with
             | Some r => Handled r
             | None => Rendered (status_of e) e
             end
  | KValidation => match (if rve_registered then invoke_strict e else None) with
                   | Some r => Handled r
                   | None => Rendered 422 e
                   end
  | KOther => Raised e
  end.

(** The body of the [async with]: the effects of the background tasks, the
    exception the block ends with. *)
Definition block (c : custom) : list nat * option Teardown.exc :=
  match cu_result c with
  | inl (RResponse _ bg) => Teardown.run_background bg
  | inl (RObject _) => ([], None)
  | inr e => ([], Some e)
  end.

Definition all_managers (s : Teardown.stacks) : list Teardown.gen :=
  Teardown.s_file s ++ Teardown.s_inner s ++ Teardown.s_function s.

(** [custom_route_endpoint] after its first suspension: the effects and the
    outcome. *)
Definition custom_route_endpoint (c : custom) : list nat * custom_outcome :=
  match cu_hook c with
  | Some e => ([], render e)
  | None =>
      let '(w, cur) := block c in
      let '(w', cur') := Teardown.unwind (reverse (all_managers (cu_stacks c))) cur in
      (w ++ w',
       match cur' with
       | Some e => render e
       | None =>
           match cu_result c with
           | inl (RResponse r bg) =>
               Own r (match bg, cur with Some _, Some _ => true | _, _ => false end)
           | inl (RObject n) => Encoded n
           | inr _ => UnboundLocal
           end
       end)
  end.

End Custom.

(** The coroutine the door sees: [await _ProbeSuspend()], then the rest. *)
Definition probed (rest : list Drive.node) (result : nat) : Drive.func :=
  {| Drive.f_source := true; Drive.f_decorators := [];
     Drive.f_body := Drive.Susp Drive.KAwait true [] [] :: rest; Drive.f_result := result |}.

(** ** [_rust_validation_handler] *)

Section Validation.

(** JSON values, their parsing and printing. *)
Context {J : Type}.
Variable loads : text -> option J.
Variable dumps : J -> text.
Variable get : J -> text -> option (option J).  (* [.get(k)]; [None]: not a dict *)
Variable wrap_detail : text -> J.               (* [{"detail": text}] *)
Variable empty_list : J.

(** The request given to the user's handler. *)
Record synthetic_request := { q_method : text; q_path : text; q_headers : list (bytes * bytes) }.

Definition synthetic : synthetic_request := {| q_method := lit "POST"; q_path := lit "/"; q_headers := [] |}.

Record validation_error := { ve_errors : J; ve_body : option J; ve_path : option text }.

(** The result of the user's handler, by its attributes; a missing one is
    [None]. *)
Inductive blob := Bytes (b : bytes) | Str (t : text) | Json (j : J).

Record handled := {
  hd_status : option Z;
  hd_body : option blob;
  hd_content : option blob;
  hd_media_type : option text;
  hd_headers : option (list (text * text)) }.

Definition blob_bytes (b : blob) : bytes :=
  match b with Bytes b => b | Str t => t | Json j => dumps j end.

Definition content_type (h : handled) : text :=
  let ct := match hd_media_type h with Some ((_ :: _) as m) => m | _ => lit "application/json" end in
  match hd_headers h with
  | None => ct
  | Some hs => match list_find (fun p => lower p.1 = lit "content-type") hs with
               | Some (_, (_, v)) => v
               | None => ct
               end
  end.

Definition response_of (h : handled) (detail_obj : J) : Z * bytes * text :=
  (match hd_status h with Some 0 | None => 422 | Some s => s end,
   match hd_body h with
   | Some b => blob_bytes b
   | None => match hd_content h with
             | Some b => blob_bytes b
             | None => dumps detail_obj
             end
   end,
   content_type h).

(** The user's handler gets the request and the exception. *)
Definition _rust_validation_handler (user_handler : synthetic_request -> validation_error -> handled)
    (endpoint_path : option text) (detail_json : text) : res (Z * bytes * text) :=
  let detail_obj := match loads detail_json with Some j => j | None => wrap_detail detail_json end in
  match get detail_obj "detail", get detail_obj "body" with
  | Some errors, body =>
      let exc := {| ve_errors := default empty_list errors; ve_body := default None body; ve_path := endpoint_path |} in
      Ok (response_of (user_handler synthetic exc) detail_obj)
  | None, _ => Raise AttributeError
  end.

End Validation.

(** ** Theorems *)

(** *** Asynchronous callables *)

(** The length of the chain of [__wrapped__]. *)
Fixpoint depth (c : callable) : nat :=
  match c with Callable _ (Some w) _ => S (depth w) | _ => O end.

Lemma walk_unwrap c n : (depth c <= n)%nat -> is_coroutine (unwrap c) = true -> is_coroutine c || walk n c = true.
Proof.
  revert c. induction n as [|n IH]; intros [b [w|] k] Hn Hc; cbn in *; try lia.
  - by rewrite Hc.
  - rewrite (IH w) by (done || lia). apply orb_true_r.
  - by rewrite Hc.
Qed.

(** The two tests agree on what they find: a callable the adapter awaits is one
    the helper treats as asynchronous, for chains of at most ten wrappers. *)
Theorem async_tests_agree f :
  (depth f <= 10)%nat -> _callable_is_async f = true -> _is_async_callable f = true.
Proof.
  intros Hd. unfold _callable_is_async, _is_async_callable. rewrite orb_true_iff. intros [->|H]; [done|].
  by rewrite (walk_unwrap f 10 Hd H).
Qed.

(** *** Uploads *)

Fixpoint uploads_of (a : arg) : list nat :=
  match a with
  | Upload u _ => [u]
  | Many l => l ≫= uploads_of
  | Other => []
  end.

Fixpoint at_once (a : arg) : bool :=
  match a with
  | Upload _ AtOnce => true
  | Upload _ _ => false
  | Many l => forallb at_once l
  | Other => true
  end.

Section ArgInd.
Context (P : arg -> Prop) (HU : forall u c, P (Upload u c)) (HM : forall l, Forall P l -> P (Many l)) (HO : P Other).

Fixpoint arg_ind' (a : arg) : P a :=
  match a with
  | Upload u c => HU u c
  | Many l => HM l ((fix go (l : list arg) : Forall P l :=
      match l with [] => List.Forall_nil _ | x :: l' => List.Forall_cons _ _ _ (arg_ind' x) (go l') end) l)
  | Other => HO
  end.
End ArgInd.

Lemma close_at_once a : at_once a = true -> _close_one_upload a = uploads_of a.
Proof.
  induction a as [u c|l IH|] using arg_ind'; cbn; [by destruct c| |done].
  induction IH as [|x l Hx _ IH']; [done|]. cbn. rewrite andb_true_iff. intros [H1 H2].
  by rewrite Hx, IH'.
Qed.

Section Uploads.

Context {V R E : Type} (of_generator : nat -> V).

(** when a route takes uploads, each upload among the handler's arguments,
    in lists too, is closed exactly once, after everything the endpoint does,
    and whether the endpoint returns, raises, or returns what the response model
    rejects; the result is the one without the closing. *)
Theorem uploads_are_closed_on_every_path (r : @route V R) ctx f (e : @endpoint V R E) kw :
  _route_has_uploads (r_body r) = true ->
  forallb at_once kw.*2 = true ->
  let '(t, o) := (build_handler of_generator r ctx f e).1 kw in
  t = (e kw).1 ++ (Close <$> (kw.*2 ≫= uploads_of)) /\
  o = match (e kw).2 with
      | inl v => _finish of_generator r (match ctx with Some ((_ :: _) as p) => p | _ => r_path r end) v
      | inr x => inr x
      end.
Proof.
  intros Hu Hc. unfold build_handler. rewrite Hu.
  assert (_close_upload_files kw = kw.*2 ≫= uploads_of) as Hk.
  { unfold _close_upload_files. clear -Hc. induction (kw.*2) as [|a l IH]; [done|]. cbn in *.
    apply andb_prop in Hc as [Ha Hl]. by rewrite close_at_once, IH. }
  destruct (r_field r), (r_class r); cbn; rewrite Hk; by destruct (e kw) as [t [v|x]].
Qed.

(** what the endpoint returns becomes the response: a response object
    passes untouched whatever the route declares; other data is validated and
    serialized with the route's settings if there is a response model, rendered
    by the response class with the route's status if there is one, and data the
    model rejects raises the validation error with the full path of the route;
    the wrapper is a coroutine function exactly when the endpoint must be
    awaited. *)
Theorem built_handler_renders (r : @route V R) ctx f (e : @endpoint V R E) kw t v :
  e kw = (t, inl v) ->
  (build_handler of_generator r ctx f e).2 = _callable_is_async f /\
  ((build_handler of_generator r ctx f e).1 kw).2 =
  match v with
  | Response x => inl (Response x)
  | Data d =>
      match (match r_field r with Some fl => validate fl d | None => inl d end) with
      | inr errors => inr (ResponseValidationError errors (match ctx with Some ((_ :: _) as p) => p | _ => r_path r end))
      | inl d' =>
          let d'' := match r_field r with Some fl => serialize fl (r_flags r) d' | None => d' end in
          inl (match r_class r with Some c => Response (c d'' (r_status r)) | None => Data d'' end)
      end
  | Generator n => inl (match r_class r with Some c => Response (c (of_generator n) (r_status r)) | None => Generator n end)
  end.
Proof.
  intros He. unfold build_handler. split.
  - destruct (r_field r), (r_class r), (_route_has_uploads _); try done. cbn. unfold _callable_is_async.
    by destruct (is_coroutine f).
  - destruct (r_field r) as [fl|] eqn:Ef, (r_class r) as [c|] eqn:Ec; cbn; rewrite ?He; cbn;
      unfold _finish; rewrite ?Ef, ?Ec; destruct v as [x|n|d]; cbn; try done;
      try (by destruct (_route_has_uploads _); cbn; rewrite ?He; cbn; unfold _finish; rewrite ?Ef, ?Ec);
      by destruct (validate fl d).
Qed.

End Uploads.

(** *** Routes with their own handler *)

(** the user's [get_route_handler] and everything after it runs exactly
    once per request, although the door first drives the coroutine without a
    loop and starts a new one when it suspends: the suspension comes before any
    effect. *)
Theorem probe_leaves_no_effect rest v :
  Drive._noawait_caller (probed rest v) = Drive.submit (probed rest v).
Proof.
  unfold Drive._noawait_caller. cbn [Drive.exec_all Drive.f_body probed Drive.exec Drive.seq andb negb fst snd].
  by destruct (Drive.submit _).
Qed.

Section CustomTheorems.

Variable kind : Teardown.exc -> exc_kind.
Variable status_of : Teardown.exc -> Z.
Variable invoke invoke_strict : Teardown.exc -> option Exceptions.response.
Variable has_handlers rve_registered : bool.

Local Notation endpoint_ := (custom_route_endpoint kind status_of invoke invoke_strict has_handlers rve_registered).

Lemma unwind_works gs l :
  gs = (fun w => Teardown.works w) <$> l -> Teardown.unwind gs None = (concat l, None).
Proof.
  intros ->. induction l as [|w l IH]; [done|]. cbn. unfold Teardown.exit_gen. cbn.
  assert (Teardown.exec true (Teardown.Work <$> w) = (w, Teardown.Finished)) as ->.
  { clear. induction w as [|n w IH]; [done|]. cbn. by rewrite IH. }
  by rewrite IH.
Qed.

(** A context manager that ends without raising. *)
Definition plain_stacks (f i s : list (list nat)) : Teardown.stacks :=
  {| Teardown.s_function := Teardown.works <$> f; Teardown.s_inner := Teardown.works <$> i;
     Teardown.s_file := Teardown.works <$> s |}.

(** background tasks run at another time on such a route: its endpoint
    runs them before it closes the function-scope dependencies, where the
    delegated handler closes these first. *)
Theorem custom_route_runs_background_first f i s r w :
  let st := plain_stacks f i s in
  endpoint_ {| cu_hook := None; cu_stacks := st; cu_result := inl (RResponse r (Some (w, None))) |} =
    (w ++ concat (reverse f) ++ concat (reverse i) ++ concat (reverse s), Own r false) /\
  Teardown.f_effects (Teardown.finish_success st (Some (w, None)) false) =
    concat (reverse f) ++ w ++ concat (reverse i) ++ concat (reverse s).
Proof.
  assert (forall l, reverse (Teardown.works <$> l) = Teardown.works <$> reverse l) as Hr
    by (intros l; symmetry; apply fmap_reverse).
  assert (forall l, Teardown.close_stack (Teardown.works <$> l) = (concat (reverse l), None)) as Hc.
  { intros l. unfold Teardown.close_stack, Teardown.aexit. rewrite Hr. by rewrite (unwind_works _ (reverse l)). }
  intros st. unfold st. split.
  - unfold custom_route_endpoint, block, all_managers, plain_stacks.
    cbn [cu_hook cu_result cu_stacks Teardown.s_function Teardown.s_inner Teardown.s_file Teardown.run_background].
    rewrite (unwind_works _ (reverse f ++ reverse i ++ reverse s)).
    + by rewrite !concat_app.
    + by rewrite !reverse_app, !Hr, !fmap_app, app_assoc.
  - unfold Teardown.finish_success, plain_stacks. cbn [Teardown.s_function]. rewrite Hc.
    unfold Teardown.close_request. cbn [Teardown.s_inner Teardown.s_file Teardown.run_background Teardown.sequence].
    rewrite !Hc. cbn. by rewrite app_nil_r.
Qed.

(** a dependency that swallows the exception of the route leaves the
    endpoint without a response to look at: it fails with an
    [UnboundLocalError]; and one that swallows the exception of a background
    task leaves the tasks set on the response, for the door to run again. *)
Theorem swallowed_failures_misbehave st n e r w :
  Teardown.s_function st = [Teardown.swallowing n] -> Teardown.s_inner st = [] -> Teardown.s_file st = [] ->
  (endpoint_ {| cu_hook := None; cu_stacks := st; cu_result := inr e |}).2 = UnboundLocal /\
  (endpoint_ {| cu_hook := None; cu_stacks := st; cu_result := inl (RResponse r (Some (w, Some e))) |}).2 = Own r true.
Proof.
  destruct st. cbn. by intros -> -> ->.
Qed.

End CustomTheorems.

(** *** Validation errors *)

(** the user's handler for validation errors is never shown the request:
    what it answers depends only on what it does with a made-up [POST /] without
    headers, whatever was requested. *)
Theorem validation_handler_sees_no_request {J} loads dumps get wrap_detail (empty : J) h h' path detail :
  (forall x, h synthetic x = h' synthetic x) ->
  _rust_validation_handler loads dumps get wrap_detail empty h path detail =
  _rust_validation_handler loads dumps get wrap_detail empty h' path detail.
Proof. intros H. unfold _rust_validation_handler. destruct (get _ "detail"); [|done]. by rewrite H. Qed.

End BuildHandler.
