(* ===== verification/StreamHandler.v ===== *)
(** Generator endpoints as streaming responses (applications.py):
    [_oa_stream_info] classifies them, [_build_stream_handler] makes the body,
    server-sent events through a producer task and a queue with keep-alive pings,
    or one JSON line per item. *)

From S2P Require Import Prelude.

Module StreamHandler.

(** ** Classification *)

Inductive gen_kind := NotGen | SyncGen | AsyncGen.

(** The [response_class] of a route: none, a placeholder instance, or a class,
    which may be [EventSourceResponse] or derive from it. *)
Inductive rclass := CNone | CPlaceholder | CClass (sse : bool).

(** A type argument of the response model. *)
Inductive targ := TEvent | TModel (n : nat) | TOther.

(** The response model: the origin is one of the six iterable classes, or not;
    its arguments. *)
Record model := { m_iterable : bool; m_args : list targ }.

Record info := { needs_none : bool; is_sse : bool; is_json : bool; inner : option nat }.

Definition _oa_stream_info (m : model) (c : rclass) (g : gen_kind) : info :=
  let needs := m_iterable m || match g with NotGen => false | _ => true end in
  let sse := match c with CClass b => b | _ => false end in
  let json := negb sse && match c with CNone => true | _ => false end && needs in
  {| needs_none := needs || sse; is_sse := sse; is_json := json;
     inner := if sse || json
              then match m_args m with TModel n :: _ => Some n | _ => None end
              else None |}.

(** Which body [_build_stream_handler] makes. *)
Inductive variant := SSE | RawClass | JsonLines.

Definition stream_variant (c : rclass) : variant :=
  match c with
  | CClass true => SSE
  | CClass false => RawClass
  | CNone | CPlaceholder => JsonLines
  end.

(** [item_adapter]: the type to validate items with. *)
Definition item_adapter (constructs : targ -> bool) (m : model) : option targ :=
  if m_iterable m then match m_args m with t :: _ => if constructs t then Some t else None | [] => None end
  else None.

(** ** Items *)

Section Items.

(** Payloads, and their JSON text ([model_dump_json], or [json.dumps] after
    [jsonable_encoder]). *)
Context {P : Type}.
Variable to_json : P -> res text.

(** An item of the user's generator. *)
Inductive item :=
| Event (raw_data : option text) (data : option P) (event id : option text) (retry : option Z) (comment : option text)
| Plain (p : P).

(** [format_sse_event] of real FastAPI. *)
Variable format_sse_event :
  option text -> option text -> option text -> option Z -> option text -> bytes.

Definition _serialize (i : item) : res bytes :=
  match i with
  | Event (Some raw) _ ev id re co => Ok (format_sse_event (Some raw) ev id re co)
  | Event None (Some d) ev id re co =>
      res_bind (to_json d) (fun t => Ok (format_sse_event (Some t) ev id re co))
  | Event None None ev id re co => Ok (format_sse_event None ev id re co)
  | Plain p => res_bind (to_json p) (fun t => Ok (format_sse_event (Some t) None None None None))
  end.

(** The user's generator: the items it will yield, and how it ends. *)
Record source := { s_items : list item; s_end : option exn }.

(** ** [_stream]: producer, queue, consumer *)

(** An element of the queue: an encoded item, or the end with its error. *)
Inductive qitem := Chunk (b : bytes) | Done (err : option exn).

Inductive producer := Running (s : source) | Ended | Cancelled.

(** What the response's generator yielded. *)
Inductive out := Sent (b : bytes) | Ping.

Inductive consumer := Pulling | Finished | Failed (e : exn) | Closed.

Record state := { prod : producer; queue : list qitem; outs : list out; cons_ : consumer }.

Definition start (s : source) : state :=
  {| prod := Running s; queue := []; outs := []; cons_ := Pulling |}.

(** One turn of the producer: the next item, or the end, is put. *)
Definition produce (s : source) : producer * qitem :=
  match s_items s with
  | [] => (Ended, Done (s_end s))
  | i :: l => match _serialize i with
              | Ok b => (Running {| s_items := l; s_end := s_end s |}, Chunk b)
              | Raise e => (Ended, Done (Some e))
              end
  end.

(** Steps that make progress: the producer puts, the consumer gets. *)
Inductive work : state -> state -> Prop :=
| SProduce s q o c :
    work {| prod := Running s; queue := q; outs := o; cons_ := c |}
         {| prod := (produce s).1; queue := q ++ [(produce s).2]; outs := o; cons_ := c |}
| SGet p b q o :
    work {| prod := p; queue := Chunk b :: q; outs := o; cons_ := Pulling |}
         {| prod := p; queue := q; outs := o ++ [Sent b]; cons_ := Pulling |}
| SEnd p q o :
    work {| prod := p; queue := Done None :: q; outs := o; cons_ := Pulling |}
         {| prod := Cancelled; queue := q; outs := o; cons_ := Finished |}
| SFail p e q o :
    work {| prod := p; queue := Done (Some e) :: q; outs := o; cons_ := Pulling |}
         {| prod := Cancelled; queue := q; outs := o; cons_ := Failed e |}.

(** Besides, a wait times out with a ping, or the response is closed, which
    cancels the producer. *)
Inductive step : state -> state -> Prop :=
| SWork t t' : work t t' -> step t t'
| STimeout p q o :
    step {| prod := p; queue := q; outs := o; cons_ := Pulling |}
         {| prod := p; queue := q; outs := o ++ [Ping]; cons_ := Pulling |}
| SClose p q o :
    step {| prod := p; queue := q; outs := o; cons_ := Pulling |}
         {| prod := Cancelled; queue := q; outs := o; cons_ := Closed |}.

(** What a stream is to deliver: the encoded items up to the first that cannot
    be encoded, and the error. *)
Fixpoint expected_from (l : list item) (e : option exn) : list bytes * option exn :=
  match l with
  | [] => ([], e)
  | i :: l' => match _serialize i with
               | Ok b => let '(bs, r) := expected_from l' e in (b :: bs, r)
               | Raise x => ([], Some x)
               end
  end.

Definition expected (s : source) : list bytes * option exn := expected_from (s_items s) (s_end s).

Definition sent (o : list out) : list bytes := omap (fun x => match x with Sent b => Some b | Ping => None end) o.

Definition chunks (q : list qitem) : list bytes := omap (fun x => match x with Chunk b => Some b | Done _ => None end) q.

(** *** Theorems *)

(** What was sent, what is queued and what the producer still has make up the
    whole; the end is queued last and only once. *)
Definition whole (s0 : source) (t : state) : Prop :=
  match prod t, cons_ t with
  | Running s, Pulling =>
      exists bs, queue t = Chunk <$> bs /\
        expected s0 = (sent (outs t) ++ bs ++ (expected s).1, (expected s).2)
  | Ended, Pulling =>
      exists bs e, queue t = (Chunk <$> bs) ++ [Done e] /\ expected s0 = (sent (outs t) ++ bs, e)
  | _, Finished => expected s0 = (sent (outs t), None)
  | _, Failed e => expected s0 = (sent (outs t), Some e)
  | _, Closed => exists bs, (expected s0).1 = sent (outs t) ++ bs
  | Cancelled, Pulling => False
  end.

Lemma sent_app o o' : sent (o ++ o') = sent o ++ sent o'.
Proof. apply omap_app. Qed.

Lemma expected_produce s :
  match produce s with
  | (Running s', Chunk b) => expected s = (b :: (expected s').1, (expected s').2)
  | (Ended, Done e) => expected s = ([], e)
  | _ => False
  end.
Proof.
  unfold produce, expected. destruct s as [[|i l] e]; cbn; [done|]. destruct (_serialize i); cbn; [|done].
  by destruct (expected_from l e).
Qed.

Lemma work_whole s0 t t' : whole s0 t -> work t t' -> whole s0 t'.
Proof.
  intros Hw Hs. inversion Hs as [s q o c|p b q o|p q o|p x q o]; subst; unfold whole in *; cbn in *.
  - pose proof (expected_produce s) as He. destruct c as [| |x|]; destruct (produce s) as [[s'| |] [b|e]]; cbn in *; try done.
    + destruct Hw as (bs & -> & E). exists (bs ++ [b]). rewrite fmap_app. split; [done|].
      rewrite E, He. cbn. by rewrite <-app_assoc.
    + destruct Hw as (bs & -> & E). exists bs, e. split; [done|]. rewrite E, He. cbn. by rewrite app_nil_r.
  - rewrite sent_app. cbn. destruct p as [s| |]; [| |done].
    + destruct Hw as ([|b' bs] & E & E'); [done|]. injection E as <- ->. exists bs. split; [done|].
      by rewrite E', <-app_assoc.
    + destruct Hw as ([|b' bs] & e & E & E'); [done|]. injection E as <- ->. exists bs, e. split; [done|].
      by rewrite E', <-app_assoc.
  - destruct p as [s| |]; [by destruct Hw as ([|b' bs] & E & E')| |done].
    destruct Hw as ([|b' bs] & e & E & E'); [|done]. injection E as <- ->. by rewrite app_nil_r in E'.
  - destruct p as [s| |]; [by destruct Hw as ([|b' bs] & E & E')| |done].
    destruct Hw as ([|b' bs] & e' & E & E'); [|done]. injection E as <- ->. by rewrite app_nil_r in E'.
Qed.

Lemma step_whole s0 t t' : whole s0 t -> step t t' -> whole s0 t'.
Proof.
  intros Hw Hs. destruct Hs as [t t' Hs|p q o|p q o]; [by eapply work_whole|..]; unfold whole in *; cbn in *.
  - rewrite sent_app. cbn. by rewrite app_nil_r.
  - destruct p as [s| |]; [| |done].
    + destruct Hw as (bs & _ & E). rewrite E. cbn. eauto.
    + destruct Hw as (bs & e & _ & E). rewrite E. cbn. eauto.
Qed.

Lemma reachable_whole s0 t : rtc step (start s0) t -> whole s0 t.
Proof.
  assert (whole s0 (start s0)) as H0.
  { exists []. split; [done|]. cbn. by destruct (expected s0). }
  intros Hr. revert H0. generalize (start s0) Hr. clear Hr. induction 1 as [|x y z Hxy _ IH]; intros H; [done|].
  apply IH. by eapply step_whole.
Qed.

(** C23: server-sent events are delivered exactly once and in order, under
    every interleaving of the producer, the timer and the client: what the
    response yields, pings aside, is always an initial part of the encoded items;
    when the stream ends it is all of them, when it fails it is all of them up to
    the error, and the error is the generator's own or the first encoding
    error. *)
Theorem sse_delivers_items_in_order s0 t :
  rtc step (start s0) t ->
  (exists rest, (expected s0).1 = sent (outs t) ++ rest) /\
  match cons_ t with
  | Finished => expected s0 = (sent (outs t), None)
  | Failed e => expected s0 = (sent (outs t), Some e)
  | _ => True
  end.
Proof.
  intros H%reachable_whole. unfold whole in H. destruct (cons_ t).
  - split; [|done]. destruct (prod t); [| |done].
    + destruct H as (bs & _ & ->). cbn. eauto.
    + destruct H as (bs & e & _ & ->). cbn. eauto.
  - assert (expected s0 = (sent (outs t), None)) as -> by (by destruct (prod t)).
    split; [exists []; by rewrite app_nil_r|done].
  - assert (expected s0 = (sent (outs t), Some e)) as -> by (by destruct (prod t)).
    split; [exists []; by rewrite app_nil_r|done].
  - split; [|done]. by destruct (prod t).
Qed.

(** *** Progress *)

(** An upper bound on the steps that make progress. *)
Definition measure (t : state) : nat :=
  (match prod t with Running s => 2 * S (length (s_items s)) | _ => 0 end +
   length (queue t) + match cons_ t with Pulling => 1 | _ => 0 end)%nat.

Lemma work_decreases t t' : work t t' -> (measure t' < measure t)%nat.
Proof.
  inversion 1 as [s q o c|p b q o|p q o|p x q o]; subst; unfold measure; cbn -[Nat.mul].
  - rewrite length_app. unfold produce. destruct s as [[|i l] e]; cbn -[Nat.mul]; [lia|].
    destruct (_serialize i); cbn -[Nat.mul]; lia.
  - lia.
  - destruct p; lia.
  - destruct p; lia.
Qed.

(** C24: a stream that is not closed ends: the producer and the consumer can
    take only so many steps, twice the number of items and a few, however they
    interleave and however many pings come between, and one of them can always
    take a step until the response has ended or failed. *)
Theorem sse_stream_ends s0 t :
  rtc step (start s0) t -> cons_ t = Pulling ->
  (exists t', work t t') /\
  (forall t' n, nsteps work n t t' -> (n <= measure t)%nat) /\
  (measure t <= 2 * length (s_items s0) + 3)%nat.
Proof.
  intros Hr Hc. split_and!.
  - apply reachable_whole in Hr. unfold whole in Hr. destruct t as [p q o c]. cbn in *. subst c.
    destruct p as [s| |]; [eexists; constructor| |done]. destruct Hr as ([|b bs] & e & -> & _); cbn.
    + destruct e; eexists; constructor.
    + eexists. constructor.
  - intros t' n. clear. revert t. induction n as [|n IH]; intros t H; [lia|].
    inversion H as [|? ? y ? H1 H2]; subst. apply IH in H2. apply work_decreases in H1. lia.
  - assert (forall t', rtc step (start s0) t' -> (measure t' <= 2 * length (s_items s0) + 3)%nat) as H; [|by apply H].
    intros t'. apply (rtc_ind_r (fun t' => measure t' <= 2 * length (s_items s0) + 3)%nat).
    + unfold measure. cbn. lia.
    + intros y z _ Hs IH. destruct Hs as [y z Hs|p q o|p q o].
      * apply work_decreases in Hs. lia.
      * done.
      * unfold measure in *. cbn in *. lia.
Qed.

(** nothing holds the producer back: it may queue every item before the
    response takes one. *)
Theorem producer_runs_ahead s0 :
  exists t, rtc step (start s0) t /\ outs t = [] /\ cons_ t = Pulling /\ chunks (queue t) = (expected s0).1.
Proof.
  assert (forall l e q, exists q', rtc step
    {| prod := Running {| s_items := l; s_end := e |}; queue := q; outs := []; cons_ := Pulling |}
    {| prod := Ended; queue := q ++ q'; outs := []; cons_ := Pulling |} /\ chunks q' = (expected_from l e).1) as H.
  { induction l as [|i l IH]; intros e q.
    - exists [Done e]. split; [|done]. apply rtc_once, SWork. exact (SProduce {| s_items := []; s_end := e |} q [] Pulling).
    - pose proof (SProduce {| s_items := i :: l; s_end := e |} q [] Pulling) as Hp. unfold produce in Hp. cbn in *.
      destruct (_serialize i) as [b|x]; cbn in *.
      + destruct (IH e (q ++ [Chunk b])) as (q' & Hr & Hq). exists (Chunk b :: q'). split.
        * eapply rtc_l; [apply SWork, Hp|]. by rewrite <-app_assoc in Hr.
        * change (chunks (Chunk b :: q')) with (b :: chunks q'). rewrite Hq. by destruct (expected_from l e).
      + exists [Done (Some x)]. split; [|done]. by apply rtc_once, SWork. }
  destruct s0 as [l e]. destruct (H l e []) as (q' & Hr & Hq). eexists. split; [exact Hr|]. cbn. done.
Qed.

End Items.

(** ** JSON lines *)

Section Lines.

Context {P : Type}.

(** What [validate_python] does with an item: the validated item, a
    [ValidationError], another exception. *)
Inductive verdict := Valid (p : P) | Invalid (errors : nat) | Fails (e : exn).

Variable validate_python : option (P -> verdict).   (* [_ta] *)
(** [json.dumps(jsonable_encoder(item), ensure_ascii=False, separators=(",", ":"))]
    encoded. *)
Variable dumps : P -> res bytes.

(** How the generator's body ends: it returns, raises, or a
    [ResponseValidationError] is recorded and ends it quietly. *)
Inductive ending := Complete | Recorded (errors : nat) | Broken (e : exn).

Definition _check (i : P) : P + ending :=
  match validate_python with
  | None => inl i
  | Some v => match v i with
              | Valid p => inl p
              | Invalid errors => inr (Recorded errors)
              | Fails e => inr (Broken e)
              end
  end.

(** [_iter_async] and [_iter_sync], pulled to the end. *)
Fixpoint _iter (items : list P) (end_ : option exn) : list bytes * ending :=
  match items with
  | [] => ([], match end_ with Some e => Broken e | None => Complete end)
  | i :: l =>
      match _check i with
      | inr x => ([], x)
      | inl v => match dumps v with
                 | Raise e => ([], Broken e)
                 | Ok b => let '(bs, x) := _iter l end_ in ((b ++ [LF]) :: bs, x)
                 end
      end
  end.

(** A client's view: the lines of the body. *)
Definition lines (body : bytes) : list bytes := split_on LF body.

(** The encoded items, up to the first that is not valid or cannot be
    encoded. *)
Fixpoint encoded (items : list P) : list bytes :=
  match items with
  | [] => []
  | i :: l => match _check i with
              | inl v => match dumps v with Ok b => b :: encoded l | Raise _ => [] end
              | inr _ => []
              end
  end.

Lemma iter_encoded items e : (_iter items e).1 = (fun b => b ++ [LF]) <$> encoded items.
Proof.
  induction items as [|i l IH]; [done|]. cbn. destruct (_check i) as [v|x]; [|done].
  destruct (dumps v) as [b|x]; [|done]. cbn. destruct (_iter l e) as [bs x]. cbn in *. by rewrite IH.
Qed.

Lemma encoded_dumps items b : b ∈ encoded items -> exists p, dumps p = Ok b.
Proof.
  induction items as [|i l IH]; cbn; [by intros ?%not_elem_of_nil|].
  destruct (_check i) as [v|x]; [|by intros ?%not_elem_of_nil].
  destruct (dumps v) as [c|x] eqn:E; [|by intros ?%not_elem_of_nil].
  intros [->|H]%elem_of_cons; [by exists v|by apply IH].
Qed.

(** C34: the body can be read back: as JSON written without indentation has no
    line feed, the lines of the body are the encoded items, one each and in
    order, followed by the empty rest, up to the first item that is not valid
    (which is recorded and ends the stream) or cannot be encoded. *)
Theorem json_lines_roundtrip items e :
  (forall p b, dumps p = Ok b -> LF ∉ b) ->
  lines (mjoin (_iter items e).1) = encoded items ++ [[]] /\
  ((_iter items e).2 = Complete -> length (encoded items) = length items /\ e = None).
Proof.
  intros Hd. split.
  - rewrite iter_encoded. assert (forall b, b ∈ encoded items -> LF ∉ b) as H.
    { intros b (p & Hp)%encoded_dumps. by eapply Hd. }
    induction (encoded items) as [|b l IH]; [done|]. cbn. unfold lines in *. rewrite <-app_assoc. cbn.
    rewrite split_on_app by (apply H; left). f_equal. apply IH. intros c Hc. apply H. by right.
  - induction items as [|i l IH]; cbn; [by destruct e|]. destruct (_check i) as [v|x] eqn:Ec; cbn.
    + destruct (dumps v) as [b|x]; [|done]. destruct (_iter l e) as [bs x]. cbn in *. intros H.
      destruct (IH H) as [-> ?]. done.
    + intros ->. unfold _check in Ec. destruct validate_python as [f|]; [|done]. by destruct (f i).
Qed.

End Lines.

(** *** Classification *)

(** The schema and the handler agree: an endpoint documented as events streams
    events, one documented as JSON lines streams JSON lines, never both; every
    generator is built without a response model. *)
Theorem documented_stream_is_served m c g :
  let i := _oa_stream_info m c g in
  (is_sse i = true <-> stream_variant c = SSE) /\
  (is_json i = true -> stream_variant c = JsonLines) /\
  ~ (is_sse i = true /\ is_json i = true) /\
  (g <> NotGen -> needs_none i = true).
Proof.
  destruct c as [| |[]], g, m as [[] ?]; cbn; repeat split; naive_solver.
Qed.

(** ** Witnesses *)

Definition fmt0 (d ev id : option text) (re : option Z) (co : option text) : bytes :=
  default [] d ++ [LF; LF].

Definition json0 (n : nat) : res text := if bool_decide (n = 9%nat) then Raise TypeError else Ok (dec (Z.of_nat n)).

Definition source0 : source := {| s_items := [Plain 1%nat; Event (Some (lit "x")) None None None None None]; s_end := None |}.

Local Notation step0 := (step json0 fmt0).

Lemma run0 : rtc step0 (start source0)
  {| prod := Cancelled; queue := []; outs := [Sent [ "1"%char; LF; LF]; Ping; Sent ["x"%char; LF; LF]]; cons_ := Finished |}.
Proof.
  eapply rtc_l; [apply SWork, SProduce|]. eapply rtc_l; [apply SWork, SGet|]. eapply rtc_l; [apply STimeout|].
  eapply rtc_l; [apply SWork, SProduce|]. eapply rtc_l; [apply SWork, SProduce|].
  eapply rtc_l; [apply SWork, SGet|]. eapply rtc_l; [apply SWork, SEnd|]. apply rtc_refl.
Qed.

Lemma sse_delivers_items_in_order_witness :
  expected json0 fmt0 source0 = ([[ "1"%char; LF; LF]; ["x"%char; LF; LF]], None).
Proof. exact (proj2 (sse_delivers_items_in_order json0 fmt0 source0 _ run0)). Defined.

Lemma sse_stream_ends_witness :
  (exists t', work json0 fmt0 (start source0) t') /\ (measure (start source0) <= 7)%nat.
Proof.
  destruct (sse_stream_ends json0 fmt0 source0 (start source0) (rtc_refl _ _) eq_refl) as (H & _ & Hm).
  split; [exact H|exact Hm].
Defined.

Definition dumps0 (n : nat) : res bytes := if bool_decide (n = 9%nat) then Raise TypeError else Ok (dec (Z.of_nat n)).
Definition validate0 (n : nat) : @verdict nat := if bool_decide (n = 5%nat) then Invalid 1 else Valid n.

Lemma dumps0_no_lf p b : dumps0 p = Ok b -> LF ∉ b.
Proof.
  unfold dumps0. case_bool_decide; [done|]. intros [= <-]. intros [H1|H1]%dec_chars; [unfold is_digit in H1; set_solver|done].
Qed.

Lemma json_lines_roundtrip_witness :
  lines (mjoin (_iter (Some validate0) dumps0 [1; 22; 5; 3]%nat None).1) = [lit "1"; lit "22"; []].
Proof. exact (proj1 (json_lines_roundtrip (Some validate0) dumps0 [1; 22; 5; 3]%nat None dumps0_no_lf)). Defined.

End StreamHandler.
