(* ===== verification/TestStream.v ===== *)
(** The synchronous client over an ASGI application (testclient.py:
    [_BufferedStreamFacade], [_ASGISyncClientShim]): streamed responses with their
    queue, redirects and authentication rounds, and the closing of the client. *)

From S2P Require Import Prelude.

Module TestStream.

(** ** Bodies in pieces *)

(** The pieces of [body[i : i + k]] for [i] in [range(0, len(body), k)], [k > 0]. *)
Fixpoint pieces (fuel : nat) (k : nat) (body : bytes) : list bytes :=
  match fuel, body with
  | S n, _ :: _ => take k body :: pieces n k (drop k body)
  | _, _ => []
  end.

(** [item] in pieces of [chunk_size]: a step of zero is refused by [range], and
    with a negative one [range] is empty. *)
Definition split_chunk (chunk_size : option Z) (item : bytes) : res (list bytes) :=
  match chunk_size with
  | None => Ok [item]
  | Some k =>
      if zlen item <=? k then Ok [item]
      else if k =? 0 then Raise ValueError
      else if k <? 0 then Ok []
      else Ok (pieces (length item) (Z.to_nat k) item)
  end.

(** [_BufferedStreamFacade.iter_bytes] *)
Definition buffered_iter_bytes (body : bytes) (chunk_size : option Z) : res (list bytes) :=
  match body with
  | [] => Ok []
  | _ => split_chunk chunk_size body
  end.

(** [s.split(sep, 1)[1]] of a separator that occurs. *)
Definition after_sep (sep s : text) : text := drop (Z.to_nat (find sep s 0) + length sep) s.

(** [_charset] *)
Definition _charset (content_type : option text) : text :=
  let ct := default [] content_type in
  if find "charset=" ct 0 =? -1 then lit "utf-8"
  else (partition_at ";" (strip_by is_space_latin1 (after_sep "charset=" ct))).1.

(** ** Requests *)

(** [method.upper()] *)
Definition upper_char (c : ascii) : ascii :=
  let n := code c in if ((97 <=? n) && (n <=? 122))%N then ascii_of_N (n - 32) else c.
Definition upper (t : text) : text := upper_char <$> t.

(** The keyword arguments of a request: a body given as [content], [json],
    [data] or [files]; parameters; headers. *)
Record kwargs := { k_body : option bytes; k_params : option text; k_headers : list (text * text) }.

(** A request sent to the application. *)
Record sent := { s_method : text; s_url : text; s_kwargs : kwargs }.

Record reply := { p_status : Z; p_location : option text }.

(** [_stream_one_shot]'s and [stream]'s resolution of a URL. *)
Definition full_url (base_url url : text) : text :=
  if find "://" url 0 =? -1
  then rstrip_by (fun c => bool_decide (c = "/"%char)) base_url ++ lit "/" ++
       lstrip_by (fun c => bool_decide (c = "/"%char)) url
  else url.

Definition drop_body (k : kwargs) : kwargs :=
  {| k_body := None; k_params := k_params k; k_headers := k_headers k |}.

Definition is_redirect (status : Z) : bool := bool_decide (status ∈ [301; 302; 303; 307; 308]).

(** The rewriting of the method. *)
Definition redirected_method (status : Z) (method : text) : text :=
  let m := upper method in
  if (status =? 303) && negb (bool_decide (m = lit "GET" \/ m = lit "HEAD")) then lit "GET"
  else if bool_decide (status = 301 \/ status = 302) && bool_decide (m = lit "POST") then lit "GET"
  else method.

Definition next_kwargs (method method' : text) (k : kwargs) : kwargs :=
  if bool_decide (method' <> upper method) then drop_body k else k.

Section Requests.

(** The application's answer to a request. *)
Variable base_url : text.
Variable app : sent -> reply.

Definition one_shot (method url : text) (k : kwargs) : sent :=
  {| s_method := upper method; s_url := full_url base_url url; s_kwargs := k |}.

Definition follows (follow_redirects : bool) (r : reply) : option text :=
  if follow_redirects && is_redirect (p_status r)
  then match p_location r with Some [] | None => None | l => l end
  else None.

(** The loop of [_stream_with_redirects], [hops] requests at most: the requests
    sent and the reply, or the error. *)
Fixpoint redirect_loop (hops : nat) (follow_redirects : bool) (method url : text) (k : kwargs)
    : list sent * res reply :=
  match hops with
  | O => ([], Raise (RuntimeError "too many redirects"))
  | S n =>
      let q := one_shot method url k in
      match follows follow_redirects (app q) with
      | None => ([q], Ok (app q))
      | Some location =>
          let method' := redirected_method (p_status (app q)) method in
          let '(qs, r) := redirect_loop n follow_redirects method' location (next_kwargs method method' k) in
          (q :: qs, r)
      end
  end.

Definition max_redirects : nat := 10.

Definition _stream_with_redirects (follow_redirects : bool) (method url : text) (k : kwargs)
    : list sent * res reply := redirect_loop (S max_redirects) follow_redirects method url k.

(** *** Authentication *)

(** An [httpx.Auth]'s flow: it ends, or yields a request and goes on with the
    response. *)
Inductive flow := Stop | Yields (q : sent) (k : reply -> flow).

(** What is given as [auth]. *)
Inductive auth := NoAuth | AuthObject (f : sent -> flow) | Pair (user password : text) | OtherAuth.

(** [BasicAuth] of httpx. *)
Variable basic_auth : text -> text -> sent -> flow.

Definition _normalise_auth (a : auth) : option (sent -> flow) :=
  match a with
  | NoAuth | OtherAuth => None
  | AuthObject f => Some f
  | Pair u p => Some (basic_auth u p)
  end.

Definition max_auth_rounds : nat := 4.

(** The challenge-response loop; each round is a request of its own, redirects
    followed. *)
Fixpoint auth_loop (rounds : nat) (follow_redirects : bool) (f : flow) : list sent * res reply :=
  match rounds, f with
  | O, _ => ([], Raise (RuntimeError "auth flow did not terminate"))
  | S n, Yields q k =>
      match _stream_with_redirects follow_redirects (s_method q) (s_url q)
              {| k_body := k_body (s_kwargs q); k_params := None; k_headers := k_headers (s_kwargs q) |} with
      | (qs, Raise e) => (qs, Raise e)
      | (qs, Ok r) =>
          match k r with
          | Stop => (qs, Ok r)
          | f' => let '(qs', r') := auth_loop n follow_redirects f' in (qs ++ qs', r')
          end
      end
  | S _, Stop => ([], Raise (RuntimeError "auth flow did not terminate"))
  end.

(** [stream] *)
Definition stream (a : auth) (follow_redirects : bool) (method url : text) (k : kwargs)
    : list sent * res reply :=
  match _normalise_auth a with
  | None => _stream_with_redirects follow_redirects method url k
  | Some f =>
      match f (one_shot method url k) with
      | Stop => _stream_with_redirects follow_redirects method url k
      | fl => auth_loop (S max_auth_rounds) follow_redirects fl
      end
  end.

End Requests.

(** ** One request: the application, the queue, the reader *)

(** What the application does. *)
Inductive action := AStart (status : Z) | ABody (b : bytes) (more_body : bool) | AFail (e : exn).

Inductive qitem := Chunk (b : bytes) | SENTINEL.

Record driver := { ready : option Z; chunk_q : list qitem; done : bool }.

Definition driver0 : driver := {| ready := None; chunk_q := []; done := false |}.

(** [_send] *)
Definition _send (d : driver) (a : action) : driver :=
  match a with
  | AStart s => {| ready := Some s; chunk_q := chunk_q d; done := done d |}
  | ABody b more =>
      let q := chunk_q d ++ match b with [] => [] | _ => [Chunk b] end in
      if more then {| ready := ready d; chunk_q := q; done := done d |}
      else {| ready := ready d; chunk_q := q ++ [SENTINEL]; done := true |}
  | AFail _ => d
  end.

(** [_run_app]: the actions up to a failure, then the [finally] clause. *)
Fixpoint run_actions (l : list action) (d : driver) : driver * option exn :=
  match l with
  | [] => (d, None)
  | AFail e :: _ => (d, Some e)
  | a :: l' => run_actions l' (_send d a)
  end.

Definition _run_app (l : list action) : driver * option exn :=
  let '(d, e) := run_actions l driver0 in
  (if done d then d else {| ready := ready d; chunk_q := chunk_q d ++ [SENTINEL]; done := true |}, e).

(** What the caller gets: a facade with its status and the queue, or the error
    after ten seconds without headers. *)
Definition open_stream (l : list action) : res (Z * list qitem) :=
  match ready (_run_app l).1 with
  | Some s => Ok (s, chunk_q (_run_app l).1)
  | None => Raise (RuntimeError "ASGI app did not send response headers within 10s")
  end.

(** [_receive]: the events seen by the application. *)
Inductive event := Request (body : bytes) | Disconnect | Parked.

Definition _receive (body : bytes) (request_consumed client_disconnected : bool) : event * bool :=
  if negb request_consumed then (Request body, true)
  else (if client_disconnected then Disconnect else Parked, true).

(** [iter_bytes] of the facade, to its end: the pieces and the rest of the
    queue; [None] when it waits for good. *)
Fixpoint iter_bytes (chunk_size : option Z) (q : list qitem) : option (res (list bytes) * list qitem) :=
  match q with
  | [] => None
  | SENTINEL :: q' => Some (Ok [], q')
  | Chunk b :: q' =>
      match split_chunk chunk_size b with
      | Raise e => Some (Raise e, q')
      | Ok ps => match iter_bytes chunk_size q' with
                 | Some (Ok l, rest) => Some (Ok (ps ++ l), rest)
                 | Some (Raise e, rest) => Some (Raise e, rest)
                 | None => None
                 end
      end
  end.

(** [read], [content] *)
Definition read (q : list qitem) : option (res bytes * list qitem) :=
  match iter_bytes None q with
  | Some (Ok l, rest) => Some (Ok (mjoin l), rest)
  | Some (Raise e, rest) => Some (Raise e, rest)
  | None => None
  end.

(** *** The scope of a request *)

(** [merged_headers] of the shim: the defaults under the given headers, names in
    lower case. *)
Definition set_header (hs : list (text * text)) (kv : text * text) : list (text * text) :=
  if existsb (fun p => bool_decide (p.1 = kv.1)) hs
  then (fun p => if bool_decide (p.1 = kv.1) then kv else p) <$> hs else hs ++ [kv].

Definition session_headers (given : list (text * text)) : list (text * text) :=
  fold_left (fun hs kv => set_header hs (lower kv.1, kv.2)) given
    [(lit "accept-encoding", lit "gzip, deflate"); (lit "user-agent", lit "testclient")].

(** [urlsplit(str(req.url))] *)
Record url_parts := { u_scheme : text; u_hostname : option text; u_port : option Z; u_path : text; u_query : text }.

Record scope := {
  sc_path : bytes; sc_query : bytes; sc_server : text * Z; sc_scheme : text;
  sc_headers : list (bytes * bytes); sc_client : text * Z }.

Definition asgi_scope (u : url_parts) (raw : list (bytes * bytes)) : scope :=
  let host := default (lit "testserver") (u_hostname u) in
  let port := match u_port u with
              | Some 0 | None => if bool_decide (u_scheme u = lit "https") then 443 else 80
              | Some p => p
              end in
  let lowered := (fun kv => (lower kv.1, kv.2)) <$> raw in
  {| sc_path := match u_path u with [] => lit "/" | p => p end;
     sc_query := u_query u; sc_server := (host, port);
     sc_scheme := match u_scheme u with [] => lit "http" | x => x end;
     sc_headers := if existsb (fun kv => bool_decide (kv.1 = lit "host")) lowered then lowered
                   else lowered ++ [(lit "host", if bool_decide (port = 80 \/ port = 443) then host
                                                 else host ++ lit ":" ++ dec port)];
     sc_client := (lit "testclient", 50000) |}.

(** [_scope_overriding_app]: the client of the scopes of the shim's transport. *)
Definition override_client (ty : text) (client : text * Z) : text * Z :=
  if bool_decide (ty ∈ [lit "http"; lit "websocket"]) then (lit "testclient", 50000) else client.

(** ** Closing the client *)

(** The four steps of [close], each of which may raise. *)
Record shim := { closed : bool; loop_closed : bool; stopped : bool; log : list nat }.

Definition attempt_step (fails : bool) (n : nat) (s : shim) : shim :=
  if fails then s else {| closed := closed s; loop_closed := loop_closed s; stopped := stopped s; log := log s ++ [n] |}.

Definition close (fails : nat -> bool) (s : shim) : shim :=
  if closed s then s
  else
    let s1 := {| closed := true; loop_closed := loop_closed s; stopped := stopped s; log := log s |} in
    let s2 := attempt_step (fails 1%nat) 1 s1 in
    let s3 := attempt_step (fails 2%nat) 2 s2 in
    let s4 := if fails 3%nat then s3
              else {| closed := closed s3; loop_closed := loop_closed s3; stopped := true; log := log s3 ++ [3%nat] |} in
    if loop_closed s4 then s4
    else if fails 4%nat || negb (stopped s4) then s4
    else {| closed := closed s4; loop_closed := true; stopped := stopped s4; log := log s4 ++ [4%nat] |}.

(** [_drain_live_shims] *)
Definition _drain_live_shims (fails : nat -> bool) (l : list shim) : list shim := close fails <$> l.

(** ** Theorems *)

(** *** Pieces *)

Lemma pieces_spec fuel k body :
  (0 < k)%nat -> (length body <= fuel)%nat ->
  concat (pieces fuel k body) = body /\ Forall (fun p => (0 < length p <= k)%nat) (pieces fuel k body).
Proof.
  intros Hk. revert body. induction fuel as [|n IH]; intros [|c body] Hn; cbn in *; try done; try lia.
  destruct (IH (drop k (c :: body))) as [H1 H2]; [rewrite length_drop; cbn; lia|].
  rewrite H1, take_drop. split; [done|]. constructor; [rewrite length_take; cbn; lia|done].
Qed.

(** cutting into chunks loses nothing: for every positive chunk size, and
    without one, the pieces joined are the body, and none is longer than the
    size. *)
Lemma split_chunk_spec size item l :
  match size with Some k => 0 < k | None => True end ->
  split_chunk size item = Ok l ->
  concat l = item /\ match size with Some k => Forall (fun p => zlen p <= k) l | None => True end.
Proof.
  destruct size as [k|]; cbn; intros Hk.
  - destruct (Z.leb_spec (zlen item) k) as [Hl|Hl].
    + intros [= <-]. cbn. rewrite app_nil_r. split; [done|by repeat constructor].
    + rewrite (proj2 (Z.eqb_neq k 0)), (proj2 (Z.ltb_ge k 0)) by lia. intros [= <-].
      destruct (pieces_spec (length item) (Z.to_nat k) item) as [H1 H2]; [lia..|]. split; [done|].
      eapply Forall_impl; [exact H2|]. intros p Hp. unfold zlen. cbn in Hp. lia.
  - intros [= <-]. cbn. by rewrite app_nil_r.
Qed.

Lemma split_chunk_total size item :
  match size with Some k => 0 < k | None => True end -> exists l, split_chunk size item = Ok l.
Proof.
  destruct size as [k|]; cbn; [|by eexists]. intros Hk. destruct (zlen item <=? k); [by eexists|].
  rewrite (proj2 (Z.eqb_neq k 0)), (proj2 (Z.ltb_ge k 0)) by lia. by eexists.
Qed.

(** *** Reading *)

(** What the application sends as the body: up to the first frame declared the
    last, or its end. *)
Fixpoint body_of (l : list action) : bytes :=
  match l with
  | [] | AFail _ :: _ => []
  | AStart _ :: l' => body_of l'
  | ABody b true :: l' => b ++ body_of l'
  | ABody b false :: _ => b
  end.

(** The queue items of a frame. *)
Definition items (b : bytes) : list qitem := match b with [] => [] | _ => [Chunk b] end.

Lemma iter_items size b q l rest :
  match size with Some k => 0 < k | None => True end ->
  iter_bytes size q = Some (Ok l, rest) ->
  exists l', iter_bytes size (items b ++ q) = Some (Ok (l' ++ l), rest) /\ concat l' = b.
Proof.
  intros Hk E. destruct b as [|c b]; cbn [items Datatypes.app]; [by exists []|]. cbn [iter_bytes].
  destruct (split_chunk_total size (c :: b) Hk) as [ps Hps]. rewrite Hps, E.
  exists ps. split; [done|]. by apply split_chunk_spec in Hps as [? _].
Qed.

(** The queue grows at its end. *)
Lemma run_actions_queue l d :
  exists q, chunk_q (run_actions l d).1 = chunk_q d ++ q /\
    (done d = false ->
     forall size, match size with Some k => 0 < k | None => True end ->
     exists ps rest, iter_bytes size (q ++ if done (run_actions l d).1 then [] else [SENTINEL]) = Some (Ok ps, rest) /\
       concat ps = body_of l).
Proof.
  revert d. induction l as [|a l IH]; intros d.
  - exists []. cbn. rewrite app_nil_r. split; [done|]. intros -> size Hk. cbn. by eexists _, _.
  - destruct a as [s|b [] |e]; cbn [run_actions body_of].
    + destruct (IH (_send d (AStart s))) as (q & Hq & H). exists q. split; [exact Hq|exact H].
    + destruct (IH (_send d (ABody b true))) as (q & Hq & H). exists (items b ++ q).
      split; [rewrite Hq; cbn; by rewrite app_assoc|]. intros Hd size Hk.
      destruct (H Hd size Hk) as (ps & rest & Hi & Hc). rewrite <-app_assoc.
      destruct (iter_items size b _ _ _ Hk Hi) as (l' & -> & Hl').
      eexists _, _. split; [done|]. by rewrite concat_app, Hl', Hc.
    + destruct (IH (_send d (ABody b false))) as (q & Hq & _). exists ((items b ++ [SENTINEL]) ++ q).
      split; [rewrite Hq; cbn; by rewrite !app_assoc|]. intros Hd size Hk.
      rewrite <-!app_assoc. set (r := [SENTINEL] ++ _).
      assert (iter_bytes size r = Some (Ok [], q ++ (if done (run_actions l (_send d (ABody b false))).1 then [] else [SENTINEL]))) as Hr by done.
      destruct (iter_items size b _ _ _ Hk Hr) as (l' & Hl & Hl').
      eexists _, _. split; [exact Hl|]. by rewrite app_nil_r.
    + exists []. cbn. rewrite app_nil_r. split; [done|]. intros -> size Hk. cbn. by eexists _, _.
Qed.

(** reading a streamed response always comes to an end with what was
    sent: however the application ends, once it has sent its headers and has
    ended, iterating over the body, in chunks of any positive size or without
    one, stops and gives exactly the bytes sent up to the frame declared the
    last. *)
Theorem streamed_body_is_read_in_full l s q size :
  open_stream l = Ok (s, q) -> match size with Some k => 0 < k | None => True end ->
  exists ps rest, iter_bytes size q = Some (Ok ps, rest) /\ concat ps = body_of l.
Proof.
  intros Ho Hk. unfold open_stream, _run_app in Ho.
  destruct (run_actions_queue l driver0) as (q' & Hq & H). specialize (H eq_refl size Hk).
  destruct (run_actions l driver0) as [d e]. cbn in *. destruct (done d) eqn:Ed; cbn in Ho.
  - destruct (ready d); [|done]. injection Ho as _ <-. rewrite app_nil_r in H. by rewrite Hq.
  - destruct (ready d); [|done]. injection Ho as _ <-. by rewrite Hq.
Qed.

Definition in_progress (a : action) : bool :=
  match a with AStart _ | ABody _ true => true | _ => false end.

Lemma run_actions_app l k d :
  forallb in_progress l = true ->
  run_actions (l ++ k) d = run_actions k (fold_left _send l d) /\ done (fold_left _send l d) = done d.
Proof.
  revert d. induction l as [|a l IH]; intros d H; [done|]. cbn in H. apply andb_prop in H as [Ha Hl].
  destruct (IH (_send d a) Hl) as [H1 H2]. by destruct a as [s|b []|e].
Qed.

(** a failure in the middle of the body cannot be told from its end: the
    caller sees the same status, reads the same bytes, and gets no exception. *)
Theorem failure_is_read_as_the_end l e l' :
  forallb in_progress l = true ->
  open_stream (l ++ AFail e :: l') = open_stream (l ++ [ABody [] false]).
Proof.
  intros Hl. unfold open_stream, _run_app.
  destruct (run_actions_app l (AFail e :: l') driver0 Hl) as [-> Hd].
  destruct (run_actions_app l [ABody [] false] driver0 Hl) as [-> _].
  cbn. rewrite Hd. cbn. by rewrite app_nil_r.
Qed.

(** an application that fails before it sends its headers is reported as
    one that never answered, after ten seconds; its exception is lost. *)
Theorem early_failure_is_a_timeout e l :
  open_stream (AFail e :: l) = Raise (RuntimeError "ASGI app did not send response headers within 10s").
Proof. done. Qed.

(** a response that has been read once cannot be read again: the end mark
    is gone from the queue, and the next [read], [text] or [content] waits for
    good. *)
Theorem second_read_never_returns l b s q :
  forallb in_progress l = true -> open_stream (l ++ [ABody b false]) = Ok (s, q) ->
  exists body, read q = Some (Ok body, []) /\ read [] = None.
Proof.
  intros Hl. unfold open_stream, _run_app.
  destruct (run_actions_app l [ABody b false] driver0 Hl) as [-> _].
  cbn. destruct (ready _); [|done]. intros [= _ <-].
  assert (forall l d, forallb in_progress l = true -> exists bs, chunk_q (fold_left _send l d) = chunk_q d ++ (Chunk <$> bs)) as H.
  { clear. induction l as [|a l IH]; intros d H; [exists []; cbn; by rewrite app_nil_r|]. cbn in H.
    apply andb_prop in H as [Ha Hl]. destruct (IH (_send d a) Hl) as [bs Hbs]. cbn [fold_left]. rewrite Hbs.
    destruct a as [s|[|c b] []|e]; try done; cbn; [by eexists|exists bs; by rewrite app_nil_r|].
    exists ((c :: b) :: bs). by rewrite <-app_assoc. }
  destruct (H l driver0 Hl) as [bs ->]. cbn.
  assert (forall bs q, iter_bytes None ((Chunk <$> bs) ++ q) =
    match iter_bytes None q with Some (Ok l, r) => Some (Ok (bs ++ l), r) | o => o end) as Hi.
  { clear. induction bs as [|x bs IH]; intros q; cbn; [by destruct (iter_bytes None q) as [[[]]|]|].
    rewrite IH. by destruct (iter_bytes None q) as [[[]]|]. }
  exists (mjoin (bs ++ match b with [] => [] | _ => [b] end)). split; [|done]. unfold read.
  rewrite <-!app_assoc, Hi. by destruct b.
Qed.

(** *** Redirects *)

Section RequestTheorems.

Variable base_url : text.
Variable app : sent -> reply.

Lemma redirect_loop_bound n fr method url k :
  let '(qs, r) := redirect_loop base_url app n fr method url k in
  (length qs <= n)%nat /\ (match r with Ok r => exists qs' q, qs = qs' ++ [q] /\ r = app q | Raise _ => length qs = n end).
Proof.
  revert method url k. induction n as [|n IH]; intros method url k; cbn [redirect_loop]; [done|].
  destruct (follows fr _) as [loc|]; [|cbn; split; [lia|by exists []; eexists]].
  set (m' := redirected_method _ _). specialize (IH m' loc (next_kwargs method m' k)).
  destruct (redirect_loop base_url app n fr m' loc _) as [qs [r|e]]; cbn in *.
  - destruct IH as (Hl & qs' & q & -> & ->). split; [lia|]. by eexists (_ :: qs'), q.
  - destruct IH as (Hl & He). split; lia.
Qed.

Lemma upper_GET : upper "GET" = lit "GET".
Proof. reflexivity. Qed.

Lemma redirected_method_cases status method :
  redirected_method status method = method \/ redirected_method status method = lit "GET".
Proof. unfold redirected_method. repeat case_match; auto. Qed.

(** The state of the loop: the first method and the whole request, or [GET]
    without a body. *)
Definition hop_ok (m : text) (k0 : kwargs) (method : text) (k : kwargs) : Prop :=
  (method = m /\ k = k0) \/ (method = lit "GET" /\ m <> lit "GET" /\ k = drop_body k0).

Lemma hop_ok_next m k0 method k status :
  upper m = m -> hop_ok m k0 method k ->
  hop_ok m k0 (redirected_method status method) (next_kwargs method (redirected_method status method) k).
Proof.
  intros Hm [[-> ->]|(-> & Hne & ->)]; unfold next_kwargs.
  - rewrite Hm. destruct (redirected_method_cases status m) as [->| ->].
    + rewrite bool_decide_eq_false_2 by auto. by left.
    + case_bool_decide as E; [right; naive_solver|left]. by rewrite E.
  - assert (redirected_method status "GET" = lit "GET") as -> by (by destruct (redirected_method_cases status (lit "GET"))).
    rewrite upper_GET, bool_decide_eq_false_2 by auto. right. naive_solver.
Qed.

(** redirects are followed safely and boundedly: at most eleven requests
    are sent, and exactly eleven before the loop is reported; a request written
    with a capital method is re-sent whole as long as its method is kept, and as
    a [GET] without any body once it has been rewritten, never with the body
    under another method; the response returned is the one to the last request. *)
Theorem redirects_never_replay_a_body fr m url k :
  upper m = m ->
  let '(qs, r) := _stream_with_redirects base_url app fr m url k in
  (length qs <= 11)%nat /\
  Forall (fun q => (s_method q = m /\ s_kwargs q = k) \/
                   (s_method q = lit "GET" /\ m <> lit "GET" /\ s_kwargs q = drop_body k)) qs /\
  match r with
  | Ok x => exists qs' q, qs = qs' ++ [q] /\ x = app q
  | Raise e => e = RuntimeError "too many redirects" /\ length qs = 11%nat
  end.
Proof.
  intros Hm. unfold _stream_with_redirects.
  assert (forall n method url' k', hop_ok m k method k' ->
    Forall (fun q => hop_ok m k (s_method q) (s_kwargs q)) (redirect_loop base_url app n fr method url' k').1 /\
    forall e, (redirect_loop base_url app n fr method url' k').2 = Raise e -> e = RuntimeError "too many redirects") as H.
  { induction n as [|n IH]; intros method url' k' Hk; cbn [redirect_loop]; [split; [constructor|by intros e [= <-]]|].
    assert (hop_ok m k (s_method (one_shot base_url method url' k')) k') as Hq.
    { destruct Hk as [[-> ->]|(-> & ? & ->)]; [left; by rewrite <-Hm at 2|right; auto]. }
    destruct (follows fr _) as [loc|]; [|split; [constructor; [exact Hq|by apply Forall_nil]|done]].
    set (m' := redirected_method _ _).
    pose proof (IH m' loc (next_kwargs method m' k') (hop_ok_next m k method k' _ Hm Hk)) as [H1 H2].
    destruct (redirect_loop base_url app n fr m' loc _) as [qs r]. cbn in *. split; [by constructor|done]. }
  destruct (H (S max_redirects) m url k (or_introl (conj eq_refl eq_refl))) as [H1 H2].
  pose proof (redirect_loop_bound (S max_redirects) fr m url k) as Hb.
  destruct (redirect_loop base_url app (S max_redirects) fr m url k) as [qs [x|e]]; cbn in *; destruct Hb as [Hb1 Hb2].
  - split; [done|]. by split.
  - split; [done|]. split; [done|]. split; [by apply H2|done].
Qed.

(** a method written in small letters loses the body of a preserved
    redirect: on a 307 or 308 the second request keeps the method and has no
    body. *)
Theorem small_letters_lose_the_body m url k b loc status :
  upper m <> m -> k_body k = Some b -> bool_decide (status = 307 \/ status = 308) = true ->
  loc <> [] ->
  (forall q, s_url q = full_url base_url url -> app q = {| p_status := status; p_location := Some loc |}) ->
  exists q qs, (redirect_loop base_url app 2 true m url k).1 = q :: {| s_method := upper m; s_url := full_url base_url loc; s_kwargs := drop_body k |} :: qs /\
    k_body (s_kwargs q) = Some b /\ s_method q = upper m.
Proof.
  intros Hm Hb Hs Hl Ha. cbn [redirect_loop]. rewrite (Ha (one_shot base_url m url k)) by done.
  apply bool_decide_eq_true in Hs. unfold follows at 1. cbn [p_status p_location].
  assert (is_redirect status = true) as -> by (destruct Hs as [-> | ->]; reflexivity). cbn [andb].
  destruct loc as [|c loc]; [done|].
  assert (redirected_method status m = m) as ->.
  { unfold redirected_method. destruct Hs as [-> | ->]; cbn; done. }
  unfold next_kwargs. rewrite bool_decide_eq_true_2 by auto.
  destruct (follows true _); eexists _, _; (split; [reflexivity|done]).
Qed.

(** the parameters of the call are sent again with every redirect, over
    the query the redirect names. *)
Theorem parameters_follow_redirects fr m url k :
  Forall (fun q => k_params (s_kwargs q) = k_params k) (_stream_with_redirects base_url app fr m url k).1.
Proof.
  unfold _stream_with_redirects. generalize (S max_redirects). intros n. revert m url k.
  induction n as [|n IH]; intros m url k; cbn [redirect_loop]; [constructor|].
  destruct (follows fr _) as [loc|]; [|by repeat constructor]. set (m' := redirected_method _ _).
  specialize (IH m' loc (next_kwargs m m' k)). destruct (redirect_loop base_url app n fr m' loc _) as [qs r]. cbn in *.
  constructor; [done|]. eapply Forall_impl; [exact IH|]. intros q ->. unfold next_kwargs. by case_bool_decide.
Qed.

(** *** Authentication *)

Variable basic_auth : text -> text -> sent -> flow.

(** The responses to the rounds of a flow. *)
Fixpoint rounds (n : nat) (fr : bool) (f : flow) : option nat :=
  match n, f with
  | _, Stop => Some 0%nat
  | O, Yields _ _ => None
  | S n', Yields q k =>
      match (_stream_with_redirects base_url app fr (s_method q) (s_url q)
              {| k_body := k_body (s_kwargs q); k_params := None; k_headers := k_headers (s_kwargs q) |}).2 with
      | Ok r => S <$> rounds n' fr (k r)
      | Raise _ => None
      end
  end.

(** an authentication flow is driven to its end: a flow that stops within
    five responses, whatever it does with them, gives the response to the last
    request that was sent, with at most eleven requests for each round. *)
Theorem auth_flow_is_driven fr q k n :
  rounds (S max_auth_rounds) fr (Yields q k) = Some n ->
  exists qs q' x, auth_loop base_url app (S max_auth_rounds) fr (Yields q k) = (qs ++ [q'], Ok x) /\ x = app q' /\
    (length (qs ++ [q']) <= n * 11)%nat.
Proof.
  generalize (S max_auth_rounds). intros m. revert q k n. induction m as [|m IH]; intros q k n; [done|].
  cbn [rounds auth_loop]. pose proof (redirect_loop_bound (S max_redirects) fr (s_method q) (s_url q)
    {| k_body := k_body (s_kwargs q); k_params := None; k_headers := k_headers (s_kwargs q) |}) as Hb.
  fold (_stream_with_redirects base_url app fr (s_method q) (s_url q)
    {| k_body := k_body (s_kwargs q); k_params := None; k_headers := k_headers (s_kwargs q) |}) in Hb.
  destruct (_stream_with_redirects _ _ _ _ _ _) as [qs [r|e]]; cbn [snd]; [|done].
  destruct Hb as (Hl & qs' & q' & -> & Hr). intros (j & Hj & ->)%fmap_Some.
  destruct (k r) as [|q2 k2] eqn:Ek.
  - exists qs', q', r. split_and!; [done|done|]. unfold max_redirects in Hl. lia.
  - destruct (IH q2 k2 j Hj) as (qs2 & q3 & x & -> & Hx & Hlen). exists ((qs' ++ [q']) ++ qs2), q3, x.
    split_and!; [by rewrite app_assoc|done|].
    unfold max_redirects in Hl. rewrite !length_app in *. lia.
Qed.

End RequestTheorems.

(** *** Scopes *)

(** Every request has a [host] header; one that was given is not touched. *)
Theorem scope_has_host u raw :
  exists h, (lit "host", h) ∈ sc_headers (asgi_scope u raw) /\
    forall k v, (k, v) ∈ raw -> lower k = lit "host" ->
      sc_headers (asgi_scope u raw) = (fun kv : bytes * bytes => (lower kv.1, kv.2)) <$> raw.
Proof.
  unfold asgi_scope. cbn [sc_headers]. set (low := _ <$> raw). destruct (existsb _ low) eqn:E.
  - pose proof E as E'. apply existsb_exists in E' as ([k h] & Hk & Hh). apply bool_decide_eq_true in Hh. cbn in Hh. subst k.
    exists h. split; [by apply list_elem_of_In|done].
  - eexists. split; [apply elem_of_app; right; left|]. intros k v Hk Hl. exfalso.
    assert (existsb (fun kv : bytes * bytes => bool_decide (kv.1 = lit "host")) low = true) as Ht; [|by rewrite Ht in E].
    apply existsb_exists. exists (lower k, v). split; [|by apply bool_decide_eq_true_2].
    apply list_elem_of_In. unfold low. apply list_elem_of_fmap. by exists (k, v).
Qed.

(** *** Closing *)

(** closing is idempotent and goes through to the end: whatever the first
    two steps raise, the loop is closed if its thread stopped; a second call
    changes nothing. *)
Theorem close_is_idempotent f f' s :
  close f' (close f s) = close f s /\
  (closed s = false -> f 3%nat = false -> f 4%nat = false -> loop_closed (close f s) = true).
Proof.
  assert (closed (close f s) = true) as Hc.
  { unfold close, attempt_step. destruct (closed s) eqn:E; [done|].
    destruct (f 1%nat), (f 2%nat), (f 3%nat), (f 4%nat), (stopped s), (loop_closed s); done. }
  split; [unfold close at 1; by rewrite Hc|]. intros Hs H3 H4. unfold close, attempt_step. rewrite Hs, H3, H4.
  destruct (f 1%nat), (f 2%nat), (loop_closed s) eqn:El; cbn; rewrite ?El; done.
Qed.

(** ** Witnesses *)

Definition actions0 : list action := [AStart 200; ABody "hello " true; ABody [] true; ABody "world" true; AFail TypeError].

Lemma streamed_body_is_read_in_full_witness :
  exists ps rest, iter_bytes (Some 4) [Chunk "hello "; Chunk "world"; SENTINEL] = Some (Ok ps, rest) /\
    concat ps = lit "hello world".
Proof.
  apply (streamed_body_is_read_in_full actions0 200 [Chunk "hello "; Chunk "world"; SENTINEL] (Some 4)).
  - vm_compute. reflexivity.
  - cbv. reflexivity.
Defined.

Lemma second_read_never_returns_witness :
  exists body, read [Chunk "hi"; SENTINEL] = Some (Ok body, []) /\ read [] = None.
Proof.
  apply (second_read_never_returns [AStart 200; ABody "hi" true] [] 200 [Chunk "hi"; SENTINEL]).
  - reflexivity.
  - vm_compute. reflexivity.
Defined.

Definition kwargs0 : kwargs := {| k_body := Some (lit "x=1"); k_params := None; k_headers := [] |}.

Definition app0 (q : sent) : reply :=
  if bool_decide (s_url q = lit "http://t/a") then {| p_status := 307; p_location := Some (lit "/b") |}
  else if bool_decide (s_url q = lit "http://t/b") then {| p_status := 302; p_location := Some (lit "/c") |}
  else {| p_status := 200; p_location := None |}.

Lemma redirects_never_replay_a_body_witness :
  _stream_with_redirects "http://t" app0 true "POST" "/a" kwargs0 =
    ([ {| s_method := lit "POST"; s_url := lit "http://t/a"; s_kwargs := kwargs0 |};
       {| s_method := lit "POST"; s_url := lit "http://t/b"; s_kwargs := kwargs0 |};
       {| s_method := lit "GET"; s_url := lit "http://t/c"; s_kwargs := drop_body kwargs0 |} ],
     Ok {| p_status := 200; p_location := None |}) /\ (3 <= 11)%nat.
Proof.
  pose proof (redirects_never_replay_a_body "http://t" app0 true "POST" "/a" kwargs0 eq_refl) as H.
  assert (_stream_with_redirects "http://t" app0 true "POST" "/a" kwargs0 =
    ([ {| s_method := lit "POST"; s_url := lit "http://t/a"; s_kwargs := kwargs0 |};
       {| s_method := lit "POST"; s_url := lit "http://t/b"; s_kwargs := kwargs0 |};
       {| s_method := lit "GET"; s_url := lit "http://t/c"; s_kwargs := drop_body kwargs0 |} ],
     Ok {| p_status := 200; p_location := None |})) as E by (vm_compute; reflexivity).
  rewrite E in H. split; [exact E|exact (proj1 H)].
Defined.

Lemma small_letters_lose_the_body_witness :
  exists q qs, (redirect_loop "http://t" (fun _ => {| p_status := 307; p_location := Some (lit "/b") |}) 2 true "post" "/a" kwargs0).1 =
    q :: {| s_method := lit "POST"; s_url := lit "http://t/b"; s_kwargs := drop_body kwargs0 |} :: qs /\
    k_body (s_kwargs q) = Some (lit "x=1") /\ s_method q = lit "POST".
Proof.
  apply (small_letters_lose_the_body "http://t" (fun _ => {| p_status := 307; p_location := Some (lit "/b") |})
    "post" "/a" kwargs0 "x=1" "/b" 307); try reflexivity; try discriminate.
Defined.

(** A digest: the first answer is a challenge, the second request is final. *)
Definition digest0 : flow :=
  Yields {| s_method := lit "GET"; s_url := lit "http://t/c"; s_kwargs := kwargs0 |}
    (fun _ => Yields {| s_method := lit "GET"; s_url := lit "http://t/d"; s_kwargs := kwargs0 |} (fun _ => Stop)).

Lemma auth_flow_is_driven_witness :
  exists qs q' x, auth_loop "http://t" app0 5 true digest0 = (qs ++ [q'], Ok x) /\ x = app0 q' /\
    (length (qs ++ [q']) <= 2 * 11)%nat.
Proof.
  apply (auth_flow_is_driven "http://t" app0 true
    {| s_method := lit "GET"; s_url := lit "http://t/c"; s_kwargs := kwargs0 |}
    (fun _ => Yields {| s_method := lit "GET"; s_url := lit "http://t/d"; s_kwargs := kwargs0 |} (fun _ => Stop)) 2).
  vm_compute. reflexivity.
Defined.

Example charset_ex :
  _charset (Some (lit "text/plain; charset=latin-1; x")) = lit "latin-1" /\ _charset None = lit "utf-8".
Proof. vm_compute. done. Qed.

End TestStream.
