(* ===== verification/TestClient.v ===== *)
(** The test client (testclient.py: [TestClient]): clients that share one server
    per application through a cache, the fall-back to the in-process transport,
    entering and leaving, captured exceptions, and the request and response
    hooks. *)

From S2P Require Import Prelude Dicts.

Module TestClient.

Import Dicts.

(** ** Clients and servers *)

Abbreviation cookies := dict (only parsing).

(** What serves a client: the in-process shim, or an [httpx.Client] bound to a
    port; with the jar of cookies. *)
Inductive backing := Shim | Http (port : nat).

Record client := {
  c_app : nat;
  c_in_process : bool;
  c_auto_fallback : bool;
  c_port : option nat;
  c_thread : option nat;
  c_backing : option (backing * cookies);
  c_seed : cookies;
  c_started : bool }.

(** The server threads that are alive, with their application and port; the cache
    [_app_servers] by [id(app)]. *)
Record world := {
  threads : gmap nat (nat * nat);
  cache : gmap nat (nat * nat * nat) }.

(** [__init__]: the [in_process] argument and the environment variable. *)
Definition init_in_process (in_process : option bool) (env : option text) : bool * bool :=
  match in_process with
  | None => (match env with Some e => bool_decide (lower e ∈ [lit "1"; lit "true"; lit "yes"]) | None => false end, true)
  | Some b => (b, false)
  end.

Definition new_client (app : nat) (in_process : option bool) (env : option text) (seed : cookies) : client :=
  let '(ip, auto) := init_in_process in_process env in
  {| c_app := app; c_in_process := ip; c_auto_fallback := auto; c_port := None; c_thread := None;
     c_backing := None; c_seed := seed; c_started := false |}.

(** The application's side of [__init__]: its [root_path], the recorded original,
    whether the schema is cached. *)
Record app_paths := { root_path : text; original : option text; schema_cached : bool }.

Definition init_root_path (a : app_paths) (given : text) : app_paths :=
  let orig := default (root_path a) (original a) in
  let effective := match given with [] => orig | _ => given end in
  if bool_decide (root_path a = effective)
  then {| root_path := root_path a; original := Some orig; schema_cached := schema_cached a |}
  else {| root_path := effective; original := Some orig; schema_cached := false |}.

(** [_switch_to_in_process] *)
Definition _switch_to_in_process (c : client) : client :=
  {| c_app := c_app c; c_in_process := true; c_auto_fallback := c_auto_fallback c; c_port := None; c_thread := None;
     c_backing := Some (Shim, c_seed c); c_seed := c_seed c; c_started := true |}.

(** The environment of a start: whether overrides are registered, the application
    has [run], a port is free, a fresh thread, the server comes up in time. *)
Record start_env := {
  v_overrides : bool; v_has_run : bool; v_free : option nat; v_tid : nat; v_up : bool }.

Section Clients.

(** [id(app)] *)
Variable address : nat -> nat.

Definition on_server (c : client) (port tid : nat) (up : bool) : res client :=
  if up then
    Ok {| c_app := c_app c; c_in_process := c_in_process c; c_auto_fallback := c_auto_fallback c;
          c_port := Some port; c_thread := Some tid; c_backing := Some (Http port, c_seed c);
          c_seed := c_seed c; c_started := true |}
  else Raise (RuntimeError "TestClient: server did not start within 10 seconds").

(** [_ensure_started] *)
Definition _ensure_started (v : start_env) (c : client) (w : world) : res client * world :=
  if negb (c_in_process c) && v_overrides v then (Ok (_switch_to_in_process c), w)
  else if c_started c then (Ok c, w)
  else if c_in_process c || negb (v_has_run v) then (Ok (_switch_to_in_process c), w)
  else match v_free v with
  | None => if c_auto_fallback c then (Ok (_switch_to_in_process c), w) else (Raise (ConnectionError "bind"), w)
  | Some port =>
      let launch :=
        (on_server c port (v_tid v) (v_up v),
         {| threads := <[ v_tid v := (c_app c, port) ]> (threads w);
            cache := <[ address (c_app c) := (c_app c, port, v_tid v) ]> (cache w) |}) in
      match cache w !! address (c_app c) with
      | Some (a, p, t) =>
          if bool_decide (a = c_app c) && bool_decide (is_Some (threads w !! t))
          then (on_server c p t (v_up v), w) else launch
      | None => launch
      end
  end.

(** *** [__exit__] *)

(** The lifecycle calls of the application, which may raise. *)
Inductive call := StopChain | ShutdownHandlers | LifespanShutdown.

(** The first part: what is called, and the exception, if one is raised. *)
Definition shutdown (chain : bool) (lifespan : bool) (raises : call -> option exn) : list call * option exn :=
  match raises StopChain with
  | Some e => ([StopChain], Some e)
  | None =>
      if chain then ([StopChain], None)
      else match raises ShutdownHandlers with
      | Some e => ([StopChain; ShutdownHandlers], Some e)
      | None => if lifespan then ([StopChain; ShutdownHandlers; LifespanShutdown], raises LifespanShutdown)
                else ([StopChain; ShutdownHandlers], None)
      end
  end.

(** [request_server_shutdown(port)], and the thread joined: the server is taken
    to stop within the two seconds the join waits. *)
Definition stop_server (port : option nat) (w : world) : world :=
  {| threads := filter (fun kv => Some kv.2.2 <> port) (threads w); cache := cache w |}.

Definition evict (c : client) (w : world) : world :=
  match cache w !! address (c_app c) with
  | Some (_, p, _) => if bool_decide (Some p = c_port c)
                      then {| threads := threads w; cache := delete (address (c_app c)) (cache w) |} else w
  | None => w
  end.

(** [__exit__]: the calls, the client, the world, and the exception raised at
    the end. *)
Definition __exit__ (chain lifespan : bool) (raises : call -> option exn) (c : client) (w : world)
    : list call * client * world * option exn :=
  let '(calls, e) := shutdown chain lifespan raises in
  let w' := evict c (stop_server (c_port c) w) in
  (calls,
   {| c_app := c_app c; c_in_process := c_in_process c; c_auto_fallback := c_auto_fallback c; c_port := c_port c;
      c_thread := c_thread c; c_backing := None; c_seed := c_seed c; c_started := false |},
   w', e).

End Clients.

(** *** [__enter__] *)

Inductive boot := Start | LifespanStartup | StartupHandlers.

(** The order of the calls; [on_loop]: on the shim's loop, not on the worker. *)
Definition __enter__ (in_process has_lifespan has_startup door_owns_http : bool) : list (boot * bool) :=
  if in_process && (has_lifespan || has_startup) then
    (Start, false) ::
    (if door_owns_http
     then (LifespanStartup, false) :: (if has_startup then [(StartupHandlers, false)] else [])
     else (if has_lifespan then [(LifespanStartup, true)] else []) ++
          (if has_startup then [(StartupHandlers, true)] else [])) ++ [(Start, false)]
  else if has_lifespan || has_startup then
    (LifespanStartup, false) :: (if has_startup then [(StartupHandlers, false)] else []) ++ [(Start, false)]
  else [(Start, false)].

(** ** Requests *)

(** [_check_raised]: what is left captured, and the exception raised. *)
Definition _check_raised (raise_server_exceptions : bool) (captured : list exn) : list exn * option exn :=
  match captured with
  | [] => ([], None)
  | e :: _ => ([], if raise_server_exceptions then Some e else None)
  end.

(** A verb method: the server captures exceptions, httpx returns or raises. *)
Definition request {R} (rse : bool) (captured : list exn) (during : list exn * res R)
    : list exn * res R :=
  match during.2 with
  | Raise e => (captured ++ during.1, Raise e)
  | Ok r => let '(kept, e) := _check_raised rse (captured ++ during.1) in
            (kept, match e with Some x => Raise x | None => Ok r end)
  end.

(** *** The hooks of the HTTP client *)

(** Headers of [httpx]: names in lower case. *)
Definition header (k : text) (hs : list (text * text)) : option text := get hs k.

Definition strip (t : text) : text := strip_by is_space_latin1 t.

Definition _force_host (forced auto_host auto_host_port : text) (https : bool) (hs : list (text * text))
    : list (text * text) :=
  let current := default [] (header "host" hs) in
  let is_auto := bool_decide (current = [] \/ current = forced \/ current = auto_host \/ current = auto_host_port) in
  let hs1 := if is_auto then set_item hs (lit "host", forced) else hs in
  let hs2 := match https, header "x-forwarded-proto" hs1 with
             | true, None => set_item hs1 (lit "x-forwarded-proto", lit "https")
             | _, _ => hs1
             end in
  let hs3 := if starts_with "python-httpx" (default [] (header "user-agent" hs2))
             then set_item hs2 (lit "user-agent", lit "testclient") else hs2 in
  (fun p => (p.1, strip p.2)) <$> hs3.

(** A parsed URL. *)
Record url := { u_netloc : text; u_hostname : text; u_path : text; u_query : text; u_fragment : text }.

Definition relative (u : url) : text :=
  (match u_path u with [] => lit "/" | p => p end) ++
  (match u_query u with [] => [] | q => lit "?" ++ q end) ++
  (match u_fragment u with [] => [] | f => lit "#" ++ f end).

(** [_rewrite_redirect_location]: the new [Location], if any. *)
Definition _rewrite_redirect_location (status : Z) (will_follow : bool) (base_host forced : text) (loc : option url)
    : option text :=
  if negb ((300 <=? status) && (status <? 400)) then None
  else if negb will_follow then None
  else match loc with
  | None => None
  | Some u =>
      match u_netloc u with
      | [] => None
      | _ => if bool_decide (u_hostname u = base_host) || bool_decide (u_netloc u = forced)
             then Some (relative u) else None
      end
  end.

(** [websocket_connect]: the cookies of the handshake. *)
Definition ws_cookies (c : client) (given : cookies) : cookies :=
  update (update (update [] (match c_backing c with Some (_, jar) => jar | None => [] end)) (c_seed c)) given.

(** [__setattr__] of [cookies]. *)
Definition set_cookies (c : client) (d : cookies) : client :=
  match c_backing c with
  | None => {| c_app := c_app c; c_in_process := c_in_process c; c_auto_fallback := c_auto_fallback c;
               c_port := c_port c; c_thread := c_thread c; c_backing := None; c_seed := d; c_started := c_started c |}
  | Some (b, _) =>
      {| c_app := c_app c; c_in_process := c_in_process c; c_auto_fallback := c_auto_fallback c;
         c_port := c_port c; c_thread := c_thread c; c_backing := Some (b, d); c_seed := c_seed c;
         c_started := c_started c |}
  end.

(** A response that sets cookies. *)
Definition receive_cookies (c : client) (d : cookies) : client :=
  match c_backing c with
  | None => c
  | Some (b, jar) =>
      {| c_app := c_app c; c_in_process := c_in_process c; c_auto_fallback := c_auto_fallback c;
         c_port := c_port c; c_thread := c_thread c; c_backing := Some (b, update jar d); c_seed := c_seed c;
         c_started := c_started c |}
  end.

(** ** Theorems *)

(** *** Servers *)

Section ClientTheorems.

Variable address : nat -> nat.

(** A thread object is never reused, and a free port is one nobody listens on. *)
Definition fresh (v : start_env) (w : world) : Prop :=
  threads w !! v_tid v = None /\
  (forall k a p t, cache w !! k = Some (a, p, t) -> t <> v_tid v) /\
  (forall port t a, v_free v = Some port -> threads w !! t <> Some (a, port)).

(** What clients do to the world; a server may also die. *)
Inductive wstep : world -> world -> Prop :=
| WStart v c w : fresh v w -> wstep w (_ensure_started address v c w).2
| WExit chain lifespan raises c w : wstep w (__exit__ address chain lifespan raises c w).1.2
| WCrash t w : wstep w {| threads := delete t (threads w); cache := cache w |}.

Definition world0 : world := {| threads := ∅; cache := ∅ |}.

Definition winv (w : world) : Prop :=
  (forall k a p t x, cache w !! k = Some (a, p, t) -> threads w !! t = Some x -> x = (a, p)) /\
  (forall t t' a a' p, threads w !! t = Some (a, p) -> threads w !! t' = Some (a', p) -> t = t').

Lemma winv_sub w w' :
  threads w' ⊆ threads w -> cache w' ⊆ cache w -> winv w -> winv w'.
Proof.
  intros Ht Hc [H1 H2]. split.
  - intros k a p t x Hk Hx. eapply H1; by eapply lookup_weaken.
  - intros t t' a a' p Ha Ha'. eapply H2; by eapply lookup_weaken.
Qed.

Lemma stop_server_sub port w : threads (stop_server port w) ⊆ threads w.
Proof. apply map_filter_subseteq. Qed.

Lemma evict_sub c w : threads (evict address c w) = threads w /\ cache (evict address c w) ⊆ cache w.
Proof.
  unfold evict. destruct (cache w !! _) as [[[? ?] ?]|]; [|done]. case_bool_decide; [|done].
  split; [done|apply delete_subseteq].
Qed.

Lemma winv_launch w a port tid :
  threads w !! tid = None -> (forall k a p t, cache w !! k = Some (a, p, t) -> t <> tid) ->
  (forall t a, threads w !! t <> Some (a, port)) -> winv w ->
  winv {| threads := <[ tid := (a, port) ]> (threads w); cache := <[ address a := (a, port, tid) ]> (cache w) |}.
Proof.
  intros Hn Hc Hp [H1 H2]. split; cbn.
  - intros k b p t x Hk Hx. apply lookup_insert_Some in Hk as [[<- [= <- <- <-]]|[_ Hk]].
    + rewrite lookup_insert_eq in Hx. by injection Hx as <-.
    + rewrite lookup_insert_ne in Hx by (intros <-; by eapply Hc). by eapply H1.
  - intros t t' b b' p Hb Hb'.
    apply lookup_insert_Some in Hb as [[<- E]|[Hne Hb]];
      apply lookup_insert_Some in Hb' as [[<- E']|[Hne' Hb']]; simplify_eq; try done.
    + by apply Hp in Hb'.
    + by apply Hp in Hb.
    + by eapply H2.
Qed.

Lemma ensure_winv v c w : fresh v w -> winv w -> winv (_ensure_started address v c w).2.
Proof.
  intros (Hf1 & Hf2 & Hf3) Hw. unfold _ensure_started. destruct (_ && v_overrides v); [done|].
  destruct (c_started c); [done|]. destruct (_ || _); [done|].
  destruct (v_free v) as [port|]; [|by destruct (c_auto_fallback c)].
  assert (winv {| threads := <[ v_tid v := (c_app c, port) ]> (threads w);
                  cache := <[ address (c_app c) := (c_app c, port, v_tid v) ]> (cache w) |}) as Hl.
  { apply winv_launch; eauto. }
  destruct (cache w !! _) as [[[a p] t]|]; [|exact Hl]. by destruct (_ && _).
Qed.

Lemma reachable_winv w : rtc wstep world0 w -> winv w.
Proof.
  apply (rtc_ind_r winv).
  - split; cbn; intros; by rewrite lookup_empty in *.
  - intros x y _ Hs Hx. destruct Hs as [v c w' Hf|chain ls raises c w'|t w'].
    + by apply ensure_winv.
    + unfold __exit__. destruct (shutdown chain ls raises) as [calls e]. cbn.
      destruct (evict_sub c (stop_server (c_port c) w')) as [E1 E2].
      eapply winv_sub; [rewrite E1; apply stop_server_sub|exact E2|done].
    + eapply winv_sub; [apply delete_subseteq|done|done].
Qed.

(** C35: a client that starts reaches its own application and no other: however
    many clients of however many applications came and went before, whichever of
    their servers died, and although addresses and ports are reused, the server
    behind the port a starting client gets runs the client's application, and
    nothing else listens there. *)
Theorem started_client_reaches_its_app w v c c' w' p :
  rtc wstep world0 w -> fresh v w -> c_started c = false ->
  _ensure_started address v c w = (Ok c', w') -> c_port c' = Some p ->
  (exists t, threads w' !! t = Some (c_app c, p)) /\
  (forall t a, threads w' !! t = Some (a, p) -> a = c_app c).
Proof.
  intros Hr Hf Hs E Hp. pose proof (ensure_winv v c w Hf (reachable_winv w Hr)) as [H1 H2]. rewrite E in H1, H2. cbn in H1, H2.
  assert (exists t, threads w' !! t = Some (c_app c, p)) as [t Ht].
  { pose proof (reachable_winv w Hr) as [W1 W2].
    unfold _ensure_started in E. destruct (_ && v_overrides v); [by injection E as <- <-|]. rewrite Hs in E.
    destruct (_ || _); [by injection E as <- <-|].
    destruct (v_free v) as [port|]; [|destruct (c_auto_fallback c); [by injection E as <- <-|done]].
    assert (forall q t0, on_server c q t0 (v_up v) = Ok c' -> q = p) as Ho.
    { intros q t0. unfold on_server. destruct (v_up v); [|done]. intros [= <-]. cbn in Hp. by injection Hp. }
    destruct (cache w !! _) as [[[a q] t]|] eqn:Ec.
    - destruct (bool_decide (a = c_app c)) eqn:Ea; cbn in E.
      + case_bool_decide as Ht.
        * injection E as E <-. apply Ho in E as <-. destruct Ht as [x Hx]. apply bool_decide_eq_true in Ea as ->.
          exists t. rewrite Hx. f_equal. by eapply W1.
        * injection E as E <-. apply Ho in E as <-. eexists. apply lookup_insert_eq.
      + injection E as E <-. apply Ho in E as <-. eexists. apply lookup_insert_eq.
    - injection E as E <-. apply Ho in E as <-. eexists. apply lookup_insert_eq. }
  split; [by exists t|]. intros t' a Ha. pose proof (H2 _ _ _ _ _ Ht Ha) as <-. rewrite Ht in Ha. by injection Ha.
Qed.

(** leaving a client always stops its server: whatever the application's
    shutdown raises, nothing listens on the client's port afterwards, the cache
    no longer names that port for the application, and the first exception is
    raised. *)
Theorem exit_always_stops_the_server chain lifespan raises c w p :
  c_port c = Some p ->
  let '(calls, c', w', e) := __exit__ address chain lifespan raises c w in
  (forall t a, threads w' !! t <> Some (a, p)) /\
  (forall a t, cache w' !! address (c_app c) <> Some (a, p, t)) /\
  c_started c' = false /\ e = (shutdown chain lifespan raises).2.
Proof.
  intros Hp. unfold __exit__. destruct (shutdown chain lifespan raises) as [calls e]. cbn. split_and!; [| |done|done].
  - intros t a. destruct (evict_sub c (stop_server (c_port c) w)) as [-> _]. cbn. intros H.
    apply map_lookup_filter_Some in H as [_ H]. cbn in H. by rewrite Hp in H.
  - intros a t. unfold evict. cbn [cache stop_server].
    destruct (cache w !! address (c_app c)) as [[[b q] u]|] eqn:E; [|cbn; by rewrite E].
    rewrite Hp. case_bool_decide as Hq; cbn; [by rewrite lookup_delete_eq|]. rewrite E. intros [= _ -> _]. done.
Qed.

(** clients of one application share its server, and the first to leave
    stops it for all: a client that is still in use believes it is started, does
    not start the server again, and nothing listens on its port. *)
Theorem exit_stops_shared_server chain lifespan raises c1 c2 w p v :
  c_port c1 = Some p -> c_port c2 = Some p -> c_started c2 = true -> v_overrides v = false ->
  let w' := (__exit__ address chain lifespan raises c1 w).1.2 in
  _ensure_started address v c2 w' = (Ok c2, w') /\ forall t a, threads w' !! t <> Some (a, p).
Proof.
  intros H1 H2 Hs Hv w'. split.
  - unfold _ensure_started. by rewrite Hv, andb_false_r, Hs.
  - intros t a. unfold w', __exit__. destruct (shutdown chain lifespan raises) as [calls e]. cbn.
    destruct (evict_sub c1 (stop_server (c_port c1) w)) as [-> _]. cbn. intros H.
    apply map_lookup_filter_Some in H as [_ H]. cbn in H. by rewrite H1 in H.
Qed.

(** a client that switches to the in-process transport because overrides
    were registered forgets its server and its session: the cookies received so
    far are dropped for the seeds, and leaving it later stops no server and
    evicts nothing. *)
Theorem switch_leaks_server v c w chain lifespan raises :
  c_in_process c = false -> v_overrides v = true ->
  exists c', _ensure_started address v c w = (Ok c', w) /\ c_backing c' = Some (Shim, c_seed c) /\
    (__exit__ address chain lifespan raises c' w).1.2 = w.
Proof.
  intros Hi Hv. unfold _ensure_started. rewrite Hi, Hv. cbn. eexists. split; [done|]. split; [done|].
  unfold __exit__. destruct (shutdown chain lifespan raises) as [calls e]. cbn.
  assert (stop_server None w = w) as ->.
  { destruct w as [ts ca]. unfold stop_server. cbn. f_equal. apply map_filter_id. by intros ? [? ?] _. }
  unfold evict. destruct (cache w !! _) as [[[? ?] ?]|]; done.
Qed.

End ClientTheorems.

(** a shutdown handler that raises leaves the lifespan running: its
    teardown is not called at all. *)
Theorem failing_shutdown_handler_skips_lifespan lifespan raises e :
  raises StopChain = None -> raises ShutdownHandlers = Some e ->
  LifespanShutdown ∉ (shutdown false lifespan raises).1 /\ (shutdown false lifespan raises).2 = Some e.
Proof. intros H1 H2. unfold shutdown. rewrite H1, H2. split; [set_solver|done]. Qed.

(** *** Root paths *)

(** a prefix given to one client does not leak to the next: after any
    number of clients on one application, its root path is the one the last of
    them asked for, or the application's own. *)
Theorem root_path_does_not_leak a gs g :
  original a = None ->
  root_path (fold_left init_root_path (gs ++ [g]) a) = match g with [] => root_path a | _ => g end.
Proof.
  intros H. assert (forall b o, default (root_path b) (original b) = o ->
    original (init_root_path b g) = Some o /\ root_path (init_root_path b g) = match g with [] => o | _ => g end) as Hi.
  { intros b o <-. unfold init_root_path. case_bool_decide as E; cbn; [|done]. split; [done|exact E]. }
  rewrite fold_left_app. cbn. apply (Hi _ (root_path a)).
  assert (default (root_path a) (original a) = root_path a) as Ha by (by rewrite H).
  revert Ha. generalize (root_path a) at 2 3. intros o. clear H Hi. revert a. induction gs as [|x gs IH]; intros a Ha; [exact Ha|].
  cbn. apply IH. unfold init_root_path. rewrite Ha. by case_bool_decide.
Qed.

(** *** Cookies *)

(** a WebSocket handshake sends stale cookies: a cookie the client was
    seeded with and the server has since replaced goes out with its old value,
    although requests over HTTP send the new one. *)
Theorem websocket_sends_seeded_cookie c b jar k v0 v1 given :
  c_backing c = Some (b, jar) -> get (reverse (c_seed c)) k = Some v0 -> get (reverse given) k = None ->
  get (ws_cookies (receive_cookies c [(k, v1)]) given) k = Some v0 /\
  exists jar', c_backing (receive_cookies c [(k, v1)]) = Some (b, jar') /\ get jar' k = Some v1.
Proof.
  intros Hb Hs Hg. unfold ws_cookies, receive_cookies. rewrite Hb. cbn [c_backing c_seed]. split.
  - by rewrite !get_update, Hg, Hs.
  - eexists. split; [done|]. unfold update. cbn [fold_left]. rewrite get_set_item. by rewrite bool_decide_eq_true_2.
Qed.

(** *** Captured exceptions *)

(** The requests of a client, one after the other. *)
Fixpoint requests {R} (rse : bool) (captured : list exn) (l : list (list exn * res R)) : list (res R) :=
  match l with
  | [] => []
  | q :: l' => let '(captured', r) := request rse captured q in r :: requests rse captured' l'
  end.

(** exceptions of the server are reported to the request they belong to:
    as long as the HTTP client itself does not fail, each request raises the
    first exception captured during it, or none, and nothing is left over for a
    later request; without [raise_server_exceptions] nothing is raised. *)
Theorem exceptions_reach_their_request {R} rse (l : list (list exn * R)) :
  requests rse [] ((fun q => (q.1, Ok q.2)) <$> l) =
  (fun q => match q.1 with e :: _ => if rse then Raise e else Ok q.2 | [] => Ok q.2 end) <$> l.
Proof.
  induction l as [|[es r] l IH]; [done|]. cbn. unfold request. cbn.
  destruct es as [|e es]; cbn; [by rewrite IH|]. rewrite IH. by destruct rse.
Qed.

(** when the HTTP client fails, what the server captured meanwhile is
    raised by the next request, which succeeded. *)
Theorem failed_request_poisons_the_next {R} e es x (r : R) :
  requests true [] [(e :: es, Raise x); ([], Ok r)] = [Raise x; Raise e].
Proof. reflexivity. Qed.

(** *** Hooks *)

(** the host a caller gives is sent as it is (without outer spaces), any
    other is replaced by the host of the base URL, and no header value has outer
    spaces. *)
Theorem forced_host_respects_caller forced auto_host auto_host_port https hs :
  let hs' := _force_host forced auto_host auto_host_port https hs in
  let current := default [] (header "host" hs) in
  header "host" hs' =
    (if bool_decide (current = [] \/ current = forced \/ current = auto_host \/ current = auto_host_port)
     then Some (strip forced) else Some (strip current)) /\
  Forall (fun p => strip p.2 = p.2) hs'.
Proof.
  intros hs' current. unfold hs', _force_host. fold current. split.
  - unfold header in *. rewrite get_fmap_values.
    assert (forall d k v, k <> lit "host" -> get (set_item d (k, v)) "host" = get d "host") as Hs.
    { intros d k v Hk. rewrite get_set_item. by rewrite bool_decide_eq_false_2. }
    set (hs1 := if bool_decide _ then _ else hs).
    set (hs2 := match https with true => _ | false => _ end).
    assert (get hs2 "host" = get hs1 "host") as H2.
    { unfold hs2. destruct https; [|done]. destruct (get hs1 _); [done|]. by apply Hs. }
    assert (get (if starts_with "python-httpx" (default [] (get hs2 "user-agent"))
                 then set_item hs2 (lit "user-agent", lit "testclient") else hs2) "host" = get hs1 "host") as ->.
    { destruct (starts_with _ _); [rewrite Hs by done|]; exact H2. }
    unfold hs1. case_bool_decide as Ha.
    + rewrite get_set_item. by rewrite bool_decide_eq_true_2.
    + unfold current in *. destruct (get hs "host") as [h|]; [done|]. destruct Ha. by left.
  - apply Forall_fmap, Forall_true. intros p. cbn. apply strip_by_idemp.
Qed.

(** ** Witnesses *)

Definition env0 (port tid : nat) : start_env :=
  {| v_overrides := false; v_has_run := true; v_free := Some port; v_tid := tid; v_up := true |}.

Definition client1 : client := new_client 1 None None [].
Definition client2 : client := new_client 2 (Some false) None [].

Definition world1 : world := (_ensure_started (fun _ => 0%nat) (env0 5000 1) client1 world0).2.

Lemma world1_reachable : rtc (wstep (fun _ => 0%nat)) world0 world1.
Proof.
  apply rtc_once, WStart. split; [apply lookup_empty|]. split; intros *; cbn; [by rewrite lookup_empty|].
  intros _. by rewrite lookup_empty.
Qed.

(** Two applications at one address: the cached server of the first is not used
    for the second. *)
Lemma started_client_reaches_its_app_witness :
  (exists t, threads (_ensure_started (fun _ => 0%nat) (env0 6000 2) client2 world1).2 !! t = Some (2, 6000)%nat) /\
  (forall t a, threads (_ensure_started (fun _ => 0%nat) (env0 6000 2) client2 world1).2 !! t = Some (a, 6000)%nat -> a = 2%nat).
Proof.
  eapply (started_client_reaches_its_app (fun _ => 0%nat) world1 (env0 6000 2) client2).
  - exact world1_reachable.
  - split; [vm_compute; reflexivity|]. split.
    + intros k a p t H. change (cache world1) with (<[ 0%nat := (1, 5000, 1)%nat ]> (∅ : gmap nat (nat * nat * nat))) in H.
      apply lookup_insert_Some in H as [[_ [= <- <- <-]]|[_ H]]; [discriminate|by rewrite lookup_empty in H].
    + intros port t a [= <-] H. change (threads world1) with (<[ 1%nat := (1, 5000)%nat ]> (∅ : gmap nat (nat * nat))) in H.
      apply lookup_insert_Some in H as [[_ H]|[_ H]]; [discriminate H|by rewrite lookup_empty in H].
  - reflexivity.
  - vm_compute. reflexivity.
  - reflexivity.
Defined.

Lemma exit_stops_shared_server_witness :
  let c := match (_ensure_started (fun _ => 0%nat) (env0 5000 1) client1 world0).1 with Ok c => c | Raise _ => client1 end in
  let w' := (__exit__ (fun _ => 0%nat) false false (fun _ => None) c world1).1.2 in
  _ensure_started (fun _ => 0%nat) (env0 7000 3) c w' = (Ok c, w') /\ forall t a, threads w' !! t <> Some (a, 5000%nat).
Proof.
  intros c. exact (exit_stops_shared_server (fun _ => 0%nat) false false (fun _ => None) c c world1 5000 (env0 7000 3)
    eq_refl eq_refl eq_refl eq_refl).
Defined.

Lemma root_path_does_not_leak_witness :
  root_path (fold_left init_root_path ([lit "/proxy"] ++ [[]]) {| root_path := lit "/api"; original := None; schema_cached := true |}) = lit "/api".
Proof.
  exact (root_path_does_not_leak {| root_path := lit "/api"; original := None; schema_cached := true |} [lit "/proxy"] [] eq_refl).
Defined.

End TestClient.
