(* ===== verification/TestWs.v ===== *)
(** WebSocket sessions of the test client (testclient.py:
    [_InProcessWebSocketSession], [_WebSocketTestSession]): an ASGI application
    and a test exchanging messages over two queues, the handshake, leaving the
    session, and the translation of errors of a real socket.

    The application runs on a loop in a thread of its own while the test does
    something else, so every operation of the test takes the number of actions
    the application gets to do before it: the theorems hold for all of them. *)

From S2P Require Import Prelude.

Module TestWs.

(** ** The application *)

(** What the client sends; what the application sends. *)
Inductive cmsg := Connect | ReceiveText (t : text) | ReceiveBytes (b : bytes) | Disconnect (code : Z).

Inductive smsg :=
| Accept (subprotocol : option text)
| SendText (t : text)
| SendBytes (b : bytes)
| CloseMsg (code : option Z) (reason : option text)
| OtherMsg.

(** An application called with the scope: it returns, raises, sends or
    receives. *)
Inductive prog :=
| Ret
| RaiseP (e : exn)
| Send (m : smsg) (k : prog)
| Recv (k : cmsg -> prog).

Inductive task := Running (p : prog) | Ended (e : option exn).

(** The application run as far as it gets with the messages that are there: the
    task, the messages left, the messages sent. *)
Fixpoint run (p : prog) (inq : list cmsg) : task * list cmsg * list smsg :=
  match p with
  | Ret => (Ended None, inq, [])
  | RaiseP e => (Ended (Some e), inq, [])
  | Send m k => let '(t, q, o) := run k inq in (t, q, m :: o)
  | Recv k => match inq with
              | [] => (Running p, [], [])
              | m :: q => run (k m) q
              end
  end.

Definition resume (t : task) (inq : list cmsg) : task * list cmsg * list smsg :=
  match t with
  | Running p => run p inq
  | Ended _ => (t, inq, [])
  end.

(** ** The session *)

Record session := {
  app_task : task;
  c2s : list cmsg;                       (* [_client_to_server] *)
  s2c : list smsg;                       (* [_server_to_client] *)
  accepted : bool;
  accepted_subprotocol : option text;
  closed : bool;
  task_exception : option exn;
  loop_running : bool }.

Definition set_queues (s : session) (t : task) (q : list cmsg) (o : list smsg) : session :=
  {| app_task := t; c2s := q; s2c := o; accepted := accepted s;
     accepted_subprotocol := accepted_subprotocol s; closed := closed s;
     task_exception := task_exception s; loop_running := loop_running s |}.

(** One action of the application: it sends, takes a message if there is one, or
    ends. *)
Definition app_act (s : session) : session :=
  match app_task s with
  | Running Ret => set_queues s (Ended None) (c2s s) (s2c s)
  | Running (RaiseP e) => set_queues s (Ended (Some e)) (c2s s) (s2c s)
  | Running (Send m k) => set_queues s (Running k) (c2s s) (s2c s ++ [m])
  | Running (Recv k) => match c2s s with
                        | m :: q => set_queues s (Running (k m)) q (s2c s)
                        | [] => s
                        end
  | Ended _ => s
  end.

(** The loop lets the application do [n] actions. *)
Definition advance (n : nat) (s : session) : session := Nat.iter n app_act s.

(** The loop runs until the application waits or has ended. *)
Definition settle (s : session) : session :=
  let '(t, q, o) := resume (app_task s) (c2s s) in set_queues s t q (s2c s ++ o).

(** The loop runs until the application has sent something, if it ever does. *)
Fixpoint until_sent (p : prog) (inq : list cmsg) : task * list cmsg * list smsg :=
  match p with
  | Ret => (Ended None, inq, [])
  | RaiseP e => (Ended (Some e), inq, [])
  | Send m k => (Running k, inq, [m])
  | Recv k => match inq with
              | [] => (Running p, [], [])
              | m :: q => until_sent (k m) q
              end
  end.

(** [await queue.get()] up to the point where there is a message. *)
Definition await_message (s : session) : session :=
  match s2c s, app_task s with
  | [], Running p => let '(t, q, o) := until_sent p (c2s s) in set_queues s t q o
  | _, _ => s
  end.

Definition put (s : session) (m : cmsg) : session := set_queues s (app_task s) (c2s s ++ [m]) (s2c s).

(** Outcomes of the operations: a value, the two exceptions of the session, an
    exception of the application, or a wait without end. *)
Inductive outcome (A : Type) :=
| Value (a : A)
| WebSocketDisconnect (code : Z) (reason : text)
| UnexpectedMessage
| Reraised (e : exn)
| Blocks.
Arguments Value {A}. Arguments WebSocketDisconnect {A}. Arguments UnexpectedMessage {A}.
Arguments Reraised {A}. Arguments Blocks {A}.

Definition session0 (p : prog) : session :=
  {| app_task := Running p; c2s := [Connect]; s2c := []; accepted := false; accepted_subprotocol := None;
     closed := false; task_exception := None; loop_running := true |}.

(** [_teardown_loop] *)
Definition _teardown_loop (s : session) : session :=
  {| app_task := app_task s; c2s := c2s s; s2c := s2c s; accepted := accepted s;
     accepted_subprotocol := accepted_subprotocol s; closed := closed s;
     task_exception := task_exception s; loop_running := false |}.

(** [__enter__] *)
Definition __enter__ (n : nat) (p : prog) : session * outcome unit :=
  let s := await_message (advance n (session0 p)) in
  match s2c s with
  | [] => (s, Blocks)
  | m :: o =>
      let s' := set_queues s (app_task s) (c2s s) o in
      match m with
      | Accept sp =>
          ({| app_task := app_task s'; c2s := c2s s'; s2c := s2c s'; accepted := true;
              accepted_subprotocol := sp; closed := closed s'; task_exception := task_exception s';
              loop_running := loop_running s' |}, Value tt)
      | CloseMsg code reason =>
          (_teardown_loop s', WebSocketDisconnect (default 1000 code) (default [] reason))
      | _ => (_teardown_loop s', UnexpectedMessage)
      end
  end.

Definition send_text (n : nat) (s : session) (t : text) : session := put (advance n s) (ReceiveText t).
Definition send_bytes (n : nat) (s : session) (b : bytes) : session := put (advance n s) (ReceiveBytes b).

Definition mark_closed (s : session) : session :=
  {| app_task := app_task s; c2s := c2s s; s2c := s2c s; accepted := accepted s;
     accepted_subprotocol := accepted_subprotocol s; closed := true;
     task_exception := task_exception s; loop_running := loop_running s |}.

(** [_next_message] *)
Definition _next_message (n : nat) (s : session) : session * outcome smsg :=
  let s := await_message (advance n s) in
  match s2c s with
  | [] => (s, Blocks)
  | m :: o =>
      let s' := set_queues s (app_task s) (c2s s) o in
      match m with
      | CloseMsg code reason => (mark_closed s', WebSocketDisconnect (default 1000 code) (default [] reason))
      | m => (s', Value m)
      end
  end.

(** [receive_text], [receive_bytes]: a message of another kind gives the empty
    value. *)
Definition receive_text (n : nat) (s : session) : session * outcome text :=
  match _next_message n s with
  | (s', Value (SendText t)) => (s', Value t)
  | (s', Value _) => (s', Value [])
  | (s', WebSocketDisconnect c r) => (s', WebSocketDisconnect c r)
  | (s', UnexpectedMessage) => (s', UnexpectedMessage)
  | (s', Reraised e) => (s', Reraised e)
  | (s', Blocks) => (s', Blocks)
  end.

Definition receive_bytes (n : nat) (s : session) : session * outcome bytes :=
  match _next_message n s with
  | (s', Value (SendBytes b)) => (s', Value b)
  | (s', Value _) => (s', Value [])
  | (s', WebSocketDisconnect c r) => (s', WebSocketDisconnect c r)
  | (s', UnexpectedMessage) => (s', UnexpectedMessage)
  | (s', Reraised e) => (s', Reraised e)
  | (s', Blocks) => (s', Blocks)
  end.

(** [close]: the disconnect is put, the application awaited for a second; one
    that is still waiting then is cancelled.  (It gets as far as it can in that
    second.) *)
Definition close (n : nat) (s : session) (code : Z) : session :=
  if closed s then s
  else
    let s' := settle (put (mark_closed (advance n s)) (Disconnect code)) in
    match app_task s' with
    | Ended e => {| app_task := Ended e; c2s := c2s s'; s2c := s2c s'; accepted := accepted s';
                    accepted_subprotocol := accepted_subprotocol s'; closed := true;
                    task_exception := match e with Some x => Some x | None => task_exception s' end;
                    loop_running := loop_running s' |}
    | Running _ => {| app_task := Ended (Some CancelledError); c2s := c2s s'; s2c := s2c s'; accepted := accepted s';
                      accepted_subprotocol := accepted_subprotocol s'; closed := true;
                      task_exception := task_exception s'; loop_running := loop_running s' |}
    end.

(** [__exit__]; [in_flight]: the test's own exception. *)
Definition __exit__ (n : nat) (s : session) (in_flight : bool) : session * outcome unit :=
  let s' := _teardown_loop (close n s 1000) in
  match task_exception s', in_flight with
  | Some e, false =>
      ({| app_task := app_task s'; c2s := c2s s'; s2c := s2c s'; accepted := accepted s';
          accepted_subprotocol := accepted_subprotocol s'; closed := closed s'; task_exception := None;
          loop_running := loop_running s' |}, Reraised e)
  | _, _ => (s', Value tt)
  end.

(** *** The headers of the handshake *)

Definition cookie_header (cookies : list (text * text)) : text :=
  join "; " ((fun kv => kv.1 ++ lit "=" ++ kv.2) <$> cookies).

Definition handshake_headers (given cookies : list (text * text)) : list (bytes * bytes) :=
  let hs := ((fun kv => (lower kv.1, kv.2)) <$> given) ++
            match cookies with [] => [] | _ => [(lit "cookie", cookie_header cookies)] end in
  if existsb (fun kv => bool_decide (kv.1 = lit "host")) hs then hs else hs ++ [(lit "host", lit "testserver")].

(** ** A session over a real socket *)

(** Captured exceptions of the server: a disconnect with its code, or another. *)
Inductive server_exn := SDisconnect (code : Z) | SOther (e : exn).

(** [_pop_server_exception] *)
Definition _pop_server_exception (q : list server_exn) : option server_exn * list server_exn :=
  match q with [] => (None, []) | e :: q' => (Some e, q') end.

(** The failure of [connect]: a status, or another exception. *)
Inductive connect_failure := InvalidStatus (status : option Z) | ConnectFails (e : exn).

(** [__enter__] when [connect] fails: the exception raised, the captured ones
    left. *)
Definition enter_failure (f : connect_failure) (q : list server_exn) : (Z + exn) * list server_exn :=
  match f with
  | ConnectFails e => (inr e, q)
  | InvalidStatus st =>
      let code := match st with Some 0 | None => 1008 | Some c => c end in
      match _pop_server_exception q with
      | (Some (SDisconnect c), q') => (inl c, q')
      | (_, q') => (inl (if code =? 404 then 1000 else code), q')
      end
  end.

(** [_translate_ws_error]: the code of a closed connection. *)
Definition _translate_ws_error (code : option Z) : Z :=
  match code with Some 0 | None => 1000 | Some c => c end.

(** [__exit__]: the exception raised. *)
Definition exit_real (q : list server_exn) : option server_exn * list server_exn := _pop_server_exception q.

(** ** Theorems *)

(** *** The queues are a pipe *)

Lemma run_app p inq inq' :
  run p (inq ++ inq') =
  let '(t, q, o) := run p inq in
  let '(t', q', o') := resume t (q ++ inq') in (t', q', o ++ o').
Proof.
  revert inq. induction p as [|e|m k IH|k IH]; intros inq; cbn.
  - done.
  - done.
  - rewrite IH. destruct (run k inq) as [[t q] o]. by destruct (resume t (q ++ inq')) as [[t' q'] o'].
  - destruct inq as [|m inq]; cbn; [|apply IH]. destruct inq' as [|m' q']; [done|].
    by destruct (run (k m') q') as [[? ?] ?].
Qed.

(** What a test does inside the session, each after some actions of the
    application. *)
Inductive op := OSend (n : nat) (m : cmsg) | OReceive (n : nat).

(** Run to the end or to the first operation that does not give a message: the
    session, the messages received, and the outcome of that operation. *)
Fixpoint script (ops : list op) (s : session) : session * list smsg * option (outcome smsg) :=
  match ops with
  | [] => (s, [], None)
  | OSend n m :: ops' => script ops' (put (advance n s) m)
  | OReceive n :: ops' =>
      match _next_message n s with
      | (s', Value m) => let '(s'', ms, b) := script ops' s' in (s'', m :: ms, b)
      | (s', x) => (s', [], Some x)
      end
  end.

Definition sends (ops : list op) : list cmsg :=
  omap (fun o => match o with OSend _ m => Some m | OReceive _ => None end) ops.

(** Going on from [s] until the application waits is a run of the application on
    everything that was put, of which [got] has been received. *)
Definition pipe (p : prog) (ins : list cmsg) (got : list smsg) (s : session) : Prop :=
  let '(t, q, o) := resume (app_task s) (c2s s) in run p ins = (t, q, got ++ s2c s ++ o).

(** An action, with messages put later. *)
Lemma act_resume s l :
  exists o, s2c (app_act s) = s2c s ++ o /\
    resume (app_task s) (c2s s ++ l) =
    let '(t, q, o') := resume (app_task (app_act s)) (c2s (app_act s) ++ l) in (t, q, o ++ o').
Proof.
  unfold app_act. destruct (app_task s) as [[|e|m k|k]|e] eqn:E; cbn.
  - exists []. rewrite app_nil_r. done.
  - exists []. rewrite app_nil_r. done.
  - exists [m]. done.
  - destruct (c2s s) as [|m q] eqn:Eq; cbn; (exists []; split; [by rewrite app_nil_r|]).
    + rewrite E, Eq. cbn. destruct l as [|m l]; [done|]. by destruct (run (k m) l) as [[? ?] ?].
    + by destruct (run (k m) (q ++ l)) as [[? ?] ?].
  - exists []. rewrite E. cbn. by rewrite app_nil_r.
Qed.

Lemma advance_resume n s l :
  exists o, s2c (advance n s) = s2c s ++ o /\
    resume (app_task s) (c2s s ++ l) =
    let '(t, q, o') := resume (app_task (advance n s)) (c2s (advance n s) ++ l) in (t, q, o ++ o').
Proof.
  unfold advance. induction n as [|n (o & Ho & IH)].
  - cbn. exists []. rewrite app_nil_r. split; [done|]. by destruct (resume _ _) as [[? ?] ?].
  - change (Nat.iter (S n) app_act s) with (app_act (Nat.iter n app_act s)).
    destruct (act_resume (Nat.iter n app_act s) l) as (o1 & H1 & H2).
    exists (o ++ o1). split; [by rewrite H1, Ho, app_assoc|]. rewrite IH, H2.
    destruct (resume (app_task (app_act _)) _) as [[t q] o']. by rewrite app_assoc.
Qed.

Lemma advance_pipe n p ins got s : pipe p ins got s -> pipe p ins got (advance n s).
Proof.
  unfold pipe. destruct (advance_resume n s []) as (o & Ho & H). rewrite !app_nil_r in H. rewrite H, Ho.
  destruct (resume (app_task (advance n s)) (c2s (advance n s))) as [[t q] o']. by rewrite <-app_assoc.
Qed.

Lemma until_sent_resume p inq :
  let '(t, q, o) := until_sent p inq in
  let '(t', q', o') := resume t q in run p inq = (t', q', o ++ o') /\ (o = [] -> o' = []).
Proof.
  revert inq. induction p as [|e|m k IH|k IH]; intros inq; cbn; [done|done| |].
  - by destruct (run k inq) as [[t q] o].
  - destruct inq as [|m inq]; [done|apply IH].
Qed.

(** Waiting for a message: nothing is there only if nothing will ever be. *)
Lemma await_pipe p ins got s :
  pipe p ins got s -> pipe p ins got (await_message s) /\
  (s2c (await_message s) = [] -> (run p ins).2 = got).
Proof.
  unfold pipe, await_message. destruct (s2c s) as [|m o] eqn:Es; [|rewrite Es; split; [done|done]].
  destruct (app_task s) as [p'|e] eqn:Et.
  - cbn [resume]. pose proof (until_sent_resume p' (c2s s)) as H.
    destruct (until_sent p' (c2s s)) as [[t q] o]. cbn. destruct (resume t q) as [[t' q'] o'].
    destruct H as [-> Ho]. intros Hp. split; [done|]. intros ->. rewrite Hp, Ho by done. by rewrite app_nil_r.
  - rewrite Et, Es. cbn. intros Hp. split; [done|]. intros _. rewrite Hp. by rewrite app_nil_r.
Qed.

Lemma put_pipe p ins got s m : pipe p ins got s -> pipe p (ins ++ [m]) got (put s m).
Proof.
  unfold pipe, put. cbn. intros H. rewrite run_app. destruct (resume (app_task s) (c2s s)) as [[t q] o] eqn:E.
  rewrite H. assert (resume (app_task s) (c2s s ++ [m]) =
    let '(t', q', o') := resume t (q ++ [m]) in (t', q', o ++ o')) as ->.
  { destruct (app_task s) as [p'|e]; cbn in *; [by rewrite run_app, E|]. by simplify_eq/=. }
  destruct (resume t (q ++ [m])) as [[t' q'] o']. by rewrite !app_assoc.
Qed.

Lemma next_pipe n p ins got s :
  pipe p ins got s ->
  match _next_message n s with
  | (s', Value m) => pipe p ins (got ++ [m]) s'
  | (_, WebSocketDisconnect c r) =>
      exists code reason o, (run p ins).2 = got ++ CloseMsg code reason :: o /\
        c = default 1000 code /\ r = default [] reason
  | (_, Blocks) => (run p ins).2 = got
  | _ => False
  end.
Proof.
  intros [Hp Hn]%(advance_pipe n)%await_pipe. unfold _next_message. cbv zeta.
  set (s1 := await_message (advance n s)) in *. destruct (s2c s1) as [|x o] eqn:E; [by apply Hn|].
  unfold pipe in Hp. destruct x; unfold pipe; cbn; destruct (resume (app_task s1) (c2s s1)) as [[tk q] o'];
    rewrite E in Hp; try (by rewrite <-app_assoc). rewrite Hp. by eexists _, _, _.
Qed.

Definition receives (ops : list op) : nat :=
  length (omap (fun o => match o with OReceive n => Some n | OSend _ _ => None end) ops).

Definition starts_with_receive (ops : list op) : Prop := exists n ops', ops = OReceive n :: ops'.

(** How a script ended, against the reference output [out] after [got]; [ops2]:
    the operations from the stopping one on. *)
Definition ended_as (stop : option (outcome smsg)) (ops2 : list op) (out got : list smsg) : Prop :=
  match stop with
  | None => ops2 = [] /\ exists o, out = got ++ o
  | Some Blocks => starts_with_receive ops2 /\ out = got
  | Some (WebSocketDisconnect c r) => starts_with_receive ops2 /\
      exists code reason o, out = got ++ CloseMsg code reason :: o /\ c = default 1000 code /\ r = default [] reason
  | Some _ => False
  end.

Lemma script_pipe ops p ins got s s' ms stop :
  pipe p ins got s -> script ops s = (s', ms, stop) ->
  exists ops1 ops2, ops = ops1 ++ ops2 /\ receives ops1 = length ms /\
    ended_as stop ops2 (run p (ins ++ sends ops1)).2 (got ++ ms).
Proof.
  revert ins got s s' ms stop. induction ops as [|[n m|n] ops IH]; intros ins got s s' ms stop Hp; cbn.
  - intros [= <- <- <-]. exists [], []. do 2 (split; [done|]). split; [done|]. cbn. rewrite !app_nil_r.
    unfold pipe in Hp. destruct (resume _ _) as [[t q] o]. exists (s2c s ++ o). by rewrite Hp.
  - intros (ops1 & ops2 & -> & Hr & H)%(IH _ _ _ _ _ _ (put_pipe _ _ _ _ m (advance_pipe n _ _ _ _ Hp))).
    exists (OSend n m :: ops1), ops2. split; [done|]. split; [exact Hr|]. by rewrite <-app_assoc in H.
  - pose proof (next_pipe n p ins got s Hp) as Hn.
    destruct (_next_message n s) as [s1 [m|c r| |e|]] eqn:E; try done.
    + destruct (script ops s1) as [[s2 ms'] b'] eqn:E'. intros [= <- <- <-].
      destruct (IH _ _ _ _ _ _ Hn E') as (ops1 & ops2 & -> & Hr & H).
      exists (OReceive n :: ops1), ops2. split; [done|]. split; [cbn; by rewrite <-Hr|]. by rewrite <-app_assoc in H.
    + intros [= <- <- <-]. exists [], (OReceive n :: ops). do 2 (split; [done|]). cbn. rewrite !app_nil_r.
      split; [by eexists _, _|done].
    + intros [= <- <- <-]. exists [], (OReceive n :: ops). do 2 (split; [done|]). cbn. rewrite !app_nil_r.
      split; [by eexists _, _|done].
Qed.

Lemma session0_pipe p : pipe p [Connect] [] (session0 p).
Proof. unfold pipe. cbn. by destruct (run p [Connect]) as [[t q] o]. Qed.

(** The application does not touch the flags of the session. *)
Lemma advance_flags n s :
  closed (advance n s) = closed s /\ task_exception (advance n s) = task_exception s /\
  loop_running (advance n s) = loop_running s.
Proof.
  assert (forall s, closed (app_act s) = closed s /\ task_exception (app_act s) = task_exception s /\
    loop_running (app_act s) = loop_running s) as Ha by (intros x; unfold app_act; by repeat case_match).
  unfold advance. induction n as [|n (IH1 & IH2 & IH3)]; [done|].
  change (Nat.iter (S n) app_act s) with (app_act (Nat.iter n app_act s)).
  destruct (Ha (Nat.iter n app_act s)) as (-> & -> & ->). done.
Qed.

Lemma enter_pipe n p :
  match __enter__ n p with
  | (s, Value _) => accepted s = true /\ loop_running s = true /\ pipe p [Connect] [Accept (accepted_subprotocol s)] s
  | (s, WebSocketDisconnect c r) => loop_running s = false /\
      exists code reason l, (run p [Connect]).2 = CloseMsg code reason :: l /\ c = default 1000 code /\ r = default [] reason
  | (s, UnexpectedMessage) => loop_running s = false
  | (_, Reraised _) => False
  | (_, Blocks) => (run p [Connect]).2 = []
  end.
Proof.
  pose proof (await_pipe _ _ _ _ (advance_pipe n _ _ _ _ (session0_pipe p))) as [Hp Hn].
  unfold __enter__. cbv zeta.
  assert (loop_running (await_message (advance n (session0 p))) = true) as Hl.
  { destruct (advance_flags n (session0 p)) as (_ & _ & H).
    unfold await_message. repeat case_match; done. }
  set (s := await_message (advance n (session0 p))) in *. destruct (s2c s) as [|x o] eqn:E; [by apply Hn|].
  unfold pipe in Hp. rewrite E in Hp.
  destruct (resume (app_task s) (c2s s)) as [[tk q] o'] eqn:Er. destruct x; try done.
  - split; [done|]. split; [exact Hl|]. unfold pipe. cbn. by rewrite Er.
  - split; [done|]. rewrite Hp. by eexists _, _, _.
Qed.

(** C36: a session is a pipe: whatever a test sends and receives after the
    handshake, and however many actions the application gets to do before each
    operation of the test, the messages it receives are, in order and without
    loss or repetition, those the application sends after its accept when it is
    given the connect message and everything the test sent until then.  When a
    receive waits for good, the application sends nothing more on that input;
    when it raises a disconnect, a close message is what the application sends
    next; otherwise the messages received are the first ones it sends. *)
Theorem session_is_a_pipe n p s ops s' ms stop :
  __enter__ n p = (s, Value tt) -> script ops s = (s', ms, stop) ->
  exists ops1 ops2, ops = ops1 ++ ops2 /\ receives ops1 = length ms /\
    ended_as stop ops2 (run p (Connect :: sends ops1)).2 (Accept (accepted_subprotocol s) :: ms).
Proof.
  intros He Hs. pose proof (enter_pipe n p) as H. rewrite He in H. destruct H as (_ & _ & Hp).
  exact (script_pipe ops p [Connect] _ s s' ms stop Hp Hs).
Qed.

(** *** Handshake and end *)

(** entering a session either gives an accepted session, or raises with
    the loop of the session torn down: a refusal is a disconnect with the code
    and the reason the application sent. *)
Theorem enter_accepts_or_cleans_up n p :
  let '(s, o) := __enter__ n p in
  match o with
  | Value _ => accepted s = true /\ loop_running s = true
  | Blocks => (run p [Connect]).2 = []
  | WebSocketDisconnect c r => loop_running s = false /\
      exists code reason l, (run p [Connect]).2 = CloseMsg code reason :: l /\ c = default 1000 code /\ r = default [] reason
  | UnexpectedMessage => loop_running s = false
  | Reraised _ => False
  end.
Proof.
  pose proof (enter_pipe n p) as H. destruct (__enter__ n p) as [s [a|c r| |e|]]; try done.
  by destruct H as (? & ? & _).
Qed.

(** an application that fails, or returns, before it sends anything leaves
    the test waiting for good in [__enter__]: the failure is never looked at. *)
Theorem failed_handshake_blocks n e :
  (__enter__ n (Recv (fun _ => RaiseP e))).2 = Blocks /\ (__enter__ n (RaiseP e)).2 = Blocks.
Proof.
  assert (forall p, (run p [Connect]).2 = [] -> (__enter__ n p).2 = Blocks) as H.
  { intros p Hr. pose proof (await_pipe _ _ _ _ (advance_pipe n _ _ _ _ (session0_pipe p))) as [Hp _].
    unfold __enter__. cbv zeta. set (s := await_message (advance n (session0 p))) in *.
    unfold pipe in Hp. destruct (resume (app_task s) (c2s s)) as [[t q] o]. rewrite Hp in Hr. cbn in Hr.
    by destruct (s2c s). }
  split; by apply H.
Qed.

(** leaving a session that was not closed tells the application of the
    end once, with code 1000, lets it run to its end, and surfaces what it
    raises, unless the test itself is failing; closing twice is closing once,
    and the loop is torn down in every case. *)
Theorem exit_surfaces_the_application n s in_flight :
  closed s = false ->
  let t := resume (app_task s) (c2s s ++ [Disconnect 1000]) in
  let '(s', o) := __exit__ n s in_flight in
  loop_running s' = false /\ closed s' = true /\ (forall k, close k s' 1000 = s') /\
  match t.1.1, in_flight with
  | Ended (Some e), false => o = Reraised e
  | _, false => o = match task_exception s with Some e => Reraised e | None => Value tt end
  | _, true => o = Value tt
  end.
Proof.
  intros Hc t. destruct (advance_resume n s [Disconnect 1000]) as (o & _ & H). fold t in H. rewrite H. clear H t.
  destruct (advance_flags n s) as (_ & <- & _). unfold __exit__, close. rewrite Hc. unfold settle, put. cbn.
  destruct (resume (app_task (advance n s)) (c2s (advance n s) ++ [Disconnect 1000])) as [[[p|[e|]] q] o']; cbn;
    destruct in_flight; cbn; try done; destruct (task_exception (advance n s)); cbn; done.
Qed.

(** The head of the queue stays there while the application goes on. *)
Lemma advance_head n s m o : s2c s = m :: o -> exists o', s2c (advance n s) = m :: o ++ o'.
Proof. intros H. destruct (advance_resume n s []) as (o' & -> & _). rewrite H. by exists o'. Qed.

Lemma next_head n s m o : s2c s = m :: o -> exists o', s2c (await_message (advance n s)) = m :: o ++ o' /\
  await_message (advance n s) = advance n s.
Proof.
  intros H. destruct (advance_head n s m o H) as [o' Ho]. exists o'. unfold await_message. by rewrite Ho.
Qed.

(** once the test has received the application's close message, leaving
    the session no longer looks at the application: what it raised is lost. *)
Theorem exception_after_close_is_lost n k s code reason o s1 r :
  s2c s = CloseMsg code reason :: o -> task_exception s = None -> _next_message n s = (s1, r) ->
  forall in_flight, (__exit__ k s1 in_flight).2 = Value tt.
Proof.
  intros Hs Ht. destruct (next_head n s _ _ Hs) as (o' & Ho & Hw). unfold _next_message. cbv zeta. rewrite Ho, Hw.
  intros [= <- <-] in_flight. unfold __exit__, close. cbn.
  by rewrite (proj1 (proj2 (advance_flags n s))), Ht.
Qed.

(** a binary message read as text is the empty text, and is gone. *)
Theorem wrong_kind_reads_as_empty n s b o :
  s2c s = SendBytes b :: o -> exists s' o', receive_text n s = (s', Value []) /\ s2c s' = o ++ o'.
Proof.
  intros H. destruct (next_head n s _ _ H) as (o' & Ho & _). unfold receive_text, _next_message. cbv zeta.
  rewrite Ho. by eexists _, _.
Qed.

(** *** Real sockets *)

(** the exception surfaced is the oldest captured one, not the most
    recent. *)
Theorem oldest_exception_is_popped e q : _pop_server_exception (e :: q) = (Some e, q).
Proof. done. Qed.

(** A refused handshake is a disconnect with the code of the captured exception,
    or the status, where an unknown route is a normal closure. *)
Theorem refused_handshake_code st q :
  exists c, (enter_failure (InvalidStatus st) q).1 = inl c /\
    match q with
    | SDisconnect c' :: _ => c = c'
    | _ => c = match st with Some 404 => 1000 | Some 0 | None => 1008 | Some x => x end
    end.
Proof.
  unfold enter_failure. destruct q as [|[c|e] q]; cbn; (eexists; split; [reflexivity|]); try done;
    destruct st as [[|z|z]|]; cbn; try done; destruct (Z.eqb_spec (Zpos z) 404) as [E|E]; try done; by rewrite ?E;
    repeat (destruct z; try done).
Qed.

(** ** Witnesses *)

(** Accepts, echoes one message, and fails when the client leaves. *)
Definition echo0 : prog :=
  Recv (fun _ => Send (Accept (Some (lit "chat"))) (Recv (fun m =>
    match m with
    | ReceiveText t => Send (SendText t) (Recv (fun m' => match m' with Disconnect _ => RaiseP (UserError 1 1) | _ => Ret end))
    | _ => Ret
    end))).

Definition ops0 : list op := [OSend 0 (ReceiveText (lit "hi")); OReceive 1; OSend 5 (ReceiveText (lit "ho")); OReceive 2].

Lemma session_is_a_pipe_witness :
  exists ops1 ops2, ops0 = ops1 ++ ops2 /\ receives ops1 = 1%nat /\ starts_with_receive ops2 /\
    (run echo0 (Connect :: sends ops1)).2 = [Accept (Some (lit "chat")); SendText (lit "hi")].
Proof.
  refine (session_is_a_pipe 2 echo0 (__enter__ 2 echo0).1 ops0 _ [SendText (lit "hi")] (Some Blocks) _ _);
    vm_compute; reflexivity.
Defined.

Definition ops1 : list op := [OSend 3 (ReceiveText (lit "hi")); OReceive 0].

Lemma exit_surfaces_the_application_witness :
  let s := (script ops1 (__enter__ 0 echo0).1).1.1 in
  closed s = false /\ (__exit__ 1 s false).2 = Reraised (UserError 1 1).
Proof.
  intros s. split; [vm_compute; reflexivity|].
  pose proof (exit_surfaces_the_application 1 s false eq_refl) as H.
  change (let '(s', o) := __exit__ 1 s false in o = Reraised (UserError 1 1)).
  destruct (__exit__ 1 s false) as [s' o]. destruct H as (_ & _ & _ & H).
  vm_compute in H. exact H.
Defined.

End TestWs.
