(* ===== verification/Proxy.v ===== *)
(** The loopback proxy behind the ASGI entry (applications.py:
    [_asgi_ensure_server], [_asgi_proxy_http], [_asgi_proxy_websocket]): starting
    one server for concurrent callers, and forwarding requests, responses and
    WebSocket messages to it. *)

From S2P Require Import Prelude.

Module Proxy.

(** ** Starting the server *)

Inductive server := Down | Starting | Up.

(** Where a caller is: before the check, waiting for readiness, past it, or out
    of time. *)
Inductive pc := Enter | Waiting | Proceeds | TimedOut.

Record state := {
  port_set : bool;                       (* [hasattr(self, "_asgi_server_port")] *)
  srv : server;
  started : nat;                         (* threads started *)
  callers : gmap nat pc }.

Definition state0 : state := {| port_set := false; srv := Down; started := 0; callers := ∅ |}.

Definition goto (s : state) (c : nat) (p : pc) : state :=
  {| port_set := port_set s; srv := srv s; started := started s; callers := <[ c := p ]> (callers s) |}.

(** The part of [_asgi_ensure_server] before its [await]: nothing can come in
    between. *)
Definition enter (s : state) (c : nat) : state :=
  if port_set s then goto s c Proceeds
  else goto {| port_set := true; srv := Starting; started := S (started s); callers := callers s |} c Waiting.

Inductive step : state -> state -> Prop :=
| SArrive s c : callers s !! c = None -> step s (goto s c Enter)
| SEnter s c : callers s !! c = Some Enter -> step s (enter s c)
| SReady s : srv s = Starting ->
    step s {| port_set := port_set s; srv := Up; started := started s; callers := callers s |}
| SConnected s c : callers s !! c = Some Waiting -> srv s = Up -> step s (goto s c Proceeds)
| STimeout s c : callers s !! c = Some Waiting -> srv s <> Up -> step s (goto s c TimedOut).

(** ** HTTP *)

(** What is received: the keys of the message, [None] where missing. *)
Record in_msg := { i_body : option bytes; i_more_body : option bool }.

(** A disconnect has neither. *)
Definition http_disconnect : in_msg := {| i_body := None; i_more_body := None |}.

(** [_body_iter]: the chunks, and whether it came to its end. *)
Fixpoint _body_iter (ms : list in_msg) : list bytes * bool :=
  match ms with
  | [] => ([], false)
  | m :: ms' =>
      let chunk := match default [] (i_body m) with [] => [] | b => [b] end in
      if default false (i_more_body m)
      then let '(l, b) := _body_iter ms' in (chunk ++ l, b)
      else (chunk, true)
  end.

Definition hop_by_hop : list text := [lit "host"; lit "transfer-encoding"; lit "connection"].

Definition request_headers (hs : list (bytes * bytes)) : list (text * text) :=
  filter (fun kv => lower kv.1 ∉ hop_by_hop) hs.

Definition proxy_url (port : Z) (path query : text) : text :=
  lit "http://127.0.0.1:" ++ dec port ++ path ++ match query with [] => [] | q => lit "?" ++ q end.

Record upstream := { u_status : Z; u_headers : list (text * text); u_wire : bytes }.

Inductive frame := Start (status : Z) (headers : list (bytes * bytes)) | Body (b : bytes).

Section Http.

(** [httpx]: the content of a response, decoded by its [Content-Encoding]. *)
Variable content : upstream -> bytes.

Definition response_headers (hs : list (text * text)) : list (bytes * bytes) :=
  (fun kv => (lower kv.1, kv.2)) <$> filter (fun kv : text * text => lower kv.1 <> lit "transfer-encoding") hs.

Definition _asgi_proxy_http (r : upstream) : list frame :=
  [Start (u_status r) (response_headers (u_headers r)); Body (content r)].

End Http.

(** ** WebSocket *)

(** A message of the client: [text] and [bytes] may be missing or [None]. *)
Inductive ws_in :=
| WConnect
| WReceive (text_ : option (option text)) (bytes_ : option (option bytes))
| WDisconnect.

Inductive ws_data := DText (t : text) | DBytes (b : bytes).

Inductive ws_frame := FAccept | FData (d : ws_data) | FClose (code : Z).

(** How a direction ends: the connection was closed by it, it raised, or it
    waits. *)
Inductive direction := Closes | Dies | Waits.

(** [_forward_client_to_server]: what is sent to the server. *)
Fixpoint _forward_client_to_server (ms : list ws_in) : list ws_data * direction :=
  match ms with
  | [] => ([], Waits)
  | WDisconnect :: _ => ([], Closes)
  | WReceive (Some (Some t)) _ :: ms' =>
      let '(l, d) := _forward_client_to_server ms' in (DText t :: l, d)
  | WReceive (Some None) _ :: _ => ([], Dies)
  | WReceive None (Some (Some b)) :: ms' =>
      let '(l, d) := _forward_client_to_server ms' in (DBytes b :: l, d)
  | WReceive None (Some None) :: _ => ([], Dies)
  | WReceive None None :: ms' => _forward_client_to_server ms'
  | WConnect :: ms' => _forward_client_to_server ms'
  end.

(** The server's side of the connection: the data it sends, and the code it
    closes with, if it does. *)
Record ws_server := { w_data : list ws_data; w_closes : option Z }.

Inductive ending := Returns | WaitsForClient | WaitsForServer.

(** [_asgi_proxy_websocket]: the frames to the client, the data to the server,
    and whether the coroutine ends.  [gather] ends when both directions have. *)
Definition _asgi_proxy_websocket (library : bool) (connects : bool) (ms : list ws_in) (w : ws_server)
    : list ws_frame * list ws_data * ending :=
  if negb library then ([FClose 1011], [], Returns)
  else match ms with
  | [] => ([], [], WaitsForClient)
  | WConnect :: ms' =>
      if connects then
        let '(to_server, d) := _forward_client_to_server ms' in
        (FAccept :: (FData <$> w_data w), to_server,
         match d, w_closes w with
         | Waits, _ => WaitsForClient
         | Closes, _ => Returns
         | Dies, Some _ => Returns
         | Dies, None => WaitsForServer
         end)
      else ([FClose 1011], [], Returns)
  | _ :: _ => ([], [], Returns)
  end.

(** ** Theorems *)

(** *** One server *)

Definition inv (s : state) : Prop :=
  (started s <= 1)%nat /\ (port_set s = true <-> started s = 1%nat) /\
  (srv s <> Down -> port_set s = true) /\ (port_set s = true -> srv s <> Down).

Lemma step_inv s s' : inv s -> step s s' -> inv s'.
Proof.
  intros (H1 & H2 & H3 & H4) Hs. destruct Hs as [s c Hc|s c Hc|s Hd|s c Hc Hu|s c Hc Hu]; unfold inv; cbn; try done.
  - unfold enter. destruct (port_set s) eqn:E; cbn; [rewrite E; by split_and!|].
    assert (started s = 0%nat) as Hz.
    { destruct (decide (started s = 1%nat)) as [Ho|Ho]; [apply H2 in Ho; congruence|lia]. }
    rewrite Hz. by split_and!.
  - split_and!; try done. intros _. apply H3. by rewrite Hd.
Qed.

Lemma reachable_bound_inv s : rtc step state0 s -> inv s.
Proof.
  apply (rtc_ind_r inv); [split_and!; cbn; try done; lia|]. intros x y _ Hs Hx. by eapply step_inv.
Qed.

Lemma reachable_past s :
  rtc step state0 s -> forall c p, callers s !! c = Some p -> p <> Enter -> port_set s = true.
Proof.
  apply (rtc_ind_r (fun s => forall c p, callers s !! c = Some p -> p <> Enter -> port_set s = true)).
  - intros c p H. change (callers state0) with (∅ : gmap nat pc) in H. by rewrite lookup_empty in H.
  - intros x y _ Hs IH c p Hp Hne. destruct Hs as [s0 c0 Hc|s0 c0 Hc|s0 Hd|s0 c0 Hc Hu|s0 c0 Hc Hu]; cbn in *.
    + apply lookup_insert_Some in Hp as [[_ <-]|[_ Hp]]; [done|by eapply IH].
    + unfold enter in *. by destruct (port_set s0) eqn:E.
    + by eapply IH.
    + by eapply IH.
    + by eapply IH.
Qed.

(** however many requests arrive at once, one server is started, and every
    request that is past the check finds the port of that server. *)
Theorem one_server_is_started s :
  rtc step state0 s ->
  (started s <= 1)%nat /\ forall c, callers s !! c = Some Proceeds -> started s = 1%nat /\ port_set s = true.
Proof.
  intros Hr. pose proof (reachable_bound_inv s Hr) as (H1 & H2 & _). split; [done|]. intros c Hc.
  assert (port_set s = true) as Hp by (by eapply reachable_past). split; [by apply H2|done].
Qed.

(** the port is published before the server is up: a second request that
    arrives while the first waits goes on at once, to a server that does not
    listen yet; and after the wait timed out every later request does. *)
Theorem second_caller_does_not_wait :
  exists s, rtc step state0 s /\ callers s !! 1%nat = Some Waiting /\ callers s !! 2%nat = Some Proceeds /\ srv s = Starting.
Proof.
  exists (enter (goto (enter (goto state0 1 Enter) 1) 2 Enter) 2). split.
  - eapply rtc_l; [apply (SArrive state0 1); apply lookup_empty|].
    eapply rtc_l; [apply (SEnter _ 1); apply lookup_insert_eq|].
    eapply rtc_l; [apply (SArrive _ 2); vm_compute; reflexivity|].
    apply rtc_once. apply (SEnter _ 2). apply lookup_insert_eq.
  - vm_compute. done.
Qed.

(** *** Forwarding HTTP *)

(** The whole of a request body sent in pieces. *)
Fixpoint pieces (bs : list bytes) (last_ : bytes) : list in_msg :=
  match bs with
  | [] => [{| i_body := Some last_; i_more_body := Some false |}]
  | b :: bs' => {| i_body := Some b; i_more_body := Some true |} :: pieces bs' last_
  end.

(** a request body is forwarded whole and in order, however it is cut;
    repeated headers of the request and of the response keep their number and
    order, apart from the ones that belong to a connection. *)
Theorem proxy_forwards_in_order bs last_ rest hs :
  (let '(l, ended) := _body_iter (pieces bs last_ ++ rest) in mjoin l = mjoin bs ++ last_ /\ ended = true) /\
  (forall k, lower k ∉ hop_by_hop ->
     filter (fun kv : bytes * bytes => kv.1 = k) (request_headers hs) = filter (fun kv => kv.1 = k) hs).
Proof.
  split.
  - induction bs as [|b bs IH]; cbn [pieces Datatypes.app _body_iter i_body i_more_body default from_option].
    + by destruct last_; cbn; rewrite ?app_nil_r.
    + destruct (_body_iter (pieces bs last_ ++ rest)) as [l e]. destruct IH as [IH ->]. split; [|done].
      replace (mjoin (_ ++ l)) with (b ++ mjoin l) by (by destruct b). rewrite IH. change (mjoin (b :: bs)) with (b ++ mjoin bs). by rewrite app_assoc.
  - intros k Hk. unfold request_headers. induction hs as [|[a v] hs IH]; [done|].
    rewrite !filter_cons. cbn [fst]. case_decide as Ha.
    + rewrite filter_cons. cbn [fst]. by rewrite IH.
    + rewrite (decide_False (P := a = k)); [done|]. by intros ->.
Qed.

(** a request whose client disconnects in the middle of its body is
    forwarded as a complete one with the part that came. *)
Theorem disconnect_completes_the_body bs rest :
  let ms := (fun b => {| i_body := Some b; i_more_body := Some true |}) <$> bs in
  let '(l, ended) := _body_iter (ms ++ http_disconnect :: rest) in mjoin l = mjoin bs /\ ended = true.
Proof.
  cbn zeta. induction bs as [|b bs IH]; [done|].
  cbn [fmap list_fmap Datatypes.app _body_iter i_body i_more_body default from_option] in *.
  destruct (_body_iter _) as [l e]. destruct IH as [IH ->]. split; [|done].
  replace (mjoin (_ ++ l)) with (b ++ mjoin l) by (by destruct b). by rewrite IH.
Qed.

(** a compressed response is passed on under its old headers: the body is
    the decoded content while [content-encoding], and the length of the encoded
    body, are still declared. *)
Theorem decoded_body_keeps_its_encoding content r enc n :
  (lit "Content-Encoding", enc) ∈ u_headers r -> (lit "Content-Length", dec n) ∈ u_headers r ->
  exists hs, _asgi_proxy_http content r = [Start (u_status r) hs; Body (content r)] /\
    (lit "content-encoding", enc) ∈ hs /\ (lit "content-length", dec n) ∈ hs.
Proof.
  intros He Hn. eexists. split; [reflexivity|]. unfold response_headers. split; apply list_elem_of_fmap.
  - exists (lit "Content-Encoding", enc). split; [done|]. by apply list_elem_of_filter.
  - exists (lit "Content-Length", dec n). split; [done|]. by apply list_elem_of_filter.
Qed.

(** *** Forwarding WebSocket messages *)

Definition as_data (m : ws_in) : option ws_data :=
  match m with
  | WReceive (Some (Some t)) _ => Some (DText t)
  | WReceive None (Some (Some b)) => Some (DBytes b)
  | _ => None
  end.

(** messages are forwarded in order and once in both directions until the
    client leaves. *)
Theorem websocket_messages_are_forwarded ms rest w :
  Forall (fun m => is_Some (as_data m)) ms ->
  _asgi_proxy_websocket true true (WConnect :: ms ++ WDisconnect :: rest) w =
  (FAccept :: (FData <$> w_data w), omap as_data ms, Returns).
Proof.
  intros H. cbn. assert (_forward_client_to_server (ms ++ WDisconnect :: rest) = (omap as_data ms, Closes)) as ->; [|done].
  induction H as [|m ms [d Hd] _ IH]; [done|]. cbn [Datatypes.app].
  destruct m as [|[[t|]|] [[b|]|]|]; try done; cbn; rewrite IH; done.
Qed.

(** a connection the server closes is not closed towards the client: its
    code is not forwarded, no close frame is sent, and the proxy waits for the
    client to leave. *)
Theorem server_close_is_not_forwarded ms w code :
  w_closes w = Some code -> Forall (fun m => is_Some (as_data m)) ms ->
  let '(frames, _, e) := _asgi_proxy_websocket true true (WConnect :: ms) w in
  e = WaitsForClient /\ forall c, FClose c ∉ frames.
Proof.
  intros Hw H. cbn. assert (_forward_client_to_server ms = (omap as_data ms, Waits)) as ->.
  { induction H as [|m ms [d Hd] _ IH]; [done|]. destruct m as [|[[t|]|] [[b|]|]|]; try done; cbn; rewrite IH; done. }
  split; [done|]. intros c [?|Hc]%elem_of_cons; [done|]. by apply list_elem_of_fmap in Hc as (? & ? & _).
Qed.

(** ** Witnesses *)

Lemma one_server_is_started_witness :
  (started (enter (goto state0 1 Enter) 1) <= 1)%nat.
Proof.
  apply (one_server_is_started (enter (goto state0 1 Enter) 1)).
  eapply rtc_l; [apply (SArrive state0 1); apply lookup_empty|].
  apply rtc_once. apply (SEnter _ 1). apply lookup_insert_eq.
Defined.

Lemma websocket_messages_are_forwarded_witness :
  _asgi_proxy_websocket true true (WConnect :: [WReceive (Some (Some (lit "a"))) None] ++ [WDisconnect])
    {| w_data := [DText (lit "b")]; w_closes := None |} = ([FAccept; FData (DText (lit "b"))], [DText (lit "a")], Returns).
Proof.
  apply (websocket_messages_are_forwarded [WReceive (Some (Some (lit "a"))) None] []
    {| w_data := [DText (lit "b")]; w_closes := None |}).
  constructor; [|constructor]. eexists. reflexivity.
Defined.

Lemma server_close_is_not_forwarded_witness :
  let '(frames, _, e) := _asgi_proxy_websocket true true [WConnect] {| w_data := []; w_closes := Some 1008 |} in
  e = WaitsForClient /\ forall c, FClose c ∉ frames.
Proof.
  apply (server_close_is_not_forwarded [] {| w_data := []; w_closes := Some 1008 |} 1008); [reflexivity|constructor].
Defined.

End Proxy.
