(* ===== verification/LifespanChain.v ===== *)
(** The lifespan protocol driven through the raw ASGI middlewares
    ([applications.py]: [_start_lifespan_mw_chain], [_stop_lifespan_mw_chain]).

    The composed application runs as a task of the worker loop; the two
    [_kickoff] coroutines talk to it through a queue, a list of the messages it
    sent and an event.  An application is a program, middlewares are functions
    on programs, and the task and the coroutines take their steps in any order.
    The start-up and shutdown the innermost application performs are those of
    [Lifespan]. *)

From S2P Require Import Prelude Effects Lifespan.

Module LifespanChain.

Import Effects Lifespan.

(** ** Applications *)

(** A message given to [send]; [OtherSent] has a type that neither ends in
    [.complete] nor in [.failed]. *)
Inductive sent := Sent (r : reply) | OtherSent.

(** What a lifespan application does next: it has ended, it receives, it sends,
    it awaits code of the application, or a middleware does something of its
    own. *)
Inductive task :=
| TDone (r : option exn)
| TRecv (k : message -> task)
| TSend (m : sent) (k : task)
| TAct (p : prog unit) (k : res unit -> task)
| TNote (n : nat) (k : task).

(** [_inner_app] *)
Definition after_shutdown (r : res unit) : task :=
  match r with
  | Raise e => TSend (Sent (ShutdownFailed e)) (TDone (Some e))
  | Ok _ => TSend (Sent ShutdownComplete) (TDone None)
  end.

Definition await_shutdown : task :=
  TRecv (fun m => match m with MShutdown => TAct shutdown_chain after_shutdown | _ => TDone None end).

Definition after_startup (r : res unit) : task :=
  match r with
  | Raise e => TSend (Sent (StartupFailed e)) (TDone (Some e))
  | Ok _ => TSend (Sent StartupComplete) await_shutdown
  end.

Definition _inner_app : task :=
  TRecv (fun m => match m with
                  | MStartup => TAct startup_chain after_startup
                  | _ => TSend (Sent (StartupFailed (RuntimeError "unexpected message"))) (TDone None)
                  end).

(** A middleware class with its keyword arguments: constructing it with [app=],
    and without. *)
Record mw := { with_app : task -> res task; without_app : res task }.

Definition construct (m : mw) (app : task) : res task :=
  match with_app m app with
  | Raise TypeError => without_app m
  | r => r
  end.

(** The loop over [reversed(_raw_asgi_middlewares)], the list given in the order
    of registration. *)
Fixpoint composed (mws : list mw) (inner : task) : res task :=
  match mws with
  | [] => Ok inner
  | m :: mws' => match composed mws' inner with
                 | Ok app => construct m app
                 | Raise e => Raise e
                 end
  end.

(** ** The task and the two coroutines *)

(** Where the caller is: waiting for the answer to the start-up, refused,
    serving, waiting for the answer to the shutdown, awaiting the task (with the
    failure that was reported), or back from the shutdown. *)
Inductive place :=
| Starting
| StartRaised (e : exn)
| Serving
| Stopping
| Joining (failed : option exn)
| Stopped (r : res bool).

Inductive entry := App (e : event) | Noted (n : nat).

Record state := {
  tk : task;                   (* state["task"] *)
  recv_q : list message;
  send_done : bool;
  send_events : list sent;
  app_of : app;
  log : list entry;
  at_ : place }.

Definition set_task (t : task) (s : state) : state :=
  {| tk := t; recv_q := recv_q s; send_done := send_done s; send_events := send_events s;
     app_of := app_of s; log := log s; at_ := at_ s |}.

Section Messages.

(** [traceback.format_exc] *)
Variable format_exc : exn -> text.

(** Steps of the task: [_recv], [_send] and code. *)
Definition _send (m : sent) (k : task) (s : state) : state :=
  {| tk := k; recv_q := recv_q s;
     send_done := match m with Sent _ => true | OtherSent => send_done s end;
     send_events := send_events s ++ [m]; app_of := app_of s; log := log s; at_ := at_ s |}.

Definition _recv (k : message -> task) (s : state) : option state :=
  match recv_q s with
  | [] => None
  | m :: q => Some {| tk := k m; recv_q := q; send_done := send_done s; send_events := send_events s;
                      app_of := app_of s; log := log s; at_ := at_ s |}
  end.

Definition task_step (s : state) : option state :=
  match tk s with
  | TDone _ => None
  | TRecv k => _recv k s
  | TSend m k => Some (_send m k s)
  | TAct p k => let '(es, a, r) := p (app_of s) in
                Some {| tk := k r; recv_q := recv_q s; send_done := send_done s;
                        send_events := send_events s; app_of := a; log := log s ++ (App <$> es);
                        at_ := at_ s |}
  | TNote n k => Some {| tk := k; recv_q := recv_q s; send_done := send_done s;
                         send_events := send_events s; app_of := app_of s; log := log s ++ [Noted n];
                         at_ := at_ s |}
  end.

Definition startup_failed (e : exn) : exn := RuntimeError (lit "Lifespan startup failed: " ++ format_exc e).
Definition shutdown_failed (e : exn) : exn := RuntimeError (lit "Lifespan shutdown failed: " ++ format_exc e).

(** Steps of the caller: the rest of the first [_kickoff] once [send_done] is
    set, the start of [_stop_lifespan_mw_chain], and its [_kickoff]. *)
Definition after_wait (s : state) : place :=
  match last (send_events s) with
  | Some (Sent (StartupFailed e)) => StartRaised (startup_failed e)
  | _ => Serving
  end.

Definition reported (s : state) : option exn :=
  match last (send_events s) with
  | Some (Sent (ShutdownFailed e)) => Some e
  | _ => None
  end.

Definition outcome (ended failed : option exn) : res bool :=
  match ended, failed with
  | Some e, _ => Raise e
  | None, Some e => Raise (shutdown_failed e)
  | None, None => Ok true
  end.

Definition caller_step (s : state) : option state :=
  match at_ s with
  | Starting =>
      if send_done s
      then Some {| tk := tk s; recv_q := recv_q s; send_done := false; send_events := send_events s;
                   app_of := app_of s; log := log s; at_ := after_wait s |}
      else None
  | Serving =>
      Some {| tk := tk s; recv_q := recv_q s ++ [MShutdown]; send_done := send_done s; send_events := [];
              app_of := app_of s; log := log s; at_ := Stopping |}
  | Stopping =>
      if send_done s
      then Some {| tk := tk s; recv_q := recv_q s; send_done := send_done s; send_events := send_events s;
                   app_of := app_of s; log := log s; at_ := Joining (reported s) |}
      else None
  | Joining failed =>
      match tk s with
      | TDone r => Some {| tk := tk s; recv_q := recv_q s; send_done := send_done s;
                           send_events := send_events s; app_of := app_of s; log := log s;
                           at_ := Stopped (outcome r failed) |}
      | _ => None
      end
  | StartRaised _ | Stopped _ => None
  end.

Inductive step (s : state) : state -> Prop :=
| STask s' : task_step s = Some s' -> step s s'
| SCaller s' : caller_step s = Some s' -> step s s'.

(** [_kickoff] up to its wait: the task is created and the message queued. *)
Definition kickoff (t : task) (a : app) : state :=
  {| tk := t; recv_q := [MStartup]; send_done := false; send_events := []; app_of := a; log := [];
     at_ := Starting |}.

End Messages.

(** [_start_lifespan_mw_chain]: whether there is a chain, and its first state. *)
Definition _start_lifespan_mw_chain (mws : list mw) (a : app) : res (option state) :=
  match mws with
  | [] => Ok None
  | _ => match composed mws _inner_app with
         | Ok t => Ok (Some (kickoff t a))
         | Raise e => Raise e
         end
  end.

(** ** Middlewares that observe

    [t] does what [u] does, and besides takes notes and may swallow the
    exception [u] ends with. *)

Inductive observes : task -> task -> Prop :=
| ObDone r : observes (TDone r) (TDone r)
| ObSwallow e : observes (TDone None) (TDone (Some e))
| ObRecv k k' : (forall m, observes (k m) (k' m)) -> observes (TRecv k) (TRecv k')
| ObSend m t u : observes t u -> observes (TSend m t) (TSend m u)
| ObAct p k k' : (forall r, observes (k r) (k' r)) -> observes (TAct p k) (TAct p k')
| ObNote n t u : observes t u -> observes (TNote n t) u
| ObNoted n t u : observes t u -> observes (TNote n t) (TNote n u).

Definition observer (m : mw) : Prop := forall t, exists t', with_app m t = Ok t' /\ observes t' t.

(** What the application itself did. *)
Definition app_log (l : list entry) : list event :=
  omap (fun x => match x with App e => Some e | Noted _ => None end) l.

(** ** Lemmas *)

#[local] Hint Constructors observes : core.

Lemma observes_refl t : observes t t.
Proof. induction t; eauto. Qed.

Lemma observes_trans t u v : observes t u -> observes u v -> observes t v.
Proof.
  intros Htu. revert v.
  induction Htu as [r|e|k k' _ IH|m t u _ IH|p k k' _ IH|n t u _ IH|n t u _ IH]; intros v Huv; eauto.
  - inversion Huv; subst; eauto.
  - remember (TRecv k') as w eqn:Ew. induction Huv; simplify_eq; eauto.
  - remember (TSend m u) as w eqn:Ew. induction Huv; simplify_eq; eauto.
  - remember (TAct p k') as w eqn:Ew. induction Huv; simplify_eq; eauto.
  - inversion Huv; subst; eauto.
Qed.

Lemma composed_app l1 l2 t :
  composed (l1 ++ l2) t = match composed l2 t with Ok u => composed l1 u | Raise e => Raise e end.
Proof.
  induction l1 as [|m l1 IH]; simpl; [by destruct (composed l2 t)|]. rewrite IH. by destruct (composed l2 t).
Qed.

Lemma composed_observes mws t : Forall observer mws -> exists t', composed mws t = Ok t' /\ observes t' t.
Proof.
  induction 1 as [|m mws Hm _ (u & Hu & Ho)]; simpl; [eauto using observes_refl|].
  rewrite Hu. destruct (Hm u) as (t' & Ht' & Ho'). unfold construct. rewrite Ht'. eauto using observes_trans.
Qed.

Lemma app_log_app l l' : app_log (l ++ l') = app_log l ++ app_log l'.
Proof. apply omap_app. Qed.

Lemma app_log_events es : app_log (App <$> es) = es.
Proof. unfold app_log. induction es as [|e es IH]; [done|]. cbn. by f_equal. Qed.

(** *** The innermost application under observation *)

Definition ended (r : res unit) : option exn := match r with Raise e => Some e | Ok _ => None end.
Definition stop_reply (r : res unit) : reply :=
  match r with Raise e => ShutdownFailed e | Ok _ => ShutdownComplete end.

Section Protocol.

Variable format_exc : exn -> text.
Variable a : app.
Notation step := (step format_exc).

(** Where the innermost application can be, what it left behind, and where the
    caller is. *)
Inductive pos : task -> list message -> bool -> list sent -> app -> list event -> place -> Prop :=
| PInit : pos _inner_app [MStartup] false [] a [] Starting
| PStart : pos (TAct startup_chain after_startup) [] false [] a [] Starting
| PStarted es a1 r : startup_chain a = (es, a1, r) -> pos (after_startup r) [] false [] a1 es Starting
| PFailing es a1 e : startup_chain a = (es, a1, Raise e) ->
    pos (TDone (Some e)) [] true [Sent (StartupFailed e)] a1 es Starting
| PFailed es a1 e : startup_chain a = (es, a1, Raise e) ->
    pos (TDone (Some e)) [] false [Sent (StartupFailed e)] a1 es (StartRaised (startup_failed format_exc e))
| PReady es a1 : startup_chain a = (es, a1, Ok tt) ->
    pos await_shutdown [] true [Sent StartupComplete] a1 es Starting
| PServing es a1 : startup_chain a = (es, a1, Ok tt) ->
    pos await_shutdown [] false [Sent StartupComplete] a1 es Serving
| PAsked es a1 : startup_chain a = (es, a1, Ok tt) -> pos await_shutdown [MShutdown] false [] a1 es Stopping
| PStop es a1 : startup_chain a = (es, a1, Ok tt) ->
    pos (TAct shutdown_chain after_shutdown) [] false [] a1 es Stopping
| PStopped es a1 es' a2 r : startup_chain a = (es, a1, Ok tt) -> shutdown_chain a1 = (es', a2, r) ->
    pos (after_shutdown r) [] false [] a2 (es ++ es') Stopping
| PReplied es a1 es' a2 r : startup_chain a = (es, a1, Ok tt) -> shutdown_chain a1 = (es', a2, r) ->
    pos (TDone (ended r)) [] true [Sent (stop_reply r)] a2 (es ++ es') Stopping
| PJoin es a1 es' a2 r : startup_chain a = (es, a1, Ok tt) -> shutdown_chain a1 = (es', a2, r) ->
    pos (TDone (ended r)) [] true [Sent (stop_reply r)] a2 (es ++ es') (Joining (ended r))
| PEnd es a1 es' a2 r r' : startup_chain a = (es, a1, Ok tt) -> shutdown_chain a1 = (es', a2, r) ->
    r' = ended r \/ r' = None ->
    pos (TDone (ended r)) [] true [Sent (stop_reply r)] a2 (es ++ es')
        (Stopped (outcome format_exc r' (ended r))).

Definition inv (s : state) : Prop :=
  exists u, observes (tk s) u /\
            pos u (recv_q s) (send_done s) (send_events s) (app_of s) (app_log (log s)) (at_ s).

#[local] Hint Constructors pos : core.

Lemma observes_done t r : observes t (TDone r) ->
  (exists n t', t = TNote n t' /\ observes t' (TDone r)) \/ (exists r', t = TDone r' /\ (r' = r \/ r' = None)).
Proof. inversion 1; subst; eauto 10. Qed.

(** A step of the task is a note, or a step of the application it observes. *)
Lemma task_step_inv s s' : inv s -> task_step s = Some s' -> inv s'.
Proof.
  intros (u & Ho & Hp). destruct s as [t q d evs ap lg pl]. unfold task_step; simpl in *.
  destruct Ho as [r|e|k k' Hk|m t u Ht|p k k' Hk|n t u Ht|n t u Ht]; try done.
  - unfold _recv; simpl. destruct q as [|m q]; [done|]. intros [= <-]. exists (k' m); simpl. split; [apply Hk|].
    inversion Hp; subst; eauto.
  - intros [= <-]. exists u; simpl. split; [done|]. inversion Hp as [| |? ? r ?| | | | | | |? ? ? ? r ? ?| | |]; subst.
    + destruct r as [[]|e]; simplify_eq/=; eauto.
    + destruct r as [[]|e]; simplify_eq/=;
        [eapply (PReplied _ _ _ _ (Ok tt))|eapply (PReplied _ _ _ _ (Raise e))]; eauto.
  - destruct (p ap) as [[es a'] r] eqn:Ep. intros [= <-]. exists (k' r); simpl. split; [apply Hk|].
    rewrite app_log_app, app_log_events.
    inversion Hp as [| |? ? r' ? Hu| | | | | | |? ? ? ? r' ? ? Hu| | |]; subst; try (destruct r'; discriminate Hu); eauto.
  - intros [= <-]. exists u; simpl. rewrite app_log_app. cbn. by rewrite app_nil_r.
  - inversion Hp as [| |? ? r ? Hu| | | | | | |? ? ? ? r ? ? Hu| | |]; destruct r; discriminate Hu.
Qed.

Lemma caller_step_inv s s' : inv s -> caller_step format_exc s = Some s' -> inv s'.
Proof.
  intros (u & Ho & Hp). destruct s as [t q d evs ap lg pl]. unfold caller_step, inv; simpl in *.
  inversion Hp; subst; try done; intros Hs; simplify_eq/=;
    repeat match goal with H : _ = app_log _ |- _ => rewrite <-H end;
    try (eexists; split; [exact Ho|eauto]; fail).
  - eexists; split; [exact Ho|]. unfold reported; simpl. destruct r as [[]|e]; simpl;
      [eapply (PJoin _ _ _ _ (Ok tt))|eapply (PJoin _ _ _ _ (Raise e))]; eauto.
  - apply observes_done in Ho as [(n & t' & -> & _)|(r' & -> & Hr)]; [done|]. simplify_eq/=.
    repeat match goal with H : _ = app_log _ |- _ => rewrite <-H end.
    exists (TDone (ended r)). split; [|eauto]. destruct Hr as [->| ->]; [done|]. destruct r; simpl; eauto.
Qed.

Lemma chain_step_inv s s' : inv s -> step s s' -> inv s'.
Proof. intros Hi [s1 H|s1 H]; eauto using task_step_inv, caller_step_inv. Qed.

Lemma reachable_chain_inv t s : observes t _inner_app -> rtc step (kickoff t a) s -> inv s.
Proof.
  intros Ho Hr. assert (inv (kickoff t a)) as Hi by (exists _inner_app; split; [done|constructor]).
  induction Hr; eauto using chain_step_inv.
Qed.

End Protocol.

(** Every schedule comes to an end: the task shrinks, and the caller moves on. *)
Definition weight (p : place) : nat :=
  match p with
  | Starting => 4 | Serving => 3 | Stopping => 2 | Joining _ => 1 | StartRaised _ | Stopped _ => 0
  end%nat.

Lemma caller_step_weight format_exc s s' : caller_step format_exc s = Some s' ->
  tk s' = tk s /\ (weight (at_ s') < weight (at_ s))%nat.
Proof.
  unfold caller_step. destruct (at_ s) eqn:Ea; try done; repeat case_match; intros [= <-]; simpl; split; try done; try lia.
  unfold after_wait. repeat case_match; simpl; lia.
Qed.

Lemma chain_terminates format_exc s : Acc (fun s' s => step format_exc s s') s.
Proof.
  remember (tk s) as t eqn:Et. revert s Et.
  induction t as [r|k IH|m t IH|p k IH|n t IH]; intros s; remember (weight (at_ s)) as w eqn:Ew; revert s Ew;
    induction w as [w IHw] using lt_wf_ind; intros s -> Et; constructor; intros s' [s1 Hs|s1 Hs];
    (apply caller_step_weight in Hs as [Ht Hw]; eapply IHw; [exact Hw|done|congruence]) || idtac;
    unfold task_step in Hs; rewrite <-Et in Hs.
  - done.
  - unfold _recv in Hs. destruct (recv_q s) as [|m q]; [done|]. injection Hs as <-. by eapply IH.
  - injection Hs as <-. by eapply IH.
  - destruct (p (app_of s)) as [[es a'] r]. injection Hs as <-. by eapply IH.
  - injection Hs as <-. by eapply IH.
Qed.

(** The caller waits only while the task can still move. *)
Definition final (p : place) : Prop := match p with StartRaised _ | Stopped _ => True | _ => False end.

Lemma task_can_step s : (forall k, tk s = TRecv k -> recv_q s <> []) -> (forall r, tk s <> TDone r) ->
  exists s', task_step s = Some s'.
Proof.
  intros Hr Hd. unfold task_step. destruct (tk s) as [r|k|m t|p k|n t] eqn:Et; eauto.
  - by destruct (Hd r).
  - unfold _recv. destruct (recv_q s) eqn:Eq; [|eauto]. by destruct (Hr k).
  - destruct (p (app_of s)) as [[es a] r]. eauto.
Qed.

Lemma inv_progress format_exc a s : inv format_exc a s -> final (at_ s) \/ exists s', step format_exc s s'.
Proof.
  intros (u & Ho & Hp).
  assert (final (at_ s) \/ (exists s', caller_step format_exc s = Some s') \/
          (exists s', task_step s = Some s')) as [H|[[s' H]|[s' H]]]; [|by left|right; eauto using step..].
  destruct s as [t q d evs ap lg pl]; simpl in *.
  inversion Hp; subst; simpl; try (by left); right; try (left; unfold caller_step; simpl; eauto; fail); simpl in *.
  all: try (right; apply task_can_step; simpl;
            [intros k' ->; inversion Ho; subst; try done; destruct r; done
            |intros r' ->; inversion Ho; subst; try done; destruct r; done]).
  apply observes_done in Ho as [(n & t' & -> & _)|(r' & -> & _)]; [right|left]; simpl; eauto.
Qed.

(** ** Theorems *)

(** C15: The protocol through the chain is the lifespan itself: with middlewares that
    only observe (and may swallow the exception at the end), however the task
    and the caller interleave, the caller never waits in vain and every schedule
    ends; when the start-up is over the application has done exactly its start-up,
    which succeeded, or was refused with the error it raised; when the shutdown
    is over it has also done exactly its shutdown, and the call returned [True]
    if that succeeded and raised otherwise, even if a middleware swallowed the
    exception. *)
Theorem observed_chain_runs_the_lifespan format_exc mws a :
  mws <> [] -> Forall observer mws ->
  exists s0, _start_lifespan_mw_chain mws a = Ok (Some s0) /\
    Acc (fun s' s => step format_exc s s') s0 /\
    forall s, rtc (step format_exc) s0 s ->
      (final (at_ s) \/ exists s', step format_exc s s') /\
      match at_ s with
      | StartRaised e' => exists e, startup_chain a = (app_log (log s), app_of s, Raise e) /\
                                    e' = startup_failed format_exc e
      | Serving => startup_chain a = (app_log (log s), app_of s, Ok tt)
      | Stopped r =>
          exists es a1 es' r', startup_chain a = (es, a1, Ok tt) /\ shutdown_chain a1 = (es', app_of s, r') /\
            app_log (log s) = es ++ es' /\
            match r' with
            | Ok _ => r = Ok true
            | Raise e => r = Raise e \/ r = Raise (shutdown_failed format_exc e)
            end
      | _ => True
      end.
Proof.
  intros Hne Ho. destruct (composed_observes mws _inner_app Ho) as (t & Ht & Hob).
  exists (kickoff t a). unfold _start_lifespan_mw_chain. rewrite Ht. destruct mws as [|m mws]; [done|].
  split; [done|]. split; [apply chain_terminates|]. intros s Hr.
  pose proof (reachable_chain_inv format_exc a t s Hob Hr) as Hi.
  split; [by eapply inv_progress|]. destruct Hi as (u & _ & Hp).
  inversion Hp as [| | | |es a1 e| |es a1 Hs| | | | | |es a1 es' a2 r r' Hs Hs' Hr']; subst; try done; eauto.
  exists es, a1, es', r. split_and!; try done. destruct r as [[]|e]; simpl in *.
  - by destruct Hr' as [->| ->].
  - destruct Hr' as [->| ->]; simpl; eauto.
Qed.

(** A middleware that ends without an answer stops the start-up for good: if the
    composed application never sends a completion or a failure (a middleware
    that returns at once for a scope it does not serve, or raises before it calls
    the application), the caller still waits when nothing can move any more. *)
Inductive silent : task -> Prop :=
| SiDone r : silent (TDone r)
| SiRecv k : (forall m, silent (k m)) -> silent (TRecv k)
| SiOther t : silent t -> silent (TSend OtherSent t)
| SiAct p k : (forall r, silent (k r)) -> silent (TAct p k)
| SiNote n t : silent t -> silent (TNote n t).

Theorem silent_chain_blocks_startup format_exc mws t a s :
  composed mws _inner_app = Ok t -> silent t ->
  rtc (step format_exc) (kickoff t a) s -> at_ s = Starting /\ send_done s = false.
Proof.
  intros _ Hs Hr.
  assert (silent (tk s) /\ at_ s = Starting /\ send_done s = false) as (_ & ?); [|done].
  remember (kickoff t a) as s0 eqn:E.
  assert (silent (tk s0) /\ at_ s0 = Starting /\ send_done s0 = false) as Hi by by subst.
  clear E Hs. induction Hr as [|s1 s2 s3 Hst _ IH]; [done|]. apply IH. destruct Hi as (Hs & Ha & Hd).
  destruct Hst as [s' H|s' H].
  - unfold task_step in H. destruct (tk s1) as [r|k|m t'|p k|n t'] eqn:Et; inversion Hs; subst; simplify_eq/=; try done.
    + unfold _recv in H. destruct (recv_q s1); [done|]. by simplify_eq/=.
    + destruct (p (app_of s1)) as [[es a'] r]. by simplify_eq/=.
  - unfold caller_step in H. by rewrite Ha, Hd in H.
Qed.

(** A middleware class whose constructor does not take [app] silently replaces
    everything inside it: neither the middlewares registered after it nor the
    application take part, whatever they are. *)
Theorem middleware_without_app_drops_the_rest l1 m l2 inner app :
  composed l2 inner = Ok app -> with_app m app = Raise TypeError ->
  composed (l1 ++ m :: l2) inner =
  match without_app m with Ok t => composed l1 t | Raise e => Raise e end.
Proof. intros Ha Hm. rewrite composed_app. simpl. rewrite Ha. unfold construct. by rewrite Hm. Qed.

(** The model of the innermost application in [Lifespan] is this one: given the
    messages at once it sends the same replies and ends with the same exception.
    *)
Fixpoint exec (t : task) (ms : list message) : prog (list sent * option exn) :=
  match t with
  | TDone r => ret ([], r)
  | TRecv k => match ms with [] => ret ([], None) | m :: ms' => exec (k m) ms' end
  | TSend m k => bind (exec k ms) (fun r => ret (m :: r.1, r.2))
  | TAct p k => bind (try_except (bind p (fun _ => ret (Ok tt))) (fun _ => true) (fun e => ret (Raise e)))
                     (fun r => exec (k r) ms)
  | TNote _ k => exec k ms
  end.

Theorem inner_app_is_its_model ms s :
  bind (inner_app ms) (fun r => ret (Sent <$> r.1, r.2)) s = exec _inner_app ms s.
Proof.
  destruct ms as [|[| |] ms]; [done| |done..]. unfold inner_app, _inner_app, exec; fold exec.
  unfold bind, try_except, ret. destruct (startup_chain s) as [[es a1] [[]|e]]; simpl; [|by rewrite ?app_nil_r].
  destruct ms as [|[| |] ms]; simpl; rewrite ?app_nil_r; try done.
  unfold bind, try_except, ret. destruct (shutdown_chain a1) as [[es' a2] [[]|e]]; simpl; by rewrite ?app_nil_r.
Qed.

(** ** Witnesses *)

(** A tracing middleware, one that serves only HTTP, and one whose constructor
    takes no application. *)
Definition tracer : mw := {| with_app := fun t => Ok (TNote 1 t); without_app := Raise TypeError |}.
Definition http_only : mw := {| with_app := fun _ => Ok (TDone None); without_app := Raise TypeError |}.
Definition standalone : mw := {| with_app := fun _ => Raise TypeError; without_app := Ok (TDone None) |}.

Definition traced_app : app := demo_app [does true 1] [does false 2] [] (Some (demo_lifespan Acm 3 None)).

Lemma tracer_observes : observer tracer.
Proof. intros t. exists (TNote 1 t). split; [done|]. constructor. apply observes_refl. Qed.

Lemma observed_chain_runs_the_lifespan_witness :
  exists s0, _start_lifespan_mw_chain [tracer; tracer] traced_app = Ok (Some s0) /\
    forall s r, rtc (step (fun _ => [])) s0 s -> at_ s = Stopped r -> r = Ok true.
Proof.
  destruct (observed_chain_runs_the_lifespan (fun _ => []) [tracer; tracer] traced_app) as (s0 & Hs & _ & H).
  - done.
  - repeat constructor; apply tracer_observes.
  - exists s0. split; [exact Hs|]. intros s r Hr Ha. destruct (H s Hr) as [_ H']. rewrite Ha in H'.
    destruct H' as (es & a1 & es' & r' & H1 & H2 & _ & H4). vm_compute in H1. injection H1 as <- <-.
    vm_compute in H2. destruct r' as [u|e]; [exact H4|discriminate H2].
Defined.

Lemma silent_chain_blocks_startup_witness :
  forall s, rtc (step (fun _ => [])) (kickoff (TNote 1 (TDone None)) traced_app) s ->
    at_ s = Starting /\ send_done s = false.
Proof.
  intros s. apply (silent_chain_blocks_startup (fun _ => []) [tracer; http_only; tracer]); [reflexivity|].
  repeat constructor.
Defined.

Lemma middleware_without_app_drops_the_rest_witness :
  composed [tracer; standalone; tracer] _inner_app = Ok (TNote 1 (TDone None)).
Proof.
  exact (middleware_without_app_drops_the_rest [tracer] standalone [tracer] _inner_app _ eq_refl eq_refl).
Defined.

End LifespanChain.
