(* ===== verification/WsChain.v ===== *)
(** Middlewares around WebSocket endpoints ([_ws_support.py]).

    [_invoke_with_middleware] of [_ws_entry]: middleware factories see the
    connection through a bridge ([_bridge_send], [_bridge_receive]) that turns
    ASGI messages into operations of the connection object and hides their
    failures.  [_ws_entry_with_asgi_chain]: raw ASGI middlewares around the whole
    session, with a queue that holds the connect message and a [send] that drops
    everything.  Middlewares and handlers are programs that see every result. *)

From S2P Require Import Prelude WebSocket.

Module WsChain.

Import WebSocket.

(** ** Middleware factories *)

(** The messages a middleware can send; in [BClose] the code is given if the key
    is there, the reason is [message.get("reason", "") or ""]. *)
Inductive bmsg :=
| BClose (code : option Z) (reason : text)
| BAccept (subprotocol : option text) (headers : list (text * text))
| BSend (txt : key text) (bin : key bytes)
| BOther.

(** What a middleware does: it ends, sends, receives, or awaits the application
    it wraps and sees how it ended. *)
Inductive mprog :=
| MEnd (r : handler_end)
| MSend (m : bmsg) (k : mprog)
| MRecv (k : in_msg -> mprog)
| MCall (k : handler_end -> mprog).

(** A factory, called with the keyword arguments it was registered with, or
    without them. *)
Record factory := { make : bool -> res mprog }.

(** The application a middleware wraps: what it makes of the connection, which
    disconnects are kept for the test client, and how it ends ([None]: it waits
    for a message). *)
Definition asgi_app := ws -> ws * list (Z * text) * option handler_end.

(** The innermost application: the handler, or building its arguments refused the
    connection with a [WebSocketException], which is handled on the spot. *)
Inductive inner (json : Type) := Handler (p : prog json) | Refuses (code : option Z) (reason : option text).
Arguments Handler {json}. Arguments Refuses {json}.

Section Environment.

Variable send_raises : list out_msg -> out_msg -> option exn.
Variable rust_raises : list rust_call -> rust_call -> option exn.
Variable json : Type.
Variable dumps : json -> text.
Variable utf8 : text -> bytes.
Variable loads : text -> option json.
Variable loads_bytes : bytes -> option json.
Variable rust_receive_text : list rust_event -> list rust_event * out (option text).
Variable rust_receive_bytes : list rust_event -> list rust_event * out (option bytes).
Variable rust_state : list rust_call -> option WebSocketState.

Notation do_op := (do_op send_raises rust_raises json dumps utf8 loads loads_bytes rust_receive_text
                     rust_receive_bytes).
Notation run_prog := (run_prog send_raises rust_raises json dumps utf8 loads loads_bytes
                        rust_receive_text rust_receive_bytes).
Notation ws_entry_end := (ws_entry_end send_raises rust_raises json dumps utf8 loads loads_bytes
                            rust_receive_text rust_receive_bytes rust_state).
Notation _handle_ws_exc := (_handle_ws_exc rust_raises rust_state).
Notation _asgi_send_close := (_asgi_send_close send_raises).

(** The operation a message stands for. *)
Definition bridge_op (m : bmsg) : option (op json) :=
  match m with
  | BClose code reason => Some (OClose json (default 1000 code) (Some reason))
  | BAccept p h => Some (OAccept json p h)
  | BSend txt bin => match get txt, get bin with
                     | Some t, _ => Some (OSendText json t)
                     | None, Some b => Some (OSendBytes json b)
                     | None, None => None
                     end
  | BOther => None
  end.

Definition captured (m : bmsg) : list (Z * text) :=
  match m with BClose code reason => [(default 1000 code, reason)] | _ => [] end.

(** The flag: whether the call came back; what it raised is dropped. *)
Definition _bridge_send (m : bmsg) (w : ws) : ws * list (Z * text) * bool :=
  match bridge_op m with
  | Some o => let '(w, r) := do_op o w in (w, captured m, negb (blocked json r))
  | None => (w, [], true)
  end.

Definition _bridge_receive (w : ws) : ws * option in_msg :=
  match receive w with
  | (w, Ret m) => (w, Some m)
  | (w, Exc _) => (w, Some (InDisconnect (Some 1000) Absent))
  | (w, Block) => (w, None)
  end.

Fixpoint run_mw (app : asgi_app) (p : mprog) (w : ws) : ws * list (Z * text) * option handler_end :=
  match p with
  | MEnd r => (w, [], Some r)
  | MSend m k =>
      let '(w, c, back) := _bridge_send m w in
      if back then let '(w, c', r) := run_mw app k w in (w, c ++ c', r) else (w, c, None)
  | MRecv k =>
      match _bridge_receive w with
      | (w, Some m) => run_mw app (k m) w
      | (w, None) => (w, [], None)
      end
  | MCall k =>
      match app w with
      | (w, c, Some r) => let '(w, c', r') := run_mw app (k r) w in (w, c ++ c', r')
      | (w, c, None) => (w, c, None)
      end
  end.

Definition _run_handler_inner (i : inner json) : asgi_app := fun w =>
  match i with
  | Handler p => let '(w, r) := run_prog p w in (w, [], r)
  | Refuses code reason =>
      (_handle_ws_exc code reason w, [(default 1000 code, default [] reason)], Some HReturn)
  end.

(** The loop over [reversed(ws_mw_factories)], the list given in the order of
    registration: a factory that does not take its arguments is called without,
    and left out when that fails too. *)
Fixpoint chain (fs : list factory) (app : asgi_app) : res asgi_app :=
  match fs with
  | [] => Ok app
  | f :: fs' =>
      match chain fs' app with
      | Raise e => Raise e
      | Ok current_app =>
          match make f true with
          | Ok p => Ok (run_mw current_app p)
          | Raise TypeError => match make f false with
                               | Ok p => Ok (run_mw current_app p)
                               | Raise _ => Ok current_app
                               end
          | Raise e => Raise e
          end
      end
  end.

(** An exception of a factory is one of the session. *)
Definition _invoke_with_middleware (fs : list factory) (i : inner json) : asgi_app := fun w =>
  match chain fs (_run_handler_inner i) with
  | Ok app => app w
  | Raise _ => (w, [], Some (HRaise 0))
  end.

(** [_asgi_ws_door] with such a session. *)
Definition door_with_chain (handlers : bool) (on_validation on_other : option (prog json))
    (fs : list factory) (i : inner json) (w : ws) : ws :=
  match _invoke_with_middleware fs i w with
  | (w, _, None) => w
  | (w, _, Some r) =>
      match ws_entry_end handlers on_validation on_other r w with
      | (w, false) => w
      | (w, true) => match _asgi_pending_close w with
                     | Some (c, m) => _asgi_send_close c m w
                     | None => w
                     end
      end
  end.

(** *** The protocol *)

Definition preserves (app : asgi_app) : Prop := forall w, asgi_inv w -> asgi_inv (app w).1.1.

Lemma bridge_send_inv m w : asgi_inv w -> asgi_inv (_bridge_send m w).1.1.
Proof.
  intros I. unfold _bridge_send. destruct (bridge_op m) as [o|]; [|done].
  pose proof (do_op_inv send_raises rust_raises json dumps utf8 loads loads_bytes rust_receive_text
                rust_receive_bytes o w I). by destruct (do_op o w).
Qed.

Lemma bridge_receive_inv w : asgi_inv w -> asgi_inv (_bridge_receive w).1.
Proof. intros I. apply receive_inv in I. unfold _bridge_receive. by destruct (receive w) as [w' []]. Qed.

Lemma run_mw_inv app p : preserves app -> preserves (run_mw app p).
Proof.
  intros Ha. induction p as [r|m k IH|k IH|k IH]; intros w I; simpl; [done|..].
  - apply (bridge_send_inv m) in I. destruct (_bridge_send m w) as [[w1 c] []]; [|done].
    specialize (IH w1 I). by destruct (run_mw app k w1) as [[w2 c'] r].
  - apply bridge_receive_inv in I. destruct (_bridge_receive w) as [w1 [m|]]; [by apply IH|done].
  - specialize (Ha w I). destruct (app w) as [[w1 c] [r|]]; [|done].
    specialize (IH r w1 Ha). by destruct (run_mw app (k r) w1) as [[w2 c'] r'].
Qed.

Lemma chain_inv fs app app' : preserves app -> chain fs app = Ok app' -> preserves app'.
Proof.
  intros Ha. revert app'. induction fs as [|f fs IH]; simpl; intros app'; [by intros [= <-]|].
  destruct (chain fs app) as [cur|e]; [|done]. specialize (IH cur eq_refl).
  destruct (make f true) as [p|e].
  - intros [= <-]. by apply run_mw_inv.
  - destruct e; try done. destruct (make f false) as [p|e]; intros [= <-]; [by apply run_mw_inv|done].
Qed.

Lemma inner_inv i : preserves (_run_handler_inner i).
Proof.
  intros w I. destruct i as [p|code reason]; simpl; [|by apply error_close_inv].
  pose proof (run_prog_inv send_raises rust_raises json dumps utf8 loads loads_bytes rust_receive_text
                rust_receive_bytes p w I). by destruct (run_prog p w).
Qed.

Lemma invoke_inv fs i : preserves (_invoke_with_middleware fs i).
Proof.
  intros w I. unfold _invoke_with_middleware. destruct (chain fs _) as [app|e] eqn:E; [|done].
  by eapply chain_inv; [apply (inner_inv i)|..].
Qed.

(** C5: The messages of a connection obey the ASGI protocol whatever WebSocket
    middlewares stand around the handler and whatever they send through the
    bridge, in whichever order and with whichever factories failing: data only
    between an accept and a close, one accept, at most one close, nothing after
    it. *)
Theorem bridged_middlewares_respect_asgi_protocol handlers on_validation on_other fs i q :
  phases PInit (sent (door_with_chain handlers on_validation on_other fs i (asgi_ws q))) <> None.
Proof.
  assert (asgi_inv (asgi_ws q)) as I by (split_and!; try done; by exists PInit).
  unfold door_with_chain. apply (invoke_inv fs i) in I.
  destruct (_invoke_with_middleware fs i (asgi_ws q)) as [[w1 c] [r|]]; simpl in I.
  - apply (entry_end_inv send_raises rust_raises json dumps utf8 loads loads_bytes rust_receive_text
             rust_receive_bytes rust_state handlers on_validation on_other r) in I.
    destruct (ws_entry_end _ _ _ r w1) as [w2 []]; simpl in I.
    + destruct (_asgi_pending_close w2) as [[c0 m]|]; [by apply (flush_phases send_raises json utf8 loads loads_bytes)|].
      destruct I as (_ & _ & _ & p & Hp & _). by rewrite Hp.
    + destruct I as (_ & _ & _ & p & Hp & _). by rewrite Hp.
  - destruct I as (_ & _ & _ & p & Hp & _). by rewrite Hp.
Qed.

(** *** What the bridge does to middlewares *)

(** Middlewares that only pass on are invisible: the session is that of the
    handler alone. *)
Theorem passing_middlewares_are_invisible fs i w :
  Forall (fun f => make f true = Ok (MCall MEnd)) fs ->
  _invoke_with_middleware fs i w = _run_handler_inner i w.
Proof.
  intros Hf. unfold _invoke_with_middleware.
  assert (forall app, exists app', chain fs app = Ok app' /\ forall w, app' w = app w) as H.
  { intros app. induction Hf as [|f fs Hm _ (cur & Hc & He)]; simpl; [eauto|]. rewrite Hc, Hm.
    eexists; split; [done|]. intros w0. simpl. rewrite He.
    destruct (app w0) as [[w1 c] [r|]]; [by rewrite app_nil_r|done]. }
  destruct (H (_run_handler_inner i)) as (app & -> & He). apply He.
Qed.

(** A middleware that turns the failure of what it wraps into a close code. *)
Definition closes_on_error (code : Z) (reason : text) : mprog :=
  MCall (fun r => match r with
                  | HReturn => MEnd HReturn
                  | _ => MSend (BClose (Some code) reason) (MEnd HReturn)
                  end).

(** The code such a middleware sends is the one the client gets, and the only
    end of the connection: when the handler fails on a connection that is not
    closed yet, the close of the middleware is the last message, whatever
    exception handlers the application has, and it is kept for the test client.
    *)
Theorem middleware_close_reaches_the_client handlers on_validation on_other f p code reason w w1 r :
  (forall l m, send_raises l m = None) ->
  make f true = Ok (closes_on_error code reason) ->
  run_prog p w = (w1, Some r) -> r <> HReturn ->
  rust w1 = false -> has_send w1 = true -> _asgi_closed w1 = false -> _app_state w1 <> DISCONNECTED ->
  sent (door_with_chain handlers on_validation on_other [f] (Handler p) w) = sent w1 ++ [OutClose code reason] /\
  (_invoke_with_middleware [f] (Handler p) w).1.2 = [(code, reason)].
Proof.
  intros Hs Hm Hp Hr H1 H2 H3 H4. unfold door_with_chain, _invoke_with_middleware. simpl. rewrite Hm. simpl.
  rewrite Hp. assert (exists w2, close send_raises rust_raises code (Some reason) w1 = w2 /\
    sent w2 = sent w1 ++ [OutClose code reason] /\ _asgi_closed w2 = true) as (w2 & Hc & Hsent & Hcl).
  { eexists; split; [done|]. unfold close, _is_asgi. simpl. rewrite bool_decide_false by done. rewrite H1, H2. simpl.
    case_bool_decide; unfold WebSocket._asgi_send_close, asgi_send; simpl; rewrite H3, Hs; done. }
  destruct r; try done; unfold _bridge_send; simpl; rewrite Hc; simpl;
    (split; [|done]); destruct (_asgi_pending_close w2) as [[c m]|]; try done;
    unfold WebSocket._asgi_send_close; by rewrite Hcl.
Qed.

(** Failures are hidden from the middleware: data sent while the connection is
    not open is dropped without an error, a factory that fails is left out, and
    the code of a disconnect is given once, later receives report 1000. *)
Theorem bridge_drops_early_data txt bin w :
  _app_state w <> CONNECTED -> _bridge_send (BSend txt bin) w = (w, [], true).
Proof.
  intros Hc. unfold _bridge_send, bridge_op. destruct (get txt) as [t|]; [|destruct (get bin) as [b|]; [|done]]; simpl.
  - unfold send_text. by rewrite bool_decide_true.
  - unfold send_bytes. by rewrite bool_decide_true.
Qed.

Theorem failing_factory_is_left_out f fs app e :
  make f true = Raise TypeError -> make f false = Raise e -> chain (f :: fs) app = chain fs app.
Proof. intros H1 H2. simpl. rewrite H1, H2. by destruct (chain fs app). Qed.

Theorem disconnect_code_is_given_once code reason q w w1 :
  rust w = false -> has_receive w = true -> _app_state w <> DISCONNECTED ->
  inbox w = InDisconnect (Some code) reason :: q ->
  _bridge_receive w = (w1, Some (InDisconnect (Some code) reason)) ->
  _bridge_receive w1 = (w1, Some (InDisconnect (Some 1000) Absent)).
Proof.
  intros H1 H2 H3 H4. unfold _bridge_receive, receive. rewrite bool_decide_false by done. rewrite H1, H2, H4.
  intros [= <-]. done.
Qed.

End Environment.

(** ** Raw ASGI middlewares ([_ws_entry_with_asgi_chain]) *)

(** A middleware: it ends (with an exception), sends, receives, or awaits what it
    wraps and sees how that ended. *)
Inductive rprog :=
| REnd (r : option exn)
| RSend (k : rprog)
| RRecv (k : rprog)
| RCall (k : option exn -> rprog).

(** Whether the connect message is still in [recv_q], how often the handler ran,
    and [inner_exc]. *)
Record rstate := { connect : bool; ran : nat; inner_exc : list exn }.

(** An ASGI application: how it ends, or [None] when it waits for ever. *)
Definition rapp := rstate -> rstate * option (option exn).

(** [_inner] around a handler that ends with [h]. *)
Definition _inner (h : option exn) : rapp := fun s =>
  if connect s
  then ({| connect := false; ran := S (ran s); inner_exc := inner_exc s ++ option_list h |}, Some h)
  else (s, None).

Fixpoint run_raw (app : rapp) (p : rprog) (s : rstate) : rstate * option (option exn) :=
  match p with
  | REnd r => (s, Some r)
  | RSend k => run_raw app k s
  | RRecv k => if connect s
               then run_raw app k {| connect := false; ran := ran s; inner_exc := inner_exc s |}
               else (s, None)
  | RCall k => match app s with
               | (s, Some r) => run_raw app (k r) s
               | (s, None) => (s, None)
               end
  end.

(** The loop over [reversed(_raw_asgi_middlewares)], from the outermost; a class
    whose constructor does not take [app] ([false]) wraps nothing, and calling its
    missing application raises. *)
Fixpoint composed (mws : list (bool * rprog)) (app : rapp) : rapp :=
  match mws with
  | [] => app
  | (takes_app, p) :: mws' =>
      run_raw (if takes_app then composed mws' app else fun s => (s, Some (Some TypeError))) p
  end.

Inductive session_end := Returned | Surfaced (e : exn) | Hangs.

Definition rstate0 : rstate := {| connect := true; ran := 0; inner_exc := [] |}.

Definition _ws_entry_with_asgi_chain (mws : list (bool * rprog)) (h : option exn) : rstate * session_end :=
  match composed mws (_inner h) rstate0 with
  | (s, Some None) => (s, Returned)
  | (s, Some (Some e)) => (s, Surfaced (match inner_exc s with e0 :: _ => e0 | [] => e end))
  | (s, None) => (s, Hangs)
  end.

(** The handler has run or the message is still to come, and its exception is
    recorded. *)
Definition raw_inv (h : option exn) (s : rstate) : Prop :=
  (connect s = true -> ran s = 0%nat) /\ (ran s <= 1)%nat /\
  inner_exc s = if bool_decide (ran s = 0%nat) then [] else option_list h.

Definition raw_preserves (h : option exn) (app : rapp) : Prop := forall s, raw_inv h s -> raw_inv h (app s).1.

Lemma run_raw_inv h app p : raw_preserves h app -> raw_preserves h (run_raw app p).
Proof.
  intros Ha. induction p as [r|k IH|k IH|k IH]; intros s I; simpl; auto.
  - destruct (connect s) eqn:E; [|done]. apply IH. destruct I as (H1 & H2 & H3). by split_and!.
  - specialize (Ha s I). destruct (app s) as [s1 [r|]]; [by apply IH|done].
Qed.

Lemma composed_inv h mws : raw_preserves h (composed mws (_inner h)).
Proof.
  induction mws as [|[takes p] mws IH]; simpl.
  - intros s (H1 & H2 & H3). unfold _inner. destruct (connect s) eqn:E.
    + rewrite H1 in H3 |- * by done. simpl in *. rewrite H3. split_and!; simpl; [done|lia|done].
    + unfold raw_inv; simpl. by rewrite E.
  - apply run_raw_inv. destruct takes; [done|by intros s I].
Qed.

(** A session through raw ASGI middlewares calls the handler at most once,
    however often they call what they wrap, and if the session raises and the
    handler had raised, it is the handler's own exception that surfaces, whatever
    the middlewares made of it. *)
Theorem raw_chain_surfaces_the_handler mws h s e :
  _ws_entry_with_asgi_chain mws h = (s, Surfaced e) ->
  (ran s <= 1)%nat /\ (ran s = 1%nat -> forall e0, h = Some e0 -> e = e0).
Proof.
  unfold _ws_entry_with_asgi_chain. intros H.
  assert (raw_inv h (composed mws (_inner h) rstate0).1) as I by (apply composed_inv; split_and!; simpl; auto; lia).
  destruct (composed mws (_inner h) rstate0) as [s1 [[e1|]|]]; simplify_eq/=.
  destruct I as (_ & H2 & H3). split; [done|]. intros Hr e0 ->. rewrite H3, Hr. done.
Qed.

(** A middleware that reads the connect message itself leaves the handler
    waiting for one: the session hangs and the handler never runs. *)
Theorem consumed_connect_hangs mws k h :
  Forall (fun m => m = (true, RCall REnd)) mws ->
  _ws_entry_with_asgi_chain ((true, RRecv (RCall k)) :: mws) h =
  ({| connect := false; ran := 0; inner_exc := [] |}, Hangs).
Proof.
  intros Hm. unfold _ws_entry_with_asgi_chain. simpl.
  assert (forall s, connect s = false -> composed mws (_inner h) s = (s, None)) as ->; [|done..].
  intros s Hs. induction Hm as [|m mws -> _ IH]; simpl; [unfold _inner; by rewrite Hs|by rewrite IH].
Qed.

(** ** Witnesses *)

Definition demo_json : Type := unit.
Definition no_send (_ : list out_msg) (_ : out_msg) : option exn := None.
Definition no_rust (_ : list rust_call) (_ : rust_call) : option exn := None.
Definition no_text (l : list rust_event) : list rust_event * out (option text) := (l, Block).

Definition demo_factory : factory := {| make := fun _ => Ok (closes_on_error 4000 (lit "failed")) |}.

(** A handler that accepts, greets and fails. *)
Definition demo_handler : prog demo_json :=
  Do demo_json (OAccept demo_json None []) (fun _ =>
    Do demo_json (OSendText demo_json (lit "hello")) (fun _ => Finish demo_json (HRaise 7))).

Lemma middleware_close_reaches_the_client_witness :
  sent (door_with_chain no_send no_rust demo_json (fun _ => []) id (fun _ => None) (fun _ => None) no_text no_text
          (fun _ => None) false None None [demo_factory] (Handler demo_handler) (asgi_ws [InConnect])) =
  [OutAccept None []; OutText (lit "hello"); OutClose 4000 (lit "failed")].
Proof.
  destruct (middleware_close_reaches_the_client no_send no_rust demo_json (fun _ => []) id (fun _ => None)
              (fun _ => None) no_text no_text (fun _ => None) false None None demo_factory demo_handler 4000
              (lit "failed") (asgi_ws [InConnect])
              (run_prog no_send no_rust demo_json (fun _ => []) id (fun _ => None) (fun _ => None) no_text no_text
                 demo_handler (asgi_ws [InConnect])).1 (HRaise 7)) as [H _];
    try reflexivity; try done.
Defined.

Lemma raw_chain_surfaces_the_handler_witness :
  (_ws_entry_with_asgi_chain [(true, RCall (fun _ => RCall (fun _ => REnd (Some ValueError))))] (Some TypeError)).2
  = Hangs /\
  (forall s e, _ws_entry_with_asgi_chain [(true, RCall (fun _ => REnd (Some ValueError)))] (Some TypeError)
               = (s, Surfaced e) -> e = TypeError).
Proof.
  split; [reflexivity|]. intros s e H. destruct (raw_chain_surfaces_the_handler _ _ _ _ H) as [_ H'].
  apply H'; [|reflexivity]. vm_compute in H. injection H as <- _. reflexivity.
Defined.

Lemma consumed_connect_hangs_witness :
  (_ws_entry_with_asgi_chain [(true, RRecv (RCall REnd)); (true, RCall REnd)] None).2 = Hangs.
Proof. rewrite (consumed_connect_hangs [(true, RCall REnd)]); [reflexivity|]. repeat constructor. Defined.

End WsChain.
