(* ===== verification/ServerArgs.v ===== *)
(** What the door is told besides the routes ([applications.py]): the
    documentation routes of [_install_in_process_dynamic_routes] beside those the
    server adds itself (server.rs), the content types of static files, the
    disconnect watch and the effective contexts stamped on included routes. *)

From S2P Require Import Prelude Dicts Urls Register.

Module ServerArgs.

Import Register.

(** ** Documentation routes *)

Definition dynamic (name path : text) : listed :=
  {| l_dynamic := true; l_ep_name := Some name; l_path := Some path; l_tag := 0 |}.

(** An earlier route of the same name and path is replaced, at the front. *)
Definition install_route (name path : text) (routes : list listed) : list listed :=
  dynamic name path :: filter (fun r => _is_prior_dynamic r name path = false) routes.

(** Which of the HTML helpers [fastapi.openapi.docs] has. *)
Record helpers := { has_swagger : bool; has_redoc : bool; has_oauth2 : bool }.

Definition install_if (b : bool) (name : text) (path : option text) (routes : list listed) : list listed :=
  match path with
  | Some p => if b then install_route name p routes else routes
  | None => routes
  end.

Definition install_docs (h : helpers) (u : urls) (routes : list listed) : list listed :=
  match u_openapi u with
  | None | Some [] => routes
  | Some url =>
      let routes := install_route (lit "openapi") url routes in
      let routes := install_if (has_swagger h) (lit "swagger_ui") (u_docs u) routes in
      let routes := install_if (has_redoc h) (lit "redoc") (u_redoc u) routes in
      install_if (has_oauth2 h && bool_decide (is_Some (u_docs u))) (lit "swagger_ui_redirect") (u_oauth2 u) routes
  end.

(** The whole method: [startup] is what starting the application raised, the
    state is the flag and the routes. *)
Definition _install_in_process_dynamic_routes (h : helpers) (u : urls) (startup : option exn)
    (s : bool * list listed) : bool * list listed * option exn :=
  if s.1 then (s, None)
  else match startup with
       | Some e => (s, Some e)
       | None => ((true, install_docs h u s.2), None)
       end.

(** The paths [server.rs] serves the documentation at. *)
Definition server_docs (u : urls) : list text :=
  match u_openapi u with
  | None | Some [] => []
  | Some _ =>
      match u_docs u with Some p => p :: option_list (u_oauth2 u) | None => [] end ++ option_list (u_redoc u)
  end.

(** ** Content types of static files *)

(** [ext.lstrip(".").lower()] *)
Definition ext_key (ext : text) : text := lower (lstrip_by (fun c => bool_decide (c = "."%char)) ext).

Definition content_type (mtype : text) : text :=
  if starts_with (lit "text/") mtype then mtype ++ lit "; charset=utf-8" else mtype.

Fixpoint _static_content_types (types_map : list (text * text)) (d : list (text * text)) : list (text * text) :=
  match types_map with
  | [] => d
  | (ext, mtype) :: l =>
      _static_content_types l
        (match ext_key ext with [] => d | _ => Dicts.set_item d (ext_key ext, content_type mtype) end)
  end.

(** ** The disconnect watch *)

(** A route of [app.router.routes]: its endpoint, if it has one (the marker of an
    included router has none): whether that is a generator function, and its
    source, if it can be read. *)
Record watched := { w_generator : bool; w_source : option text }.

Definition _WATCH_MARKERS : list text :=
  [lit "is_disconnected"; lit "StreamingResponse"; lit "FileResponse"; lit "EventSourceResponse"].

Definition arms_watch (r : option watched) : bool :=
  match r with
  | None => false
  | Some e => if w_generator e then false
              else match w_source e with
                   | None => false
                   | Some src => existsb (fun m => Urls.contains m src) _WATCH_MARKERS
                   end
  end.

(** With the cached answer. *)
Definition _oneshot_needs_disconnect_watch (routes : list (option watched)) (cached : option bool)
    : bool * option bool :=
  match cached with
  | Some b => (b, cached)
  | None => let needs_watch := existsb arms_watch routes in (needs_watch, Some needs_watch)
  end.

(** ** Effective contexts *)

(** What is stamped on the route objects: the token of a stamping, and the
    contexts.  A marker gives pairs of an original route and a context, and may
    raise after some of them; some objects take no attributes. *)
Record stamp := { token : nat; effective_ctxs : list nat }.

Definition stamp_one (tok : nat) (settable : nat -> bool) (m : gmap nat stamp) (p : nat * nat) : gmap nat stamp :=
  if settable p.1 then
    let old := match m !! p.1 with
               | Some s => if bool_decide (token s = tok) then effective_ctxs s else []
               | None => []
               end in
    <[ p.1 := {| token := tok; effective_ctxs := old ++ [p.2] |} ]> m
  else m.

Definition _stamp_effective_route_contexts (tok : nat) (settable : nat -> bool) (markers : list (list (nat * nat)))
    (m : gmap nat stamp) : gmap nat stamp :=
  fold_left (stamp_one tok settable) (concat markers) m.

(** ** Lemmas *)

Lemma not_prior name name' path path' : name <> name' -> _is_prior_dynamic (dynamic name path) name' path' = false.
Proof. intros H. unfold _is_prior_dynamic. cbn. rewrite bool_decide_eq_false_2; [done|congruence]. Qed.

(** The routes the installer puts in front. *)
Definition when (b : bool) (name : text) (path : option text) : list listed :=
  match path with Some p => if b then [dynamic name p] else [] | None => [] end.

Definition new_routes (h : helpers) (u : urls) : list listed :=
  match u_openapi u with
  | None | Some [] => []
  | Some url =>
      when (has_oauth2 h && bool_decide (is_Some (u_docs u))) (lit "swagger_ui_redirect") (u_oauth2 u) ++
      when (has_redoc h) (lit "redoc") (u_redoc u) ++
      when (has_swagger h) (lit "swagger_ui") (u_docs u) ++ [dynamic (lit "openapi") url]
  end.

(** An old route is kept unless the installer put in one of its name and path. *)
Definition kept (h : helpers) (u : urls) (r : listed) : bool :=
  negb (existsb (fun n => match l_ep_name n, l_path n with
                          | Some name, Some path => _is_prior_dynamic r name path
                          | _, _ => false
                          end) (new_routes h u)).

Lemma install_if_shape b name path new (keep : listed -> bool) routes :
  Forall (fun r => l_ep_name r <> Some name) new ->
  install_if b name path (new ++ filter (fun r => keep r = true) routes) =
  (when b name path ++ new) ++
  filter (fun r => keep r && negb (existsb (fun n => match l_ep_name n, l_path n with
                          | Some name, Some path => _is_prior_dynamic r name path
                          | _, _ => false
                          end) (when b name path)) = true) routes.
Proof.
  intros Hn. unfold install_if, when. destruct path as [p|]; [destruct b|]; cbn [existsb negb Datatypes.app];
    try (f_equal; apply list_filter_iff; intros r; by rewrite andb_true_r).
  unfold install_route. cbn [Datatypes.app]. f_equal. rewrite filter_app. f_equal.
  - apply filter_all. intros r Hr. rewrite Forall_forall in Hn. specialize (Hn r Hr). unfold _is_prior_dynamic.
    rewrite (bool_decide_eq_false_2 _ Hn), andb_false_r. done.
  - rewrite list_filter_filter. apply list_filter_iff. intros r. cbn. rewrite orb_false_r.
    rewrite andb_true_iff, negb_true_iff. tauto.
Qed.

Definition matches (r n : listed) : bool :=
  match l_ep_name n, l_path n with
  | Some name, Some path => _is_prior_dynamic r name path
  | _, _ => false
  end.

Lemma when_names b name path : Forall (fun r => l_ep_name r = Some name) (when b name path).
Proof. unfold when. destruct path as [p|]; [destruct b|]; by repeat constructor. Qed.

Lemma when_other b name path name' : name <> name' -> Forall (fun r => l_ep_name r <> Some name') (when b name path).
Proof. intros H. eapply Forall_impl; [apply when_names|]. cbn. congruence. Qed.

Lemma filter_none {A} (P : A -> Prop) `{forall x, Decision (P x)} (l : list A) :
  (forall x, x ∈ l -> ~ P x) -> filter P l = [].
Proof.
  induction l as [|x l IH]; intros Hl; [done|]. rewrite filter_cons_False by (apply Hl; left).
  apply IH. intros y Hy. apply Hl. by right.
Qed.

Lemma new_matches_itself h u n : n ∈ new_routes h u -> matches n n = true.
Proof.
  assert (forall name path, matches (dynamic name path) (dynamic name path) = true) as Hd.
  { intros name path. unfold matches, _is_prior_dynamic. cbn. by rewrite !bool_decide_eq_true_2. }
  unfold new_routes, when. intros Hn. destruct (u_openapi u) as [[|c url]|]; try (by apply not_elem_of_nil in Hn).
  rewrite !elem_of_app in Hn.
  destruct Hn as [Hn|[Hn|[Hn|Hn]]]; repeat case_match; try (by apply not_elem_of_nil in Hn);
    apply list_elem_of_singleton in Hn as ->; apply Hd.
Qed.

(** The installer puts its routes in front and keeps the others in their order. *)
Lemma install_shape h u routes : u_openapi u <> None -> u_openapi u <> Some [] ->
  install_docs h u routes = new_routes h u ++ filter (fun r => kept h u r = true) routes.
Proof.
  intros H1 H2. unfold install_docs, kept, new_routes. destruct (u_openapi u) as [[|c url]|]; try done.
  set (b := has_oauth2 h && _).
  replace (install_route (lit "openapi") (c :: url) routes) with
    ([dynamic (lit "openapi") (c :: url)] ++
     filter (fun r => negb (_is_prior_dynamic r (lit "openapi") (c :: url)) = true) routes).
  2:{ unfold install_route. cbn [Datatypes.app]. f_equal. apply list_filter_iff. intros r. by rewrite negb_true_iff. }
  rewrite install_if_shape by (repeat constructor; done).
  rewrite install_if_shape by (apply Forall_app; split; [by apply when_other|by repeat constructor]).
  rewrite install_if_shape
    by (repeat (apply Forall_app; split); [by apply when_other|by apply when_other|by repeat constructor]).
  f_equal. apply list_filter_iff. intros r. rewrite !existsb_app. cbn [existsb l_ep_name l_path dynamic].
  rewrite !negb_orb, !andb_true_iff, !negb_true_iff. tauto.
Qed.

Lemma user_routes_kept h u r : l_dynamic r = false -> kept h u r = true.
Proof.
  intros Hd. unfold kept. apply negb_true_iff, not_true_is_false. intros (n & _ & Hn)%existsb_exists.
  destruct (l_ep_name n), (l_path n); try done. unfold _is_prior_dynamic in Hn. by rewrite Hd in Hn.
Qed.

(** ** Theorems *)

(** The two servers document an application at the same paths: with the HTML
    helpers of FastAPI at hand, the routes the in-process installer adds are at
    the path of the schema and exactly the paths the Rust server serves
    documentation at, each once; both add nothing when there is no schema path.
    The routes of the user stay, in their order. *)
Theorem docs_surfaces_agree h u routes :
  has_swagger h = true -> has_redoc h = true -> has_oauth2 h = true ->
  exists new, omap l_path new ≡ₚ
    match u_openapi u with None | Some [] => [] | Some url => url :: server_docs u end /\
    filter (fun r => l_dynamic r = false) (install_docs h u routes) = filter (fun r => l_dynamic r = false) routes /\
    (forall r, r ∈ install_docs h u routes -> r ∈ new \/ r ∈ routes) /\ (forall r, r ∈ new -> r ∈ install_docs h u routes).
Proof.
  intros H1 H2 H3. exists (new_routes h u). destruct (u_openapi u) as [[|c url]|] eqn:E.
  1,3: unfold new_routes, install_docs; rewrite E; split_and!; [done..|by right|by intros r ?%not_elem_of_nil].
  rewrite install_shape by (by rewrite E). split_and!.
  - unfold new_routes, server_docs. rewrite E, H1, H2, H3.
    destruct (u_docs u) as [d|], (u_redoc u) as [rd|], (u_oauth2 u) as [o|]; cbn; solve_Permutation.
  - rewrite filter_app. replace (filter _ (new_routes h u)) with (@nil listed).
    + cbn. rewrite list_filter_filter. apply list_filter_iff. intros r. split; [by intros []|].
      intros Hd. split; [done|by apply user_routes_kept].
    + unfold new_routes, when. rewrite E. by destruct (has_oauth2 h && _), (has_redoc h), (has_swagger h), (u_docs u), (u_redoc u), (u_oauth2 u).
  - intros r [Hr|Hr]%elem_of_app; [by left|]. apply list_elem_of_filter in Hr as [_ Hr]. by right.
  - intros r Hr. apply elem_of_app. by left.
Qed.

(** Building the server's arguments takes the installer's routes back, so that
    no documentation path is registered twice: after it the routes are those of
    a build that never saw the installer. *)
Theorem server_build_takes_docs_back h u routes :
  u_docs u <> Some [] -> u_redoc u <> Some [] -> u_oauth2 u <> Some [] ->
  register_openapi u (install_docs h u routes) = register_openapi u routes.
Proof.
  intros H1 H2 H3. destruct (u_openapi u) as [[|c url]|] eqn:E.
  1,3: by unfold install_docs; rewrite E.
  rewrite install_shape by (by rewrite E). unfold register_openapi. rewrite E. f_equal. rewrite filter_app.
  assert (forall n, n ∈ new_routes h u -> forall r, matches r n = true -> prior u r = true) as Hp.
  { intros n Hn r Hr. unfold new_routes in Hn. rewrite E in Hn. unfold prior. apply existsb_exists.
    assert (exists name path, n = dynamic name path /\ path <> [] /\ (name, Some path) ∈ dynamic_routes u)
      as (name & path & -> & Hne & Hin).
    { unfold dynamic_routes. rewrite E.
      rewrite !elem_of_app in Hn. unfold when in Hn.
      destruct Hn as [Hn|[Hn|[Hn|Hn]]]; repeat case_match; try (by apply not_elem_of_nil in Hn);
        apply list_elem_of_singleton in Hn as ->; eexists _, _; (split_and!; [done|congruence|set_solver]). }
    eexists; split; [by apply list_elem_of_In|]. unfold matches in Hr. cbn in Hr |- *. by destruct path. }
  replace (filter (fun r => prior u r = false) (new_routes h u)) with (@nil listed).
  - cbn [Datatypes.app]. rewrite list_filter_filter. apply list_filter_iff. intros r. split; [by intros []|].
    intros Hr. split; [done|]. unfold kept. apply negb_true_iff, not_true_is_false.
    intros (n & Hn%list_elem_of_In & Hm)%existsb_exists. by rewrite (Hp n Hn r Hm) in Hr.
  - symmetry. apply filter_none. intros n Hn Hpn. rewrite (Hp n Hn n) in Hpn; [done|]. by eapply new_matches_itself.
Qed.

(** The content type of an extension, matched without its dot and case, is that
    of its last entry in the table of [mimetypes], with a charset exactly for
    text; no extension is given twice. *)
Definition entries (types_map : list (text * text)) : list (text * text) :=
  omap (fun p => match ext_key p.1 with [] => None | k => Some (k, content_type p.2) end) types_map.

Lemma static_content_types_update l d : _static_content_types l d = Dicts.update d (entries l).
Proof.
  unfold Dicts.update. revert d. induction l as [|[ext mtype] l IH]; intros d; [done|]. cbn [_static_content_types].
  rewrite IH. unfold entries. cbn [omap list_omap fst snd]. by destruct (ext_key ext).
Qed.

Theorem content_type_of_extension l k :
  Dicts.get (_static_content_types l []) k = Dicts.get (reverse (entries l)) k /\
  NoDup (_static_content_types l []).*1.
Proof.
  rewrite static_content_types_update. split; [|apply Dicts.update_keys; constructor].
  rewrite Dicts.get_update. by destruct (Dicts.get (reverse (entries l)) k).
Qed.

(** The watch is armed exactly when the source of a route's own endpoint names a
    marker; what is registered through [include_router] has no part in it, so an
    application whose streaming endpoints are all in included routers is not
    watched. *)
Theorem included_streams_are_not_watched routes :
  (_oneshot_needs_disconnect_watch routes None).1 = true <->
  exists e src m, Some e ∈ routes /\ w_generator e = false /\ w_source e = Some src /\
                  m ∈ _WATCH_MARKERS /\ Urls.contains m src = true.
Proof.
  cbn. rewrite existsb_exists. split.
  - intros (r & Hr & Ha). destruct r as [e|]; [|done]. unfold arms_watch in Ha.
    destruct (w_generator e) eqn:Eg; [done|]. destruct (w_source e) as [src|] eqn:Es; [|done].
    apply existsb_exists in Ha as (m & Hm & Hc). exists e, src, m. rewrite !list_elem_of_In. by split_and!.
  - intros (e & src & m & He & Hg & Hs & Hm & Hc). exists (Some e). split; [by apply list_elem_of_In|].
    unfold arms_watch. rewrite Hg, Hs. apply existsb_exists. exists m. by rewrite <-list_elem_of_In.
Qed.

(** Stamping leaves on every route object reached exactly the contexts of this
    stamping, in the order of the inclusions, whatever earlier stampings left;
    others are not touched. *)
Theorem stamps_are_of_this_registration tok settable markers m r :
  (forall r s, m !! r = Some s -> token s <> tok) ->
  settable r = true ->
  let mine := (filter (fun p : nat * nat => p.1 = r) (concat markers)).*2 in
  _stamp_effective_route_contexts tok settable markers m !! r =
  match mine with [] => m !! r | _ => Some {| token := tok; effective_ctxs := mine |} end.
Proof.
  intros Hf Hs. unfold _stamp_effective_route_contexts. cbv zeta. generalize (concat markers). intros l.
  induction l as [|p l IH] using rev_ind; [done|]. rewrite fold_left_app, filter_app, fmap_app. cbn [fold_left].
  unfold stamp_one at 1. destruct (decide (p.1 = r)) as [<-|Hne].
  - rewrite Hs, lookup_insert_eq, IH, (filter_cons_True _ p) by done. cbn [fmap list_fmap filter list_filter].
    destruct ((filter (fun q : nat * nat => q.1 = p.1) l).*2) as [|x xs] eqn:E; cbn [Datatypes.app].
    + destruct (m !! p.1) as [s|] eqn:Em; [|done]. by rewrite (bool_decide_eq_false_2 _ (Hf _ _ Em)).
    + cbn [token effective_ctxs]. by rewrite bool_decide_eq_true_2.
  - rewrite (filter_cons_False _ p) by done. cbn [fmap list_fmap filter list_filter]. rewrite app_nil_r.
    destruct (settable p.1); [by rewrite lookup_insert_ne|done].
Qed.

End ServerArgs.
