(* ===== verification/JsonPaths.v ===== *)
(** The two ways a returned dict becomes JSON: [orjson.dumps] with the callback
    [_json_default] (responses.py), and the writer [write_any_json]
    (responses.rs) that serves when that call fails.  The docstring of the
    callback says both emit the same.

    JSON is a tree here: how numbers are spelled is left out.  [orjson] is a
    third-party library: a parameter, with its documented behaviour as a class.
    *)

From S2P Require Import Prelude.

Module JsonPaths.

(** ** Values *)

(** Python values as the two writers tell them apart.  Floats are opaque, with
    whether they are finite; of bytes the decoding with replacement is given, of
    a [Decimal] what the Rust writer makes of it, of a [timedelta] its total
    seconds (whole or not), of a model what [model_dump] returns ([None]: it
    raises) and its [__dict__], of an [Enum] member (not one that is also a
    string or number) its value and its [__dict__].  Objects of other classes
    are told apart by what the writers ask for: a subclass of [tuple] (a
    namedtuple), one that is not an [int] or [float] but converts to a number
    ([__index__] or [__float__]: a [Fraction], a float subclass, a NumPy
    scalar), a dataclass with or without a [__dict__], any other with or
    without; where there is no [__dict__] ([None]) its [str] is given.  The
    Rust writer knows [Decimal], dates and [UUID] by the name of the class:
    classes of other origin that have such a name are left out. *)
Inductive json :=
| JNull | JBool (b : bool) | JInt (z : Z) | JFloat (f : nat) | JStr (t : text)
| JArr (l : list json) | JObj (l : list (text * json)).

Inductive pv :=
| VNone | VBool (b : bool) | VInt (z : Z) | VFloat (f : nat) (finite : bool) | VStr (t : text)
| VDict (l : list (text * pv))
| VKeyed (l : list (text * pv))                (* a dict with a key that is no string; the keys by [str] *)
| VList (l : list pv) | VTuple (l : list pv) | VSet (l : list pv)
| VBytes (decoded : text)
| VDecimal (number : json)
| VTimedelta (secs : Z + nat)
| VModel (dump : option pv) (vars : list (text * pv))
| VEnum (value : pv) (vars : list (text * pv))
| VStamp (iso : text)                          (* datetime, date, time *)
| VUuid (t : text)
| VData (vars : list (text * pv))              (* a dataclass with a [__dict__] *)
| VSlotData (fields : list (text * pv)) (str : text)    (* [dataclass(slots=True)] *)
| VTupleSub (l : list pv) (vars : option (list (text * pv))) (str : text)
| VNumeric (number : json) (vars : option (list (text * pv))) (str : text)
| VObject (vars : list (text * pv))
| VOther (str : text).

(** [str(obj)], for what never reaches that line of the callback. *)
Section Callback.

Variable str_of : pv -> text.

Definition _json_default (v : pv) : res pv :=
  match v with
  | VDecimal _ => Raise TypeError
  | VBytes t => Ok (VStr t)
  | VSet l => Ok (VList l)
  | VTimedelta (inl z) => Ok (VInt z)
  | VTimedelta (inr f) => Ok (VFloat f true)
  | VModel (Some d) _ => Ok d
  | VModel None vars => Ok (VDict vars)
  | VEnum value _ => Ok value
  | VData vars | VObject vars => Ok (VDict vars)
  | VTupleSub _ (Some vars) _ | VNumeric _ (Some vars) _ => Ok (VDict vars)
  | VTupleSub _ None t | VNumeric _ None t | VSlotData _ t | VOther t => Ok (VStr t)
  | _ => Ok (VStr (str_of v))
  end.

End Callback.

(** [write_any_json] *)
Fixpoint write_any_json (v : pv) : json :=
  let write_dict := map (fun p => (p.1, write_any_json p.2)) in
  match v with
  | VNone => JNull
  | VBool b => JBool b
  | VDecimal n => n
  | VInt z => JInt z
  | VFloat f finite => if finite then JFloat f else JNull
  | VStr t => JStr t
  | VNumeric n _ _ => n
  | VDict l | VKeyed l => JObj (write_dict l)
  | VList l | VTuple l | VTupleSub l _ _ | VSet l => JArr (map write_any_json l)
  | VBytes t => JStr t
  | VModel (Some d) _ => write_any_json d
  | VModel None vars => JObj (write_dict vars)
  | VStamp iso => JStr iso
  | VTimedelta (inl z) => JInt z
  | VTimedelta (inr f) => JFloat f
  | VUuid t => JStr t
  | VEnum _ vars | VData vars | VObject vars => JObj (write_dict vars)
  | VSlotData _ t | VOther t => JStr t
  end.

(** [dict_to_json_bytes]: the fast call, then the writer. *)
Definition dict_to_json (dumps : pv -> option json) (v : pv) : json :=
  match dumps v with Some j => j | None => write_any_json v end.

(** ** [orjson] *)

Definition in_64_bits (z : Z) : bool := (- 2 ^ 63 <=? z) && (z <? 2 ^ 64).

(** All or nothing. *)
Section AllOf.

Context {A B : Type} (f : A -> option B).

Fixpoint all_of (l : list A) : option (list B) :=
  match l with
  | [] => Some []
  | x :: l' => match f x, all_of l' with Some y, Some ys => Some (y :: ys) | _, _ => None end
  end.

End AllOf.

Definition second {A B} (f : A -> option B) (p : text * A) : option (text * B) :=
  match f p.2 with Some y => Some (p.1, y) | None => None end.

(** An attribute whose name does not begin with an underscore. *)
Definition public (p : text * pv) : bool :=
  match p.1 with "_"%char :: _ => false | _ => true end.

(** What its documentation says of [dumps(obj, default=_json_default)]: native
    types, members of enumerations as their values, NaN and infinities as null,
    integers of at most 64 bits, string keys only, subclasses of [tuple] not as
    arrays; every other type through the callback; an exception of the
    callback, or an element that fails, fails the call.  (Attributes of
    dataclasses that begin with an underscore are left unspecified.) *)
Class Orjson (str_of : pv -> text) (dumps : pv -> option json) : Prop := {
  dumps_none : dumps VNone = Some JNull;
  dumps_bool b : dumps (VBool b) = Some (JBool b);
  dumps_int z : dumps (VInt z) = if in_64_bits z then Some (JInt z) else None;
  dumps_float f finite : dumps (VFloat f finite) = Some (if finite then JFloat f else JNull);
  dumps_str t : dumps (VStr t) = Some (JStr t);
  dumps_dict l : dumps (VDict l) = JObj <$> all_of (second dumps) l;
  dumps_list l : dumps (VList l) = JArr <$> all_of dumps l;
  dumps_tuple l : dumps (VTuple l) = JArr <$> all_of dumps l;
  dumps_stamp iso : dumps (VStamp iso) = Some (JStr iso);
  dumps_uuid t : dumps (VUuid t) = Some (JStr t);
  dumps_data vars : forallb public vars = true ->
    dumps (VData vars) = JObj <$> all_of (second dumps) vars;
  dumps_slots fields t : forallb public fields = true ->
    dumps (VSlotData fields t) = JObj <$> all_of (second dumps) fields;
  dumps_keyed l : dumps (VKeyed l) = None;
  dumps_enum v vars : dumps (VEnum v vars) = dumps v;
  dumps_default v :
    match v with
    | VSet _ | VBytes _ | VDecimal _ | VTimedelta _ | VModel _ _ | VTupleSub _ _ _ | VNumeric _ _ _
    | VObject _ | VOther _ => True
    | _ => False
    end ->
    dumps v = match _json_default str_of v with Ok w => dumps w | Raise _ => None end }.

(** ** Values the two writers treat alike *)



(** ** Lemmas *)




Section Agreement.

Context {str_of : pv -> text} {dumps : pv -> option json} {HO : Orjson str_of dumps}.



(** ** Theorems *)


(** The exception: a member of an enumeration is written as its value by the fast
    call, but as a dict of its internal attributes by the writer, so a [Decimal]
    anywhere else in the same dict changes how it is rendered. *)
Theorem enum_rendering_depends_on_the_rest k v vars j k' n :
  dumps v = Some j ->
  dict_to_json dumps (VDict [(k, VEnum v vars)]) = JObj [(k, j)] /\
  dict_to_json dumps (VDict [(k, VEnum v vars); (k', VDecimal n)]) =
    JObj [(k, JObj (map (fun p => (p.1, write_any_json p.2)) vars)); (k', n)].
Proof.
  intros Hj. unfold dict_to_json. rewrite !dumps_dict. unfold second. cbn. rewrite dumps_enum, Hj.
  rewrite (dumps_default (VDecimal n)) by done. done.
Qed.

(** The other exceptions: on a namedtuple, on a value such as a [Fraction] and on
    a slotted dataclass the two paths differ, so that the same holds of them:
    with the fast call they are a string, a string and an object, with the
    writer an array, a number and a string. *)
Theorem other_values_differ l n t fields ys :
  forallb public fields = true -> all_of (second dumps) fields = Some ys ->
  (dumps (VTupleSub l None t) = Some (JStr t) /\
   write_any_json (VTupleSub l None t) = JArr (map write_any_json l)) /\
  (dumps (VNumeric n None t) = Some (JStr t) /\ write_any_json (VNumeric n None t) = n) /\
  (dumps (VSlotData fields t) = Some (JObj ys) /\ write_any_json (VSlotData fields t) = JStr t).
Proof.
  intros Hp Hf. rewrite !dumps_default by done. cbn. rewrite dumps_str, dumps_slots by done.
  by rewrite Hf.
Qed.

End Agreement.

(** ** Witnesses *)

(** An [orjson] that does what is documented. *)
Fixpoint orjson0 (v : pv) : option json :=
  let pairs := fun l => JObj <$> all_of (fun p => match orjson0 p.2 with Some y => Some (p.1, y) | None => None end) l in
  match v with
  | VNone => Some JNull
  | VBool b => Some (JBool b)
  | VInt z => if in_64_bits z then Some (JInt z) else None
  | VFloat f finite => Some (if finite then JFloat f else JNull)
  | VStr t | VBytes t | VStamp t | VUuid t | VOther t => Some (JStr t)
  | VDict l | VModel None l | VData l | VSlotData l _ | VObject l => pairs l
  | VTupleSub _ (Some l) _ | VNumeric _ (Some l) _ => pairs l
  | VTupleSub _ None t | VNumeric _ None t => Some (JStr t)
  | VKeyed _ => None
  | VList l | VTuple l | VSet l => JArr <$> all_of orjson0 l
  | VDecimal _ => None
  | VTimedelta (inl z) => if in_64_bits z then Some (JInt z) else None
  | VTimedelta (inr f) => Some (JFloat f)
  | VModel (Some d) _ => orjson0 d
  | VEnum w _ => orjson0 w
  end.

#[export] Instance orjson0_documented : Orjson (fun _ => []) orjson0.
Proof.
  split; try done.
  intros [| | | | | | | | | | | |[]|[]| | | | | |? []|? []| |]; done.
Qed.



Lemma other_values_differ_witness :
  orjson0 (VNumeric (JFloat 3) None (lit "1/3")) = Some (JStr (lit "1/3")) /\
  write_any_json (VNumeric (JFloat 3) None (lit "1/3")) = JFloat 3.
Proof.
  apply (other_values_differ (dumps := orjson0) [] (JFloat 3) (lit "1/3") [] [] eq_refl eq_refl).
Defined.

Lemma enum_rendering_depends_on_the_rest_witness :
  dict_to_json orjson0 (VDict [(lit "color", VEnum (VStr (lit "red")) [(lit "_name_", VStr (lit "RED"))]);
                               (lit "price", VDecimal (JInt 3))]) =
  JObj [(lit "color", JObj [(lit "_name_", JStr (lit "RED"))]); (lit "price", JInt 3)].
Proof.
  apply (proj2 (enum_rendering_depends_on_the_rest (dumps := orjson0) (lit "color") (VStr (lit "red"))
                  [(lit "_name_", VStr (lit "RED"))] (JStr (lit "red")) (lit "price") (JInt 3) eq_refl)).
Defined.

End JsonPaths.
