(* ===== verification/Sentry.v ===== *)
(** Sentry compatibility ([_sentry_compat.py]; the window of the outer scopes in
    [applications.py], the step aside in [_middleware_wrap.py]).

    [sentry_sdk] is the environment: whether it is there, its client, its
    integrations and its naming functions are parameters.  Requests that are in
    flight at once are a transition system over the application's stack of outer
    scopes. *)

From S2P Require Import Prelude.

Module Sentry.

(** ** The stack of outer scopes *)

(** [app._sentry_outer_scopes], the last pushed first; a request is named by the
    scopes of its outer middleware. *)
Definition sentry_outer_push (applied : bool) (scopes : nat) (stack : list nat) : list nat * bool :=
  if applied then (scopes :: stack, true) else (stack, false).

Definition sentry_outer_pop (stack : list nat) : list nat :=
  match stack with [] => [] | _ :: s => s end.

Definition sentry_outer_peek (stack : list nat) : option nat :=
  match stack with [] => None | x :: _ => Some x end.

(** The shim of Sentry's own middleware passes the request on untouched. *)
Definition steps_aside (is_sentry : bool) (stack : list nat) : bool :=
  is_sentry && match stack with [] => false | _ => true end.

(** Requests in the window of [_asgi_oneshot_http]: those that pushed, those that
    did not. *)
Record window := { scopes : list nat; wrapped : gset nat; unwrapped : gset nat }.

Definition enter (applied : bool) (r : nat) (w : window) : window :=
  let '(stack, pushed) := sentry_outer_push applied r (scopes w) in
  {| scopes := stack;
     wrapped := if pushed then {[ r ]} ∪ wrapped w else wrapped w;
     unwrapped := if pushed then unwrapped w else {[ r ]} ∪ unwrapped w |}.

(** The [finally] clause. *)
Definition leave (r : nat) (w : window) : window :=
  if bool_decide (r ∈ wrapped w)
  then {| scopes := sentry_outer_pop (scopes w); wrapped := wrapped w ∖ {[ r ]}; unwrapped := unwrapped w |}
  else {| scopes := scopes w; wrapped := wrapped w; unwrapped := unwrapped w ∖ {[ r ]} |}.

Inductive step (w : window) : window -> Prop :=
| SEnter applied r : r ∉ wrapped w -> r ∉ unwrapped w -> step w (enter applied r w)
| SLeave r : r ∈ wrapped w \/ r ∈ unwrapped w -> step w (leave r w).

Definition idle : window := {| scopes := []; wrapped := ∅; unwrapped := ∅ |}.

(** One request after the other. *)
Inductive seq_step (w : window) : window -> Prop :=
| QEnter applied r : wrapped w = ∅ -> unwrapped w = ∅ -> seq_step w (enter applied r w)
| QLeave r : r ∈ wrapped w \/ r ∈ unwrapped w -> seq_step w (leave r w).

(** ** Integrations and names *)

(** [transaction_style], [failed_request_status_codes] and what the installer
    copies. *)
Record integration := {
  transaction_style : text;
  failed_codes : option (list Z);
  settings : nat }.

(** The SDK as a request finds it: in [sys.modules], importable, its client
    ([None]: [get_client] raises; else whether it is active), its integrations
    (a look-up may raise), the function's name it computes, its source for a
    style, and whether setting a name succeeds. *)
Record sdk := {
  loaded : bool;
  importable : bool;
  client : option bool;
  fastapi_integration : res (option integration);
  starlette_integration : res (option integration);
  transaction_from_function : nat -> res text;
  dunder_name : nat -> text;
  source_for_style : text -> option text;
  settable : bool }.

Definition active (s : sdk) : bool := match client s with Some b => b | None => false end.

Definition _get_integration (s : sdk) : option integration :=
  if negb (importable s) then None
  else if negb (active s) then None
  else match fastapi_integration s with
       | Ok (Some i) => Some i
       | _ => match starlette_integration s with Ok o => o | Raise _ => None end
       end.

Definition fastapi_integration_active (s : sdk) : bool :=
  loaded s && active s && match fastapi_integration s with Ok (Some _) => true | _ => false end.

(** The name of the current transaction and its source. *)
Definition naming := option (text * option text).

Definition set_name (s : sdk) (style name : text) (n : naming) : naming :=
  if settable s then Some (name, source_for_style s style) else n.

Definition refine_sentry_transaction (s : sdk) (endpoint : option nat) (route_path : option text) (n : naming) : naming :=
  match _get_integration s with
  | None => n
  | Some i =>
      let style := transaction_style i in
      let name :=
        match endpoint, route_path with
        | Some f, _ => if bool_decide (style = lit "endpoint")
                       then match transaction_from_function s f with Ok t => t | Raise _ => dunder_name s f end
                       else if bool_decide (style = lit "url") then default [] route_path else []
        | None, Some p => if bool_decide (style = lit "url") then p else []
        | None, None => []
        end in
      match name with [] => n | _ => set_name s style name n end
  end.

Definition refine_sentry_transaction_as_middleware (s : sdk) (mw_name : text) (n : naming) : naming :=
  match _get_integration s with
  | Some i => if bool_decide (transaction_style i = lit "endpoint") then set_name s (lit "endpoint") mw_name n else n
  | None => n
  end.

(** *** The request's scope *)

(** [_current_request_scope], with the keys that are there; [route] holds the path
    and the endpoint. *)
Record rscope := {
  method : option text; path : option text; query_string : option text;
  endpoint : option nat; route : option (text * option nat) }.

Definition bare_scope : rscope := {| method := None; path := None; query_string := None; endpoint := None; route := None |}.

(** [apm]: which endpoints are marked [_fastapi_turbo_apm_delegated]. *)
Definition set_current_request_scope (s : sdk) (apm : nat -> bool) (m p q : option text) (ep : option nat)
    (route_path : option text) (n : naming) : rscope * naming :=
  let scope := {| method := match m with Some [] => None | _ => m end; path := p; query_string := q;
                  endpoint := ep; route := (fun r => (r, ep)) <$> route_path |} in
  (scope,
   match ep, route_path with
   | Some f, Some _ =>
       if apm f && fastapi_integration_active s then n else refine_sentry_transaction s ep route_path n
   | _, _ => n
   end).

Definition refine_request_scope_for_route (s : sdk) (ep : option nat) (route_path : option text)
    (c : option rscope) (n : naming) : rscope * naming :=
  let scope := default bare_scope c in
  ({| method := method scope; path := path scope; query_string := query_string scope;
      endpoint := match ep with Some _ => ep | None => endpoint scope end;
      route := match route_path with Some r => Some (r, ep) | None => route scope end |},
   refine_sentry_transaction s ep route_path n).

(** *** Failed requests *)

(** Whether an exception with this status code (if it is an integer) is captured. *)
Definition maybe_sentry_capture_failed_request (s : sdk) (status : option Z) : bool :=
  match status with
  | None => false
  | Some c =>
      importable s && active s &&
      match starlette_integration s with
      | Ok (Some i) => match failed_codes i with Some l => bool_decide (c ∈ l) | None => false end
      | _ => false
      end
  end.

(** *** The middleware of the application *)

(** [_middleware_stack] and [_raw_asgi_middlewares] together; [None] is Sentry's
    class, which is registered with the settings of the integration, or without,
    or not at all when registering raises. *)
Record mapp := { sentry_installed : bool; middlewares : list (option nat) }.

Definition has_sentry (a : mapp) : bool := existsb (fun m => bool_decide (m = None)) (middlewares a).

Definition ensure_sentry_middleware (s : sdk) (mw_importable : bool) (add_raises : bool -> bool) (a : mapp) : mapp :=
  if sentry_installed a then a
  else match _get_integration s with
       | None => a
       | Some _ =>
           if negb mw_importable then a
           else if has_sentry a then {| sentry_installed := true; middlewares := middlewares a |}
           else if add_raises true && add_raises false
           then {| sentry_installed := true; middlewares := middlewares a |}
           else {| sentry_installed := true; middlewares := middlewares a ++ [None] |}
       end.

(** *** External patches *)

(** One of the two patched functions: the module and the original found at
    import, the current function, the module it says it is from, and where it
    should be from. *)
Record hook := { original : option nat; current : option nat; module_name : text; home : text }.

Definition hook_patched (h : hook) : bool :=
  match original h, current h with
  | Some o, Some c =>
      negb (bool_decide (c = o)) ||
      match module_name h with [] => false | _ => negb (starts_with (home h) (module_name h)) end
  | _, _ => false
  end.

Definition external_routing_patch_active (hooks : list hook) : bool := existsb hook_patched hooks.

(** ** Lemmas *)

Lemma length_pop l : length (sentry_outer_pop l) = pred (length l).
Proof. by destruct l. Qed.

Lemma window_inv w : rtc step idle w -> length (scopes w) = size (wrapped w).
Proof.
  intros Hr. remember idle as w0 eqn:E. assert (length (scopes w0) = size (wrapped w0)) as Hi.
  { subst w0. cbn [idle scopes wrapped length]. by rewrite size_empty. }
  clear E. induction Hr as [|w1 w2 w3 Hs _ IH]; [done|]. apply IH. destruct Hs as [applied r H1 H2|r H].
  - destruct applied; cbn; [|done]. rewrite size_union by set_solver. rewrite size_singleton. lia.
  - unfold leave. case_bool_decide as Hw; cbn; [|done].
    rewrite length_pop, size_difference by set_solver. rewrite size_singleton. lia.
Qed.

Lemma seq_window_inv w : rtc seq_step idle w ->
  (wrapped w = ∅ /\ scopes w = []) \/ (exists r, wrapped w = {[ r ]} /\ scopes w = [r]).
Proof.
  intros Hr. remember idle as w0 eqn:E.
  assert ((wrapped w0 = ∅ /\ scopes w0 = []) \/ (exists r, wrapped w0 = {[ r ]} /\ scopes w0 = [r])) as Hi.
  { subst. by left. }
  clear E. induction Hr as [|w1 w2 w3 Hs _ IH]; [done|]. apply IH. destruct Hs as [applied r H1 H2|r H].
  - destruct Hi as [[_ Hs]|(r' & Hw & _)]; [|set_solver].
    destruct applied; cbn; rewrite ?Hs, ?H1; [right|by left]. exists r. split; [set_solver|done].
  - unfold leave. case_bool_decide as Hw; cbn; [|done].
    destruct Hi as [[Hn _]|(r' & Hw' & Hs)]; [set_solver|]. left. rewrite Hs, Hw'. split; [set_solver|done].
Qed.

(** ** Theorems *)

(** No request gets two transactions: however wrapped and unwrapped requests
    overlap, Sentry's own middleware steps aside exactly while some wrapped
    request is in flight, hence for every wrapped one. *)
Theorem transaction_is_never_duplicated w :
  rtc step idle w -> steps_aside true (scopes w) = bool_decide (wrapped w <> ∅).
Proof.
  intros Hl%window_inv. unfold steps_aside. cbn. destruct (scopes w) as [|x l]; cbn in Hl.
  - symmetry. apply bool_decide_eq_false. intros H. apply H. apply leibniz_equiv, size_empty_iff. lia.
  - symmetry. apply bool_decide_eq_true. intros H. rewrite H, size_empty in Hl. done.
Qed.

(** One request after the other, the handler of a wrapped request is bridged to
    its own outer scopes. *)
Theorem sequential_requests_see_their_scopes w r :
  rtc seq_step idle w -> r ∈ wrapped w -> sentry_outer_peek (scopes w) = Some r.
Proof.
  intros [[H _]|(r' & Hw & ->)]%seq_window_inv Hr; [set_solver|]. cbn. set_solver.
Qed.

(** Two overlapping wrapped requests are not: while both are in flight the first
    sees the scopes of the second, and when the first is over the second sees
    those of the first, a transaction that has ended. *)
Theorem overlapping_requests_swap_scopes r r' :
  r <> r' ->
  let both := enter true r' (enter true r idle) in
  let after := leave r both in
  rtc step idle both /\ rtc step idle after /\
  r ∈ wrapped both /\ sentry_outer_peek (scopes both) = Some r' /\
  wrapped after = {[ r' ]} /\ sentry_outer_peek (scopes after) = Some r.
Proof.
  intros Hne both after.
  assert (rtc step idle both) as Hb.
  { eapply rtc_l; [apply (SEnter idle true r); set_solver|]. eapply rtc_l; [|apply rtc_refl].
    apply (SEnter _ true r'); cbn; set_solver. }
  assert (r ∈ wrapped both) as Hr by (cbn; set_solver).
  split; [done|]. split; [eapply rtc_r; [exact Hb|]; apply SLeave; by left|]. split; [done|]. split; [done|].
  unfold after, leave. rewrite bool_decide_eq_true_2 by done. cbn. split; [set_solver|done].
Qed.

(** Without an active integration every helper leaves things as they are. *)
Theorem inactive_sentry_is_inert s apm m p q ep rp c name n importable add_raises a :
  _get_integration s = None ->
  (set_current_request_scope s apm m p q ep rp n).2 = n /\
  (refine_request_scope_for_route s ep rp c n).2 = n /\
  refine_sentry_transaction_as_middleware s name n = n /\
  ensure_sentry_middleware s importable add_raises a = a.
Proof.
  intros Hi. unfold set_current_request_scope, refine_request_scope_for_route, refine_sentry_transaction,
    refine_sentry_transaction_as_middleware, ensure_sentry_middleware. rewrite Hi. cbn. split_and!; try done.
  - by destruct ep, rp; try destruct (apm _ && _).
  - by destruct (sentry_installed a).
Qed.

(** A matched request is named by one source: by Sentry's own machinery when the
    endpoint was delegated under a patch and the FastAPI integration is live, by
    the refinement otherwise, after which refining again for the same route
    changes nothing. *)
Theorem one_naming_source s apm m p q f rp n :
  (set_current_request_scope s apm m p q (Some f) (Some rp) n).2 =
    (if apm f && fastapi_integration_active s then n else refine_sentry_transaction s (Some f) (Some rp) n) /\
  refine_sentry_transaction s (Some f) (Some rp) (refine_sentry_transaction s (Some f) (Some rp) n) =
    refine_sentry_transaction s (Some f) (Some rp) n /\
  (importable s = true -> fastapi_integration_active s = true -> exists i, _get_integration s = Some i).
Proof.
  split; [done|]. split.
  - unfold refine_sentry_transaction. destruct (_get_integration s) as [i|]; [|done]. cbv zeta.
    match goal with |- context [match ?x with [] => n | _ => _ end] => destruct x end; [done|].
    unfold set_name. by destruct (settable s).
  - intros Hi. unfold fastapi_integration_active, _get_integration. rewrite Hi. cbn.
    destruct (loaded s), (active s); try done. destruct (fastapi_integration s) as [[i|]|]; try done. by exists i.
Qed.

(** The middleware is installed at most once: once an application has been
    looked after with an active integration, looking after it again changes
    nothing, and one that has Sentry's class already is not given another. *)
Theorem middleware_is_installed_once s importable add_raises a :
  let a' := ensure_sentry_middleware s importable add_raises a in
  ensure_sentry_middleware s importable add_raises a' = a' /\
  (has_sentry a = true -> middlewares a' = middlewares a) /\
  (count_occ (option_eq_dec (A := nat)) (middlewares a') None <=
   S (count_occ (option_eq_dec (A := nat)) (middlewares a) None))%nat.
Proof.
  cbv zeta. unfold ensure_sentry_middleware. destruct (sentry_installed a) eqn:E; [rewrite E; by auto|].
  destruct (_get_integration s) as [i|] eqn:Ei; [|rewrite E; by auto].
  destruct importable; cbn; [|rewrite E; by auto].
  destruct (has_sentry a) eqn:Eh; cbn; [by auto|]. destruct (add_raises true && add_raises false); cbn; [by auto|].
  split_and!; [done..|]. rewrite count_occ_app. cbn. lia.
Qed.

(** The status codes that count as failures are those of the Starlette
    integration alone: with only the FastAPI integration nothing is captured. *)
Theorem fastapi_integration_captures_nothing s status :
  starlette_integration s = Ok None -> maybe_sentry_capture_failed_request s status = false.
Proof. intros H. unfold maybe_sentry_capture_failed_request. rewrite H. destruct status; [|done]. apply andb_false_r. Qed.

End Sentry.
