(* ===== verification/Shim.v ===== *)
(** The import shim ([compat/__init__.py]): the accelerated entry points are set
    as attributes on the modules of the installed [fastapi] and [starlette], and
    taken off again.

    The heap maps a module object and an attribute to a value; [sys.modules] maps
    names to module objects.  A module object is a number, a value is the name of
    the turbo binding or an opaque original.  Importing a module makes a new
    object, fills its namespace and binds it as an attribute of the parent
    package. *)

From S2P Require Import Prelude.

Module Shim.

(** ** Patches *)

Abbreviation heap := (gmap (nat * text) text) (only parsing).

(** [_PATCHES]: the module object, the attribute, and what was there ([None] for
    [_MISSING]). *)
Definition saved := (nat * text * option text)%type.

Record shim := {
  _installed : bool;
  _PATCHES : list saved;
  attrs : gmap (nat * text) text;
  modules : gmap text nat;                    (* sys.modules *)
  next_obj : nat;                             (* the next module object *)
  _CANONICAL_MODULES : gmap text nat;
  PRESHIM : option text }.

Definition set_patched (patches : list saved) (h : gmap (nat * text) text) (s : shim) : shim :=
  {| _installed := _installed s; _PATCHES := patches; attrs := h; modules := modules s; next_obj := next_obj s;
     _CANONICAL_MODULES := _CANONICAL_MODULES s; PRESHIM := PRESHIM s |}.

Definition _patch (m : nat) (attr value : text) (s : shim) : shim :=
  set_patched (_PATCHES s ++ [(m, attr, attrs s !! (m, attr))]) (<[ (m, attr) := value ]> (attrs s)) s.

(** One entry undone. *)
Definition restore (h : gmap (nat * text) text) (p : saved) : gmap (nat * text) text :=
  match p with
  | (m, attr, None) => delete (m, attr) h
  | (m, attr, Some v) => <[ (m, attr) := v ]> h
  end.

Definition uninstall (s : shim) : shim :=
  {| _installed := false; _PATCHES := []; attrs := fold_left restore (reverse (_PATCHES s)) (attrs s);
     modules := modules s; next_obj := next_obj s; _CANONICAL_MODULES := _CANONICAL_MODULES s;
     PRESHIM := PRESHIM s |}.

(** ** What is patched *)

(** A module, an attribute, and the turbo binding it gets. *)
Definition row := (text * text * text)%type.

Definition same (src mdl : string) (names : list string) : list row :=
  (fun n => (lit mdl, lit n, lit src ++ lit "." ++ lit n)) <$> names.

Definition core_swap : list row :=
  same "applications" "fastapi" ["FastAPI"] ++ same "applications" "fastapi.applications" ["FastAPI"] ++
  same "routing" "fastapi" ["APIRouter"; "APIRoute"] ++ same "routing" "fastapi.routing" ["APIRouter"; "APIRoute"] ++
  [(lit "fastapi.routing", lit "APIWebSocketRoute", lit "_ws_support.WSRoute")] ++
  same "routing" "fastapi.routing" ["_default_generate_unique_id"].

Definition markers : list row :=
  same "dependencies" "fastapi" ["Depends"; "Security"] ++
  flat_map (fun n => same "param_functions" "fastapi" [n] ++ same "param_functions" "fastapi.param_functions" [n])
    ["Query"; "Path"; "Header"; "Cookie"; "Body"; "Form"; "File"].

Definition bridge_types : list row :=
  flat_map (fun m => same "param_functions" m ["UploadFile"])
    ["fastapi"; "fastapi.datastructures"; "starlette.datastructures"] ++
  flat_map (fun m => same "background" m ["BackgroundTasks"])
    ["fastapi"; "fastapi.background"; "starlette.background"] ++
  same "websockets" "fastapi" ["WebSocket"] ++
  same "websockets" "fastapi.websockets" ["WebSocket"; "WebSocketState"] ++
  same "websockets" "starlette.websockets" ["WebSocket"; "WebSocketState"].

Definition test_clients : list row :=
  same "testclient" "fastapi.testclient" ["TestClient"; "AsyncTestClient"; "AsyncClient"; "ASGITransport"] ++
  same "testclient" "starlette.testclient" ["TestClient"] ++
  [(lit "starlette.testclient", lit "WebSocketTestSession", lit "testclient._WebSocketTestSession")].

Definition security_schemes : list row :=
  same "security" "fastapi.security"
    ["OAuth2"; "OAuth2PasswordBearer"; "OAuth2PasswordRequestForm"; "OAuth2PasswordRequestFormStrict";
     "OAuth2AuthorizationCodeBearer"; "OAuth2ClientCredentials"; "HTTPBearer"; "HTTPDigest"; "HTTPBasic";
     "HTTPBasicCredentials"; "HTTPAuthorizationCredentials"; "APIKeyHeader"; "APIKeyQuery"; "APIKeyCookie";
     "OpenIdConnect"] ++
  same "security" "fastapi.security.oauth2"
    ["OAuth2"; "OAuth2PasswordBearer"; "OAuth2AuthorizationCodeBearer"; "OAuth2PasswordRequestForm";
     "OAuth2PasswordRequestFormStrict"] ++
  same "security" "fastapi.security.http"
    ["HTTPBase"; "HTTPBearer"; "HTTPDigest"; "HTTPBasic"; "HTTPBasicCredentials"; "HTTPAuthorizationCredentials"] ++
  same "security" "fastapi.security.api_key" ["APIKeyHeader"; "APIKeyQuery"; "APIKeyCookie"] ++
  same "security" "fastapi.security.open_id_connect_url" ["OpenIdConnect"].

Definition middleware_rows (pkg : string) : list row :=
  same "middleware.cors" (pkg ++ ".cors") ["CORSMiddleware"] ++ same "middleware.gzip" (pkg ++ ".gzip") ["GZipMiddleware"] ++
  same "middleware.trustedhost" (pkg ++ ".trustedhost") ["TrustedHostMiddleware"] ++
  same "middleware.httpsredirect" (pkg ++ ".httpsredirect") ["HTTPSRedirectMiddleware"].

Definition middleware_classes : list row :=
  middleware_rows "fastapi.middleware" ++ middleware_rows "starlette.middleware" ++
  same "middleware.base" "starlette.middleware.base" ["BaseHTTPMiddleware"] ++
  same "middleware.sessions" "starlette.middleware.sessions" ["SessionMiddleware"] ++
  same "authentication" "starlette.middleware.authentication" ["AuthenticationMiddleware"] ++
  same "authentication" "starlette.authentication" ["AuthenticationMiddleware"; "requires"] ++
  same "middleware.base" "starlette.middleware" ["BaseHTTPMiddleware"] ++
  same "middleware.cors" "starlette.middleware" ["CORSMiddleware"] ++
  same "middleware.gzip" "starlette.middleware" ["GZipMiddleware"] ++
  same "middleware.trustedhost" "starlette.middleware" ["TrustedHostMiddleware"] ++
  same "middleware.httpsredirect" "starlette.middleware" ["HTTPSRedirectMiddleware"].

Definition helpers : list row :=
  same "staticfiles" "fastapi.staticfiles" ["StaticFiles"] ++ same "staticfiles" "starlette.staticfiles" ["StaticFiles"] ++
  same "templating" "fastapi.templating" ["Jinja2Templates"] ++ same "templating" "starlette.templating" ["Jinja2Templates"] ++
  same "concurrency" "fastapi.concurrency" ["run_in_threadpool"; "iterate_in_threadpool"] ++
  same "concurrency" "starlette.concurrency" ["run_in_threadpool"; "iterate_in_threadpool"; "run_until_first_complete"] ++
  same "concurrency" "starlette.responses" ["iterate_in_threadpool"] ++
  [(lit "fastapi.openapi.docs", lit "_html_safe_json", lit "_html_safe_json");
   (lit "fastapi", lit "fastapi_turbo_version", lit "fastapi_turbo.__version__")] ++
  same "exceptions" "fastapi.exceptions" ["WebSocketDisconnect"].

Definition table : list row :=
  core_swap ++ markers ++ bridge_types ++ test_clients ++ security_schemes ++ middleware_classes ++ helpers.

(** Modules of optional packages, whose absence is accepted. *)
Definition optional (m : text) : bool :=
  bool_decide (m ∈ [lit "fastapi.templating"; lit "starlette.middleware.sessions"; lit "starlette.templating"]).

(** ** Modules *)

Definition _is_target_key (name : text) : bool :=
  bool_decide (name = lit "fastapi") || starts_with (lit "fastapi.") name ||
  bool_decide (name = lit "starlette") || starts_with (lit "starlette.") name.

(** The canonical modules are put back, other target modules dropped. *)
Definition restore_canonical (s : shim) : gmap text nat :=
  if bool_decide (_CANONICAL_MODULES s = ∅) then modules s
  else _CANONICAL_MODULES s ∪
       filter (fun kv => _is_target_key kv.1 = false \/ is_Some (_CANONICAL_MODULES s !! kv.1)) (modules s).

(** [a.b.c]: the parent package and the name under which it gets the module. *)
Definition parent_of (name : text) : text := join "." (removelast (split_on "." name)).
Definition last_part (name : text) : text := List.last (split_on "." name) [].

Definition module_value (o : nat) : text := lit "<module " ++ dec (Z.of_nat o) ++ lit ">".

Definition namespace := list (text * text).

(** One module is loaded, if it is not in [sys.modules]. *)
Definition fill (o : nat) (ns : namespace) (h : gmap (nat * text) text) : gmap (nat * text) text :=
  fold_left (fun h (av : text * text) => <[ (o, av.1) := av.2 ]> h) ns h.

Definition load_one (s : shim) (x : text * namespace) : shim :=
  match modules s !! x.1 with
  | Some _ => s
  | None =>
      let o := next_obj s in
      let h := fill o x.2 (attrs s) in
      {| _installed := _installed s; _PATCHES := _PATCHES s;
         attrs := match modules s !! parent_of x.1 with
                  | Some po => <[ (po, last_part x.1) := module_value o ]> h
                  | None => h
                  end;
         modules := <[ x.1 := o ]> (modules s); next_obj := S o;
         _CANONICAL_MODULES := _CANONICAL_MODULES s; PRESHIM := PRESHIM s |}
  end.

Section Install.

(** [importlib.import_module] of a module that is not in [sys.modules]: the
    modules its import loads in turn, with their namespaces (parent packages, the
    modules its code imports, itself), and whether it succeeds; and the rest of
    [fastapi_turbo.__all__], with the values that are not [None]. *)
Variable fresh : text -> list (text * namespace) * bool.
Variable exports : list (text * option text).

(** The imports of the table's modules, and whether all that are not optional
    succeeded.  ([starlette.responses], which the others import anyway, is
    imported with them and not between the assignments.) *)
Fixpoint import_all (names : list text) (s : shim) : shim * bool :=
  match names with
  | [] => (s, true)
  | m :: names' =>
      match modules s !! m with
      | Some _ => import_all names' s
      | None => let '(l, ok) := fresh m in
                let s := fold_left load_one l s in
                if ok || optional m then import_all names' s else (s, false)
      end
  end.

Definition imported : list text := (fun r : row => r.1.1) <$> table.

Definition patch_row (mods : gmap text nat) (s : shim) (r : row) : shim :=
  match mods !! r.1.1 with Some o => _patch o r.1.2 r.2 s | None => s end.

(** The exports the real package lacks. *)
Definition patch_export (fa : nat) (s : shim) (e : text * option text) : shim :=
  match e.2 with
  | Some v => match attrs s !! (fa, e.1) with Some _ => s | None => _patch fa e.1 v s end
  | None => s
  end.

(** [done] is how many of the assignments are made before one raises, if one
    does (a turbo binding that is missing). *)
Definition patches (mods : gmap text nat) (fa : nat) : list (shim -> shim) :=
  ((fun r s => patch_row mods s r) <$> table) ++ ((fun e s => patch_export fa s e) <$> exports).

Definition run_patches (l : list (shim -> shim)) (s : shim) : shim := fold_left (fun s f => f s) l s.

Definition set_modules (mods : gmap text nat) (s : shim) : shim :=
  {| _installed := _installed s; _PATCHES := _PATCHES s; attrs := attrs s; modules := mods;
     next_obj := next_obj s; _CANONICAL_MODULES := _CANONICAL_MODULES s; PRESHIM := PRESHIM s |}.

(** The class of uploads found before anything is patched. *)
Definition capture_preshim (s : shim) : shim :=
  match modules s !! lit "starlette.datastructures" with
  | Some o =>
      match attrs s !! (o, lit "UploadFile") with
      | Some c => if bool_decide (c = lit "param_functions.UploadFile") then s
                  else {| _installed := _installed s; _PATCHES := _PATCHES s; attrs := attrs s; modules := modules s;
                          next_obj := next_obj s; _CANONICAL_MODULES := _CANONICAL_MODULES s; PRESHIM := Some c |}
      | None => s
      end
  | None => s
  end.

(** The installation with the assignments [ps]: the result and whether it
    returned; [broken]: the assignment that raises. *)
Definition install_with (ps : gmap text nat -> nat -> list (shim -> shim)) (broken : option nat) (s : shim)
    : shim * bool :=
  if _installed s then (s, true)
  else
    let s := capture_preshim s in
    let s := set_modules (restore_canonical s) s in
    match import_all imported s with
    | (s, false) => (s, false)
    | (s, true) =>
        match modules s !! lit "fastapi" with
        | None => (s, false)
        | Some fa =>
            match broken with
            | Some n => (run_patches (take n (ps (modules s) fa)) s, false)
            | None =>
                let s := run_patches (ps (modules s) fa) s in
                ({| _installed := true; _PATCHES := _PATCHES s; attrs := attrs s; modules := modules s;
                    next_obj := next_obj s;
                    _CANONICAL_MODULES :=
                      if bool_decide (_CANONICAL_MODULES s = ∅)
                      then filter (fun kv => _is_target_key kv.1 = true) (modules s) else _CANONICAL_MODULES s;
                    PRESHIM := PRESHIM s |}, true)
            end
        end
    end.

Definition install (broken : option nat) (s : shim) : shim * bool := install_with patches broken s.

End Install.

(** ** [_html_safe_json], after encoding *)

Fixpoint replace_char (c : ascii) (by_ : text) (t : text) : text :=
  match t with
  | [] => []
  | x :: t' => (if bool_decide (x = c) then by_ else [x]) ++ replace_char c by_ t'
  end.

Definition _html_safe_json (encoded : text) : text :=
  replace_char "&"%char (lit "\u0026")
    (replace_char ">"%char (lit "\u003e") (replace_char "<"%char (lit "\u003c") encoded)).

(** ** Lemmas *)

(** The attributes as they would be after [uninstall]. *)
Definition undone (s : shim) : gmap (nat * text) text := fold_left restore (reverse (_PATCHES s)) (attrs s).

Lemma patch_undone m attr v s : undone (_patch m attr v s) = undone s.
Proof.
  unfold undone, _patch, set_patched. cbn [_PATCHES attrs]. rewrite reverse_snoc. cbn [fold_left]. f_equal. unfold restore.
  destruct (attrs s !! (m, attr)) as [old|] eqn:E.
  - rewrite insert_insert_eq. by apply insert_id.
  - by apply delete_insert_id.
Qed.

(** The first record of a place: undoing the records from the last to the first
    leaves each place what its first record says. *)
Fixpoint origin (ps : list saved) (p : nat * text) : option (option text) :=
  match ps with
  | [] => None
  | (q, original) :: ps' => if bool_decide (q = p) then Some original else origin ps' p
  end.

Lemma restore_place h (x : saved) (p : nat * text) :
  restore h x !! p = if bool_decide (x.1 = p) then x.2 else h !! p.
Proof.
  destruct x as [[m attr] [v|]]; simpl; case_bool_decide as Hp; try subst p.
  - by rewrite lookup_insert_eq.
  - by rewrite lookup_insert_ne.
  - by rewrite lookup_delete_eq.
  - by rewrite lookup_delete_ne.
Qed.

Lemma undone_origin s p :
  undone s !! p = match origin (_PATCHES s) p with Some original => original | None => attrs s !! p end.
Proof.
  unfold undone. induction (_PATCHES s) as [|[q o] ps IH]; [done|].
  rewrite reverse_cons, fold_left_app. cbn [fold_left]. rewrite restore_place. cbn [origin fst snd].
  case_bool_decide; [done|]. apply IH.
Qed.

(** *** Objects *)

(** All module objects in use are older than the next one. *)
Record wf (s : shim) : Prop := {
  wf_patches m attr old : (m, attr, old) ∈ _PATCHES s -> (m < next_obj s)%nat;
  wf_modules name o : modules s !! name = Some o -> (o < next_obj s)%nat;
  wf_canonical name o : _CANONICAL_MODULES s !! name = Some o -> (o < next_obj s)%nat }.

Lemma wf_origin s m attr : wf s -> (next_obj s <= m)%nat -> origin (_PATCHES s) (m, attr) = None.
Proof.
  intros [Hp _ _] Hm. induction (_PATCHES s) as [|[q old] ps IH]; [done|]. cbn. case_bool_decide as Hq.
  - subst q. specialize (Hp m attr old (list_elem_of_here _ _)). lia.
  - apply IH. intros m' a' o' Hin. apply (Hp m' a' o'). by right.
Qed.

Lemma fill_other o ns h p : p.1 <> o -> fill o ns h !! p = h !! p.
Proof.
  unfold fill. revert h. induction ns as [|av ns IH]; intros h Hp; [done|]. cbn. rewrite IH by done.
  apply lookup_insert_ne. by intros <-.
Qed.

Lemma load_one_wf x s : wf s -> wf (load_one s x).
Proof.
  intros [H1 H2 H3]. unfold load_one. destruct (modules s !! x.1); [done|]. split; cbn.
  - intros m attr old Hin. apply H1 in Hin. lia.
  - intros name o [[<- <-]|[_ Ho%H2]]%lookup_insert_Some; lia.
  - intros name o Ho%H3. lia.
Qed.

Lemma load_all_wf l s : wf s -> wf (fold_left load_one l s).
Proof. revert s. induction l as [|x l IH]; intros s H; [done|]. cbn. by apply IH, load_one_wf. Qed.

Lemma import_all_wf fresh names s : wf s -> wf (import_all fresh names s).1.
Proof.
  revert s. induction names as [|m names IH]; intros s H; [done|]. cbn.
  destruct (modules s !! m); [by apply IH|]. destruct (fresh m) as [l ok].
  destruct (ok || optional m); [by apply IH, load_all_wf|by apply load_all_wf].
Qed.

(** *** A session and the same session without the assignments *)

(** The two differ in the patches only, and undoing these makes the heaps agree
    at the attribute [attr]. *)
Record unpatched (attr : text) (s s2 : shim) : Prop := {
  un_installed : _installed s = _installed s2;
  un_modules : modules s = modules s2;
  un_next : next_obj s = next_obj s2;
  un_canonical : _CANONICAL_MODULES s = _CANONICAL_MODULES s2;
  un_none : _PATCHES s2 = [];
  un_heap m : undone s !! (m, attr) = attrs s2 !! (m, attr) }.

Lemma load_one_unpatched attr x s s2 :
  last_part x.1 <> attr -> wf s -> unpatched attr s s2 -> unpatched attr (load_one s x) (load_one s2 x).
Proof.
  intros Hx Hw [H1 H2 H3 H4 H5 H6]. unfold load_one. rewrite <-H2. destruct (modules s !! x.1); [done|].
  split; cbn [_installed modules next_obj _CANONICAL_MODULES _PATCHES set_modules set_patched _patch uninstall];
    [done|by rewrite H2, H3|by rewrite H3|done|done|]. intros m.
  rewrite undone_origin. cbn [_PATCHES attrs].
  assert (forall (h : gmap (nat * text) text) o,
    (match modules s !! parent_of x.1 with
     | Some po => <[ (po, last_part x.1) := module_value o ]> h | None => h end) !! (m, attr) = h !! (m, attr)) as Hb.
  { intros h o. destruct (modules s !! parent_of x.1); [|done]. apply lookup_insert_ne. congruence. }
  rewrite !Hb. specialize (H6 m). rewrite undone_origin in H6. rewrite <-H3.
  destruct (decide (m = next_obj s)) as [->|Hne].
  - rewrite wf_origin in H6 |- * by (done || lia).
    clear Hb. revert H6. generalize (attrs s) (attrs s2). intros h h' H6.
    unfold fill. revert h h' H6. induction x.2 as [|av ns IH]; intros h h' H6; [done|]. cbn. apply IH.
    destruct (decide (attr = av.1)) as [->|Hne]; [by rewrite !lookup_insert_eq|].
    by rewrite !lookup_insert_ne by congruence.
  - by rewrite !fill_other by done.
Qed.

Lemma load_all_unpatched attr l s s2 :
  Forall (fun x => last_part x.1 <> attr) l -> wf s -> unpatched attr s s2 ->
  unpatched attr (fold_left load_one l s) (fold_left load_one l s2).
Proof.
  intros H. revert s s2. induction H as [|x l Hx _ IH]; intros s s2 Hw Hu; [done|]. cbn.
  apply IH; [by apply load_one_wf|by apply load_one_unpatched].
Qed.

(** No module that an import loads is called [attr] in its package. *)
Definition unbound (fresh : text -> list (text * namespace) * bool) (attr : text) : Prop :=
  forall m, m ∈ imported -> Forall (fun x => last_part x.1 <> attr) (fresh m).1.

Lemma import_all_unpatched fresh attr names s s2 :
  (forall m, m ∈ names -> Forall (fun x => last_part x.1 <> attr) (fresh m).1) ->
  wf s -> unpatched attr s s2 ->
  unpatched attr (import_all fresh names s).1 (import_all fresh names s2).1 /\
  (import_all fresh names s).2 = (import_all fresh names s2).2.
Proof.
  revert s s2. induction names as [|m names IH]; intros s s2 Hn Hw Hu; [done|]. cbn.
  rewrite <-(un_modules _ _ _ Hu).
  assert (forall m, m ∈ names -> Forall (fun x => last_part x.1 <> attr) (fresh m).1) as Hn'
    by (intros m' Hm'; apply Hn; by right).
  destruct (modules s !! m); [by apply IH|].
  specialize (Hn m (list_elem_of_here _ _)). destruct (fresh m) as [l ok]. cbn in Hn.
  pose proof (load_all_wf l s Hw) as Hw'. pose proof (load_all_unpatched attr l s s2 Hn Hw Hu) as Hu'.
  destruct (ok || optional m); [by apply IH|done].
Qed.

Lemma run_patches_unpatched attr l s s2 :
  Forall (fun f => forall s, modules s = modules s2 -> f s = s \/
    exists m attr v name, f s = _patch m attr v s /\ modules s !! name = Some m) l ->
  wf s -> unpatched attr s s2 ->
  wf (run_patches l s) /\ unpatched attr (run_patches l s) s2.
Proof.
  unfold run_patches. intros H. revert s. induction H as [|f l Hf _ IH]; intros s Hw Hu; [done|]. cbn.
  destruct (Hf s (un_modules _ _ _ Hu)) as [->|(m & a & v & name & -> & Hm)]; [by apply IH|].
  destruct Hw as [W1 W2 W3], Hu as [U1 U2 U3 U4 U5 U6]. apply IH.
  - split; cbn; [|done..]. intros m' a' old [Hin|[= -> -> ->]%list_elem_of_singleton]%elem_of_app;
      [by eapply W1|by eapply W2].
  - split; [done..|]. intros m'. by rewrite patch_undone.
Qed.

Lemma patches_only exports mods fa name0 : mods !! name0 = Some fa ->
  Forall (fun f => forall s, modules s = mods -> f s = s \/
    exists m attr v name, f s = _patch m attr v s /\ modules s !! name = Some m) (patches exports mods fa).
Proof.
  intros Hfa. unfold patches. apply Forall_app. split; apply Forall_fmap, Forall_forall; intros x _ s Hs; cbn.
  - unfold patch_row. destruct (mods !! x.1.1) as [o|] eqn:E; [|by left].
    right. exists o, x.1.2, x.2, x.1.1. by rewrite Hs.
  - unfold patch_export. destruct x.2 as [v|]; [|by left]. destruct (attrs s !! (fa, x.1)); [by left|].
    right. exists fa, x.1, v, name0. by rewrite Hs.
Qed.

Lemma capture_preshim_same s :
  wf s -> wf (capture_preshim s).
Proof. intros [H1 H2 H3]. unfold capture_preshim. repeat case_match; by split. Qed.

Lemma restore_canonical_wf s : wf s -> wf (set_modules (restore_canonical s) s).
Proof.
  intros [H1 H2 H3]. split; cbn; [done| |done]. intros name o. unfold restore_canonical.
  case_bool_decide; [apply H2|]. rewrite lookup_union_Some_raw. intros [?|[_ Hf]]; [by eapply H3|].
  apply map_lookup_filter_Some in Hf as [? _]. by eapply H2.
Qed.

Lemma capture_unpatched attr s s2 :
  unpatched attr s s2 -> unpatched attr (capture_preshim s) (capture_preshim s2).
Proof.
  intros [H1 H2 H3 H4 H5 H6].
  assert (forall s, _installed (capture_preshim s) = _installed s /\ modules (capture_preshim s) = modules s /\
    next_obj (capture_preshim s) = next_obj s /\ _CANONICAL_MODULES (capture_preshim s) = _CANONICAL_MODULES s /\
    _PATCHES (capture_preshim s) = _PATCHES s /\ attrs (capture_preshim s) = attrs s) as Hc.
  { intros x. unfold capture_preshim. by repeat case_match. }
  destruct (Hc s) as (A1 & A2 & A3 & A4 & A5 & A6), (Hc s2) as (B1 & B2 & B3 & B4 & B5 & B6).
  split; try congruence. intros m. rewrite undone_origin, A5, A6, B6, <-H6. by rewrite undone_origin.
Qed.

(** A run of [install] against the same with no assignments. *)
Lemma install_unpatched fresh exports broken attr s s2 :
  unbound fresh attr -> wf s -> unpatched attr s s2 ->
  wf (install fresh exports broken s).1 /\
  unpatched attr (install fresh exports broken s).1 (install_with fresh (fun _ _ => []) broken s2).1.
Proof.
  intros Hb Hw Hu. unfold install, install_with. rewrite <-(un_installed _ _ _ Hu).
  destruct (_installed s); [done|]. cbv zeta.
  pose proof (capture_unpatched attr s s2 Hu) as Hc. pose proof (capture_preshim_same s Hw) as Hwc.
  set (t := capture_preshim s) in *. set (t2 := capture_preshim s2) in *.
  assert (unpatched attr (set_modules (restore_canonical t) t) (set_modules (restore_canonical t2) t2)) as Hr.
  { destruct Hc as [H1 H2 H3 H4 H5 H6]. split; try done. cbn. unfold restore_canonical. by rewrite H2, H4. }
  pose proof (restore_canonical_wf t Hwc) as Hwr.
  set (u := set_modules _ t) in *. set (u2 := set_modules _ t2) in *.
  destruct (import_all_unpatched fresh attr imported u u2 Hb Hwr Hr) as [Hi Hok].
  pose proof (import_all_wf fresh imported u Hwr) as Hwi.
  destruct (import_all fresh imported u) as [v ok], (import_all fresh imported u2) as [v2 ok2].
  cbn in Hi, Hok, Hwi. subst ok2. destruct ok; [|done].
  rewrite <-(un_modules _ _ _ Hi). destruct (modules v !! lit "fastapi") as [fa|] eqn:Efa; [|done].
  assert (forall n, wf (run_patches (take n (patches exports (modules v) fa)) v) /\
                    unpatched attr (run_patches (take n (patches exports (modules v) fa)) v) v2) as Hp.
  { intros n. apply run_patches_unpatched; [|done..]. apply Forall_take.
    rewrite <-(un_modules _ _ _ Hi). by eapply patches_only. }
  destruct broken as [n|].
  - rewrite take_nil. apply Hp.
  - specialize (Hp (length (patches exports (modules v) fa))). rewrite firstn_all in Hp.
    destruct Hp as [[W1 W2 W3] [U1 U2 U3 U4 U5 U6]]. cbn [run_patches fold_left fst]. split.
    + split; cbn; [done..|]. intros name o. case_bool_decide; [|apply W3].
      intros [? _]%map_lookup_filter_Some. by eapply W2.
    + split; try done. cbn [_CANONICAL_MODULES modules]. by rewrite U2, U4.
Qed.

(** *** Distinct places *)

(** [fold_left] of assignments to distinct places leaves each its value. *)
Lemma insert_all (l : list (nat * text * text)) (h : gmap (nat * text) text) m attr v :
  NoDup (l.*1) -> (m, attr, v) ∈ l ->
  fold_left (fun h (p : nat * text * text) => <[ p.1 := p.2 ]> h) l h !! (m, attr) = Some v.
Proof.
  revert h. induction l as [|p l IH]; intros h Hd Hin; [by apply not_elem_of_nil in Hin|]. cbn [fold_left].
  rewrite fmap_cons in Hd. apply NoDup_cons in Hd as [Hn Hd]. apply elem_of_cons in Hin as [<-|Hin]; [|by apply IH].
  cbn [fst snd] in *. assert (forall h : gmap (nat * text) text, h !! (m, attr) = Some v ->
    fold_left (fun h (p : nat * text * text) => <[ p.1 := p.2 ]> h) l h !! (m, attr) = Some v) as Hk.
  { clear IH. induction l as [|q l IH]; intros h' Hh; [done|]. cbn [fold_left].
    rewrite fmap_cons in Hn, Hd. apply not_elem_of_cons in Hn as [Hq Hn]. apply NoDup_cons in Hd as [_ Hd]. apply IH; [done..|]. rewrite lookup_insert_ne; [done|congruence]. }
  apply Hk. by rewrite lookup_insert_eq.
Qed.

(** The assignments of the table, with the module objects. *)
Definition places (mods : gmap text nat) : list (nat * text * text) :=
  omap (fun r : row => (fun o => (o, r.1.2, r.2)) <$> mods !! r.1.1) table.

Lemma run_table mods l s :
  attrs (run_patches ((fun (r : row) s => patch_row mods s r) <$> l) s) =
  fold_left (fun h (p : nat * text * text) => <[ p.1 := p.2 ]> h)
    (omap (fun r : row => (fun o => (o, r.1.2, r.2)) <$> mods !! r.1.1) l) (attrs s).
Proof.
  unfold run_patches. revert s. induction l as [|r l IH]; intros s; [done|]. cbn. rewrite IH. unfold patch_row.
  by destruct (mods !! r.1.1).
Qed.

Lemma run_exports fa l s p v :
  attrs s !! p = Some v -> attrs (run_patches ((fun e s => patch_export fa s e) <$> l) s) !! p = Some v.
Proof.
  unfold run_patches. revert s. induction l as [|e l IH]; intros s Hp; [done|]. cbn. apply IH. unfold patch_export.
  destruct e.2 as [w|]; [|done]. destruct (attrs s !! (fa, e.1)) as [x|] eqn:E; [done|]. cbn.
  rewrite lookup_insert_ne; [done|]. intros <-. congruence.
Qed.

Lemma table_distinct : NoDup ((fun r : row => r.1) <$> table).
Proof. refine (bool_decide_eq_true_1 (NoDup _) _). vm_compute. reflexivity. Qed.

Lemma places_distinct mods :
  (forall a b o, mods !! a = Some o -> mods !! b = Some o -> a = b) -> NoDup (places mods).*1.
Proof.
  intros Hi. unfold places. pose proof table_distinct as Hd. revert Hd. generalize table. intros l.
  induction l as [|r l IH]; intros Hd; [constructor|]. cbn in Hd |- *. apply NoDup_cons in Hd as [Hn Hd].
  destruct (mods !! r.1.1) as [o|] eqn:Eo; cbn; [|by apply IH]. apply NoDup_cons. split; [|by apply IH].
  intros (p & Hp & Hin)%list_elem_of_fmap. apply list_elem_of_omap in Hin as (r' & Hr' & Hq).
  destruct (mods !! r'.1.1) as [o'|] eqn:Eo'; [|done]. cbn in Hq. injection Hq as <-. cbn in Hp.
  injection Hp as -> Ha. apply Hn. apply list_elem_of_fmap. exists r'. split; [|done].
  destruct r as [[m a] v], r' as [[m' a'] v']. cbn in *. by rewrite (Hi m m' o') by done; subst.
Qed.

Lemma run_patches_app l l' s : run_patches (l ++ l') s = run_patches l' (run_patches l s).
Proof. apply fold_left_app. Qed.

(** *** Modules *)

Lemma run_patches_modules exports mods fa n s :
  modules (run_patches (take n (patches exports mods fa)) s) = modules s.
Proof.
  assert (Forall (fun f => forall s, modules (f s) = modules s) (take n (patches exports mods fa))) as H.
  { apply Forall_take. unfold patches. apply Forall_app.
    split; apply Forall_fmap, Forall_forall; intros x _ s0; cbn; unfold patch_row, patch_export; by repeat case_match. }
  unfold run_patches. revert s. induction H as [|f l Hf _ IH]; intros s; [done|]. cbn. by rewrite IH, Hf.
Qed.

Lemma install_result fresh exports s s' :
  _installed s = false -> install fresh exports None s = (s', true) ->
  exists mods fa s2, modules s' = mods /\ attrs s' = attrs (run_patches (patches exports mods fa) s2).
Proof.
  intros Hi Hs. unfold install, install_with in Hs. rewrite Hi in Hs. cbv zeta in Hs.
  set (s0 := set_modules _ _) in Hs. destruct (import_all fresh imported s0) as [s1 []]; [|done].
  destruct (modules s1 !! lit "fastapi") as [fa|]; [|done]. injection Hs as <-. cbn [attrs modules].
  exists (modules s1), fa, s1. split; [|done].
  pose proof (run_patches_modules exports (modules s1) fa (length (patches exports (modules s1) fa)) s1) as H.
  by rewrite firstn_all in H.
Qed.

Lemma import_all_present fresh names s :
  (forall m, m ∈ names -> is_Some (modules s !! m)) -> import_all fresh names s = (s, true).
Proof.
  induction names as [|m names IH]; intros H; [done|]. cbn. destruct (H m) as [o ->]; [by left|].
  apply IH. intros m' Hm'. apply H. by right.
Qed.

Lemma capture_preshim_modules s :
  modules (capture_preshim s) = modules s /\ _CANONICAL_MODULES (capture_preshim s) = _CANONICAL_MODULES s.
Proof. unfold capture_preshim. by repeat case_match. Qed.

Lemma install_modules fresh exports broken s :
  _installed s = false -> _CANONICAL_MODULES s <> ∅ ->
  (forall m, m ∈ imported -> is_Some (_CANONICAL_MODULES s !! m)) ->
  modules (install fresh exports broken s).1 = restore_canonical s.
Proof.
  intros Hi Hc Him. destruct (capture_preshim_modules s) as [H1 H2].
  assert (restore_canonical (capture_preshim s) = restore_canonical s) as Hr
    by (unfold restore_canonical; by rewrite H1, H2).
  unfold install, install_with. rewrite Hi. cbv zeta. rewrite Hr.
  assert (forall m, m ∈ imported -> is_Some (restore_canonical s !! m)) as Hp.
  { intros m [o Hm]%Him. unfold restore_canonical. rewrite bool_decide_eq_false_2 by done.
    exists o. by apply lookup_union_Some_l. }
  rewrite import_all_present by done. cbn [modules set_modules].
  destruct (restore_canonical s !! lit "fastapi") as [fa|]; [|done].
  destruct broken as [n|]; cbn [fst modules].
  - by rewrite run_patches_modules.
  - pose proof (run_patches_modules exports (restore_canonical s) fa (length (patches exports (restore_canonical s) fa)))
      as H. rewrite firstn_all in H. by rewrite H.
Qed.

(** *** Characters *)

Lemma replace_char_elem c by_ t x : x ∈ replace_char c by_ t -> (x ∈ t /\ x <> c) \/ x ∈ by_.
Proof.
  induction t as [|y t IH]; cbn; [by intros ?%not_elem_of_nil|]. intros [H|H]%elem_of_app.
  - case_bool_decide; [by right|]. apply list_elem_of_singleton in H as ->. left. split; [by left|done].
  - destruct (IH H) as [[H1 H2]|H1]; [|by right]. left. split; [by right|done].
Qed.

Lemma escapes_are_plain x : x ∈ lit "\u0026" \/ x ∈ lit "\u003e" \/ x ∈ lit "\u003c" ->
  x <> "<"%char /\ x <> ">"%char /\ x <> "&"%char.
Proof. intros H. split_and!; intros ->; destruct H as [H|[H|H]];
    apply (bool_decide_eq_true_2 _) in H; vm_compute in H; discriminate. Qed.

(** ** Theorems *)

(** What a test suite does with the shim: it installs, with whatever can be
    imported and is exported then, possibly failing at some assignment, and
    uninstalls. *)
Inductive op :=
| OInstall (fresh : text -> list (text * namespace) * bool) (exports : list (text * option text))
    (broken : option nat)
| OUninstall.

Definition run_op (s : shim) (o : op) : shim :=
  match o with
  | OInstall fresh exports broken => (install fresh exports broken s).1
  | OUninstall => uninstall s
  end.

(** The same with the imports but without the assignments. *)
Definition run_imports (s : shim) (o : op) : shim :=
  match o with
  | OInstall fresh _ broken => (install_with fresh (fun _ _ => []) broken s).1
  | OUninstall => uninstall s
  end.

Definition op_unbound (attr : text) (o : op) : Prop :=
  match o with OInstall fresh _ _ => unbound fresh attr | OUninstall => True end.

Lemma uninstall_unpatched attr s s2 :
  wf s -> unpatched attr s s2 -> wf (uninstall s) /\ unpatched attr (uninstall s) (uninstall s2).
Proof.
  intros [W1 W2 W3] [U1 U2 U3 U4 U5 U6]. split.
  - split; cbn; [by intros ? ? ? ?%not_elem_of_nil|done..].
  - split; try done. intros m. cbn. rewrite U5. apply U6.
Qed.

Lemma session_unpatched attr ops s s2 :
  Forall (op_unbound attr) ops -> wf s -> unpatched attr s s2 ->
  unpatched attr (fold_left run_op ops s) (fold_left run_imports ops s2).
Proof.
  intros H. revert s s2. induction H as [|o ops Ho _ IH]; intros s s2 Hw Hu; [done|]. cbn [fold_left].
  destruct o as [fresh exports broken|].
  - destruct (install_unpatched fresh exports broken attr s s2 Ho Hw Hu) as [Hw' Hu']. by apply IH.
  - destruct (uninstall_unpatched attr s s2 Hw Hu) as [Hw' Hu']. by apply IH.
Qed.

Lemma unpatched_refl attr s : _PATCHES s = [] -> unpatched attr s s.
Proof. intros Hp. split; try done. intros m. by rewrite undone_origin, Hp. Qed.

(** What the imports do to a module that was there before. *)
Lemma imports_keep attr fresh names s m :
  (forall n, n ∈ names -> Forall (fun x => last_part x.1 <> attr) (fresh n).1) -> (m < next_obj s)%nat ->
  attrs (import_all fresh names s).1 !! (m, attr) = attrs s !! (m, attr) /\
  (next_obj s <= next_obj (import_all fresh names s).1)%nat.
Proof.
  assert (forall l s, Forall (fun x => last_part x.1 <> attr) l -> (m < next_obj s)%nat ->
    attrs (fold_left load_one l s) !! (m, attr) = attrs s !! (m, attr) /\
    (next_obj s <= next_obj (fold_left load_one l s))%nat) as Hl.
  { intros l s0 H. revert s0. induction H as [|x l Hx _ IH]; intros s0 Hm; [done|]. cbn.
    assert (attrs (load_one s0 x) !! (m, attr) = attrs s0 !! (m, attr) /\
            (next_obj s0 <= next_obj (load_one s0 x))%nat) as [H1 H2].
    { unfold load_one. destruct (modules s0 !! x.1); [split; [done|lia]|]. cbn. split; [|lia].
      destruct (modules s0 !! parent_of x.1); rewrite ?lookup_insert_ne by congruence; apply fill_other; cbn; lia. }
    destruct (IH (load_one s0 x)) as [H3 H4]; [lia|]. split; [congruence|lia]. }
  revert s. induction names as [|n names IH]; intros s Hn Hm; [done|]. cbn.
  assert (forall n, n ∈ names -> Forall (fun x => last_part x.1 <> attr) (fresh n).1) as Hn'
    by (intros n' H'; apply Hn; by right).
  destruct (modules s !! n); [by apply IH|]. specialize (Hn n (list_elem_of_here _ _)).
  destruct (fresh n) as [l ok]. cbn in Hn. destruct (Hl l s Hn Hm) as [H1 H2].
  destruct (ok || optional n); [|done]. destruct (IH (fold_left load_one l s)) as [H3 H4]; [done|lia|].
  split; [congruence|lia].
Qed.

Lemma session_keeps attr ops s m :
  Forall (op_unbound attr) ops -> _PATCHES s = [] -> (m < next_obj s)%nat ->
  attrs (fold_left run_imports ops s) !! (m, attr) = attrs s !! (m, attr).
Proof.
  intros H. revert s. induction H as [|o ops Ho _ IH]; intros s Hp Hm; [done|]. cbn [fold_left].
  destruct o as [fresh exports broken|]; cbn [run_imports].
  - assert (_PATCHES (install_with fresh (fun _ _ => []) broken s).1 = [] /\
            attrs (install_with fresh (fun _ _ => []) broken s).1 !! (m, attr) = attrs s !! (m, attr) /\
            (next_obj s <= next_obj (install_with fresh (fun _ _ => []) broken s).1)%nat) as (H1 & H2 & H3).
    { unfold install_with. destruct (_installed s); [cbn; split_and!; [done|done|lia]|]. cbv zeta.
      assert (attrs (capture_preshim s) = attrs s /\ next_obj (capture_preshim s) = next_obj s /\
              _PATCHES (capture_preshim s) = _PATCHES s) as (C1 & C2 & C3)
        by (unfold capture_preshim; by repeat case_match).
      set (t := set_modules _ _).
      assert (attrs t = attrs s /\ next_obj t = next_obj s /\ _PATCHES t = []) as (T1 & T2 & T3)
        by (subst t; cbn; by rewrite C1, C2, C3, Hp).
      clearbody t. destruct (imports_keep attr fresh imported t m Ho) as [I1 I2]; [by rewrite T2|].
      assert (forall names u, _PATCHES u = [] -> _PATCHES (import_all fresh names u).1 = []) as HI.
      { assert (forall l u, _PATCHES (fold_left load_one l u) = _PATCHES u) as HL.
        { induction l as [|x l IHl]; intros u; [done|]. cbn. rewrite IHl. unfold load_one. by destruct (modules u !! x.1). }
        induction names as [|n names IHn]; intros u Hu; [done|]. cbn. destruct (modules u !! n); [by apply IHn|].
        destruct (fresh n) as [l ok]. destruct (ok || optional n); [apply IHn|cbn]; by rewrite HL. }
      specialize (HI imported t T3). destruct (import_all fresh imported t) as [v ok]. cbn [fst] in HI, I1, I2.
      destruct ok; [|cbn; split_and!; [done|congruence|lia]].
      destruct (modules v !! lit "fastapi"); [|cbn; split_and!; [done|congruence|lia]].
      destruct broken; cbn; rewrite ?take_nil; cbn; (split_and!; [done|congruence|lia]). }
    rewrite IH; [done..|lia].
  - rewrite IH; [cbn; by rewrite Hp|done|done].
Qed.

Lemma table_names_no_module (row : row) m :
  row ∈ table -> m ∈ imported -> last_part m <> row.1.2.
Proof.
  assert (forallb (fun x : text * text * text =>
    forallb (fun m => negb (bool_decide (last_part m = x.1.2))) imported) table = true) as H
    by (vm_compute; reflexivity).
  rewrite forallb_forall in H. intros Hr Hm. apply list_elem_of_In, H in Hr. rewrite forallb_forall in Hr.
  apply list_elem_of_In, Hr, negb_true_iff, bool_decide_eq_false in Hm. exact Hm.
Qed.

(** C33: uninstalling takes every assignment of the shim off again.  After any
    sequence of installations, also ones that failed half-way or were
    repeated, and uninstallations, one more [uninstall] leaves each attribute as
    the same sequence of imports without any assignment would have left it, and
    on a module that was there before, as it was before (absent, if it did not
    exist).  The attributes under which an import binds a submodule in its
    package are excepted: importing it leaves them there.  (No module the
    installation asks for has the name of an attribute of the table.) *)
Theorem uninstall_restores_the_packages s ops attr :
  wf s -> _PATCHES s = [] -> Forall (op_unbound attr) ops ->
  forall m, attrs (uninstall (fold_left run_op ops s)) !! (m, attr) =
              attrs (fold_left run_imports ops s) !! (m, attr) /\
            ((m < next_obj s)%nat ->
               attrs (uninstall (fold_left run_op ops s)) !! (m, attr) = attrs s !! (m, attr)).
Proof.
  intros Hw Hp Ho m.
  pose proof (un_heap _ _ _ (session_unpatched attr ops s s Ho Hw (unpatched_refl attr s Hp)) m) as H.
  change (attrs (uninstall (fold_left run_op ops s))) with (undone (fold_left run_op ops s)).
  split; [done|]. intros Hm. rewrite H. by apply session_keeps.
Qed.

(** An installation that returns has set every entry point of the table on the
    module it names, if that could be imported, provided no two names share a
    module object. *)
Theorem install_sets_every_entry_point fresh exports s s' m attr v o :
  _installed s = false -> install fresh exports None s = (s', true) ->
  (forall a b o, modules s' !! a = Some o -> modules s' !! b = Some o -> a = b) ->
  (m, attr, v) ∈ table -> modules s' !! m = Some o -> attrs s' !! (o, attr) = Some v.
Proof.
  intros Hi Hs Hinj Hin Hm. apply install_result in Hs as (mods & fa & s2 & Hmods & ->); [|done].
  rewrite Hmods in Hinj, Hm. unfold patches. rewrite run_patches_app. apply run_exports. rewrite run_table.
  apply insert_all; [by apply places_distinct|]. apply list_elem_of_omap. exists (m, attr, v). cbn. by rewrite Hm.
Qed.

(** Installing again after the modules were dropped or imported afresh puts the
    modules of the first installation back: those names map to the very same
    objects, no other module of the two packages is left, and modules of other
    packages are not touched. *)
Theorem reinstall_restores_canonical_modules fresh exports broken s :
  _installed s = false -> _CANONICAL_MODULES s <> ∅ ->
  (forall m, m ∈ imported -> is_Some (_CANONICAL_MODULES s !! m)) ->
  let s' := (install fresh exports broken s).1 in
  forall name, modules s' !! name =
    match _CANONICAL_MODULES s !! name with
    | Some o => Some o
    | None => if _is_target_key name then None else modules s !! name
    end.
Proof.
  intros Hi Hc Him s' name. unfold s'. rewrite (install_modules fresh exports broken s Hi Hc Him).
  unfold restore_canonical. rewrite bool_decide_eq_false_2 by done. rewrite lookup_union.
  destruct (_CANONICAL_MODULES s !! name) as [o|] eqn:E; [by rewrite union_Some_l|]. rewrite (left_id_L None _).
  destruct (modules s !! name) as [o|] eqn:Em.
  - destruct (_is_target_key name) eqn:Et.
    + apply map_lookup_filter_None. right. intros x Hx [H|H]; cbn in *; [congruence|by rewrite E in H; destruct H].
    + apply map_lookup_filter_Some. split; [done|]. by left.
  - destruct (_is_target_key name); apply map_lookup_filter_None; by left.
Qed.

(** The JSON in the documentation pages cannot end a script: whatever was
    encoded, no angle bracket or ampersand is left. *)
Theorem html_safe_json_is_safe encoded c :
  c ∈ _html_safe_json encoded -> c <> "<"%char /\ c <> ">"%char /\ c <> "&"%char.
Proof.
  unfold _html_safe_json. intros H.
  apply replace_char_elem in H as [[H H3]|H]; [|apply escapes_are_plain; tauto].
  apply replace_char_elem in H as [[H H2]|H]; [|apply escapes_are_plain; tauto].
  apply replace_char_elem in H as [[H H1]|H]; [|apply escapes_are_plain; tauto].
  done.
Qed.

(** ** Witnesses *)

Definition pristine : shim :=
  {| _installed := false; _PATCHES := []; attrs := {[ (7%nat, lit "FastAPI") := lit "fastapi.FastAPI" ]};
     modules := {[ lit "fastapi" := 7%nat ]}; next_obj := 8; _CANONICAL_MODULES := ∅; PRESHIM := None |}.

Lemma pristine_wf : wf pristine.
Proof.
  split; cbn.
  - by intros ? ? ? ?%not_elem_of_nil.
  - intros name o [_ <-]%lookup_singleton_Some. lia.
  - intros name o H. by rewrite lookup_empty in H.
Qed.

(** An import loads the module itself, with one attribute. *)
Definition import0 (m : text) : list (text * namespace) * bool :=
  if optional m then ([], false) else ([(m, [(lit "FastAPI", lit "real FastAPI")])], true).

Definition session : list op :=
  [OInstall import0 [(lit "HTMLResponse", Some (lit "responses.HTMLResponse"))] (Some 5%nat);
   OInstall import0 [] None; OInstall import0 [] None; OUninstall; OInstall import0 [] (Some 3%nat)].

Lemma import0_unbound : unbound import0 (lit "FastAPI").
Proof.
  assert (forallb (fun m => negb (bool_decide (last_part m = lit "FastAPI"))) imported = true) as H
    by (vm_compute; reflexivity).
  intros m Hm. unfold import0. destruct (optional m); constructor; [|constructor].
  rewrite forallb_forall in H. apply list_elem_of_In, H, negb_true_iff, bool_decide_eq_false in Hm. exact Hm.
Qed.

Lemma uninstall_restores_the_packages_witness :
  attrs (uninstall (fold_left run_op session pristine)) !! (7%nat, lit "FastAPI") = Some (lit "fastapi.FastAPI").
Proof.
  refine (proj2 (uninstall_restores_the_packages pristine session (lit "FastAPI") pristine_wf eq_refl _ 7%nat) _);
    [|cbn; lia].
  repeat (apply Forall_cons_2; [first [exact import0_unbound|exact I]|]). apply Forall_nil_2.
Defined.

(** A submodule that an installation loaded stays an attribute of its package. *)
Example submodules_stay_bound :
  attrs pristine !! (7%nat, lit "applications") = None /\
  is_Some (attrs (uninstall (fold_left run_op session pristine)) !! (7%nat, lit "applications")).
Proof. split; [reflexivity|]. eexists. vm_compute. reflexivity. Qed.

End Shim.
