(* ===== verification/Helpers.v ===== *)
(** The thread pool helpers ([concurrency.py]) and the templates
    ([templating.py]). *)

From S2P Require Import Prelude Dicts.

Module Helpers.

(** ** Thread pool *)

(** What calling a function gives: a value, an exception, or the marker
    [_StopThreadpoolIteration]. *)
Inductive called (A : Type) := Returned (a : A) | Raised (e : exn) | StopMarker.
Arguments Returned {A}. Arguments Raised {A}. Arguments StopMarker {A}.

(** [run_in_threadpool]: called on a worker of the loop's executor, or directly
    when no loop runs; in both cases the outcome is the function's. *)
Inductive where_ := OnWorker | Inline.

Definition run_in_threadpool {A} (loop : bool) (f : called A) : where_ * called A :=
  (if loop then OnWorker else Inline, f).

(** An iterator: its next items, and the exception it ends with, if any. *)
Record iterator := { items : list nat; failure : option exn }.

Definition _threadpool_next (it : iterator) : iterator * called nat :=
  match items it with
  | x :: l => ({| items := l; failure := failure it |}, Returned x)
  | [] => match failure it with
          | Some e => ({| items := []; failure := None |}, Raised e)
          | None => (it, StopMarker)
          end
  end.

(** [iterate_in_threadpool]: the source and the iterator over it.  An iterator is
    its own iterator; over another iterable ([restarts]) each [iter] starts anew.
    *)
Record iterate := { restarts : bool; source : iterator; _iter : iterator }.

Definition iterate_in_threadpool (restarts : bool) (it : iterator) : iterate :=
  {| restarts := restarts; source := it; _iter := it |}.

(** The end of an asynchronous iteration. *)
Inductive next := Item (n : nat) | StopAsyncIteration | NextRaised (e : exn).

Definition __anext__ (loop : bool) (t : iterate) : iterate * next :=
  let '(it, r) := _threadpool_next (_iter t) in
  ({| restarts := restarts t; source := if restarts t then source t else it; _iter := it |},
   match (run_in_threadpool loop r).2 with
   | Returned n => Item n
   | StopMarker => StopAsyncIteration
   | Raised e => NextRaised e
   end).

(** [async for], with whether a loop runs at each step. *)
Fixpoint async_for (fuel : nat) (loops : nat -> bool) (t : iterate) : list nat * option (option exn) :=
  match fuel with
  | O => ([], None)
  | S fuel' =>
      let '(t', r) := __anext__ (loops fuel') t in
      match r with
      | Item n => let '(l, e) := async_for fuel' loops t' in (n :: l, e)
      | StopAsyncIteration => ([], Some None)
      | NextRaised e => ([], Some (Some e))
      end
  end.

(** What the Rust door drives: [iter(_fastapi_turbo_sync_source)]. *)
Definition sync_source (t : iterate) : iterator := source t.

(** [run_until_first_complete], when [asyncio.wait] returns: the ended tasks give
    their results in turn, after the others were cancelled. *)
Inductive task := Ended (r : res nat) | Pending.

Fixpoint results (l : list task) : res (list nat) :=
  match l with
  | [] => Ok []
  | Pending :: l' => results l'
  | Ended (Raise e) :: _ => Raise e
  | Ended (Ok n) :: l' => match results l' with Ok ns => Ok (n :: ns) | Raise e => Raise e end
  end.

Definition cancelled (l : list task) : list bool :=
  (fun t => match t with Pending => true | Ended _ => false end) <$> l.

Definition run_until_first_complete (l : list task) : list bool * res (list nat) := (cancelled l, results l).

(** ** Templates *)

(** The first two positional arguments of [TemplateResponse]. *)
Inductive arg1 := Name (n : text) | NoArg | Request (r : text).
Inductive arg2 := NoArg2 | Name2 (n : text) | Context (d : list (text * text)).

(** The call: the keyword [context] (a dict object, if given) and the keywords
    [name] and [request]. *)
Record template_call := {
  name_or_request : arg1; name_or_context : arg2; context : option (list (text * text));
  kw_name : option text; kw_request : option text }.

(** The template and context rendered, and what the dict given as [context] holds
    afterwards. *)
Section Templates.

(** Whether a request has [url_for], and the function bound to it. *)
Variable has_url_for : text -> bool.
Variable url_for_of : text -> text.

Definition bind_url_for (ctx : list (text * text)) : list (text * text) :=
  match Dicts.get ctx (lit "request") with
  | Some r => if has_url_for r then Dicts.set_item ctx (lit "url_for", url_for_of r) else ctx
  | None => ctx
  end.

Definition render (name : option text) (ctx : list (text * text)) : res (text * list (text * text)) :=
  match name with Some n => Ok (n, bind_url_for ctx) | None => Raise TypeError end.

Definition TemplateResponse (c : template_call)
    : res (text * list (text * text)) * option (list (text * text)) :=
  match name_or_request c with
  | Name n => (render (Some n) (match name_or_context c with Context d => d | _ => default [] (context c) end), context c)
  | NoArg =>
      let ctx := default [] (context c) in
      (render (kw_name c) (match kw_request c with Some r => Dicts.set_item ctx (lit "request", r) | None => ctx end),
       context c)
  | Request r =>
      let ctx := Dicts.set_item (default [] (context c)) (lit "request", r) in
      (render (match name_or_context c with Name2 n => Some n | _ => None end) ctx,
       match context c with Some (_ :: _) => Some ctx | o => o end)
  end.

End Templates.

(** ** Theorems *)

(** Iterating over a synchronous source through the thread pool gives its items,
    in order, and ends or fails as it does, whether or not a loop runs at each
    step. *)
Theorem threadpool_iteration_is_the_source loops restarts it :
  async_for (S (length (items it))) loops (iterate_in_threadpool restarts it) = (items it, Some (failure it)).
Proof.
  unfold iterate_in_threadpool. destruct it as [l e]. cbn [items failure].
  assert (forall s, async_for (S (length l)) loops
    {| restarts := restarts; source := s; _iter := {| items := l; failure := e |} |} = (l, Some e)) as H; [|apply H].
  induction l as [|x l IH]; intros s; [by destruct e|].
  cbn [length]. change (async_for (S (S (length l))) loops ?t) with
    (let '(t', r) := __anext__ (loops (S (length l))) t in
     match r with
     | Item n => let '(l0, e0) := async_for (S (length l)) loops t' in (n :: l0, e0)
     | StopAsyncIteration => ([], Some None)
     | NextRaised e0 => ([], Some (Some e0))
     end).
  unfold __anext__, _threadpool_next. cbn [_iter items failure]. cbn -[async_for]. by rewrite IH.
Qed.

(** After some items were taken through the wrapper the door continues where it
    stands when the source is an iterator, but starts over when it is another
    iterable, so that its first items go out twice. *)
Theorem reiterable_source_starts_over x l e restarts loop :
  let t := iterate_in_threadpool restarts {| items := x :: l; failure := e |} in
  (__anext__ loop t).2 = Item x /\
  items (sync_source (__anext__ loop t).1) = if restarts then x :: l else l.
Proof. by destruct restarts. Qed.

(** All unfinished tasks are cancelled whatever the finished ones did, and the
    results are those of the finished ones in order, unless one of them failed.
    *)
Theorem first_complete_cancels_the_rest l :
  (forall i, l !! i = Some Pending <-> (run_until_first_complete l).1 !! i = Some true) /\
  (forall ns, (run_until_first_complete l).2 = Ok ns ->
     omap (fun t => match t with Ended (Ok n) => Some n | _ => None end) l = ns /\
     Forall (fun t => match t with Ended (Raise _) => False | _ => True end) l).
Proof.
  split.
  - intros i. cbn. unfold cancelled. rewrite list_lookup_fmap. destruct (l !! i) as [[r|]|]; cbn; split; congruence || done.
  - cbn. induction l as [|[[n|e]|] l IH]; cbn; intros ns.
    + by intros [= <-].
    + destruct (results l) as [ns'|] eqn:E; [|done]. intros [= <-]. destruct (IH ns' eq_refl) as [-> H].
      split; [done|by constructor].
    + done.
    + intros Hr. destruct (IH ns Hr) as [-> H]. split; [done|by constructor].
Qed.

(** The three documented ways of naming a template render the same: the same
    template with the same context. *)
Theorem template_styles_agree has_url_for url_for_of r n d :
  (TemplateResponse has_url_for url_for_of
     {| name_or_request := Request r; name_or_context := Name2 n; context := Some d; kw_name := None; kw_request := None |}).1 =
  (TemplateResponse has_url_for url_for_of
     {| name_or_request := NoArg; name_or_context := NoArg2; context := Some d; kw_name := Some n; kw_request := Some r |}).1 /\
  (TemplateResponse has_url_for url_for_of
     {| name_or_request := Request r; name_or_context := Name2 n; context := Some d; kw_name := None; kw_request := None |}).1 =
  (TemplateResponse has_url_for url_for_of
     {| name_or_request := Name n; name_or_context := Context (Dicts.set_item d (lit "request", r)); context := None;
        kw_name := None; kw_request := None |}).1.
Proof. done. Qed.

(** The request given by position and the name by keyword, which Starlette
    accepts, fails; and the first style writes the request into the caller's
    dict, unless that is empty. *)
Theorem mixed_template_style_fails has_url_for url_for_of r n d p :
  (TemplateResponse has_url_for url_for_of
     {| name_or_request := Request r; name_or_context := NoArg2; context := Some d; kw_name := Some n; kw_request := None |}).1
  = Raise TypeError /\
  (TemplateResponse has_url_for url_for_of
     {| name_or_request := Request r; name_or_context := Name2 n; context := Some (p :: d); kw_name := None;
        kw_request := None |}).2 = Some (Dicts.set_item (p :: d) (lit "request", r)).
Proof. done. Qed.

End Helpers.
