(* ===== verification/Requests.v ===== *)
(** Requests built for Python code (requests.py: [_door_make_request];
    _middleware_wrap.py: [_make_scope] and the scope of [_drive_async_fallback];
    applications.py: [_build_404_request]; websockets.py: the cached scope of a
    connection; exceptions.py: [_loc_as_tuples]).  Dicts that are shared (the
    state of a request, the scope of a connection) are on a heap. *)

From S2P Require Import Prelude Urls ServerArgs.

Module Requests.

(** ** Scopes *)

Abbreviation heap := (gmap nat (gmap text text)) (only parsing).

(** The attributes of an application that are read here; [a_state] is
    [_app_state], a dict or absent. *)
Record app := { a_root : text; a_state : option nat }.

(** The keys of a scope, [None] when absent. *)
Record scope := Scope {
  s_type : option text;
  s_method : option text;
  s_path : option text;
  s_query : option bytes;
  s_scheme : option text;
  s_headers : option (list (bytes * bytes));
  s_server : option (text * Z);
  s_root : option text;
  s_state : option nat;
  s_app : option app;
  s_route : option nat;
  s_fastapi : option nat;      (* scope["fastapi"]["effective_route_context"] *)
  s_body : option bytes;
  s_kwargs : option nat        (* scope["_handler_kwargs"], a dict *)
}.

Record request := { r_scope : scope; r_body : bytes }.

Definition or_text (t d : text) : text := match t with [] => d | _ => t end.

(** The path below the root path, as the look-up of the context takes it. *)
Definition route_path (path root : text) : text :=
  match root with
  | [] => path
  | _ => if starts_with root path then drop (length root) path else path
  end.

Section Environment.

(** The contexts stamped on route objects ([ServerArgs]), and the match of a
    context's [path_regex], if it has one. *)
Variable stamped : gmap nat ServerArgs.stamp.
Variable path_regex : nat -> option (text -> bool).

Definition regex_matches (p : text) (c : nat) : bool :=
  match path_regex c with Some f => f p | None => false end.

Definition choose (ctxs : list nat) (path root : text) : option nat :=
  match ctxs with
  | [] => None
  | [c] => Some c
  | c :: _ => Some (default c (snd <$> list_find (fun c => regex_matches (route_path (or_text path "/") root) c) ctxs))
  end.

Definition ctxs_of (r : option nat) : list nat :=
  match r ≫= (fun r => stamped !! r) with Some s => ServerArgs.effective_ctxs s | None => [] end.

(** [dict(seed) if seed else {}] *)
Definition seed_state (h : heap) (a : option app) : gmap text text :=
  default ∅ ((a ≫= a_state) ≫= (fun l => h !! l)).

Definition _door_make_request (h : heap) (s : scope) : heap * scope * request :=
  let root := default (default [] (a_root <$> s_app s)) (s_root s) in
  let path := default (lit "/") (s_path s) in
  let '(h', state) := match s_state s with
                      | Some l => (h, l)
                      | None => let l := fresh (dom h) in (<[ l := seed_state h (s_app s) ]> h, l)
                      end in
  let s' := {| s_type := Some (default (lit "http") (s_type s));
               s_method := Some (default (lit "GET") (s_method s));
               s_path := Some path;
               s_query := Some (default [] (s_query s));
               s_scheme := Some (default (lit "http") (s_scheme s));
               s_headers := Some (default [] (s_headers s));
               s_server := s_server s;
               s_root := Some root;
               s_state := Some state;
               s_app := s_app s;
               s_route := s_route s;
               s_fastapi := match s_fastapi s with
                            | Some c => Some c
                            | None => choose (ctxs_of (s_route s)) path root
                            end;
               s_body := s_body s;
               s_kwargs := s_kwargs s |} in
  (h', s', {| r_scope := s'; r_body := default [] (s_body s) |}).

End Environment.

(** ** The scope of the middlewares' request *)

(** Keyword arguments of a handler call, as far as they are read or taken here;
    the engine sets the request line as text, the headers as a list and the raw
    body as bytes. *)
Inductive kwarg := KText (t : text) | KBytes (b : bytes) | KHeaders (l : list (bytes * bytes)) | KOther (n : nat).

Definition as_text (d : text) (k : option kwarg) : text := match k with Some (KText t) => t | _ => d end.

Definition taken : list text :=
  [lit "_request_headers"; lit "_request_method"; lit "_request_path"; lit "_request_query"].

Definition raw_body (kw : gmap text kwarg) : bytes :=
  match kw !! lit "__fastapi_turbo_raw_body_bytes__" with
  | Some (KBytes b) => b
  | Some _ => []
  | None => match kw !! lit "__fastapi_turbo_raw_body_str__" with
            | Some (KBytes b) => b
            | Some (KText t) => Urls.utf8 t
            | _ => []
            end
  end.

Definition request_headers (kw : gmap text kwarg) : list (bytes * bytes) :=
  match kw !! lit "_request_headers" with Some (KHeaders l) => l | _ => [] end.

Definition host_header (hs : list (bytes * bytes)) : text :=
  default [] (snd <$> (snd <$> list_find (fun p => lower p.1 = lit "host") hs)).

(** [h.rsplit(":", 1)] of a text with a colon. *)
Definition rsplit_colon (h : text) : text * text :=
  let '(b, a) := partition_at ":" (reverse h) in (reverse a, reverse b).

(** The tuple is assigned before the port is converted. *)
Definition server_of (host : text) : text * Z :=
  let '(name, port) :=
    if bool_decide (":"%char ∈ host) then
      let '(name, p) := rsplit_colon host in (name, default 80 (py_int is_space_latin1 p))
    else (host, 80) in
  (or_text name "testserver", port).

(** [kwargs] is the dict at [ref]: the four keys are popped from it, and it is
    itself put into the scope. *)
Definition _make_scope (a : app) (ref : nat) (kw : gmap text kwarg) : gmap text kwarg * scope :=
  (filter (fun p => p.1 ∉ taken) kw,
   {| s_type := Some (lit "http");
      s_method := Some (as_text "GET" (kw !! lit "_request_method"));
      s_path := Some (as_text "/" (kw !! lit "_request_path"));
      s_query := Some (Urls.utf8 (as_text [] (kw !! lit "_request_query")));
      s_scheme := Some (lit "http");
      s_headers := Some (request_headers kw);
      s_server := Some (server_of (host_header (request_headers kw)));
      s_root := Some (a_root a);
      s_state := None; s_app := Some a; s_route := None; s_fastapi := None;
      s_body := Some (raw_body kw);
      s_kwargs := Some ref |}).

(** The scope [_drive_async_fallback] makes its own request from. *)
Definition fallback_scope (a : app) (ref : nat) : scope :=
  {| s_type := Some (lit "http"); s_method := None; s_path := None; s_query := None; s_scheme := None;
     s_headers := None; s_server := None; s_root := None; s_state := None; s_app := Some a; s_route := None;
     s_fastapi := None; s_body := None; s_kwargs := Some ref |}.

(** [_build_404_request]; names and values of headers are text or bytes, the
    query too. *)
Definition latin1 (k : text + bytes) : bytes := match k with inl t => t | inr b => b end.

Definition scope_404 (a : app) (method path : text) (query : option (text + bytes))
    (headers : option (list ((text + bytes) * (text + bytes)))) : scope :=
  {| s_type := Some (lit "http"); s_method := Some method; s_path := Some path;
     s_query := Some (match query with Some (inr b) => b | Some (inl t) => Urls.utf8 t | None => [] end);
     s_scheme := None;
     s_headers := Some ((fun p => (latin1 p.1, latin1 p.2)) <$> default [] headers);
     s_server := None; s_root := None; s_state := None; s_app := Some a; s_route := None; s_fastapi := None;
     s_body := None; s_kwargs := None |}.

(** ** The scope of a WebSocket object *)

(** [rust_scope]: what [get_scope_dict] of the Rust socket gives, [None] when it
    raises. *)
Record ws := { w_cache : option nat; w_override : option nat; w_rust : option (option (gmap text text)) }.

Definition ws_scope (h : heap) (w : ws) : heap * ws * nat :=
  match w_cache w with
  | Some l => (h, w, l)
  | None =>
      let d := match w_override w, w_rust w with
               | Some l, _ => default ∅ (h !! l)
               | None, Some (Some d) => d
               | None, _ => {[ lit "type" := lit "websocket" ]}
               end in
      let l := fresh (dom h) in
      (<[ l := d ]> h, {| w_cache := Some l; w_override := w_override w; w_rust := w_rust w |}, l)
  end.

(** ** Locations of validation errors *)

Inductive loc := LocList (l : list text) | LocTuple (l : list text).
Record error := { e_loc : option loc; e_rest : gmap text text }.

Definition _loc_as_tuples (es : list error) : list error :=
  (fun e => match e_loc e with
            | Some (LocList l) => {| e_loc := Some (LocTuple l); e_rest := e_rest e |}
            | _ => e
            end) <$> es.

(** ** Theorems *)

Section Building.

Variable stamped : gmap nat ServerArgs.stamp.
Variable path_regex : nat -> option (text -> bool).

Notation _door_make_request := (_door_make_request stamped path_regex).
Notation choose := (choose path_regex).

(** Every request built from one scope is the same request: building another
    one changes neither the scope nor any dict, so they share their state (what a
    middleware stores the handler sees), root path and context. *)
Theorem requests_of_a_scope_agree h s :
  let '(h', s', r) := _door_make_request h s in _door_make_request h' s' = (h', s', r).
Proof.
  unfold _door_make_request. destruct (s_state s) as [l|]; cbn; destruct (s_fastapi s) as [c|]; cbn; try done.
  all: by destruct (choose _ _ _).
Qed.

(** The state of a request is a dict of its own: it starts as the state the
    lifespan left, and no dict that existed, that state included, is touched by
    building the request or by what is stored through it later. *)
Theorem request_state_is_a_copy h s a l d k v :
  s_state s = None -> s_app s = Some a -> a_state a = Some l -> h !! l = Some d ->
  let '(h', s', _) := _door_make_request h s in
  exists l', s_state s' = Some l' /\ h' !! l' = Some d /\
    forall m, is_Some (h !! m) -> <[ l' := <[ k := v ]> d ]> h' !! m = h !! m.
Proof.
  intros Hs Ha Hl Hd. unfold _door_make_request. rewrite Hs. cbn.
  pose proof (is_fresh (dom h)) as Hf. exists (fresh (dom h)). split; [done|].
  unfold seed_state. rewrite Ha. cbn. rewrite Hl. cbn. rewrite Hd. split; [by rewrite lookup_insert_eq|].
  intros m Hm. rewrite insert_insert_eq, lookup_insert_ne; [done|].
  intros <-. by apply Hf, elem_of_dom.
Qed.

(** A route that is included several times gets the context of the inclusion
    whose expression matches the request, the first of them in the order of
    inclusion. *)
Lemma choose_matching c1 c2 cs path root c l1 l2 :
  c1 :: c2 :: cs = l1 ++ c :: l2 ->
  let p := route_path (or_text path "/") root in
  regex_matches path_regex p c = true -> Forall (fun c => regex_matches path_regex p c = false) l1 ->
  choose (c1 :: c2 :: cs) path root = Some c.
Proof.
  intros E p Hc Hl. unfold choose, Requests.choose. fold p. rewrite E.
  assert (list_find (fun c => regex_matches path_regex p c) (l1 ++ c :: l2) = Some (length l1, c)) as ->; [|done].
  apply list_find_Some. split_and!.
  - by rewrite lookup_app_r, Nat.sub_diag.
  - by rewrite Hc.
  - intros j y Hy Hj. rewrite lookup_app_l in Hy by done. apply (list_elem_of_lookup_2 l1) in Hy.
    rewrite Forall_forall in Hl. rewrite (Hl _ Hy). by intros [].
Qed.

(** After a registration, a request for a route reached by inclusions has a
    context, one of those the inclusions of this registration gave for the route,
    and one whose expression matches the path if any of several does. *)
Theorem request_gets_context_of_its_inclusion tok settable markers m h s r c cs :
  stamped = ServerArgs._stamp_effective_route_contexts tok settable markers m ->
  (forall r s, m !! r = Some s -> ServerArgs.token s <> tok) -> settable r = true ->
  (filter (fun p : nat * nat => p.1 = r) (concat markers)).*2 = c :: cs ->
  s_route s = Some r -> s_fastapi s = None ->
  let '(_, s', _) := _door_make_request h s in
  exists x, s_fastapi s' = Some x /\ x ∈ c :: cs /\
    let p := route_path (or_text (default (lit "/") (s_path s)) "/") (default [] (s_root s')) in
    (cs <> [] -> (exists y, y ∈ c :: cs /\ regex_matches path_regex p y = true) ->
     regex_matches path_regex p x = true).
Proof.
  intros Est Hf Hset Hmine Hr Hfa.
  pose proof (ServerArgs.stamps_are_of_this_registration tok settable markers m r Hf Hset) as Hst. cbv zeta in Hst.
  rewrite Hmine, <-Est in Hst.
  assert (ctxs_of stamped (s_route s) = c :: cs) as Hcs by (unfold ctxs_of; rewrite Hr; cbn; by rewrite Hst).
  unfold _door_make_request, Requests._door_make_request. rewrite Hfa, Hcs. set (path := default (lit "/") (s_path s)).
  set (root := default (default [] (a_root <$> s_app s)) (s_root s)).
  destruct (match s_state s with Some l => _ | None => _ end) as [h' st]. cbn [s_fastapi s_root]. change (default [] (Some root)) with root.
  unfold Requests.choose. destruct cs as [|c' cs]; [exists c; split_and!; [done|set_solver|done]|].
  set (p := route_path (or_text path "/") root).
  destruct (list_find (fun c0 => regex_matches path_regex p c0) (c :: c' :: cs)) as [[i x]|] eqn:E.
  - apply list_find_Some in E as (Hi & Hx & _). exists x. split_and!; [done|by eapply list_elem_of_lookup_2|].
    intros _ _. by apply Is_true_true.
  - apply list_find_None in E. exists c. split_and!; [done|set_solver|]. intros _ (y & Hy & Hm).
    rewrite Forall_forall in E. specialize (E y Hy). rewrite Hm in E. by destruct E.
Qed.

(** The root path is cut off wherever the path merely starts with its letters:
    the request for [/apiv2/x] under the root path [/api] looks for a context
    that matches [v2/x], and gets the first one. *)
Theorem root_path_is_cut_inside_a_segment c1 c2 cs root rest :
  root <> [] ->
  (forall c f, path_regex c = Some f -> forall p, f p = true -> starts_with "/" p = true) ->
  starts_with "/" rest = false ->
  choose (c1 :: c2 :: cs) (root ++ rest) root = Some c1.
Proof.
  intros Hr Hre Hs. unfold choose, Requests.choose.
  assert (route_path (or_text (root ++ rest) "/") root = rest) as ->.
  { unfold route_path, or_text. destruct root as [|a root]; [done|]. cbn [Datatypes.app].
    change (a :: root ++ rest) with ((a :: root) ++ rest). by rewrite starts_with_app, drop_app_length. }
  destruct (list_find _ _) as [[i x]|] eqn:E; [|done]. exfalso.
  apply list_find_Some in E as (_ & Hx & _). unfold regex_matches in Hx.
  destruct (path_regex x) as [f|] eqn:Ef; [|done]. destruct (f rest) eqn:Ef'; [|done].
  by rewrite (Hre _ _ Ef _ Ef') in Hs.
Qed.

End Building.

(** *** The middlewares' request *)

Lemma rsplit_colon_last h p : ":"%char ∉ p -> rsplit_colon (h ++ ":" ++ p) = (h, p).
Proof.
  intros Hp. unfold rsplit_colon. cbn. rewrite reverse_app, reverse_cons, <-app_assoc. cbn.
  rewrite partition_at_app by (by rewrite elem_of_reverse). by rewrite !reverse_involutive.
Qed.

Lemma dec_no_colon z : ":"%char ∉ dec z.
Proof. intros [H|H]%dec_chars; [unfold is_digit in H; set_solver|done]. Qed.

Lemma server_of_split h p : ":"%char ∉ p ->
  server_of (h ++ ":" ++ p) = (or_text h "testserver", default 80 (py_int is_space_latin1 p)).
Proof. intros Hp. unfold server_of. rewrite bool_decide_eq_true_2 by set_solver. by rewrite rsplit_colon_last. Qed.

(** The server of a scope is read off the first [Host] header, whatever the
    letters of its name and whatever headers follow: a host and a decimal port
    are given back as they were written, a bracketed IPv6 address with a port
    included; without a colon the port is 80. *)
Theorem server_is_read_off_the_host_header a ref kw pre name host port post :
  kw !! lit "_request_headers" = Some (KHeaders (pre ++ (name, host ++ ":" ++ dec port) :: post)) ->
  Forall (fun p : bytes * bytes => lower p.1 <> lit "host") pre -> lower name = lit "host" -> host <> [] ->
  s_server (_make_scope a ref kw).2 = Some (host, port).
Proof.
  intros Hk Hpre Hn Hh. cbn [_make_scope snd s_server]. unfold request_headers. rewrite Hk. f_equal.
  assert (host_header (pre ++ (name, host ++ ":" ++ dec port) :: post) = host ++ ":" ++ dec port) as ->.
  { unfold host_header.
    assert (list_find (fun p : bytes * bytes => lower p.1 = lit "host") (pre ++ (name, host ++ ":" ++ dec port) :: post)
            = Some (length pre, (name, host ++ ":" ++ dec port))) as ->; [|done].
    apply list_find_Some. split_and!; [by rewrite lookup_app_r, Nat.sub_diag|done|].
    intros j y Hy Hj. rewrite lookup_app_l in Hy by done. rewrite Forall_forall in Hpre.
    by eapply Hpre, list_elem_of_lookup_2. }
  rewrite server_of_split by apply dec_no_colon.
  rewrite py_int_dec by apply digit_not_space_latin1. by destruct host.
Qed.

(** A host whose last colon is not before a port loses what follows it: the name
    is assigned before the conversion fails.  The IPv6 address [[::1]] gives the
    server name [[:]. *)
Theorem unported_ipv6_host_is_mangled h p :
  h <> [] -> ":"%char ∉ p -> py_int is_space_latin1 p = None -> server_of (h ++ ":" ++ p) = (h, 80).
Proof. intros Hh Hp Hi. rewrite server_of_split, Hi by done. by destruct h. Qed.

Lemma unported_ipv6_host_is_mangled_witness : server_of "[::1]" = (lit "[:", 80).
Proof. exact (unported_ipv6_host_is_mangled "[:" "1]" ltac:(done) ltac:(set_solver) eq_refl). Defined.

(** The middlewares' request shows the request line, headers and body the engine
    passed, and leaves to the handler every argument but the four it took. *)
Theorem middleware_request_is_the_request stamped path_regex h a ref kw :
  let '(kw', s) := _make_scope a ref kw in
  let '(_, s', r) := _door_make_request stamped path_regex h s in
  (forall k, kw' !! k = if bool_decide (k ∈ taken) then None else kw !! k) /\
  s_method s' = Some (as_text "GET" (kw !! lit "_request_method")) /\
  s_path s' = Some (as_text "/" (kw !! lit "_request_path")) /\
  s_headers s' = Some (request_headers kw) /\
  r_body r = raw_body kw /\ raw_body kw' = raw_body kw.
Proof.
  cbn.
  assert (forall k, filter (fun p : text * kwarg => p.1 ∉ taken) kw !! k =
                    if bool_decide (k ∈ taken) then None else kw !! k) as Hl.
  { intros k. case_bool_decide as Hk.
    - apply map_lookup_filter_None. right. intros x _. cbn. tauto.
    - rewrite map_lookup_filter. destruct (kw !! k); cbn; [|done]. by rewrite option_guard_True. }
  split; [exact Hl|]. split_and!; try done. unfold raw_body. rewrite !Hl.
  by rewrite !bool_decide_eq_false_2 by (vm_compute; set_solver).
Qed.

(** Once a middleware has suspended for real, the chain is run again with a
    request of which nothing is known: whatever was requested, the middlewares
    see [GET /] without headers, query or body. *)
Theorem fallback_request_is_blank stamped path_regex h a ref :
  let '(_, s, r) := _door_make_request stamped path_regex h (fallback_scope a ref) in
  s_method s = Some (lit "GET") /\ s_path s = Some (lit "/") /\ s_query s = Some [] /\ s_headers s = Some [] /\
  s_server s = None /\ r_body r = [].
Proof. done. Qed.

(** The two requests of one call do not share their state either: what the
    middlewares stored on the first is not on the second, whose state is the
    application's again. *)
Theorem fallback_request_loses_state stamped path_regex h a ref kw l d d' :
  a_state a = Some l -> h !! l = Some d ->
  let '(h1, s1, _) := _door_make_request stamped path_regex h (_make_scope a ref kw).2 in
  let l1 := default 0%nat (s_state s1) in
  let '(h2, s2, _) := _door_make_request stamped path_regex (<[ l1 := d' ]> h1) (fallback_scope a ref) in
  let l2 := default 0%nat (s_state s2) in
  h2 !! l1 = Some d' /\ h2 !! l2 = Some d.
Proof.
  intros Ha Hd. cbn. set (l1 := fresh (dom h)). set (g := <[ l1 := d' ]> (<[ l1 := _ ]> h)).
  pose proof (is_fresh (dom h)) as Hf1. pose proof (is_fresh (dom g)) as Hf2. fold l1 in Hf1.
  assert (g !! l1 = Some d') as Hg by apply lookup_insert_eq.
  assert (l1 <> l) as Hne by (intros <-; by apply Hf1, (elem_of_dom_2 h _ d)).
  split.
  - rewrite lookup_insert_ne; [done|]. intros E. apply Hf2. unfold id in E. rewrite E. by apply elem_of_dom_2 in Hg.
  - unfold id. rewrite lookup_insert_eq. f_equal. unfold seed_state. cbn. rewrite Ha. cbn. unfold g.
    by rewrite !lookup_insert_ne, Hd.
Qed.

(** *** The scope of a connection *)

(** A connection has one scope: every access gives the same dict, whatever was
    stored in it meanwhile, and the dict the connection was made with is not
    touched. *)
Theorem connection_scope_is_one_dict h w d' :
  let '(h1, w1, l1) := ws_scope h w in
  ws_scope (<[ l1 := d' ]> h1) w1 = (<[ l1 := d' ]> h1, w1, l1) /\
  (w_cache w = None -> forall m, is_Some (h !! m) -> <[ l1 := d' ]> h1 !! m = h !! m).
Proof.
  unfold ws_scope. destruct (w_cache w) as [l|] eqn:E; [by rewrite E|]. cbn. split; [done|].
  intros _ m Hm. pose proof (is_fresh (dom h)) as Hf. rewrite insert_insert_eq, lookup_insert_ne; [done|].
  intros <-. by apply Hf, elem_of_dom.
Qed.

(** *** Locations *)

(** Errors given to handlers have tuples for locations and are otherwise the
    errors that were raised; converting twice changes nothing. *)
Theorem locations_are_tuples es :
  _loc_as_tuples (_loc_as_tuples es) = _loc_as_tuples es /\
  Forall (fun e => forall l, e_loc e <> Some (LocList l)) (_loc_as_tuples es) /\
  e_rest <$> _loc_as_tuples es = e_rest <$> es.
Proof.
  split_and!.
  - unfold _loc_as_tuples. rewrite <-list_fmap_compose. apply list_fmap_ext. intros _ [[[l|l]|] r] _; done.
  - apply Forall_fmap, Forall_true. intros [[[l|l]|] r]; cbn; congruence.
  - unfold _loc_as_tuples. rewrite <-list_fmap_compose. apply list_fmap_ext. intros _ [[[l|l]|] r] _; done.
Qed.

(** ** Examples *)

Definition demo_app : app := {| a_root := lit "/api"; a_state := Some 1%nat |}.
Definition demo_heap : heap := {[ 1%nat := {[ lit "db" := lit "pool" ]} ]}.
Definition demo_kwargs : gmap text kwarg :=
  {[ lit "_request_method" := KText "PUT"; lit "_request_path" := KText "/items/1";
     lit "_request_headers" := KHeaders [(lit "accept", lit "*/*"); (lit "Host", lit "[::1]:8000")];
     lit "item" := KOther 4 ]}.

Example demo_scope :
  s_server (_make_scope demo_app 0 demo_kwargs).2 = Some (lit "[::1]", 8000) /\
  (_make_scope demo_app 0 demo_kwargs).1 = {[ lit "item" := KOther 4 ]}.
Proof. by vm_compute. Qed.

Lemma server_is_read_off_the_host_header_witness :
  s_server (_make_scope demo_app 0 demo_kwargs).2 = Some (lit "[::1]", 8000).
Proof.
  apply (server_is_read_off_the_host_header demo_app 0 demo_kwargs [(lit "accept", lit "*/*")] (lit "Host") (lit "[::1]")
           8000 []); [by vm_compute| |by vm_compute|done].
  constructor; [by vm_compute|constructor].
Defined.

End Requests.
