(* ===== verification/OpenApi.v ===== *)
(** The OpenAPI document and what routes give to it (applications.py:
    [openapi], [_openapi_dynamic], [_openapi_real_callbacks]; routing.py:
    [APIRoute.__init__], [_derive_return_annotation]). *)

From S2P Require Import Prelude StreamHandler.

Module OpenApi.

Import StreamHandler.

#[local] Open Scope res_scope.

(** ** Servers and the cached document *)

Record server := { url : text; others : nat }.

(** [effective_servers] *)
Definition effective_servers (root_path : text) (in_servers : bool) (servers : list server) : list server :=
  match root_path with
  | [] => servers
  | _ => if in_servers then
           if existsb (fun s => bool_decide (url s = root_path)) servers then servers
           else {| url := root_path; others := 0 |} :: servers
         else servers
  end.

Section Document.

(** Documents; routes as collected; real FastAPI's [get_openapi] over the
    rebuilt routes. *)
Context {doc rd : Type}.
Variable get_openapi : list rd -> list rd -> list server -> res doc.
Variable from_mount : rd -> bool.

Record app := {
  openapi_schema : option doc;
  routes : list rd;
  webhooks : list rd;
  root_path : text;
  root_path_in_servers : bool;
  servers : list server;
  captured : list exn              (* _captured_server_exceptions *) }.

Definition set_schema (d : option doc) (a : app) : app :=
  {| openapi_schema := d; routes := routes a; webhooks := webhooks a; root_path := root_path a;
     root_path_in_servers := root_path_in_servers a; servers := servers a; captured := captured a |}.

Definition capture (e : exn) (a : app) : app :=
  {| openapi_schema := openapi_schema a; routes := routes a; webhooks := webhooks a; root_path := root_path a;
     root_path_in_servers := root_path_in_servers a; servers := servers a; captured := captured a ++ [e] |}.

Definition generate (a : app) : res doc :=
  get_openapi (filter (fun r => from_mount r = false) (routes a)) (webhooks a)
    (effective_servers (root_path a) (root_path_in_servers a) (servers a)).

Definition openapi (a : app) : app * res doc :=
  match openapi_schema a with
  | Some d => (a, Ok d)
  | None => match generate a with
            | Ok d => (set_schema (Some d) a, Ok d)
            | Raise e => (a, Raise e)
            end
  end.

(** [GET <openapi_url>]: the cache is dropped first; a failure is kept for the
    test client. *)
Definition _openapi_dynamic (a : app) : app * res doc :=
  match openapi (set_schema None a) with
  | (a, Ok d) => (a, Ok d)
  | (a, Raise e) => (capture e a, Raise e)
  end.

End Document.

(** ** Callbacks *)

(** An item of [callbacks]: a route with its own callbacks, a router (no
    [endpoint], some [routes]) with its prefix, or something without a path or
    an endpoint. *)
Record cb_route := { c_path : text; c_endpoint : nat; c_methods : list text; c_meta : nat }.

Inductive cb :=
| CRoute (r : cb_route) (nested : list cb)
| CRouter (prefix : text) (l : list cb)
| CBad.

Inductive real := Real (path : text) (endpoint : nat) (methods : list text) (meta : nat)
                       (callbacks : option (list real)).

Definition _http : list text :=
  [lit "GET"; lit "POST"; lit "PUT"; lit "PATCH"; lit "DELETE"; lit "OPTIONS"; lit "HEAD"; lit "TRACE"].

Definition real_methods (ms : list text) : list text :=
  match filter (fun m => m ∈ _http) ms with [] => ms | l => l end.

Section Callbacks.

(** Whether real [APIRoute] can be constructed with these arguments. *)
Variable builds : real -> bool.

Definition build (r : real) : option (list real) := if builds r then Some [r] else None.

Fixpoint convert (c : cb) : option (list real) :=
  let fix all l := match l with
                   | [] => Some []
                   | c :: l' => match convert c with
                                | None => None
                                | Some x => Datatypes.app x <$> all l'
                                end
                   end in
  match c with
  | CBad => None
  | CRouter _ l => all l
  | CRoute r [] => build (Real (c_path r) (c_endpoint r) (real_methods (c_methods r)) (c_meta r) None)
  | CRoute r nested =>
      match all nested with
      | None => None
      | Some ns => build (Real (c_path r) (c_endpoint r) (real_methods (c_methods r)) (c_meta r) (Some ns))
      end
  end.

Fixpoint _openapi_real_callbacks (l : list cb) : option (list real) :=
  match l with
  | [] => Some []
  | c :: l' => match convert c with
               | None => None
               | Some x => Datatypes.app x <$> _openapi_real_callbacks l'
               end
  end.

End Callbacks.

(** ** Construction of a route *)

(** Return annotations: [hints] is what [get_type_hints] gives for the return,
    [None] when it raises; [sig] the signature's, [None] when empty. *)
Record endpoint := {
  ep_func : option (option text);    (* __name__ of .func, for functools.partial *)
  ep_name : option text;
  ep_class : text;
  ep_hints : option (option model);
  ep_sig : option model;
  ep_kind : gen_kind }.

Definition _derive_return_annotation (ep : endpoint) : option model :=
  match ep_hints ep with
  | None => None
  | Some (Some m) => Some m
  | Some None => ep_sig ep
  end.

Definition _is_streaming_annotation (m : model) : bool := m_iterable m.

(** Arguments of [APIRoute]; the response model may be omitted, or explicitly
    [None].  [g_one] and [g_two] are the ways to call
    [generate_unique_id_function]. *)
Record unique_id := { g_one : res text; g_two : text -> res text }.

Record route_args := {
  a_methods : option (list text);
  a_model : option (option model);
  a_name : option text;
  a_operation_id : option text;
  a_unique_id : option unique_id;
  a_response_class : option nat;
  a_strict_content_type : option bool;
  a_openapi_extra : option (gmap text nat);
  a_callbacks : option (list nat);
  a_security : option (list nat);
  a_servers : option (list server);
  a_external_docs : option nat;
  a_kwargs : list (text * nat) }.

Definition _REAL_APIROUTE_PASSTHROUGH : list text :=
  lit <$> ["status_code"; "tags"; "dependencies"; "summary"; "description"; "response_description"; "responses";
           "deprecated"; "include_in_schema"; "response_model_include"; "response_model_exclude";
           "response_model_by_alias"; "response_model_exclude_unset"; "response_model_exclude_defaults";
           "response_model_exclude_none"; "dependency_overrides_provider"]%string.

Record route := {
  methods : list text;
  name : text;
  operation_id : option text;
  response_model : option model;
  response_field : bool;             (* response_field and secure_cloned_response_field are kept *)
  generate_unique_id_function : option unique_id;
  openapi_extra : gmap text nat;
  route_callbacks : list nat;
  security : option (list nat);
  route_servers : option (list server);
  external_docs : option nat;
  response_class : option nat;       (* given to real [__init__], and the next two *)
  strict_content_type : option bool;
  super_kwargs : list (text * nat) }.

Definition nonempty (t : option text) : option text := match t with Some [] => None | _ => t end.

Definition route_name (ep : endpoint) (given : option text) : text :=
  match nonempty given with
  | Some n => n
  | None => let own := match ep_func ep with Some n => n | None => ep_name ep end in
            default (ep_class ep) (nonempty own)
  end.

Section Construction.

(** The response model real [APIRoute.__init__] derives when none is given. *)
Variable derived : endpoint -> option model.

Definition APIRoute (ep : endpoint) (a : route_args) : res route :=
  let ms := match a_methods a with Some (m :: ms) => m :: ms | _ => [lit "GET"] end in
  oid <-- match a_operation_id a, a_unique_id a with
          | None, Some g => match g_one g with
                            | Raise TypeError => o <-- g_two g (default (lit "get") (head ms)) ;; Ok (Some o)
                            | Raise e => Raise e
                            | Ok o => Ok (Some o)
                            end
          | o, _ => Ok o
          end ;;
  let '(model, field) :=
    match a_model a with
    | Some m => (m, true)
    | None => match derived ep, _derive_return_annotation ep with
              | None, Some m => (if _is_streaming_annotation m then Some m else None, true)
              | None, None => (None, true)
              | Some m, Some _ => (Some m, true)
              | Some m, None => (None, false)
              end
    end in
  Ok {| methods := ms; name := route_name ep (a_name a); operation_id := oid; response_model := model;
        response_field := field; generate_unique_id_function := a_unique_id a;
        openapi_extra := default ∅ (a_openapi_extra a); route_callbacks := default [] (a_callbacks a);
        security := a_security a; route_servers := a_servers a; external_docs := a_external_docs a;
        response_class := a_response_class a; strict_content_type := a_strict_content_type a;
        super_kwargs := filter (fun p => p.1 ∈ _REAL_APIROUTE_PASSTHROUGH) (a_kwargs a) |}.

End Construction.

(** ** Theorems *)

(** *** Servers *)

(** With a root path configured, it is among the servers of the document exactly
    once more than it was declared, that is not again if it was; the declared
    servers keep their order, and without a root path nothing is added. *)
Theorem root_path_is_among_the_servers root b ss :
  let es := effective_servers root b ss in
  (exists l, es = l ++ ss /\ (length l <= 1)%nat) /\
  (root <> [] -> b = true -> root ∈ url <$> es) /\
  (NoDup (url <$> ss) -> NoDup (url <$> es)) /\
  effective_servers root b es = es.
Proof.
  unfold effective_servers. destruct root as [|c root]; [split_and!; [by exists []; split; [|cbn; lia]|done..]|].
  destruct b; [|split_and!; [by exists []; split; [|cbn; lia]|done..]].
  destruct (existsb (fun s => bool_decide (url s = c :: root)) ss) eqn:E.
  - split_and!; [by exists []; split; [|cbn; lia]| |done|by rewrite E].
    intros _ _. apply existsb_exists in E as (s & Hs & <-%bool_decide_eq_true).
    by apply list_elem_of_fmap_2, list_elem_of_In.
  - split_and!.
    + by exists [{| url := c :: root; others := 0 |}].
    + intros _ _. left.
    + intros Hd. cbn. constructor; [|done]. intros (s & Hu & Hs)%list_elem_of_fmap.
      apply not_true_iff_false in E. apply E, existsb_exists. exists s. split; [by apply list_elem_of_In|].
      by apply bool_decide_eq_true_2.
    + cbn. by rewrite bool_decide_eq_true_2.
Qed.

Section DocumentTheorems.

Context {doc rd : Type} (get_openapi : list rd -> list rd -> list server -> res doc) (from_mount : rd -> bool).

Notation openapi := (openapi get_openapi from_mount).
Notation _openapi_dynamic := (_openapi_dynamic get_openapi from_mount).
Notation generate := (generate get_openapi from_mount).

(** The document is generated once: after a call that succeeded every later call
    gives the same document and changes nothing, and a call that failed leaves
    the cache empty, so the next one tries again. *)
Theorem document_is_cached a a' r :
  openapi a = (a', r) ->
  match r with
  | Ok d => openapi a' = (a', Ok d)
  | Raise _ => a' = a /\ openapi_schema a' = None
  end.
Proof.
  unfold openapi, OpenApi.openapi. destruct (openapi_schema a) as [d|] eqn:E.
  - intros [= <- <-]. by rewrite E.
  - destruct (generate a) as [d|e] eqn:G; intros [= <- <-]; [done|by split].
Qed.

(** The route of the document never serves the cache: its answer is generated
    from the application as it is, whatever document was cached or put into
    [openapi_schema] by the user, and replaces it; a failure is recorded once. *)
Theorem served_document_is_fresh a d :
  let '(a', r) := _openapi_dynamic (set_schema d a) in
  r = generate a /\
  match r with
  | Ok x => openapi_schema a' = Some x /\ captured a' = captured a
  | Raise e => openapi_schema a' = None /\ captured a' = captured a ++ [e]
  end.
Proof.
  unfold _openapi_dynamic, OpenApi._openapi_dynamic, OpenApi.openapi. cbn [openapi_schema set_schema].
  change (generate (set_schema None (set_schema d a))) with (generate a).
  by destruct (generate a) as [x|e].
Qed.

End DocumentTheorems.

(** *** Callbacks *)

Section CallbackTheorems.

Variable builds : real -> bool.
Notation convert := (convert builds).
Notation _openapi_real_callbacks := (_openapi_real_callbacks builds).

Lemma convert_router p l : convert (CRouter p l) = _openapi_real_callbacks l.
Proof.
  induction l as [|c l IH]; [done|]. cbn [OpenApi._openapi_real_callbacks]. rewrite <-IH. done.
Qed.

Lemma convert_route r c nested : convert (CRoute r (c :: nested)) =
  match _openapi_real_callbacks (c :: nested) with
  | None => None
  | Some ns => build builds (Real (c_path r) (c_endpoint r) (real_methods (c_methods r)) (c_meta r) (Some ns))
  end.
Proof. by rewrite <-(convert_router [] (c :: nested)). Qed.

Fixpoint cb_ind' (P : cb -> Prop) (Hr : forall r l, Forall P l -> P (CRoute r l))
    (Hl : forall p l, Forall P l -> P (CRouter p l)) (Hb : P CBad) (c : cb) : P c :=
  let fix all l : Forall P l := match l with
                                | [] => List.Forall_nil _
                                | c :: l' => List.Forall_cons _ _ _ (cb_ind' P Hr Hl Hb c) (all l')
                                end in
  match c with
  | CRoute r l => Hr r l (all l)
  | CRouter p l => Hl p l (all l)
  | CBad => Hb
  end.

(** The routes of a list of callbacks, routers opened. *)
Fixpoint leaves (c : cb) : list (cb_route * list cb) :=
  match c with CRoute r l => [(r, l)] | CRouter _ l => concat (leaves <$> l) | CBad => [] end.

(** A rebuilt route is that of [r] with the callbacks below it. *)
Definition rebuilt (x : cb_route * list cb) (r : real) : Prop :=
  let '(Real p e ms m cbs) := r in
  p = c_path x.1 /\ e = c_endpoint x.1 /\ ms = real_methods (c_methods x.1) /\ m = c_meta x.1 /\
  cbs = match x.2 with [] => None | l => _openapi_real_callbacks l end /\ builds r = true.

Lemma convert_rebuilt c : forall out, convert c = Some out -> Forall2 rebuilt (leaves c) out.
Proof.
  induction c as [r l IH|p l IH|] using cb_ind'; intros out H; [| |done].
  - assert (exists cbs, out = [Real (c_path r) (c_endpoint r) (real_methods (c_methods r)) (c_meta r) cbs] /\
              cbs = match l with [] => None | l => _openapi_real_callbacks l end /\
              builds (Real (c_path r) (c_endpoint r) (real_methods (c_methods r)) (c_meta r) cbs) = true) as (cbs & -> & Hc & Hb).
    { destruct l as [|c l].
      - cbn in H. unfold build in H. case_match; simplify_eq. eauto.
      - rewrite convert_route in H. destruct (_openapi_real_callbacks (c :: l)) as [ns|]; [|done].
        unfold build in H. case_match; simplify_eq. eauto. }
    cbn [leaves]. constructor; [|constructor]. unfold rebuilt. cbn [fst snd]. split_and!; try done. by destruct l.
  - rewrite convert_router in H. cbn [leaves]. revert out H.
    induction IH as [|c l Hc _ IHl]; intros out H; cbn in H; [by simplify_eq; constructor|].
    destruct (convert c) as [x|] eqn:E; [|done]. destruct (_openapi_real_callbacks l) as [y|]; [|done].
    simplify_eq/=. apply Forall2_app; auto.
Qed.

(** The callbacks that are documented are the routes of the list, routers opened,
    in order, each with its own callbacks rebuilt the same way and with methods
    OpenAPI knows; one that cannot be rebuilt fails the whole list. *)
Theorem callbacks_are_rebuilt l :
  match _openapi_real_callbacks l with
  | Some out => Forall2 rebuilt (concat (leaves <$> l)) out
  | None => exists c, c ∈ l /\ convert c = None
  end.
Proof.
  induction l as [|c l IH]; [constructor|]. cbn [OpenApi._openapi_real_callbacks].
  destruct (convert c) as [x|] eqn:E; [|exists c; split; [left|done]].
  destruct (_openapi_real_callbacks l) as [out|]; cbn.
  - apply Forall2_app; [by apply convert_rebuilt|done].
  - destruct IH as (c' & Hc & ?). exists c'. split; [by right|done].
Qed.

(** The tree without the prefixes of its routers. *)
Fixpoint erase (c : cb) : cb :=
  match c with
  | CRoute r l => CRoute r (erase <$> l)
  | CRouter _ l => CRouter [] (erase <$> l)
  | CBad => CBad
  end.

Lemma callbacks_erase l : Forall (fun c => convert (erase c) = convert c) l ->
  _openapi_real_callbacks (erase <$> l) = _openapi_real_callbacks l.
Proof. induction 1 as [|c l Hc _ IH]; [done|]. cbn. rewrite Hc. destruct (convert c); [|done]. f_equal. exact IH. Qed.

Lemma convert_erase c : convert (erase c) = convert c.
Proof.
  induction c as [r l IH|p l IH|] using cb_ind'; [| |done].
  - destruct l as [|c l]; [done|]. cbn [erase]. rewrite convert_route.
    change (erase <$> (c :: l)) with (erase c :: (erase <$> l)). rewrite convert_route.
    change (erase c :: (erase <$> l)) with (erase <$> (c :: l)). by rewrite (callbacks_erase _ IH).
  - cbn [erase]. rewrite !convert_router. by apply callbacks_erase.
Qed.

(** The prefix of a callback router is not documented: the document is the same
    whatever the prefixes are. *)
Theorem callback_prefixes_are_lost l : _openapi_real_callbacks (erase <$> l) = _openapi_real_callbacks l.
Proof. apply callbacks_erase, Forall_true. apply convert_erase. Qed.

End CallbackTheorems.

(** *** Routes *)

Section RouteTheorems.

Variable derived : endpoint -> option model.
Notation APIRoute := (APIRoute derived).

(** The response model of a route as the stream classification reads it. *)
Definition model_of (r : route) : model :=
  default {| m_iterable := false; m_args := [] |} (response_model r).

(** An endpoint annotated as an iterable of items, and given neither a response
    model nor a class, is documented and served as JSON lines of these items,
    which are validated, although real FastAPI drops the annotation; with an
    explicit [response_model=None] a generator is streamed too, but its items are
    neither documented nor validated. *)
Theorem annotated_stream_is_json_lines ep a r m constructs t :
  derived ep = None -> ep_hints ep = Some (Some m) -> m_iterable m = true ->
  APIRoute ep a = Ok r ->
  let i := _oa_stream_info (model_of r) CNone (ep_kind ep) in
  (a_model a = None -> m_args m = [TModel t] -> constructs (TModel t) = true ->
   is_json i = true /\ inner i = Some t /\ item_adapter constructs (model_of r) = Some (TModel t)) /\
  (a_model a = Some None -> ep_kind ep <> NotGen ->
   is_json i = true /\ inner i = None /\ item_adapter constructs (model_of r) = None).
Proof.
  intros Hd Hh Hm Hr i. unfold APIRoute, OpenApi.APIRoute in Hr.
  destruct (match a_operation_id a with Some _ => _ | None => _ end) as [oid|]; [|done].
  cbn [res_bind] in Hr. unfold _derive_return_annotation in Hr. rewrite Hd, Hh in Hr. split.
  - intros Ha Hargs Hc. rewrite Ha in Hr. unfold _is_streaming_annotation in Hr. rewrite Hm in Hr.
    injection Hr as <-. subst i. unfold model_of, _oa_stream_info, item_adapter. cbn. by rewrite Hm, Hargs, Hc.
  - intros Ha Hg. rewrite Ha in Hr. injection Hr as <-. subst i. cbn. by destruct (ep_kind ep).
Qed.

(** An explicit response model is never replaced, and an omitted one never
    comes from an annotation that cannot be resolved: then the fields real
    FastAPI built from it are dropped with it. *)
Theorem response_model_is_respected ep a r :
  APIRoute ep a = Ok r ->
  (forall m, a_model a = Some m -> response_model r = m /\ response_field r = true) /\
  (a_model a = None -> ep_hints ep = None -> response_model r = None /\
   (response_field r = true -> derived ep = None)).
Proof.
  unfold APIRoute, OpenApi.APIRoute. intros Hr.
  destruct (match a_operation_id a with Some _ => _ | None => _ end) as [oid|]; [|done]. cbn [res_bind] in Hr. split.
  - intros m Ha. rewrite Ha in Hr. by injection Hr as <-.
  - intros Ha Hh. rewrite Ha in Hr. unfold _derive_return_annotation in Hr. rewrite Hh in Hr.
    destruct (derived ep); injection Hr as <-; by split.
Qed.

End RouteTheorems.

End OpenApi.
