(* ===== verification/Params.v ===== *)
(** Parameters as they are declared: the markers of param_functions.py, the
    annotations they stand in (_ws_support.py: [_extract_marker],
    [_extract_depends], [_inner_type], [_is_websocket_annotation];
    applications.py: [_signature_uses_clone_framework_type];
    _introspect_from_real_fastapi.py: [_alias_of], [_default_of],
    [_has_json_marker], [_is_union_of_basemodels]), and [UploadFile]. *)

From S2P Require Import Prelude WsDeps.

Module Params.

Import WsDeps.

(** ** Markers *)

(** The arguments of [Query(...)] and its kin; the default is [None] for [...],
    and the constraints are those passed on when they are not [None]. *)
Record marker_args := {
  ma_source : source;
  ma_default : option value;
  ma_alias : option text;
  ma_validation_alias : option text;
  ma_serialization_alias : option text;
  ma_pattern : option text;
  ma_regex : option text;
  ma_example : option text;
  ma_openapi_examples : option nat;
  ma_include_in_schema : bool;
  ma_convert : bool;
  ma_others : list (text * option nat);     (* title, description, gt, ge, ... *)
  ma_extra : list (text * nat) }.

Record field_info := {
  fi_source : source;
  fi_default : option value;
  alias : option text;
  validation_alias : option text;
  serialization_alias : option text;
  pattern : option text;            (* also the attribute regex *)
  example : option text;
  openapi_examples : option nat;
  include_in_schema : bool;
  convert_underscores : bool;
  others : list (text * nat) }.

Inductive warning := ExampleDeprecated | RegexDeprecated.

(** Python's [or] between optional texts. *)
Definition or_else (a b : option text) : option text := match a with Some (_ :: _) => a | _ => b end.

Definition marker (m : marker_args) : field_info * list warning :=
  let or_alias (o : option text) := match o with Some _ => o | None => ma_alias m end in
  ({| fi_source := ma_source m; fi_default := ma_default m; alias := ma_alias m;
      validation_alias := or_alias (ma_validation_alias m);
      serialization_alias := or_alias (ma_serialization_alias m);
      pattern := or_else (ma_pattern m) (ma_regex m); example := ma_example m;
      openapi_examples := ma_openapi_examples m; include_in_schema := ma_include_in_schema m;
      convert_underscores := ma_convert m;
      others := omap (fun p => pair p.1 <$> p.2) (ma_others m) ++ ma_extra m |},
   match ma_example m with Some _ => [ExampleDeprecated] | None => [] end ++
   match ma_regex m with Some _ => [RegexDeprecated] | None => [] end).

(** The name a value is looked up with, where a route is adapted. *)
Definition _alias_of (f : field_info) : option text :=
  or_else (validation_alias f) (or_else (alias f) None).

Definition _default_of (f : field_info) : value := default VNone (fi_default f).

(** ** Annotations *)

(** Classes: turbo's [WebSocket], classes derived from it, models, others. *)
Inductive cls := ClsWebSocket | ClsDerived (n : nat) | ClsModel (n : nat) | ClsOther (n : nat).

Inductive meta := MMarker (f : field_info) | MDepends (d : option depends) | MJson | MOther.

(** [TValue]: an argument that is no type. *)
Inductive ann :=
| TCls (c : cls)
| TStr (t : text)
| TNone
| TAnnotated (t : ann) (ms : list meta)
| TGeneric (union : bool) (args : list ann)
| TValue.

Inductive dflt := DMarker (f : field_info) | DDepends (d : option depends) | DValue (v : value).

Definition metadata (a : option ann) : list meta := match a with Some (TAnnotated _ ms) => ms | _ => [] end.

Definition first_of {A B} (f : A -> option B) (l : list A) : option B := head (omap f l).

Definition marker_of (m : meta) : option field_info := match m with MMarker f => Some f | _ => None end.
Definition depends_of (m : meta) : option (option depends) := match m with MDepends d => Some d | _ => None end.

Definition _extract_marker (a : option ann) (d : option dflt) : option field_info :=
  match first_of marker_of (metadata a) with
  | Some f => Some f
  | None => match d with Some (DMarker f) => Some f | _ => None end
  end.

Definition _extract_depends (a : option ann) (d : option dflt) : option (option depends) :=
  match d with
  | Some (DDepends x) => Some x
  | _ => first_of depends_of (metadata a)
  end.

Definition _inner_type (a : option ann) : option ann :=
  match a with Some (TAnnotated t _) => Some t | _ => a end.

Definition is_ws_class (c : cls) : bool := match c with ClsWebSocket | ClsDerived _ => true | _ => false end.

(** The resolved annotation, and the one written. *)
Definition _is_websocket_annotation (resolved raw : option ann) : bool :=
  match resolved with Some (TCls c) => is_ws_class c | _ => false end ||
  match raw with
  | Some (TStr t) => bool_decide (t ∈ [lit "WebSocket"; lit "fastapi_turbo.websockets.WebSocket"])
  | _ => false
  end.

(** *** The parameters of a WebSocket endpoint, as [WsDeps] classifies them *)

Record param := { p_name : text; p_kind : pkind; p_raw : option ann; p_default : option dflt }.

Section Signature.

(** The types validators are made for. *)
Variable type_id : ann -> nat.

Definition scalar_of (f : field_info) (inner : option ann) : scalar :=
  {| sc_source := fi_source f; sc_alias := alias f; sc_convert := convert_underscores f;
     sc_default := fi_default f; sc_type := type_id <$> inner |}.

Definition hparam_of (hints : gmap text ann) (p : param) : hparam :=
  let resolved := match hints !! p_name p with Some a => Some a | None => p_raw p end in
  {| hp_name := p_name p; hp_kind := p_kind p;
     hp_ws := _is_websocket_annotation resolved (p_raw p);
     hp_depends := _extract_depends resolved (p_default p);
     hp_marker := (fun f => scalar_of f (_inner_type resolved)) <$> _extract_marker resolved (p_default p);
     hp_default := match p_default p with Some (DValue v) => Some v | _ => None end;
     hp_type := type_id <$> (if bool_decide (is_Some (_extract_marker resolved (p_default p)))
                             then _inner_type resolved else resolved);
     hp_typed := bool_decide (is_Some resolved) |}.

End Signature.

(** *** Types that keep a route from the adapter *)

Fixpoint _bare (a : ann) : bool :=
  match a with
  | TAnnotated (TGeneric _ args) _ | TGeneric _ args =>
      existsb (fun a => match a with TNone => false | _ => _bare a end) args
  | TAnnotated (TAnnotated t _) _ => match t with TNone => false | _ => _bare t end
  | TAnnotated (TCls c) _ | TCls c => is_ws_class c
  | _ => false
  end.

Definition _signature_uses_clone_framework_type (hints : option (gmap text ann)) : bool :=
  match hints with
  | None => true
  | Some hs => existsb (fun p => negb (bool_decide (p.1 = lit "return")) && _bare p.2) (map_to_list hs)
  end.

Definition _has_json_marker (ms : list meta) : bool := existsb (fun m => match m with MJson => true | _ => false end) ms.

Definition is_none (a : ann) : bool := match a with TNone => true | _ => false end.

Definition is_basemodel (a : ann) : bool := match a with TCls (ClsModel _) => true | _ => false end.

Definition _is_union_of_basemodels (a : ann) : bool :=
  match a with
  | TGeneric true args =>
      let members := filter (fun a => is_none a = false) args in
      bool_decide (2 <= length members)%nat && forallb is_basemodel members
  | _ => false
  end.

(** ** Uploaded files *)

(** An in-memory file: its contents, the position, and whether it is closed. *)
Record file := { contents : bytes; pos : nat; closed : bool }.

Definition NUL : ascii := "000"%char.

Definition file_read (size : Z) (f : file) : file * res bytes :=
  if closed f then (f, Raise ValueError)
  else let rest := drop (pos f) (contents f) in
       let d := if size <? 0 then rest else take (Z.to_nat size) rest in
       ({| contents := contents f; pos := pos f + length d; closed := false |}, Ok d).

Definition file_write (d : bytes) (f : file) : file * res unit :=
  if closed f then (f, Raise ValueError)
  else match d with
       | [] => (f, Ok tt)
       | _ => let c := contents f ++ replicate (pos f - length (contents f)) NUL in
              ({| contents := take (pos f) c ++ d ++ drop (pos f + length d) c; pos := pos f + length d;
                  closed := false |}, Ok tt)
       end.

Definition file_seek (n : Z) (f : file) : file * res unit :=
  if closed f || (n <? 0) then (f, Raise ValueError)
  else ({| contents := contents f; pos := Z.to_nat n; closed := false |}, Ok tt).

(** [UploadFile]; the file may be absent. *)
Record upload := { u_file : option file; u_size : option Z }.

Definition set_file (u : upload) (f : file) : upload := {| u_file := Some f; u_size := u_size u |}.

Definition read (size : Z) (u : upload) : upload * res bytes :=
  match u_file u with
  | None => (u, Ok [])
  | Some f => let '(f, r) := file_read size f in (set_file u f, r)
  end.

Definition write (d : bytes) (u : upload) : upload * res unit :=
  let u := {| u_file := u_file u; u_size := (fun n => n + zlen d) <$> u_size u |} in
  match u_file u with
  | None => (u, Ok tt)
  | Some f => let '(f, r) := file_write d f in (set_file u f, r)
  end.

Definition seek (n : Z) (u : upload) : upload * res unit :=
  match u_file u with
  | None => (u, Ok tt)
  | Some f => let '(f, r) := file_seek n f in (set_file u f, r)
  end.

Definition close (u : upload) : upload :=
  match u_file u with
  | None => u
  | Some f => set_file u {| contents := contents f; pos := pos f; closed := true |}
  end.

(** What [isinstance(x, UploadFile)] looks at: derived from Starlette's class, or
    having the three attributes. *)
Record candidate := { from_starlette : bool; has_filename : bool; has_content_type : bool; has_read : bool }.

Definition __subclasshook__ (c : candidate) : bool :=
  from_starlette c || (has_filename c && has_content_type c && has_read c).

Definition _validate {A} (is_upload : bool) (v : A) : res A := if is_upload then Ok v else Raise ValueError.

(** ** Theorems *)

(** *** Names of parameters *)

(** A marker with a validation alias is read under different names: a route that
    is adapted looks the value up with the validation alias, a WebSocket endpoint
    with the plain alias or, without one, the parameter's name. *)
Theorem doors_disagree_on_validation_alias m type_id inner ws name c v :
  ma_source m = SQuery -> ma_validation_alias m = Some (c :: v) -> ma_alias m = None ->
  _alias_of (marker m).1 = Some (c :: v) /\
  _resolve_ws_scalar_raw ws name (scalar_of type_id (marker m).1 inner) = query ws name.
Proof. intros Hs Hv Ha. unfold _alias_of, marker. cbn. by rewrite Hv, Ha, Hs. Qed.

(** Without a validation alias both read the alias, or the name. *)
Theorem doors_agree_on_alias m type_id inner ws name :
  ma_source m = SQuery -> ma_validation_alias m = None ->
  _resolve_ws_scalar_raw ws name (scalar_of type_id (marker m).1 inner) =
  query ws (default name (_alias_of (marker m).1)).
Proof.
  intros Hs Hv. unfold _resolve_ws_scalar_raw, _alias_of, marker, or_else. cbn. rewrite Hv, Hs. by destruct (ma_alias m) as [[|? ?]|].
Qed.

(** *** Defaults *)

(** A parameter declared as [x: Annotated[T, Query()] = v], the style FastAPI
    recommends, loses its default on a WebSocket endpoint: the marker's own
    default is taken, which is missing, so a connection whose query does not give
    the parameter is refused with 1008. *)
Theorem annotated_default_is_ignored type_id validate defs overrides path_kwargs ws depth s path_names fallback hints
    name t f ms v :
  hints !! name = Some (TAnnotated t (MMarker f :: ms)) -> fi_source f = SQuery -> fi_default f = None ->
  alias f = None -> omap depends_of ms = [] -> fallback <> Some name -> name ∉ path_names -> query ws name = None ->
  let p := {| p_name := name; p_kind := PositionalOrKeyword; p_raw := Some (TAnnotated t (MMarker f :: ms));
              p_default := Some (DValue v) |} in
  exists spec, classify path_names fallback (hparam_of type_id hints p) = Some spec /\
    resolve_spec validate defs overrides path_kwargs depth ws spec s =
      (s, WsExc 1008 (missing SQuery name)).
Proof.
  intros Hh Hs Hd Ha Hm Hf Hn Hq p. unfold classify, hparam_of, p. cbn [p_name p_kind p_raw p_default]. rewrite Hh. cbn.
  unfold first_of. cbn. rewrite Hm. cbn. rewrite (bool_decide_eq_false_2 (fallback = Some name)) by done.
  rewrite (bool_decide_eq_false_2 (name ∈ path_names)) by done. eexists. split; [reflexivity|].
  cbn. unfold resolve_scalar, _resolve_ws_scalar_raw. cbn. by rewrite Hs, Ha, Hq, Hd.
Qed.

(** A connection parameter annotated as [Annotated[WebSocket, ...]] is not
    recognised by its annotation. *)
Theorem annotated_websocket_is_not_recognised ms raw :
  (forall t, raw <> Some (TStr t)) ->
  _is_websocket_annotation (Some (TAnnotated (TCls ClsWebSocket) ms)) raw = false.
Proof. intros H. unfold _is_websocket_annotation. destruct raw as [[]|]; try done. by destruct (H t). Qed.

(** *** Framework types in signatures *)

Fixpoint ann_ind' (P : ann -> Prop) (Hc : forall c, P (TCls c)) (Hs : forall t, P (TStr t)) (Hn : P TNone)
    (Ha : forall t ms, P t -> P (TAnnotated t ms)) (Hg : forall u args, Forall P args -> P (TGeneric u args))
    (Hv : P TValue) (a : ann) : P a :=
  match a with
  | TCls c => Hc c
  | TStr t => Hs t
  | TNone => Hn
  | TAnnotated t ms => Ha t ms (ann_ind' P Hc Hs Hn Ha Hg Hv t)
  | TGeneric u args =>
      Hg u args ((fix all l : Forall P l := match l with
                                            | [] => List.Forall_nil _
                                            | a :: l' => List.Forall_cons _ _ _ (ann_ind' P Hc Hs Hn Ha Hg Hv a) (all l')
                                            end) args)
  | TValue => Hv
  end.

(** A class occurs in an annotation. *)
Inductive occurs (c : cls) : ann -> Prop :=
| OccHere : occurs c (TCls c)
| OccAnnotated t ms : occurs c t -> occurs c (TAnnotated t ms)
| OccArg u args a : a ∈ args -> occurs c a -> occurs c (TGeneric u args).

Lemma bare_annotated t : forall ms, _bare (TAnnotated t ms) = _bare t.
Proof.
  induction t as [| | |t ms' IH| |] using ann_ind'; intros ms; try done. rewrite IH. cbn. by destruct t.
Qed.

Lemma bare_generic u args : _bare (TGeneric u args) = existsb _bare args.
Proof. cbn. induction args as [|a args IH]; [done|]. cbn [existsb]. rewrite IH. by destruct a. Qed.

Lemma bare_exact a : _bare a = true <-> exists c, is_ws_class c = true /\ occurs c a.
Proof.
  induction a as [c|t| |t ms IH|u args IH|] using ann_ind'.
  - cbn. split; [intros H; exists c; split; [done|constructor]|]. by intros (c' & Hc & Ho); inversion Ho; subst.
  - split; [done|]. intros (c & _ & Ho). inversion Ho.
  - split; [done|]. intros (c & _ & Ho). inversion Ho.
  - rewrite bare_annotated, IH. split; intros (c & Hc & Ho); exists c; (split; [done|]).
    + by constructor.
    + by inversion Ho.
  - rewrite bare_generic, existsb_exists. rewrite Forall_forall in IH. split.
    + intros (a & Ha & Hb). apply list_elem_of_In in Ha. apply IH in Hb as (c & Hc & Ho); [|done].
      exists c. split; [done|by econstructor].
    + intros (c & Hc & Ho). inversion Ho as [| |u' args' a Ha Hoa]; subst. exists a.
      rewrite <-list_elem_of_In. split; [done|]. apply IH; eauto.
  - split; [done|]. intros (c & _ & Ho). inversion Ho.
Qed.

(** A signature keeps its route from the adapter exactly when its hints cannot be
    resolved or a WebSocket class occurs somewhere in the annotation of a
    parameter, inside unions, containers and [Annotated] too; the return
    annotation does not count. *)
Theorem framework_types_are_found hints :
  _signature_uses_clone_framework_type hints = true <->
  hints = None \/ exists hs name a c, hints = Some hs /\ hs !! name = Some a /\ name <> lit "return" /\
    is_ws_class c = true /\ occurs c a.
Proof.
  destruct hints as [hs|]; [|split; [by left|done]]. cbn. rewrite existsb_exists. split.
  - intros ([n a] & Hin & [Hn Hb]%andb_true_iff). right. cbn in *.
    apply list_elem_of_In, elem_of_map_to_list in Hin. apply bare_exact in Hb as (c & Hc & Ho).
    exists hs, n, a, c. split_and!; try done. by case_bool_decide.
  - intros [?|(hs' & n & a & c & [= <-] & Hl & Hn & Hc & Ho)]; [done|]. exists (n, a).
    rewrite <-list_elem_of_In, elem_of_map_to_list. split; [done|]. cbn.
    rewrite bool_decide_eq_false_2 by done. apply bare_exact. eauto.
Qed.

(** *** Uploads *)

(** What is written is read back: writing at the position the file is at, going
    back there and reading that many bytes gives the bytes, whatever the file
    held, and also past its end. *)
Theorem upload_roundtrip u f d :
  u_file u = Some f -> closed f = false ->
  let '(u1, r1) := write d u in
  let '(u2, r2) := seek (Z.of_nat (pos f)) u1 in
  let '(u3, r3) := read (zlen d) u2 in
  r1 = Ok tt /\ r2 = Ok tt /\ r3 = Ok d.
Proof.
  intros Hf Hc. unfold write. rewrite Hf. cbn [u_file].
  assert (exists f1, file_write d f = (f1, Ok tt) /\ closed f1 = false /\
            (d <> [] -> exists l r, contents f1 = l ++ d ++ r /\ length l = pos f)) as (f1 & -> & Hc1 & Hd).
  { unfold file_write. rewrite Hc. destruct d as [|c d]; [by exists f|]. eexists. split; [done|]. cbn.
    split; [done|]. intros _. eexists _, _. split; [done|]. rewrite length_take, length_app, length_replicate. lia. }
  unfold seek. cbn [set_file u_file]. unfold file_seek. rewrite Hc1. cbn [orb].
  rewrite (proj2 (Z.ltb_ge (Z.of_nat (pos f)) 0)) by lia.
  unfold read. cbn [set_file u_file]. unfold file_read. cbn [closed contents pos].
  rewrite (proj2 (Z.ltb_ge (zlen d) 0)) by apply zlen_nonneg. split_and!; [done..|]. f_equal.
  rewrite Nat2Z.id. unfold zlen. rewrite Nat2Z.id. destruct (decide (d = [])) as [->|Hne]; [done|].
  destruct (Hd Hne) as (l & r & -> & <-). by rewrite drop_app_length, take_app_length.
Qed.

(** The declared size is that of the file as long as data is only appended. *)
Theorem appended_size_is_exact u f d :
  u_file u = Some f -> closed f = false -> u_size u = Some (zlen (contents f)) -> pos f = length (contents f) ->
  exists f1, write d u = ({| u_file := Some f1; u_size := Some (zlen (contents f1)) |}, Ok tt) /\
    contents f1 = contents f ++ d /\ pos f1 = length (contents f1).
Proof.
  intros Hf Hc Hs Hp. unfold write. rewrite Hf, Hs. cbn. unfold file_write. rewrite Hc.
  destruct d as [|c d].
  - exists f. unfold set_file, zlen. cbn. rewrite app_nil_r, Z.add_0_r. by split_and!.
  - rewrite Hp, Nat.sub_diag. cbn [replicate]. rewrite app_nil_r, take_ge, drop_ge, app_nil_r by lia.
    exists {| contents := contents f ++ c :: d; pos := length (contents f) + length (c :: d); closed := false |}.
    split_and!; [|done|by cbn [contents pos]; rewrite length_app]. unfold set_file. cbn [u_size contents]. by rewrite zlen_app.
Qed.

End Params.
