(* ===== verification/AppIncludes.v ===== *)
(** [FastAPI.include_router] (applications.py): the check of empty paths, the
    application's own list of includes, and the marker on its root router; what
    becomes of the graph of routers ([Includes]) when applications include too. *)

From S2P Require Import Prelude Routing Includes.

Module AppIncludes.

Import Routing Includes.

(** A route as [_iter_routes_with_context] gives it: its effective path ([None]
    for a route without one) and its name. *)
Record candidate := { c_path : option text; c_name : text }.

Definition empty_path (c : candidate) : bool := bool_decide (c_path c = Some []).

Definition both_empty (nm : text) : text :=
  lit "Prefix and path cannot be both empty (path operation: " ++ nm ++ lit ")".

(** The application: its root router, its [_included_routers]. *)
Record app := { root : rid; included : list inc }.

Section Include.

Variable callable : obj -> bool.

(** The effective routes of a router. *)
Variable candidates : gmap rid robj -> rid -> list candidate.

Definition check_paths (h : gmap rid robj) (child : rid) (c : robj) (prefix : text) : option exn :=
  match prefix, r_prefix (o_attrs c) with
  | [], [] => (fun x => FastAPIError (both_empty (c_name x))) <$>
                (snd <$> list_find (fun x => empty_path x) (candidates h child))
  | _, _ => None
  end.

Definition include_router (fuel : nat) (h : gmap rid robj) (a : app) (child : rid) (prefix : text)
    (itags : list text) (deps : list obj) (resp : gmap text obj) (dep : option bool) (schema : bool)
    (drc : option obj) (gen : setting obj) (cbs : list obj) : res (gmap rid robj * app) :=
  match h !! child with
  | None => Raise AttributeError
  | Some c =>
      match check_paths h child c prefix with
      | Some e => Raise e
      | None =>
          let m := make_meta prefix itags deps resp dep schema drc gen cbs (o_attrs c) in
          let i := {| i_child := child; i_prefix := prefix; i_tags := itags; i_meta := m |} in
          Ok (_append_included_router callable fuel h (root a) child m,
              {| root := root a; included := included a ++ [i] |})
      end
  end.

End Include.

(** ** Theorems *)

Section Graph.

Variable callable : obj -> bool.
Variable candidates : gmap rid robj -> rid -> list candidate.
Notation include_router := (include_router callable candidates).

(** An inclusion is refused exactly when neither it nor the router has a prefix
    and some route below would have an empty path, and the message names the
    first such route; then nothing is registered. *)
Theorem empty_paths_are_refused fuel h a child c prefix t deps resp dep sch drc gen cbs :
  h !! child = Some c ->
  match include_router fuel h a child prefix t deps resp dep sch drc gen cbs with
  | Raise e => prefix = [] /\ r_prefix (o_attrs c) = [] /\
      exists l1 x l2, candidates h child = l1 ++ x :: l2 /\ c_path x = Some [] /\
        Forall (fun y => c_path y <> Some []) l1 /\ e = FastAPIError (both_empty (c_name x))
  | Ok _ => prefix <> [] \/ r_prefix (o_attrs c) <> [] \/
      Forall (fun y => c_path y <> Some []) (candidates h child)
  end.
Proof.
  intros Hc. unfold include_router, AppIncludes.include_router. rewrite Hc. unfold check_paths.
  destruct prefix as [|? ?]; [|by left]. destruct (r_prefix (o_attrs c)) as [|? ?]; [|by right; left].
  destruct (list_find _ _) as [[i x]|] eqn:E; cbn.
  - split_and!; [done..|]. apply list_find_Some in E as (Hi & Hx & Hl).
    apply list_elem_of_split_length in Hi as (l1 & l2 & Heq & ->). rewrite Heq in Hl |- *. exists l1, x, l2. split_and!; try done.
    + by apply bool_decide_unpack in Hx.
    + apply Forall_lookup. intros j y Hj Hy. apply (Hl j y); [|by eapply lookup_lt_Some|].
      * by apply lookup_app_l_Some.
      * by apply bool_decide_pack.
  - right; right. apply list_find_None in E. eapply Forall_impl; [exact E|]. cbn. intros y Hy Hp. apply Hy.
    by apply bool_decide_pack.
Qed.

Lemma app_include_shape fuel h a child prefix t deps resp dep sch drc gen cbs h' a' :
  include_router fuel h a child prefix t deps resp dep sch drc gen cbs = Ok (h', a') ->
  is_Some (h !! child) /\ root a' = root a /\
  (shape h' = shape h \/
   exists s, h !! root a = Some s /\ shape h' = <[ root a := (o_included s, markers s ++ [child]) ]> (shape h)).
Proof.
  unfold include_router, AppIncludes.include_router. destruct (h !! child) as [c|] eqn:Hc; [|done].
  destruct (check_paths _ _ _ _ _) as [e|]; [done|]. cbv zeta. intros [= <- <-]. split_and!; [by eexists|done|].
  destruct (_walk callable fuel h child) as [h2 [x|]] eqn:Ew.
  - left. unfold _append_included_router. rewrite Ew. pose proof (walk_shape callable fuel h child) as Hw. by rewrite Ew in Hw.
  - destruct (h !! root a) as [s|] eqn:Hs.
    + right. exists s. split; [done|]. eapply append_shape; [done|done|by rewrite Ew].
    + left. unfold _append_included_router. rewrite Ew. pose proof (walk_shape callable fuel h child) as Hw.
      rewrite Ew in Hw. cbn [fst] in Hw. assert (h2 !! root a = None) as ->; [|done].
      apply eq_None_not_Some. rewrite is_Some_shape, Hw, <-is_Some_shape, Hs. by intros [].
Qed.

(** An inclusion by an application adds no include to any router and removes no
    marker. *)
Lemma app_include_well_founded fuel h a child prefix t deps resp dep sch drc gen cbs h' a' :
  include_router fuel h a child prefix t deps resp dep sch drc gen cbs = Ok (h', a') ->
  well_founded_includes h -> well_founded_includes h'.
Proof.
  intros (_ & _ & [Hs|(s & Hr & Hs)])%app_include_shape Hwf; [by eapply wf_shape|].
  destruct Hwf as [[rank Hrank] Hcl].
  assert (forall x y, edge h' x y -> edge h x y) as He.
  { intros x y (ils & ms & i & Hx & Hi & Hy). rewrite Hs in Hx.
    apply lookup_insert_Some in Hx as [[<- [= <- <-]]|[_ Hx]]; [|by exists ils, ms, i].
    exists (o_included s), (markers s), i. by rewrite shape_lookup, Hr. }
  split; [exists rank; intros x y Hxy; by apply Hrank, He|]. intros x y Hxy.
  destruct (Hcl _ _ (He _ _ Hxy)) as [Hy (ils & ms & Hx & Hm)]. split.
  - rewrite is_Some_shape, Hs. destruct (decide (y = root a)) as [->|]; [by rewrite lookup_insert_eq|].
    by rewrite lookup_insert_ne, <-is_Some_shape.
  - unfold medge. rewrite Hs. destruct (decide (x = root a)) as [->|]; [|rewrite lookup_insert_ne by done; by exists ils, ms].
    rewrite shape_lookup, Hr in Hx. injection Hx as <- <-. rewrite lookup_insert_eq. do 2 eexists. split; [done|].
    apply elem_of_app. by left.
Qed.

End Graph.

(** The registrations of a program with an application: those of [Includes], and
    inclusions by the application, in any order. *)
Inductive app_registered (callable : obj -> bool) (candidates : gmap rid robj -> rid -> list candidate)
    (contains : gmap rid robj -> rid -> rid -> bool) : gmap rid robj -> app -> Prop :=
| app_empty r : app_registered callable candidates contains ∅ {| root := r; included := [] |}
| app_new h a self R es :
    app_registered callable candidates contains h a -> h !! self = None ->
    app_registered callable candidates contains (new_router h self R es) a
| app_route h a self r :
    app_registered callable candidates contains h a ->
    app_registered callable candidates contains (append_route h self r) a
| app_mount h a self p x :
    app_registered callable candidates contains h a ->
    app_registered callable candidates contains (mount h self p x) a
| app_router_includes fuel h a self child p t deps resp dep sch drc gen cbs h' :
    app_registered callable candidates contains h a ->
    (forall x y, contains h x y = true <-> tc (medge h) x y) -> (size h <= fuel)%nat ->
    Includes.include_router callable contains fuel h self child p t deps resp dep sch drc gen cbs = Ok h' ->
    app_registered callable candidates contains h' a
| app_includes fuel h a child p t deps resp dep sch drc gen cbs h' a' :
    app_registered callable candidates contains h a ->
    include_router callable candidates fuel h a child p t deps resp dep sch drc gen cbs = Ok (h', a') ->
    app_registered callable candidates contains h' a'.

Section Registered.

Variable callable : obj -> bool.
Variable candidates : gmap rid robj -> rid -> list candidate.
Variable contains : gmap rid robj -> rid -> rid -> bool.
Notation app_registered := (app_registered callable candidates contains).

Lemma app_registered_well_founded h a : app_registered h a -> well_founded_includes h.
Proof.
  induction 1 as [r|h a self R es _ IH Hn|h a self r _ IH|h a self p x _ IH| |].
  - apply (registered_well_founded callable contains), reg_empty.
  - by apply new_router_well_founded.
  - eapply wf_shape; [|exact IH]. apply shape_alter_same. intros o. unfold shape_of. by rewrite markers_add_entry.
  - eapply wf_shape; [|exact IH]. by apply shape_alter_same.
  - by eapply include_well_founded.
  - by eapply app_include_well_founded.
Qed.

Lemma dom_shape_lookup h h' (x : rid) : dom (shape h) ⊆ dom (shape h') -> is_Some (h !! x) -> is_Some (h' !! x).
Proof. rewrite !is_Some_shape, <-!elem_of_dom. set_solver. Qed.

Lemma alter_exists (f : robj -> robj) (h : gmap rid robj) x y : is_Some (h !! y) -> is_Some (alter f x h !! y).
Proof.
  intros H. destruct (decide (x = y)) as [<-|]; [|by rewrite lookup_alter_ne].
  rewrite lookup_alter_eq. by apply fmap_is_Some.
Qed.

Lemma include_dom fuel h self child p t deps resp dep sch drc gen cbs h' :
  (forall x y, contains h x y = true <-> tc (medge h) x y) -> (size h <= fuel)%nat -> well_founded_includes h ->
  Includes.include_router callable contains fuel h self child p t deps resp dep sch drc gen cbs = Ok h' ->
  dom (shape h) ⊆ dom (shape h').
Proof.
  intros Hcs Hf Hwf Hi. apply include_shape in Hi as (s & i & _ & _ & _ & _ & _ & ->); [|done..].
  rewrite dom_insert. set_solver.
Qed.

Lemma app_include_dom fuel h a child p t deps resp dep sch drc gen cbs h' a' :
  include_router callable candidates fuel h a child p t deps resp dep sch drc gen cbs = Ok (h', a') ->
  dom (shape h) ⊆ dom (shape h').
Proof.
  intros (_ & _ & [->|(s & _ & ->)])%app_include_shape; [done|]. rewrite dom_insert. set_solver.
Qed.

Lemma included_exist h a i : app_registered h a -> i ∈ included a -> is_Some (h !! i_child i).
Proof.
  intros Hr. revert i.
  induction Hr as [r|h a self R es _ IH Hn|h a self r _ IH|h a self p x _ IH
                  |fuel h a self child p t deps resp dep sch drc gen cbs h' Hr IH Hcs Hf Hi
                  |fuel h a child p t deps resp dep sch drc gen cbs h' a' Hr IH Hi]; intros i Hin.
  - by apply not_elem_of_nil in Hin.
  - unfold new_router. destruct (decide (i_child i = self)) as [->|]; [by rewrite lookup_insert_eq|].
    rewrite lookup_insert_ne by done. by apply IH.
  - by apply alter_exists, IH.
  - by apply alter_exists, IH.
  - apply (dom_shape_lookup h); [|by apply IH]. eapply include_dom; [done..|by eapply app_registered_well_founded|done].
  - apply (dom_shape_lookup h); [by eapply app_include_dom|]. pose proof Hi as Hi'.
    unfold include_router in Hi. destruct (h !! child) as [c|] eqn:Hc; [|done].
    destruct (check_paths _ _ _ _ _); [done|]. cbv zeta in Hi. injection Hi as _ <-. cbn in Hin.
    apply elem_of_app in Hin as [Hin|Hin]; [by apply IH|]. apply list_elem_of_singleton in Hin as ->. by eexists.
Qed.

(** The flatten of an application always ends: whatever routers and the
    application register, in any order, the root router and every router the
    application includes unfold to trees, with no more recursion than there are
    routers. *)
Theorem application_unfolds_to_trees h a :
  app_registered h a -> is_Some (h !! root a) ->
  exists t l, forall fuel, (size h <= fuel)%nat ->
    unfold_router fuel h (root a) = Some t /\ unfold_includes (unfold_router fuel h) (included a) = Some l.
Proof.
  intros Hreg Hroot. pose proof (app_registered_well_founded _ _ Hreg) as [[rank Hrank] Hcl].
  assert (ranked rank h) as Hrk.
  { intros x y Hxy. split; [by apply Hrank|]. by apply Hcl in Hxy as [? _]. }
  assert (forall r, is_Some (h !! r) -> exists t, unfold_router (size h) h r = Some t) as Htot.
  { intros r Hr. pose proof (below_size rank h r Hr) as Hb. by destruct (unfold_router_total h rank Hrk (size h) r Hr Hb) as [t ?]; exists t. }
  destruct (Htot _ Hroot) as [t Ht].
  destruct (unfold_includes_total (unfold_router (size h) h) (included a)) as [l Hl].
  { intros i Hi. destruct (Htot (i_child i)) as [x Hx]; [by eapply included_exist|]. by exists x. }
  exists t, l. intros fuel Hle. split; [by eapply unfold_router_mono|].
  eapply unfold_includes_mono; [|exact Hl]. intros x y Hx. by eapply unfold_router_mono.
Qed.

(** Unlike a router, an application does not check for cycles: once one of its
    routers includes the root router, including that router closes a cycle of
    markers, which every walk of the real machinery follows ([_contains_router],
    the route contexts, [url_path_for]); the application's own router can be
    included in itself. *)
Theorem application_closes_marker_cycles fuel h a child prefix t deps resp dep sch drc gen cbs h' a' s :
  app_registered h a -> h !! root a = Some s -> (size h <= fuel)%nat ->
  child = root a \/ edge h child (root a) ->
  include_router callable candidates fuel h a child prefix t deps resp dep sch drc gen cbs = Ok (h', a') ->
  tc (medge h') (root a) (root a).
Proof.
  intros Hreg Hs Hf Hc Hi. pose proof (app_registered_well_founded _ _ Hreg) as [[rank Hrank] Hcl].
  assert (ranked rank h) as Hrk.
  { intros x y Hxy. split; [by apply Hrank|]. by apply Hcl in Hxy as [? _]. }
  unfold include_router in Hi. destruct (h !! child) as [c|] eqn:Hch; [|done].
  destruct (check_paths _ _ _ _ _); [done|]. cbv zeta in Hi. injection Hi as <- _.
  assert (shape (_append_included_router callable fuel h (root a) child
           (make_meta prefix t deps resp dep sch drc gen cbs (o_attrs c))) =
          <[ root a := (o_included s, markers s ++ [child]) ]> (shape h)) as Hsh.
  { eapply append_shape; [done|done|]. eapply walk_returns; [exact Hrk|].
    pose proof (below_size rank h child ltac:(by rewrite Hch)). lia. }
  assert (forall x, x ∈ markers s ++ [child] -> medge (_append_included_router callable fuel h (root a) child
           (make_meta prefix t deps resp dep sch drc gen cbs (o_attrs c))) (root a) x) as Hm.
  { intros x Hx. unfold medge. rewrite Hsh, lookup_insert_eq. eauto. }
  assert (child ∈ markers s ++ [child]) as Hin by (apply elem_of_app; right; by left).
  destruct Hc as [->|He]; [by apply tc_once, Hm|].
  destruct (decide (child = root a)) as [->|Hne]; [by apply tc_once, Hm|].
  eapply tc_l; [by apply Hm|]. apply tc_once. destruct (Hcl _ _ He) as [_ (ils & ms & Hx & Hx')].
  unfold medge. rewrite Hsh, lookup_insert_ne by done. eauto.
Qed.

End Registered.

(** ** Witnesses *)

Definition no_candidates (_ : gmap rid robj) (_ : rid) : list candidate := [].

Definition demo_app : app := {| root := 0%nat; included := [] |}.

(** Router 0 is the application's; router 1 includes it. *)
Definition below_root : gmap rid robj :=
  match Includes.include_router Sample.no_callable contains_none 10%nat two_routers 1%nat 0%nat "/inner" [] [] ∅ None
          true None Unset [] with
  | Ok h => h
  | Raise _ => ∅
  end.

Lemma below_root_registered : app_registered Sample.no_callable no_candidates contains_none below_root demo_app.
Proof.
  eapply (app_router_includes _ _ _ 10%nat two_routers demo_app 1%nat 0%nat "/inner" [] [] ∅ None true None Unset []);
    [|exact two_routers_unmarked|vm_compute; lia|reflexivity].
  apply app_new; [apply app_new; [apply app_empty|]|]; reflexivity.
Qed.

Lemma application_unfolds_to_trees_witness :
  exists t l, forall fuel, (2 <= fuel)%nat ->
    unfold_router fuel below_root 0%nat = Some t /\ unfold_includes (unfold_router fuel below_root) [] = Some l.
Proof.
  apply (application_unfolds_to_trees Sample.no_callable no_candidates contains_none below_root demo_app).
  - exact below_root_registered.
  - eexists. vm_compute. reflexivity.
Defined.

Lemma application_closes_marker_cycles_witness :
  exists h' a', include_router Sample.no_callable no_candidates 10%nat below_root demo_app 1%nat "/api" [] [] ∅ None true
                  None Unset [] = Ok (h', a') /\ tc (medge h') 0%nat 0%nat.
Proof.
  eexists _, _. split; [reflexivity|].
  eapply (application_closes_marker_cycles Sample.no_callable no_candidates contains_none 10%nat below_root demo_app 1%nat
            "/api" [] [] ∅ None true None Unset []); [exact below_root_registered|vm_compute; reflexivity|vm_compute; lia| |reflexivity].
  right. eexists _, _, _. split; [vm_compute; reflexivity|]. split; [by left|reflexivity].
Defined.

End AppIncludes.
