(* ===== verification/ResponseModel.v ===== *)
(** Filtering a handler's result through a [response_model]
    (_route_helpers.py): the branches of [_apply_response_model], its error
    values, and the verdict [_model_needs_full_dump] caches on the classes.

    Pydantic is a parameter: validation and dumping return a value or an
    exception of one of the kinds the code tells apart. *)

From S2P Require Import Prelude.

Module ResponseModel.

Abbreviation cls := nat (only parsing).

(** Values a handler returns or that validation and dumping give: the kinds
    the code distinguishes, each with what the code reads of it.  [VModel] is an
    object with a [model_dump]: its class, fields and [model_fields_set]. *)
Inductive val :=
| VNone
| VAtom (n : nat)
| VSeq (l : list val)
| VDict (items : list (text * val))
| VModel (c : cls) (items : list (text * val)) (set_ : list text)
| VData (c : cls) (items : list (text * val))
| VResponse (n : nat)
| VGen (n : nat)
| VObj (n : nat).

(** One entry of [ValidationError.errors()]: a dict with a ["loc"] tuple. *)
Inductive ev := Loc (l : list text) | Ev (n : nat).
Definition error := list (text * ev).

(** What is raised, as far as the handlers of the function tell it apart. *)
Inductive raised :=
| PyValidationError (errors : list error)
| ResponseValidationError (errors : list error) (body : val) (endpoint_ctx : option nat)
| OtherException (n : nat)
| BaseException (n : nat).

Inductive out (A : Type) := Val (a : A) | Exc (e : raised).
Arguments Val {A} a.
Arguments Exc {A} e.

Definition bind {A B} (m : out A) (k : A -> out B) : out B :=
  match m with Val a => k a | Exc e => Exc e end.

(** The keyword arguments of [model_dump(mode="json", ...)]; [by_alias] is
    [None] where the call does not pass it. *)
Record kwargs := {
  by_alias : option bool;
  include : option (list text);
  exclude : option (list text);
  exclude_unset : bool;
  exclude_defaults : bool;
  exclude_none : bool
}.

(** [result.model_dump(mode="json")] *)
Definition no_kwargs : kwargs :=
  {| by_alias := None; include := None; exclude := None;
     exclude_unset := false; exclude_defaults := false; exclude_none := false |}.

(** The filter arguments of the call; [f_by_alias] is always passed on. *)
Record filters := {
  f_include : option (list text);
  f_exclude : option (list text);
  f_unset : bool;
  f_defaults : bool;
  f_none : bool;
  f_by_alias : bool
}.

(** The arguments left at their defaults. *)
Definition no_filters : filters :=
  {| f_include := None; f_exclude := None; f_unset := false; f_defaults := false;
     f_none := false; f_by_alias := true |}.

Definition has_filters (f : filters) : bool :=
  bool_decide (f_include f <> None) || bool_decide (f_exclude f <> None) ||
  f_unset f || f_defaults f || f_none f || bool_decide (f_by_alias f = false).

(** An option is added to the keywords only where it is set, so each absent one
    keeps Pydantic's default. *)
Definition dump_kwargs (f : filters) : kwargs :=
  {| by_alias := Some (f_by_alias f); include := f_include f; exclude := f_exclude f;
     exclude_unset := f_unset f; exclude_defaults := f_defaults f; exclude_none := f_none f |}.

(** ** Error entries *)

Fixpoint dict_get (d : error) (k : text) : option ev :=
  match d with
  | [] => None
  | (k', v) :: d' => if bool_decide (k' = k) then Some v else dict_get d' k
  end.

(** [{**d, k: v}]: a key that is present keeps its place. *)
Fixpoint dict_set (d : error) (k : text) (v : ev) : error :=
  match d with
  | [] => [(k, v)]
  | (k', v') :: d' => if bool_decide (k' = k) then (k', v) :: d' else (k', v') :: dict_set d' k v
  end.

(** [tuple(_e.get("loc", ()))] *)
Definition loc_of (e : error) : list text :=
  match dict_get e (lit "loc") with Some (Loc l) => l | _ => [] end.

Definition prefixed (e : error) : error :=
  filter (fun kv => kv.1 <> lit "url") (dict_set e (lit "loc") (Loc (lit "response" :: loc_of e))).

(** ** The classes *)

Record field_info := { f_name : text; alias : option text; serialization_alias : option text }.

(** What the functions read of a model class. *)
Record class_info := {
  model_fields : list field_info;
  model_computed_fields : bool;
  (** [__pydantic_decorators__], where the class has it: are there field and
      model serializers? *)
  decorators : option (bool * bool);
  (** [model_config.get("from_attributes")] *)
  from_attributes : bool
}.

Definition field_alias (fi : field_info) : bool :=
  bool_decide (alias fi <> None) || bool_decide (serialization_alias fi <> None).

(** The verdict as it is computed where none is cached. *)
Definition compute_needs (i : class_info) : bool :=
  if existsb field_alias (model_fields i) then true
  else if model_computed_fields i then true
  else match decorators i with
       | Some (fs, ms) => fs || ms
       | None => false
       end.

(** The response model: a class with [model_validate], or something without it
    (a generic alias, a dataclass). *)
Inductive rmodel := MClass (c : cls) | MOther (n : nat).

(** The attributes [__fastapi_turbo_needs_full_dump__] that were set, by the
    class that owns each. *)
Abbreviation caches := (gmap nat bool) (only parsing).

Section Apply.

Variable info : cls -> class_info.
(** The method resolution order, the class itself first. *)
Variable mro : cls -> list cls.
(** Does setting an attribute on the class succeed? *)
Variable settable : cls -> bool.

(** Pydantic. *)
Variable model_validate : cls -> bool -> val -> out val.
Variable model_dump : val -> kwargs -> out val.
(** [result.model_dump()] without arguments. *)
Variable python_dump : val -> out val.
(** [TypeAdapter(x)]: [None] where it raises. *)
Variable type_adapter : nat -> option nat.
Variable ta_validate : nat -> val -> out val.
Variable ta_dump : nat -> val -> kwargs -> out val.
(** [dataclasses.asdict] of one field's value. *)
Variable asdict_value : val -> val.

(** [getattr(model_cls, ..., None)]: the first class of the order that owns it. *)
Fixpoint getattr_cached (st : caches) (cs : list cls) : option bool :=
  match cs with
  | [] => None
  | c :: cs' => match st !! c with Some b => Some b | None => getattr_cached st cs' end
  end.

Definition _model_needs_full_dump (st : caches) (c : cls) : bool * caches :=
  match getattr_cached st (mro c) with
  | Some b => (b, st)
  | None => let needs := compute_needs (info c) in
            (needs, if settable c then <[c := needs]> st else st)
  end.

Definition type_of (v : val) : option cls :=
  match v with VModel c _ _ | VData c _ => Some c | _ => None end.

Definition is_type (v : val) (c : cls) : bool := bool_decide (type_of v = Some c).

Definition isinstance (v : val) (c : cls) : bool :=
  match type_of v with Some c' => bool_decide (c ∈ mro c') | None => false end.

Definition not_none (v : val) : bool := match v with VNone => false | _ => true end.

Definition items_of (v : val) : list (text * val) :=
  match v with VDict l | VModel _ l _ | VData _ l => l | _ => [] end.

Definition asdict (v : val) : list (text * val) :=
  (fun kv => (kv.1, asdict_value kv.2)) <$> items_of v.

Definition field_names (c : cls) : list text := f_name <$> model_fields (info c).

(** The [try] block: early returns are [inl], a validated value [inr]. *)
Definition validate_branch (fast_path_ok : bool) (f : filters) (rm : cls) (result : val) :
    out (val + val) :=
  match result with
  | VDict _ => bind (model_validate rm false result) (fun v => Val (inr v))
  | VModel c _ _ =>
      if fast_path_ok && is_type result rm then
        bind (model_dump result no_kwargs) (fun v => Val (inl v))
      else if is_type result rm then Val (inr result)
      else if isinstance result rm && (f_unset f || f_defaults f || f_none f) then
        bind (model_dump result (dump_kwargs f))
          (fun d => Val (inl (VDict (filter (fun kv => kv.1 ∈ field_names rm) (items_of d)))))
      else if from_attributes (info rm) then
        bind (model_validate rm true result) (fun v => Val (inr v))
      else
        bind (python_dump result)
          (fun d => bind (model_validate rm false d) (fun v => Val (inr v)))
  | VData c _ =>
      let d := asdict result in
      if is_type result rm then
        Val (inl (VDict (if f_none f then filter (fun kv => not_none kv.2) d else d)))
      else bind (model_validate rm false (VDict d)) (fun v => Val (inr v))
  | _ => bind (model_validate rm false result) (fun v => Val (inr v))
  end.

Definition try_block (fast_path_ok : bool) (f : filters) (rm : cls) (result : val) : out val :=
  bind (validate_branch fast_path_ok f rm result)
    (fun r => match r with
              | inl v => Val v
              | inr validated => model_dump validated (dump_kwargs f)
              end).

(** The handlers of the [try]: our own error is raised on, a Pydantic
    [ValidationError] is promoted, any other [Exception] is dropped and the
    result returned as it came. *)
Definition except_block (ctx : option nat) (result : val) (o : out val) : out val :=
  match o with
  | Exc (PyValidationError es) => Exc (ResponseValidationError (prefixed <$> es) result ctx)
  | Exc (OtherException _) => Val result
  | _ => o
  end.

(** The path of a response model without [model_validate]. *)
Definition adapter_path (ctx : option nat) (f : filters) (n : nat) (result : val) : out val :=
  match type_adapter n with
  | None => Val result
  | Some ta =>
      match ta_validate ta result with
      | Exc (PyValidationError es) => Exc (ResponseValidationError (prefixed <$> es) result ctx)
      | Exc e => Exc e
      | Val validated => ta_dump ta validated (dump_kwargs f)
      end
  end.

Definition _apply_response_model (st : caches) (ctx : option nat) (f : filters)
    (response_model : option rmodel) (result : val) : out val * caches :=
  match response_model with
  | None => (Val result, st)
  | Some rm =>
      match result with
      | VResponse _ | VGen _ => (Val result, st)
      | _ =>
          match rm with
          | MOther n => (adapter_path ctx f n result, st)
          | MClass c =>
              let '(ok, st') := if has_filters f then (false, st)
                                else let '(b, st') := _model_needs_full_dump st c in (negb b, st') in
              (except_block ctx result (try_block ok f c result), st')
          end
      end
  end.

End Apply.

(** ** Dumping as Pydantic documents it

    The keys of a dumped model, at every depth, are the serialization aliases
    where [by_alias] is true, the field names otherwise. *)

Section Dump.

Variable info : cls -> class_info.

Definition field_of (c : cls) (k : text) : option field_info :=
  snd <$> list_find (fun fi => f_name fi = k) (model_fields (info c)).

Definition dump_key (ba : bool) (c : cls) (k : text) : text :=
  match ba, field_of c k with
  | true, Some fi => default (default k (alias fi)) (serialization_alias fi)
  | _, _ => k
  end.

Fixpoint plain_dump (ba : bool) (v : val) : val :=
  match v with
  | VModel c items _ => VDict ((fun kv => (dump_key ba c kv.1, plain_dump ba kv.2)) <$> items)
  | VDict items => VDict ((fun kv => (kv.1, plain_dump ba kv.2)) <$> items)
  | VSeq l => VSeq (plain_dump ba <$> l)
  | _ => v
  end.

(** Every model class inside the value satisfies [p]. *)
Fixpoint classes_all (p : cls -> bool) (v : val) : bool :=
  match v with
  | VModel c items _ => p c && forallb (fun kv => classes_all p kv.2) items
  | VDict items => forallb (fun kv => classes_all p kv.2) items
  | VSeq l => forallb (classes_all p) l
  | _ => true
  end.

(** No computed fields and no serializers: the keys are all that dumping
    changes. *)
Definition hookless (c : cls) : bool :=
  negb (model_computed_fields (info c)) &&
  match decorators (info c) with Some (fs, ms) => negb fs && negb ms | None => true end.

Definition unaliased (c : cls) : bool := negb (existsb field_alias (model_fields (info c))).

Definition optionless (k : kwargs) : Prop :=
  include k = None /\ exclude k = None /\
  exclude_unset k = false /\ exclude_defaults k = false /\ exclude_none k = false.

(** What is relied on of [model_dump]. *)
Definition dumps_by_name (model_dump : val -> kwargs -> out val) : Prop :=
  forall v k, optionless k -> classes_all hookless v = true ->
              model_dump v k = Val (plain_dump (default false (by_alias k)) v).

End Dump.

(** ** Theorems *)

Section ValInd.

Variable P : val -> Prop.
Hypothesis Hseq : forall l, Forall P l -> P (VSeq l).
Hypothesis Hdict : forall l, Forall (fun kv => P kv.2) l -> P (VDict l).
Hypothesis Hmodel : forall c l s, Forall (fun kv => P kv.2) l -> P (VModel c l s).
Hypothesis Hleaf : forall v, match v with VSeq _ | VDict _ | VModel _ _ _ => True | _ => P v end.

Fixpoint val_tree_ind (v : val) : P v :=
  let items := fix go (l : list (text * val)) : Forall (fun kv => P kv.2) l :=
    match l with [] => Forall_nil_2 _ | kv :: l' => Forall_cons_2 _ _ _ (val_tree_ind kv.2) (go l') end in
  match v with
  | VSeq l => Hseq l ((fix go (l : list val) : Forall P l := match l with
                                   | [] => Forall_nil_2 _
                                   | x :: l' => Forall_cons_2 _ _ _ (val_tree_ind x) (go l')
                                   end) l)
  | VDict l => Hdict l (items l)
  | VModel c l s => Hmodel c l s (items l)
  | v' => Hleaf v'
  end.

End ValInd.

Lemma compute_needs_false i :
  compute_needs i = false <->
  existsb field_alias (model_fields i) = false /\ model_computed_fields i = false /\
  match decorators i with Some (fs, ms) => fs || ms = false | None => True end.
Proof. unfold compute_needs. repeat case_match; naive_solver. Qed.

(** An induction hypothesis over a list, used at an element of a list that
    passes a boolean test. *)
Lemma forallb_Forall_at {A} (p : A -> bool) (Q : A -> Prop) (l : list A) i x :
  Forall (fun y => p y = true -> Q y) l -> forallb p l = true -> l !! i = Some x -> Q x.
Proof.
  rewrite Forall_lookup, forallb_forall. intros HF Hp Hx.
  apply (HF i x Hx), Hp, list_elem_of_In. by eapply list_elem_of_lookup_2.
Qed.

Section DumpLemmas.

Variable info : cls -> class_info.

Lemma dump_key_unaliased ba c k : unaliased info c = true -> dump_key info ba c k = k.
Proof.
  unfold unaliased, dump_key, field_of. intros Hu%negb_true_iff.
  destruct ba; [|done]. destruct (list_find _ _) as [[i fi]|] eqn:E; [|done]. simpl.
  apply list_find_Some in E as (Hl & _ & _).
  assert (field_alias fi = false) as Hf.
  { apply not_true_iff_false. intros Ht. apply not_true_iff_false in Hu. apply Hu, existsb_exists.
    exists fi. split; [|done]. apply list_elem_of_In. by eapply list_elem_of_lookup_2. }
  unfold field_alias in Hf. destruct (alias fi), (serialization_alias fi); done.
Qed.

Lemma plain_dump_unaliased v :
  classes_all (unaliased info) v = true -> plain_dump info true v = plain_dump info false v.
Proof.
  pattern v. apply val_tree_ind; clear v;
    [intros l IH|intros l IH|intros c l s IH|by intros []]; simpl.
  - intros H. f_equal. apply list_fmap_ext. intros i x Hx.
    exact (forallb_Forall_at _ _ l i x IH H Hx).
  - intros H. f_equal. apply list_fmap_ext. intros i x Hx. f_equal.
    exact (forallb_Forall_at _ _ l i x IH H Hx).
  - intros [Hc H]%andb_true_iff. f_equal. apply list_fmap_ext. intros i x Hx.
    f_equal; [exact (dump_key_unaliased true c x.1 Hc)|].
    exact (forallb_Forall_at _ _ l i x IH H Hx).
Qed.

End DumpLemmas.

(** ** Error entries *)

Lemma dict_get_set e k v k' :
  dict_get (dict_set e k v) k' = if bool_decide (k = k') then Some v else dict_get e k'.
Proof.
  induction e as [|[k0 v0] e IH]; simpl; [done|].
  repeat (case_bool_decide; simplify_eq/=; try done); rewrite IH; by case_bool_decide.
Qed.

Lemma dict_get_filter (e : list (text * ev)) k0 k :
  dict_get (filter (fun kv => kv.1 <> k0) e) k = if bool_decide (k = k0) then None else dict_get e k.
Proof.
  induction e as [|[k' v] e IH]; [simpl; by case_bool_decide|].
  rewrite filter_cons. destruct (decide ((k', v).1 <> k0)); cbn [dict_get]; rewrite IH; simpl in *;
    repeat case_bool_decide; simplify_eq; done.
Qed.

(** A promoted entry has the location of the original under ["response"], no
    ["url"], and every other item unchanged. *)
Theorem prefixed_get e k :
  dict_get (prefixed e) k =
  if bool_decide (k = lit "url") then None
  else if bool_decide (k = lit "loc") then Some (Loc (lit "response" :: loc_of e))
  else dict_get e k.
Proof.
  unfold prefixed. rewrite dict_get_filter, dict_get_set.
  repeat case_bool_decide; simplify_eq; done.
Qed.

(** ** The cached verdict *)

Section Cache.

Variable info : cls -> class_info.
Variable mro : cls -> list cls.
Variable settable : cls -> bool.

(** Every attribute that is set holds its own class's verdict. *)
Definition caches_ok (st : caches) : Prop :=
  forall c b, st !! c = Some b -> b = compute_needs (info c).

(** No class of the order other than [c] itself holds a verdict that [c] does
    not have. *)
Definition agrees (st : caches) (c : cls) : Prop :=
  forall a b, a ∈ mro c -> st !! a = Some b -> compute_needs (info a) = compute_needs (info c).

Lemma getattr_cached_Some st cs b :
  getattr_cached st cs = Some b -> exists a, a ∈ cs /\ st !! a = Some b.
Proof.
  induction cs as [|c cs IH]; simpl; [done|]. case_match; intros; simplify_eq.
  - exists c. split; [left|done].
  - destruct IH as (a & ? & ?); [done|]. exists a. split; [by right|done].
Qed.

(** Asking keeps the attributes true of the classes that own them. *)
Theorem needs_full_dump_invariant st c b st' :
  caches_ok st -> _model_needs_full_dump info mro settable st c = (b, st') -> caches_ok st'.
Proof.
  unfold _model_needs_full_dump. intros Hok. case_match; intros [= <- <-]; [done|].
  destruct (settable c); [|done]. intros c' b'.
  rewrite lookup_insert. case_decide; naive_solver.
Qed.

(** The verdict is the class's own where no ancestor that was asked before
    disagrees. *)
Theorem needs_full_dump_exact st c :
  caches_ok st -> agrees st c ->
  (_model_needs_full_dump info mro settable st c).1 = compute_needs (info c).
Proof.
  intros Hok Ha. unfold _model_needs_full_dump. case_match eqn:E; [|done].
  apply getattr_cached_Some in E as (a & Hin & Hst). simpl.
  rewrite (Hok a b Hst). by eapply Ha.
Qed.

(** A second question for the same class changes nothing. *)
Theorem needs_full_dump_stable st c b st' :
  head (mro c) = Some c -> settable c = true ->
  _model_needs_full_dump info mro settable st c = (b, st') ->
  _model_needs_full_dump info mro settable st' c = (b, st').
Proof.
  unfold _model_needs_full_dump. intros Hm Hs. destruct (getattr_cached st (mro c)) eqn:E.
  - intros [= -> <-]. by rewrite E.
  - rewrite Hs. intros [= <- <-]. destruct (mro c); simplify_eq/=. by rewrite lookup_insert_eq.
Qed.

End Cache.

(** ** The function as a whole *)

Section Whole.

Variable info : cls -> class_info.
Variable mro : cls -> list cls.
Variable settable : cls -> bool.
Variable model_validate : cls -> bool -> val -> out val.
Variable model_dump : val -> kwargs -> out val.
Variable python_dump : val -> out val.
Variable type_adapter : nat -> option nat.
Variable ta_validate : nat -> val -> out val.
Variable ta_dump : nat -> val -> kwargs -> out val.
Variable asdict_value : val -> val.

Abbreviation apply := (_apply_response_model info mro settable model_validate model_dump
  python_dump type_adapter ta_validate ta_dump asdict_value).
Abbreviation try_ := (try_block info mro model_validate model_dump python_dump asdict_value).

(** The whole function for a model class, with the verdict already known. *)
Lemma apply_class st ctx f c result :
  (forall n, result <> VResponse n) -> (forall n, result <> VGen n) ->
  (apply st ctx f (Some (MClass c)) result).1 =
  except_block ctx result
    (try_ (negb (has_filters f) && negb (_model_needs_full_dump info mro settable st c).1) f c result).
Proof.
  intros H1 H2. unfold _apply_response_model.
  destruct result as [| | | | | |n|n|]; try (by destruct (H1 n)); try (by destruct (H2 n));
    destruct (has_filters f); try done; by destruct (_model_needs_full_dump _ _ _ _ _).
Qed.

(** Only a framework error for the response, or what is not an [Exception],
    leaves the function where the response model is a class: no Pydantic error
    and no other exception of the validators or serializers does. *)
Theorem class_errors st ctx f c result e :
  (apply st ctx f (Some (MClass c)) result).1 = Exc e ->
  (exists es b k, e = ResponseValidationError es b k) \/ (exists n, e = BaseException n).
Proof.
  unfold _apply_response_model. intros H.
  assert (forall o, except_block ctx result o = Exc e ->
    (exists es b k, e = ResponseValidationError es b k) \/ (exists n, e = BaseException n)) as Hx.
  { intros [v|[]]; simpl; naive_solver. }
  destruct result; simplify_eq/=; try (destruct (has_filters f));
    try destruct (_model_needs_full_dump _ _ _ _ _); simpl in H; by eapply Hx.
Qed.

(** What a [ValidationError] of the class becomes: the framework's error with
    every entry prefixed, the handler's value as its body. *)
Theorem class_invalid st ctx f c d es :
  model_validate c false (VDict d) = Exc (PyValidationError es) ->
  (apply st ctx f (Some (MClass c)) (VDict d)).1 =
  Exc (ResponseValidationError (prefixed <$> es) (VDict d) ctx).
Proof.
  intros Hv. rewrite apply_class by done. unfold try_block, validate_branch. simpl. by rewrite Hv.
Qed.

(** Any other exception: the class's result goes out as the handler gave it,
    with none of the filters applied, while for a generic alias the same
    exception is raised. *)
Theorem fault_unfiltered st ctx f c d n ta :
  model_validate c false (VDict d) = Exc (OtherException n) ->
  type_adapter 0%nat = Some ta -> ta_validate ta (VDict d) = Exc (OtherException n) ->
  (apply st ctx f (Some (MClass c)) (VDict d)).1 = Val (VDict d) /\
  (apply st ctx f (Some (MOther 0%nat)) (VDict d)).1 = Exc (OtherException n).
Proof.
  intros Hv Ht Ha. split.
  - rewrite apply_class by done. unfold try_block, validate_branch. simpl. by rewrite Hv.
  - simpl. unfold adapter_path. by rewrite Ht, Ha.
Qed.

(** An instance of a subclass with one of the exclude options: every key of the
    answer is a field name of the response model, never an alias that is not
    one of the names. *)
Theorem subclass_keys st ctx f rm c items s d :
  c <> rm -> rm ∈ mro c -> f_unset f || f_defaults f || f_none f = true ->
  model_dump (VModel c items s) (dump_kwargs f) = Val d ->
  exists l, (apply st ctx f (Some (MClass rm)) (VModel c items s)).1 = Val (VDict l) /\
    l = filter (fun kv => kv.1 ∈ field_names info rm) (items_of d).
Proof.
  intros Hne Hin Hx Hd. eexists. split; [|done].
  rewrite apply_class by done. unfold try_block, validate_branch.
  assert (is_type (VModel c items s) rm = false) as ->.
  { apply bool_decide_eq_false_2. simpl. congruence. }
  rewrite andb_false_r. unfold isinstance. simpl. rewrite bool_decide_eq_true_2 by done.
  rewrite Hx. simpl. by rewrite Hd.
Qed.

(** The shortcut: where the verdict is right for the class and no class inside
    the value is aliased or hooked, dumping without arguments gives what the
    long way gives. *)
Theorem fast_path_equiv st ctx c items s :
  dumps_by_name info model_dump -> caches_ok info st -> agrees info mro st c ->
  compute_needs (info c) = false ->
  classes_all (hookless info) (VModel c items s) = true ->
  classes_all (unaliased info) (VModel c items s) = true ->
  (apply st ctx no_filters (Some (MClass c)) (VModel c items s)).1 =
  except_block ctx (VModel c items s) (try_ false no_filters c (VModel c items s)).
Proof.
  intros Hd Hok Ha Hn Hh Hu. rewrite apply_class by done.
  rewrite needs_full_dump_exact, Hn by done. f_equal.
  unfold try_block, validate_branch, is_type. simpl. rewrite bool_decide_eq_true_2 by done. simpl.
  rewrite !Hd by (by try repeat split). cbn [bind]. f_equal. simpl by_alias. cbn [default].
  symmetry. by apply plain_dump_unaliased.
Qed.

End Whole.

(** ** Concrete classes

    0 has a field [user_id] with the alias [userId]; 1 has a field [inner], a 0;
    3 has a field [name]; 2 derives from 3 and adds an aliased field; 4 derives
    from 0 and adds nothing. *)

Definition info0 (c : cls) : class_info :=
  let fs := match c with
            | 0%nat | 4%nat => [{| f_name := "user_id"; alias := Some (lit "userId"); serialization_alias := None |}]
            | 1%nat => [{| f_name := "inner"; alias := None; serialization_alias := None |}]
            | 2%nat => [{| f_name := "name"; alias := None; serialization_alias := None |};
                        {| f_name := "user_id"; alias := Some (lit "userId"); serialization_alias := None |}]
            | _ => [{| f_name := "name"; alias := None; serialization_alias := None |}]
            end in
  {| model_fields := fs; model_computed_fields := false; decorators := Some (false, false);
     from_attributes := false |}.

Definition mro0 (c : cls) : list cls :=
  match c with 2%nat => [2; 3]%nat | 4%nat => [4; 0]%nat | _ => [c] end.

Definition dump0 (v : val) (k : kwargs) : out val :=
  Val (plain_dump info0 (default false (by_alias k)) v).

(** Validation that accepts what it is given, and one that fails in a validator. *)
Definition accept0 (c : cls) (fa : bool) (v : val) : out val := Val v.
Definition fail0 (c : cls) (fa : bool) (v : val) : out val := Exc (OtherException 9%nat).

Definition apply0 (st : caches) (f : filters) (c : cls) (v : val) : out val * caches :=
  _apply_response_model info0 mro0 (fun _ => true) accept0 dump0 (fun v => Val v)
    Some (fun _ v => Val v) (fun _ v _ => Val v) id st None f (Some (MClass c)) v.

Lemma dump0_by_name : dumps_by_name info0 dump0.
Proof. by intros v k _ _. Qed.

(** The verdict looks at the class's own fields only: the alias of a model
    inside the value is lost on the shortcut, and kept on the long way. *)
Theorem nested_alias_lost :
  let v := VModel 1%nat [(lit "inner", VModel 0%nat [(lit "user_id", VAtom 7)] [])] [] in
  (apply0 ∅ no_filters 1%nat v).1 = Val (VDict [(lit "inner", VDict [(lit "user_id", VAtom 7)])]) /\
  try_block info0 mro0 accept0 dump0 (fun v => Val v) id false no_filters 1%nat v =
    Val (VDict [(lit "inner", VDict [(lit "userId", VAtom 7)])]).
Proof. split; reflexivity. Qed.

(** A class that derives from one that was asked before takes its verdict: the
    same value of class 2 is dumped with its alias where 2 is asked first, and
    without where 3 was. *)
Theorem verdict_inherited :
  let v := VModel 2%nat [(lit "name", VAtom 1); (lit "user_id", VAtom 7)] [] in
  let p := VModel 3%nat [(lit "name", VAtom 1)] [] in
  (apply0 ∅ no_filters 2%nat v).1 = Val (VDict [(lit "name", VAtom 1); (lit "userId", VAtom 7)]) /\
  (apply0 (apply0 ∅ no_filters 3%nat p).2 no_filters 2%nat v).1 =
    Val (VDict [(lit "name", VAtom 1); (lit "user_id", VAtom 7)]).
Proof. split; reflexivity. Qed.

(** An aliased field of a subclass instance disappears with [exclude_unset],
    though it is set: its key is the alias, which is no field name. *)
Theorem subclass_alias_dropped :
  let f := {| f_include := None; f_exclude := None; f_unset := true; f_defaults := false;
              f_none := false; f_by_alias := true |} in
  let items := [(lit "user_id", VAtom 7)] in
  (apply0 ∅ f 0%nat (VModel 4%nat items [lit "user_id"])).1 = Val (VDict []) /\
  (apply0 ∅ f 0%nat (VModel 0%nat items [lit "user_id"])).1 = Val (VDict [(lit "userId", VAtom 7)]).
Proof. split; reflexivity. Qed.

(** A validator that raises something else than a validation error: the whole
    dict goes out, the fields the response model leaves out included. *)
Lemma fault_unfiltered_witness :
  (_apply_response_model info0 mro0 (fun _ => true) fail0 dump0 (fun v => Val v) Some
     (fun _ _ => Exc (OtherException 9%nat)) (fun _ v _ => Val v) id ∅ None no_filters
     (Some (MClass 3%nat)) (VDict [(lit "name", VAtom 1); (lit "secret", VAtom 2)])).1 =
    Val (VDict [(lit "name", VAtom 1); (lit "secret", VAtom 2)]).
Proof.
  apply (fault_unfiltered info0 mro0 (fun _ => true) fail0 dump0 (fun v => Val v) Some
    (fun _ _ => Exc (OtherException 9%nat)) (fun _ v _ => Val v) id ∅ None no_filters 3%nat _ 9%nat 0%nat);
    reflexivity.
Defined.

Lemma fast_path_equiv_witness :
  (apply0 ∅ no_filters 1%nat (VModel 1%nat [(lit "inner", VAtom 3)] [])).1 =
    Val (VDict [(lit "inner", VAtom 3)]).
Proof.
  refine (eq_trans (fast_path_equiv info0 mro0 (fun _ => true) accept0 dump0 (fun v => Val v) Some
    (fun _ v => Val v) (fun _ v _ => Val v) id ∅ None 1%nat [(lit "inner", VAtom 3)] []
    dump0_by_name _ _ _ _ _) _); try reflexivity.
  - intros c b H. by rewrite lookup_empty in H.
  - intros a b _ H. by rewrite lookup_empty in H.
Defined.

End ResponseModel.
