(* ===== verification/ParamModels.v ===== *)
(** Parameter models (_introspect_from_real_fastapi.py): the synthetic
    dependencies that validate a query, header, cookie or form model, the
    exception they raise, and which of the application's exception handlers that
    exception reaches ([Exceptions]).

    Real FastAPI's [request_params_to_args] and [request_body_to_args] and
    Pydantic's [model_validate] are parameters. *)

From S2P Require Import Prelude Exceptions ResponseModel.

Module ParamModels.

Import ResponseModel (error, ev, Loc, Ev, loc_of, prefixed).
Abbreviation err_get := ResponseModel.dict_get.

(** What a builder raises: the HTTP exception with its detail, or anything else
    (a [KeyError], what parsing the form raises). *)
Inductive raised (D : Type) :=
| HTTP (status : Z) (detail : D)
| Error (e : exn).
Arguments HTTP {D} status detail.
Arguments Error {D} e.

(** One entry of the detail [_http_422_from_validation] builds: each item is
    [e.get(...)], [None] where the key is missing. *)
Record detail_entry := {
  d_type : option ev;
  d_loc : list text;
  d_msg : option ev;
  d_input : option ev
}.

Definition _http_422_entry (loc_prefix : text) (e : error) : detail_entry :=
  {| d_type := err_get e (lit "type"); d_loc := loc_prefix :: loc_of e;
     d_msg := err_get e (lit "msg"); d_input := err_get e (lit "input") |}.

Definition _http_422_from_validation (loc_prefix : text) (es : list error) : raised (list detail_entry) :=
  HTTP 422 (_http_422_entry loc_prefix <$> es).

Section Builders.

Context {value model : Type}.

(** [model_cls.model_validate], on the supplied fields. *)
Variable model_validate : list (text * value) -> model + list error.

(** The keyword arguments of the builder: [None] is [_PM_MISSING]. *)
Definition supplied (fields : list (text * option value)) : list (text * value) :=
  omap (fun kv => pair kv.1 <$> kv.2) fields.

Definition _make_model_builder (loc_prefix : text) (fields : list (text * option value)) :
    model + raised (list detail_entry) :=
  match model_validate (supplied fields) with
  | inl m => inl m
  | inr es => inr (_http_422_from_validation loc_prefix es)
  end.

(** *** Models validated by real FastAPI on the live request *)

Inductive kind := KQuery | KHeader | KCookie.

(** What the builders read of a request; parsing the form may raise. *)
Record request := {
  query_params : list (text * text);
  headers : list (text * text);
  cookies : list (text * text);
  form : res (list (text * text))
}.

Definition received (k : kind) (r : request) : list (text * text) :=
  match k with KQuery => query_params r | KHeader => headers r | KCookie => cookies r end.

(** A field of a dependant: its name, and the rest of it behind an index. *)
Record field := { mf_name : text; mf_id : nat }.

(** The values by name, and the errors. *)
Variable request_params_to_args : field -> list (text * text) -> gmap text model * list error.
Variable request_body_to_args : field -> list (text * text) -> gmap text model * list error.
Variable jsonable_encoder : list error -> list error.

(** The common end of both builders. *)
Definition finish (f : field) (r : gmap text model * list error) : model + raised (list error) :=
  match r.2 with
  | [] => match r.1 !! mf_name f with
          | Some v => inl v
          | None => inr (Error (KeyError (mf_name f)))
          end
  | es => inr (HTTP 422 (jsonable_encoder es))
  end.

Definition _make_request_param_model_builder (f : field) (k : kind) (r : request) :
    model + raised (list error) :=
  finish f (request_params_to_args f (received k r)).

Definition _make_form_param_model_builder (f : field) (r : request) : model + raised (list error) :=
  match form r with
  | Raise e => inr (Error e)
  | Ok fm => finish f (request_body_to_args f fm)
  end.

End Builders.

(** The exception as the dispatch sees it. *)
Definition as_exc {D} (HTTPException Other : Exceptions.cls) (id : nat) (x : raised D) : Exceptions.exc :=
  match x with
  | HTTP z _ => {| Exceptions.e_cls := HTTPException; Exceptions.e_status := Some z; Exceptions.e_id := id |}
  | Error _ => {| Exceptions.e_cls := Other; Exceptions.e_status := None; Exceptions.e_id := id |}
  end.

(** ** Theorems *)

(** The detail keeps type, message, input and the location under the source;
    nothing else of an error, its [ctx] in particular, has a place in it. *)
Theorem detail_forgets e e' p :
  (forall k, k ∈ [lit "type"; lit "loc"; lit "msg"; lit "input"] -> err_get e k = err_get e' k) ->
  _http_422_from_validation p [e] = _http_422_from_validation p [e'].
Proof.
  intros H. unfold _http_422_from_validation, _http_422_entry. simpl.
  unfold loc_of. rewrite !H by set_solver. done.
Qed.

Section BuilderTheorems.

Context {value model : Type}.
Variable model_validate : list (text * value) -> model + list error.

Lemma supplied_absent (names : list text) (extract : text -> option value) n :
  n ∉ names ->
  (list_to_map (supplied ((fun n => (n, extract n)) <$> names)) : gmap text value) !! n = None.
Proof.
  unfold supplied. induction names as [|a names IH]; intros Hn; simpl; [done|].
  apply not_elem_of_cons in Hn as [Hne Hn].
  destruct (extract a); simpl; [rewrite lookup_insert_ne by done|]; by apply IH.
Qed.

(** The model is validated against a dict that has, for each of its wired names,
    what the engine extracted, and no entry where the request had none: the
    model's own default or missing rule decides there. *)
Theorem builder_sees_the_request p (names : list text) (extract : text -> option value) :
  NoDup names ->
  exists d, _make_model_builder model_validate p ((fun n => (n, extract n)) <$> names) =
            match model_validate d with
            | inl m => inl m
            | inr es => inr (HTTP 422 (_http_422_entry p <$> es))
            end /\
    (forall n, n ∈ names -> (list_to_map d : gmap text value) !! n = extract n) /\
    (forall n, n ∉ names -> (list_to_map d : gmap text value) !! n = None).
Proof.
  intros Hnd. eexists. split; [done|]. split; [|apply supplied_absent].
  induction names as [|a names IH]; intros n Hn; [by apply elem_of_nil in Hn|].
  apply NoDup_cons in Hnd as [Ha Hnd]. unfold supplied in *.
  simpl. destruct (extract a) as [v|] eqn:E; simpl.
  - destruct (decide (n = a)) as [->|Hne]; [by rewrite lookup_insert_eq|].
    rewrite lookup_insert_ne by done. apply IH; [done..|]. set_solver.
  - destruct (decide (n = a)) as [->|Hne]; [by rewrite E; apply supplied_absent|]. apply IH; [done..|]. set_solver.
Qed.

Variable request_params_to_args : field -> list (text * text) -> gmap text model * list error.
Variable request_body_to_args : field -> list (text * text) -> gmap text model * list error.
Variable jsonable_encoder : list error -> list error.

(** Where validation reports no error it gives a value for the field. *)
Definition total (validate : field -> list (text * text) -> gmap text model * list error) : Prop :=
  forall f m, (validate f m).2 = [] -> is_Some ((validate f m).1 !! mf_name f).

Hypothesis params_total : total request_params_to_args.
Hypothesis body_total : total request_body_to_args.

Abbreviation build := (_make_request_param_model_builder request_params_to_args jsonable_encoder).
Abbreviation build_form := (_make_form_param_model_builder request_body_to_args jsonable_encoder).

Lemma finish_spec validate f m :
  total validate ->
  match finish jsonable_encoder f (validate f m) with
  | inl v => (validate f m).2 = [] /\ (validate f m).1 !! mf_name f = Some v
  | inr x => (validate f m).2 <> [] /\ x = HTTP 422 (jsonable_encoder (validate f m).2)
  end.
Proof.
  intros Ht. unfold finish. specialize (Ht f m). destruct ((validate f m).2) as [|e es]; [|done].
  destruct Ht as [v Hv]; [done|]. by rewrite Hv.
Qed.

(** A builder gives the validated model, or raises the HTTP exception with the
    errors, and never anything else; it reads the part of the request that goes
    with its kind. *)
Theorem builder_outcome f k r :
  match build f k r with
  | inl v => (request_params_to_args f (received k r)).2 = [] /\
             (request_params_to_args f (received k r)).1 !! mf_name f = Some v
  | inr x => x = HTTP 422 (jsonable_encoder (request_params_to_args f (received k r)).2)
  end.
Proof.
  unfold _make_request_param_model_builder. pose proof (finish_spec _ f (received k r) params_total).
  by case_match; naive_solver.
Qed.

Theorem form_builder_outcome f r x :
  build_form f r = inr x ->
  (exists e, form r = Raise e /\ x = Error e) \/
  (exists fm, form r = Ok fm /\ x = HTTP 422 (jsonable_encoder (request_body_to_args f fm).2)).
Proof.
  unfold _make_form_param_model_builder. destruct (form r) as [fm|e]; [|naive_solver].
  intros H. right. exists fm. split; [done|].
  pose proof (finish_spec _ f fm body_total) as Hf. rewrite H in Hf. naive_solver.
Qed.

(** *** Which handler the error reaches *)

Variable mro : Exceptions.cls -> list Exceptions.cls.
Variable HTTPException RequestValidationError Other : Exceptions.cls.

Lemma dict_get_app_ne (d : list (Exceptions.key * Exceptions.handler)) k k' h :
  k <> k' -> Exceptions.dict_get (d ++ [(k', h)]) k = Exceptions.dict_get d k.
Proof.
  intros Hk. unfold Exceptions.dict_get. induction d as [|[k0 h0] d IH]; simpl.
  - by rewrite decide_False by (simpl; congruence).
  - case_decide; [done|].
    by destruct (list_find _ (d ++ _)) as [[]|], (list_find _ d) as [[]|].
Qed.

(** A handler registered for [RequestValidationError] plays no part in what
    becomes of the error of a parameter model: with it or without it the same
    handler, or none, is found. *)
Theorem validation_handler_is_bypassed d h id f k r x :
  RequestValidationError <> HTTPException ->
  RequestValidationError ∉ mro HTTPException ->
  build f k r = inr x ->
  Exceptions._lookup_exception_handler mro
    (d ++ [(Exceptions.KClass RequestValidationError, h)]) (as_exc HTTPException Other id x) =
  Exceptions._lookup_exception_handler mro d (as_exc HTTPException Other id x).
Proof.
  intros Hne Hmro Hb. pose proof (builder_outcome f k r) as Ho. rewrite Hb in Ho. subst x.
  unfold Exceptions._lookup_exception_handler. simpl. rewrite dict_get_app_ne by congruence.
  assert (forall cs, (forall c, c ∈ cs -> c <> RequestValidationError) ->
    Exceptions.first_class (d ++ [(Exceptions.KClass RequestValidationError, h)]) cs =
    Exceptions.first_class d cs) as Hf.
  { intros cs. induction cs as [|c cs IH]; intros Hc; simpl; [done|].
    rewrite dict_get_app_ne by (intros [= ->]; eapply Hc; [left|done]).
    rewrite IH; [done|]. intros c' ?. apply Hc. by right. }
  rewrite Hf, dict_get_app_ne; [done..|].
  intros c Hc ->. apply Hmro. destruct (mro HTTPException); [set_solver|]. by right.
Qed.

(** A handler for [HTTPException] is the one that is found. *)
Theorem http_handler_is_called d h id f k r x :
  build f k r = inr x ->
  Exceptions._lookup_exception_handler mro
    ((Exceptions.KClass HTTPException, h) :: d) (as_exc HTTPException Other id x) = Some h.
Proof.
  intros Hb. pose proof (builder_outcome f k r) as Ho. rewrite Hb in Ho. subst x.
  unfold Exceptions._lookup_exception_handler, Exceptions.dict_get. simpl. by rewrite decide_True.
Qed.

End BuilderTheorems.

(** ** On a concrete field: a model that takes an integer under its name *)

Definition validate0 (f : field) (m : list (text * text)) : gmap text Z * list error :=
  match snd <$> (snd <$> list_find (fun kv => kv.1 = mf_name f) m) with
  | Some t => match py_int is_space_latin1 t with
              | Some z => ({[mf_name f := z]}, [])
              | None => (∅, [[(lit "type", Ev 1); (lit "loc", Loc [lit "query"; mf_name f])]])
              end
  | None => (∅, [[(lit "type", Ev 0); (lit "loc", Loc [lit "query"; mf_name f])]])
  end.

Lemma validate0_total : total validate0.
Proof.
  intros f m. unfold validate0. destruct (_ <$> _) as [t|]; [|done].
  destruct (py_int _ t) as [z|]; [|done]. intros _. exists z. apply lookup_singleton_eq.
Qed.

(** Classes as in [Exceptions.mro0]: 3 is [HTTPException]; 4 stands for
    [RequestValidationError]. *)
Lemma validation_handler_is_bypassed_witness :
  let r := {| query_params := [(lit "n", lit "x")]; headers := []; cookies := []; form := Ok [] |} in
  let f := {| mf_name := "n"; mf_id := 0%nat |} in
  exists x, _make_request_param_model_builder validate0 id f KQuery r = inr x /\
    Exceptions._lookup_exception_handler Exceptions.mro0
      [(Exceptions.KClass 4%nat, Exceptions.answer 422%nat)] (as_exc 3%nat 5%nat 0%nat x) = None.
Proof.
  intros r f. eexists. split; [reflexivity|].
  refine (eq_trans (validation_handler_is_bypassed validate0 id validate0_total Exceptions.mro0
    3%nat 4%nat 5%nat [] _ 0%nat f KQuery r _ _ _ eq_refl) eq_refl); [lia|].
  unfold Exceptions.mro0. set_solver.
Defined.

(** The same mistake in a form model and a good value. *)
Example builders_run :
  let f := {| mf_name := "n"; mf_id := 0%nat |} in
  let r t := {| query_params := [(lit "n", lit t)]; headers := []; cookies := [];
                form := Ok [(lit "n", lit t)] |} in
  _make_request_param_model_builder validate0 id f KQuery (r "12") = inl 12 /\
  _make_form_param_model_builder validate0 id f (r "12") = inl 12 /\
  _make_request_param_model_builder validate0 id f KHeader (r "12") =
    inr (HTTP 422 [[(lit "type", Ev 0); (lit "loc", Loc [lit "query"; lit "n"])]]).
Proof. repeat split; reflexivity. Qed.

End ParamModels.
