(* ===== verification/Registration.v ===== *)
(** Registration of routes and handlers through an application and its root
    router (routing.py, applications.py): the decorators and their imperative
    forms, the version counter of the router, WebSocket routes with their check
    of scopes ([WsDeps]), event and exception handlers, and the tests for
    customised route classes (_route_helpers.py). *)

From S2P Require Import Prelude StreamHandler OpenApi WsDeps Exceptions.

Module Registration.

#[local] Existing Instance Exceptions.key_eq_dec.

(** ** Endpoints and routes *)

(** An endpoint: what a route reads of it ([OpenApi]), the names in its MRO where
    it is a class, and the dependencies of its signature. *)
Record endpoint := {
  ep : OpenApi.endpoint;
  ep_mro : option (list text);
  ep_deps : list WsDeps.depends
}.

Definition _is_websocket_endpoint_class (e : endpoint) : bool :=
  match ep_mro e with
  | Some names => bool_decide (lit "WebSocketEndpoint" ∈ names)
  | None => false
  end.

(** The adapter function has the class's name and the parameters [websocket] and
    [_endpoint_cls], neither a dependency. *)
Definition _adapt_websocket_endpoint_class (e : endpoint) : endpoint :=
  if _is_websocket_endpoint_class e then
    {| ep := {| OpenApi.ep_func := None;
                OpenApi.ep_name := Some (default (lit "websocket_endpoint") (OpenApi.ep_name (ep e)));
                OpenApi.ep_class := lit "function"; OpenApi.ep_hints := Some None;
                OpenApi.ep_sig := None; OpenApi.ep_kind := OpenApi.ep_kind (ep e) |};
       ep_mro := None; ep_deps := [] |}
  else e.

(** [WSRoute] *)
Record ws_route := {
  w_path : text;
  w_endpoint : endpoint;
  w_name : text;
  w_dependencies : list nat;
  w_tags : list text
}.

Definition WSRoute (path : text) (e : endpoint) (name : option text) (deps : option (list nat))
    (tags : option (list text)) : ws_route :=
  {| w_path := path; w_endpoint := e; w_name := OpenApi.route_name (ep e) name;
     w_dependencies := default [] deps; w_tags := default [] tags |}.

(** A Starlette [Route], by the arguments it is constructed with. *)
Record st_route := {
  s_path : text;
  s_endpoint : endpoint;
  s_methods : list text;
  s_name : option text;
  s_in_schema : bool
}.

Inductive route :=
| RApi (path : text) (r : OpenApi.route)
| RStarlette (r : st_route)
| RWs (r : ws_route).

(** What registration changes of a router: [_mark_routes_changed] counts the
    version up. *)
Record router := {
  routes : list route;
  version : nat;
  on_startup : list nat;
  on_shutdown : list nat
}.

Definition append (r : route) (s : router) : router :=
  {| routes := routes s ++ [r]; version := S (version s);
     on_startup := on_startup s; on_shutdown := on_shutdown s |}.

Section Router.

(** [self.route_class]: the constructor, which may raise. *)
Variable route_class : endpoint -> OpenApi.route_args -> res OpenApi.route.
(** The functions endpoints depend on, and the recursion they may use. *)
Variable defs : nat -> WsDeps.dfn.
Variable depth : nat.

Definition with_methods (ms : option (list text)) (a : OpenApi.route_args) : OpenApi.route_args :=
  {| OpenApi.a_methods := ms; OpenApi.a_model := OpenApi.a_model a; OpenApi.a_name := OpenApi.a_name a;
     OpenApi.a_operation_id := OpenApi.a_operation_id a; OpenApi.a_unique_id := OpenApi.a_unique_id a;
     OpenApi.a_response_class := OpenApi.a_response_class a;
     OpenApi.a_strict_content_type := OpenApi.a_strict_content_type a;
     OpenApi.a_openapi_extra := OpenApi.a_openapi_extra a; OpenApi.a_callbacks := OpenApi.a_callbacks a;
     OpenApi.a_security := OpenApi.a_security a; OpenApi.a_servers := OpenApi.a_servers a;
     OpenApi.a_external_docs := OpenApi.a_external_docs a; OpenApi.a_kwargs := OpenApi.a_kwargs a |}.

Definition add_api_route (path : text) (e : endpoint) (ms : option (list text))
    (a : OpenApi.route_args) (s : router) : res router :=
  (r <-- route_class e (with_methods ms a) ;; Ok (append (RApi path r) s))%res.

(** [list(methods or ["GET"])] *)
Definition starlette_methods (ms : option (list text)) : list text :=
  match ms with Some (m :: ms') => m :: ms' | _ => [lit "GET"] end.

(** Keyword arguments a Starlette route does not have are only logged. *)
Definition add_route (path : text) (e : endpoint) (ms : option (list text)) (name : option text)
    (in_schema : bool) (kwargs : list (text * nat)) (s : router) : res router :=
  Ok (append (RStarlette {| s_path := path; s_endpoint := e; s_methods := starlette_methods ms;
                            s_name := name; s_in_schema := in_schema |}) s).

Definition add_websocket_route (path : text) (e : endpoint) (name : option text)
    (deps : option (list nat)) (tags : option (list text)) (s : router) : res router :=
  let e' := _adapt_websocket_endpoint_class e in
  (_ <-- WsDeps._ws_check_scope_mismatch defs depth (ep_deps e') ;;
   Ok (append (RWs (WSRoute path e' name deps tags)) s))%res.

(** The verbs with a decorator of their own. *)
Inductive verb := GET | POST | PUT | DELETE | PATCH | OPTIONS | HEAD | TRACE.

Definition verb_text (v : verb) : text :=
  match v with
  | GET => lit "GET" | POST => lit "POST" | PUT => lit "PUT" | DELETE => lit "DELETE"
  | PATCH => lit "PATCH" | OPTIONS => lit "OPTIONS" | HEAD => lit "HEAD" | TRACE => lit "TRACE"
  end.

(** [_method_decorator(method, path)(func)] *)
Definition _method_decorator (v : verb) (path : text) (a : OpenApi.route_args) (func : endpoint)
    (s : router) : res (router * endpoint) :=
  (s' <-- add_api_route path func (Some [verb_text v]) a s ;; Ok (s', func))%res.

Definition api_route (path : text) (ms : option (list text)) (a : OpenApi.route_args) (func : endpoint)
    (s : router) : res (router * endpoint) :=
  (s' <-- add_api_route path func ms a s ;; Ok (s', func))%res.

Definition route_decorator (path : text) (ms : option (list text)) (name : option text) (in_schema : bool)
    (kwargs : list (text * nat)) (func : endpoint) (s : router) : res (router * endpoint) :=
  (s' <-- add_route path func ms name in_schema kwargs s ;; Ok (s', func))%res.

(** [websocket(...)] and [websocket_route(...)]: the same function. *)
Definition websocket (path : text) (name : option text) (deps : option (list nat))
    (tags : option (list text)) (func : endpoint) (s : router) : res (router * endpoint) :=
  (s' <-- add_websocket_route path func name deps tags s ;; Ok (s', func))%res.

(** [add_event_handler]; [on_event] does the same. *)
Definition add_event_handler (event_type : text) (f : nat) (s : router) : router :=
  if bool_decide (event_type = lit "startup") then
    {| routes := routes s; version := version s; on_startup := on_startup s ++ [f];
       on_shutdown := on_shutdown s |}
  else if bool_decide (event_type = lit "shutdown") then
    {| routes := routes s; version := version s; on_startup := on_startup s;
       on_shutdown := on_shutdown s ++ [f] |}
  else s.

(** ** A program that registers *)

(** The calls of an application or of its router: each method of [FastAPI]
    passes on to the one of its root router. *)
Inductive call :=
| Decorate (v : verb) (path : text) (a : OpenApi.route_args) (func : endpoint)
| ApiRoute (path : text) (ms : option (list text)) (a : OpenApi.route_args) (func : endpoint)
| Route (path : text) (ms : option (list text)) (name : option text) (in_schema : bool)
    (kwargs : list (text * nat)) (func : endpoint)
| WebSocket (path : text) (name : option text) (deps : option (list nat)) (tags : option (list text))
    (func : endpoint)
| OnEvent (event_type : text) (f : nat).

Definition run_call (c : call) (s : router) : res router :=
  match c with
  | Decorate v p a f => (r <-- _method_decorator v p a f s ;; Ok r.1)%res
  | ApiRoute p ms a f => (r <-- api_route p ms a f s ;; Ok r.1)%res
  | Route p ms n i k f => (r <-- route_decorator p ms n i k f s ;; Ok r.1)%res
  | WebSocket p n d t f => (r <-- websocket p n d t f s ;; Ok r.1)%res
  | OnEvent t f => Ok (add_event_handler t f s)
  end.

(** A program in which a failing call does not end it (a test's
    [pytest.raises]): the states go on, the exceptions are collected. *)
Fixpoint run (cs : list call) (s : router) : router * list exn :=
  match cs with
  | [] => (s, [])
  | c :: cs' => match run_call c s with
                | Ok s' => run cs' s'
                | Raise e => let '(s', es) := run cs' s in (s', e :: es)
                end
  end.

(** The route a call makes, whatever was registered before. *)
Definition made (c : call) : res (option route) :=
  match c with
  | Decorate v p a f => (r <-- route_class f (with_methods (Some [verb_text v]) a) ;; Ok (Some (RApi p r)))%res
  | ApiRoute p ms a f => (r <-- route_class f (with_methods ms a) ;; Ok (Some (RApi p r)))%res
  | Route p ms n i _ f =>
      Ok (Some (RStarlette {| s_path := p; s_endpoint := f; s_methods := starlette_methods ms;
                              s_name := n; s_in_schema := i |}))
  | WebSocket p n d t f =>
      let f' := _adapt_websocket_endpoint_class f in
      (_ <-- WsDeps._ws_check_scope_mismatch defs depth (ep_deps f') ;;
       Ok (Some (RWs (WSRoute p f' n d t))))%res
  | OnEvent _ _ => Ok None
  end.

Definition made_route (c : call) : option route :=
  match made c with Ok r => r | Raise _ => None end.

Definition failure (c : call) : option exn :=
  match made c with Raise e => Some e | Ok _ => None end.

End Router.

(** ** Exception handlers *)

(** [self.exception_handlers[k] = h]: a key that is present keeps its place. *)
Fixpoint add_exception_handler (k : Exceptions.key) (h : Exceptions.handler)
    (d : list (Exceptions.key * Exceptions.handler)) : list (Exceptions.key * Exceptions.handler) :=
  match d with
  | [] => [(k, h)]
  | (k', h') :: d' => if decide (k' = k) then (k, h) :: d' else (k', h') :: add_exception_handler k h d'
  end.

(** ** Customised classes *)

(** Classes by their resolution order and the attributes each defines itself;
    an attribute's value is a function object. *)
Section Custom.

Variable mro : nat -> list nat.
Variable own : nat -> gmap text nat.

Fixpoint first_own (cs : list nat) (a : text) : option nat :=
  match cs with
  | [] => None
  | c :: cs' => match own c !! a with Some f => Some f | None => first_own cs' a end
  end.

(** [cls.a] *)
Definition attr (c : nat) (a : text) : option nat := first_own (mro c) a.

(** [_route_dispatch_customized], and [_router_dispatch_customized], of an
    object of class [c]; a missing attribute raises, which is answered [False]. *)
Definition dispatch_customized (Real c : nat) : bool :=
  if bool_decide (Real ∈ mro c) then
    match attr c (lit "matches"), attr Real (lit "matches") with
    | Some f, Some g =>
        if bool_decide (f <> g) then true
        else match attr c (lit "handle"), attr Real (lit "handle") with
             | Some f', Some g' => bool_decide (f' <> g')
             | _, _ => false
             end
    | _, _ => false
    end
  else false.

(** [_has_overridden_get_route_handler] *)
Definition _has_overridden_get_route_handler (APIRoute c : nat) : bool :=
  match attr c (lit "get_route_handler"), attr APIRoute (lit "get_route_handler") with
  | Some f, Some g => bool_decide (f <> g)
  | _, _ => false
  end.

End Custom.

(** ** Theorems *)

Section RouterTheorems.

Variable route_class : endpoint -> OpenApi.route_args -> res OpenApi.route.
Variable defs : nat -> WsDeps.dfn.
Variable depth : nat.

Abbreviation run_call' := (run_call route_class defs depth).
Abbreviation run' := (run route_class defs depth).
Abbreviation made' := (made route_class defs depth).

(** A call fails or succeeds whatever was registered before, and adds the route
    it makes at the end, with the version counted up; a failing call leaves the
    router as it was. *)
Lemma run_call_made c s :
  match made' c, run_call' c s with
  | Ok None, Ok s' => routes s' = routes s /\ version s' = version s
  | Ok (Some r), Ok s' => s' = append r s
  | Raise e, Raise e' => e = e'
  | _, _ => False
  end.
Proof.
  destruct c as [v p a f|p ms a f|p ms n i k f|p n d t f|t f]; simpl;
    unfold _method_decorator, api_route, add_api_route, websocket, add_websocket_route; simpl.
  - by destruct (route_class _ _).
  - by destruct (route_class _ _).
  - done.
  - by destruct (WsDeps._ws_check_scope_mismatch _ _ _).
  - unfold add_event_handler. by repeat case_bool_decide.
Qed.

(** Whatever is registered, in whatever mixture of decorators and imperative
    calls and with failing calls in between, the routes are those that the
    successful calls make, in the order of the calls; the version counts them;
    and the exceptions are those of the failing calls, in order. *)
Theorem registrations_in_order cs s :
  routes (run' cs s).1 = routes s ++ omap (made_route route_class defs depth) cs /\
  version (run' cs s).1 = (version s + length (omap (made_route route_class defs depth) cs))%nat /\
  (run' cs s).2 = omap (failure route_class defs depth) cs.
Proof.
  revert s; induction cs as [|c cs IH]; intros s; simpl; [by rewrite app_nil_r, Nat.add_0_r|].
  pose proof (run_call_made c s) as Hc. unfold made_route, failure in *.
  destruct (made' c) as [[r|]|e], (run_call' c s) as [s'|e'] eqn:E; try done; subst; simpl.
  - destruct (IH (append r s)) as (-> & -> & ->). simpl. rewrite <-app_assoc. split_and!; [done|by rewrite Nat.add_succ_r|done].
  - destruct Hc as [Hr Hv]. destruct (IH s') as (-> & -> & ->). by rewrite Hr, Hv.
  - destruct (run' cs s) as [s' es] eqn:E'. simpl. specialize (IH s). rewrite E' in IH. simpl in IH.
    by destruct IH as (-> & -> & ->).
Qed.

(** Every route added changes the version, so what was computed for an earlier
    version is never taken for the routes of a later one. *)
Corollary version_tells_routes cs s cs1 cs2 :
  cs = cs1 ++ cs2 -> version (run' cs s).1 = version (run' cs1 s).1 ->
  routes (run' cs s).1 = routes (run' cs1 s).1.
Proof.
  intros -> Hv. destruct (registrations_in_order (cs1 ++ cs2) s) as (Hr & Hl & _).
  destruct (registrations_in_order cs1 s) as (Hr1 & Hl1 & _).
  rewrite Hr, Hr1. rewrite Hl, Hl1 in Hv. rewrite omap_app, length_app in Hv.
  rewrite omap_app. by rewrite (nil_length_inv (omap _ cs2)) by lia; rewrite app_nil_r.
Qed.

(** A class endpoint is taken whatever it depends on: the adapter has no
    dependencies to check. *)
Theorem class_endpoint_is_registered path e name deps tags s :
  _is_websocket_endpoint_class e = true ->
  exists r, add_websocket_route defs depth path e name deps tags s = Ok (append (RWs r) s) /\
            w_path r = path /\
            (OpenApi.nonempty name = None -> forall n, OpenApi.ep_name (ep e) = Some n -> n <> [] ->
             w_name r = n).
Proof.
  intros Hc. unfold add_websocket_route, _adapt_websocket_endpoint_class. rewrite Hc. simpl.
  eexists. split; [done|]. split; [done|]. simpl. intros Hn n Hname Hne.
  unfold OpenApi.route_name. rewrite Hn. simpl. rewrite Hname. simpl. by destruct n.
Qed.

(** A function endpoint of a WebSocket route is registered if and only if no
    reachable generator of request scope depends on one of function scope; the
    refusal leaves the router unchanged. *)
Theorem websocket_registration_is_checked (U : gset nat) path e name deps tags s :
  ep_mro e = None ->
  (forall f sub, f ∈ U -> sub ∈ WsDeps.sub_depends defs f -> WsDeps.dep_fn sub ∈ U) ->
  (forall d, d ∈ ep_deps e -> WsDeps.dep_fn d ∈ U) ->
  (forall d d1 d2, d ∈ ep_deps e -> WsDeps.reach defs d d1 -> WsDeps.reach defs d d2 ->
     WsDeps.dep_fn d1 = WsDeps.dep_fn d2 -> WsDeps.dep_scope d1 = WsDeps.dep_scope d2) ->
  (size U < depth)%nat ->
  (add_websocket_route defs depth path e name deps tags s =
     Ok (append (RWs (WSRoute path e name deps tags)) s) /\
   forall d, d ∈ ep_deps e -> ~ WsDeps.violation defs d) \/
  (exists f, run_call' (WebSocket path name deps tags e) s =
     Raise (FastAPIError (WsDeps.scope_message defs f)) /\
   exists d, d ∈ ep_deps e /\ WsDeps.violation defs d).
Proof.
  intros Hm HU Hin Huniq Hlt.
  assert (_adapt_websocket_endpoint_class e = e) as Hae.
  { unfold _adapt_websocket_endpoint_class, _is_websocket_endpoint_class. by rewrite Hm. }
  simpl. unfold websocket, add_websocket_route. rewrite Hae.
  destruct (WsDeps.scope_check_dec defs U depth (ep_deps e)) as [[H1 H2]|(f & H1 & H2)]; try done.
  - left. by rewrite H1.
  - right. exists f. by rewrite H1.
Qed.

End RouterTheorems.

(** Without methods a Starlette route is given ["GET"], whatever the endpoint
    is: a class with a method per verb gets no other verb; and the keyword
    arguments leave no trace. *)
Theorem starlette_route_is_get_only path e name in_schema kwargs ms s :
  ms = None \/ ms = Some [] ->
  add_route path e ms name in_schema kwargs s =
  Ok (append (RStarlette {| s_path := path; s_endpoint := e; s_methods := [lit "GET"];
                            s_name := name; s_in_schema := in_schema |}) s).
Proof. by intros [->| ->]. Qed.

(** An event type other than the two is dropped without an error. *)
Theorem unknown_event_is_dropped t f s :
  t <> lit "startup" -> t <> lit "shutdown" -> add_event_handler t f s = s.
Proof. intros H1 H2. unfold add_event_handler. by rewrite !bool_decide_eq_false_2. Qed.

(** ** Exception handlers *)

Lemma handler_get_add k h d k' :
  Exceptions.dict_get (add_exception_handler k h d) k' =
  if decide (k = k') then Some h else Exceptions.dict_get d k'.
Proof.
  unfold Exceptions.dict_get. induction d as [|[k0 h0] d IH]; simpl.
  - by repeat case_decide.
  - destruct (decide (k0 = k)) as [->|Hne]; simpl; [by repeat case_decide|].
    destruct (decide (k0 = k')) as [->|Hne']; simpl; [by repeat case_decide|].
    revert IH. by destruct (list_find _ (add_exception_handler k h d)) as [[]|],
      (list_find _ d) as [[]|]; simpl.
Qed.

(** The handler registered last for a class is the one an exception of exactly
    that class finds, whatever else is registered. *)
Theorem registered_handler_is_found mro c h d (e : Exceptions.exc) :
  Exceptions.e_cls e = c ->
  Exceptions._lookup_exception_handler mro (add_exception_handler (Exceptions.KClass c) h d) e = Some h.
Proof.
  intros <-. unfold Exceptions._lookup_exception_handler. by rewrite handler_get_add, decide_True.
Qed.

(** A registration for a class an exception does not have leaves what the
    exception finds unchanged. *)
Theorem other_handlers_unchanged mro c h d (e : Exceptions.exc) :
  c <> Exceptions.e_cls e -> c ∉ mro (Exceptions.e_cls e) ->
  Exceptions._lookup_exception_handler mro (add_exception_handler (Exceptions.KClass c) h d) e =
  Exceptions._lookup_exception_handler mro d e.
Proof.
  intros Hc Hmro. unfold Exceptions._lookup_exception_handler.
  rewrite handler_get_add, decide_False by congruence.
  assert (forall cs, c ∉ cs ->
    Exceptions.first_class (add_exception_handler (Exceptions.KClass c) h d) cs =
    Exceptions.first_class d cs) as Hf.
  { intros cs. induction cs as [|c' cs IH]; intros Hn; simpl; [done|].
    apply not_elem_of_cons in Hn as [Hne Hn]. rewrite handler_get_add, decide_False by congruence.
    by rewrite IH. }
  rewrite Hf by (destruct (mro _); set_solver).
  destruct (Exceptions.e_status e); [|done]. by rewrite handler_get_add, decide_False.
Qed.

(** A status handler is found only where no class of the exception has one. *)
Theorem status_handler_comes_last mro z h d (e : Exceptions.exc) :
  Exceptions.e_status e = Some z ->
  Exceptions._lookup_exception_handler mro (add_exception_handler (Exceptions.KStatus z) h d) e =
  match Exceptions.dict_get d (Exceptions.KClass (Exceptions.e_cls e)),
        Exceptions.first_class d (tail (mro (Exceptions.e_cls e))) with
  | Some h', _ => Some h'
  | None, Some h' => Some h'
  | None, None => Some h
  end.
Proof.
  intros Hz. unfold Exceptions._lookup_exception_handler. rewrite handler_get_add, decide_False by done.
  assert (forall cs, Exceptions.first_class (add_exception_handler (Exceptions.KStatus z) h d) cs =
    Exceptions.first_class d cs) as ->.
  { intros cs. induction cs as [|c' cs IH]; simpl; [done|].
    by rewrite handler_get_add, decide_False, IH by done. }
  by rewrite Hz, handler_get_add, decide_True.
Qed.

(** ** Customised classes *)

Section CustomTheorems.

Variable mro : nat -> list nat.
Variable own : nat -> gmap text nat.

Lemma first_own_app l k a :
  first_own own (l ++ k) a =
  match first_own own l a with Some f => Some f | None => first_own own k a end.
Proof. induction l as [|c l IH]; simpl; [done|]. rewrite IH. by destruct (own c !! a). Qed.

(** What a class that derives from the real one says for an attribute: its own
    definition, or that of a class before the real one, if there is any. *)
Definition redefines (pre : list nat) (a : text) (g : nat) : Prop :=
  exists f, first_own own pre a = Some f /\ f <> g.

Lemma attr_redefines Real c pre a g :
  mro c = pre ++ mro Real -> attr mro own Real a = Some g ->
  exists f, attr mro own c a = Some f /\ (f <> g <-> redefines pre a g).
Proof.
  unfold attr, redefines. intros -> Hg. rewrite first_own_app, Hg.
  destruct (first_own own pre a) as [f|]; [exists f|exists g]; naive_solver.
Qed.

(** A route class is sent to the fallback exactly when it, or a class between it
    and the real one, redefines [matches] or [handle]. *)
Theorem dispatch_customized_iff Real c pre m h :
  mro c = pre ++ mro Real -> Real ∈ mro Real ->
  attr mro own Real (lit "matches") = Some m -> attr mro own Real (lit "handle") = Some h ->
  dispatch_customized mro own Real c = true <->
  redefines pre (lit "matches") m \/ redefines pre (lit "handle") h.
Proof.
  intros Hm Hr H1 H2. unfold dispatch_customized.
  rewrite bool_decide_eq_true_2 by (rewrite Hm; set_solver).
  destruct (attr_redefines Real c pre _ m Hm H1) as (f & -> & Hf).
  destruct (attr_redefines Real c pre _ h Hm H2) as (f' & -> & Hf').
  rewrite H1, H2, <-Hf, <-Hf'. case_bool_decide; [naive_solver|].
  rewrite bool_decide_eq_true. naive_solver.
Qed.

(** The same for [get_route_handler]; a route without the attribute (one of
    Starlette's) is not customised. *)
Theorem overridden_handler_iff APIRoute c pre g :
  mro c = pre ++ mro APIRoute -> attr mro own APIRoute (lit "get_route_handler") = Some g ->
  _has_overridden_get_route_handler mro own APIRoute c = true <->
  redefines pre (lit "get_route_handler") g.
Proof.
  intros Hm Hg. unfold _has_overridden_get_route_handler.
  destruct (attr_redefines APIRoute c pre _ g Hm Hg) as (f & -> & Hf).
  by rewrite Hg, bool_decide_eq_true.
Qed.

End CustomTheorems.

(** ** On a concrete program *)

Definition plain (n : string) : endpoint :=
  {| ep := {| OpenApi.ep_func := None; OpenApi.ep_name := Some (lit n); OpenApi.ep_class := lit "function";
              OpenApi.ep_hints := Some None; OpenApi.ep_sig := None; OpenApi.ep_kind := StreamHandler.NotGen |};
     ep_mro := None; ep_deps := [] |}.

Definition no_args : OpenApi.route_args :=
  {| OpenApi.a_methods := None; OpenApi.a_model := None; OpenApi.a_name := None;
     OpenApi.a_operation_id := None; OpenApi.a_unique_id := None; OpenApi.a_response_class := None;
     OpenApi.a_strict_content_type := None; OpenApi.a_openapi_extra := None; OpenApi.a_callbacks := None;
     OpenApi.a_security := None; OpenApi.a_servers := None; OpenApi.a_external_docs := None;
     OpenApi.a_kwargs := [] |}.

Definition empty_router : router := {| routes := []; version := 0; on_startup := []; on_shutdown := [] |}.

(** A route, a WebSocket route refused for its scopes, one that is accepted and a
    Starlette route: three routes and one exception. *)
Example program_runs :
  let dep f sc := {| WsDeps.dep_fn := f; WsDeps.dep_use_cache := true; WsDeps.dep_scope := sc |} in
  let fn ps := {| WsDeps.fn_name := lit "d"; WsDeps.fn_yields := true; WsDeps.fn_params := ps;
                  WsDeps.fn_call := fun _ => WsDeps.Val WsDeps.VNone |} in
  let defs f := match f with 0%nat => fn [WsDeps.PSub (dep 1%nat WsDeps.ScFunction)] | _ => fn [] end in
  let bad := {| ep := ep (plain "bad"); ep_mro := None; ep_deps := [dep 0%nat WsDeps.ScRequest] |} in
  let r := run (fun e a => OpenApi.APIRoute (fun _ => None) (ep e) a) defs 3
    [Decorate POST (lit "/a") no_args (plain "a"); WebSocket (lit "/w") None None None bad;
     WebSocket (lit "/ok") None None None (plain "ok"); Route (lit "/s") None None true [] (plain "s")]
    empty_router in
  version r.1 = 3%nat /\ length r.2 = 1%nat /\
  (match routes r.1 with
   | [RApi p1 a; RWs w; RStarlette s] => (p1, OpenApi.methods a, w_name w, s_methods s)
   | _ => ([], [], [], [])
   end) = (lit "/a", [lit "POST"], lit "ok", [lit "GET"]).
Proof. vm_compute. done. Qed.

End Registration.
