(* ===== verification/TestSessions.v ===== *)
(** The rest of the test client (testclient.py): where a WebSocket session
    connects, the context variables and server exceptions that travel through the
    application object between the test's thread and [_ws_entry]
    (_ws_support.py), the operations of a session on a real socket, the default
    headers, and [AsyncTestClient]. *)

From S2P Require Import Prelude Dicts.

Module TestSessions.

(** ** Targets of [websocket_connect] *)

(** [urlparse], as far as it is used: path and query. *)
Record parsed := { p_path : text; p_query : text }.

Section Target.

Variable urlparse : text -> parsed.

Definition slash (t : text) : bool := starts_with (lit "/") t.

Definition in_process_url (url : text) : text :=
  let ws_path := if slash url then url
                 else let p := urlparse url in
                      p_path p ++ match p_query p with [] => [] | q => lit "?" ++ q end in
  lit "ws://testserver" ++ (if slash ws_path then ws_path else lit "/" ++ ws_path).

(** [None] is the in-process client. *)
Definition ws_url (port : option Z) (url : text) : text :=
  match port with
  | None => in_process_url url
  | Some p => lit "ws://127.0.0.1:" ++ dec p ++ url
  end.

End Target.

(** ** Contexts and exceptions on the application object *)

(** Context variables and their values. *)
Abbreviation context := (gmap nat nat) (only parsing).

(** [_ws_pending_test_contexts] and [_ws_server_exceptions], with the session each
    entry came from; and what the entry of each connection was given, the latest
    last. *)
Record app := {
  pending : list (nat * context);
  server_exceptions : list (nat * exn);
  replayed : list (nat * option (nat * context))
}.

Definition app0 : app := {| pending := []; server_exceptions := []; replayed := [] |}.

(** What happens, in any order: a session object is created on the test's thread
    (the context of the thread with it), a connection reaches [_ws_entry], one is
    refused before (no route, a middleware), the server captures an exception of
    a connection, a session's block is left. *)
Inductive event :=
| Create (s : nat) (ctx : context)
| Enter (s : nat)
| Refused (s : nat)
| Captured (s : nat) (e : exn)
| Exit (s : nat).

(** The context part of [_ws_entry]: [q.pop(0)] where the queue is not empty. *)
Definition take_context (a : app) (s : nat) : app :=
  {| pending := tail (pending a); server_exceptions := server_exceptions a;
     replayed := replayed a ++ [(s, head (pending a))] |}.

(** [_var.set(_val)] for every variable of the context. *)
Definition replay (ctx current : context) : context := ctx ∪ current.

(** One event; the second component is what the session's [__exit__] raises. *)
Definition step (a : app) (ev : event) : app * option (nat * exn) :=
  match ev with
  | Create s ctx => ({| pending := pending a ++ [(s, ctx)]; server_exceptions := [];
                        replayed := replayed a |}, None)
  | Enter s => (take_context a s, None)
  | Refused _ => (a, None)
  | Captured s e => ({| pending := pending a; server_exceptions := server_exceptions a ++ [(s, e)];
                        replayed := replayed a |}, None)
  | Exit _ => ({| pending := pending a; server_exceptions := tail (server_exceptions a);
                  replayed := replayed a |}, head (server_exceptions a))
  end.

Fixpoint steps (a : app) (evs : list event) : app :=
  match evs with
  | [] => a
  | ev :: evs' => steps (step a ev).1 evs'
  end.

Definition created (evs : list event) : list (nat * context) :=
  omap (fun ev => match ev with Create s c => Some (s, c) | _ => None end) evs.

Definition entered (evs : list event) : list nat :=
  omap (fun ev => match ev with Enter s => Some s | _ => None end) evs.

(** Every connection enters after its session was created: there never are more
    entries than sessions. *)
Fixpoint covered (ahead : nat) (evs : list event) : bool :=
  match evs with
  | [] => true
  | Create _ _ :: evs' => covered (S ahead) evs'
  | Enter _ :: evs' => match ahead with O => false | S n => covered n evs' end
  | _ :: evs' => covered ahead evs'
  end.

(** ** A session on a real socket *)

(** What [recv] of the library gives next. *)
Inductive frame :=
| FText (t : text)
| FBytes (b : bytes)
| FClosed (code : option Z) (reason : text)
| FFails (e : exn).

Inductive out (A : Type) :=
| Val (a : A)
| WebSocketDisconnect (code : Z) (reason : text)
| Exc (e : exn).
Arguments Val {A} a.
Arguments WebSocketDisconnect {A} code reason.
Arguments Exc {A} e.

(** [_ws]: the frames the connection will give, and those sent on it; [None]
    before [__enter__] and after [close]. *)
Record conn := { incoming : list frame; sent : list frame }.
Abbreviation session := (option conn) (only parsing).

Section Session.

Variable encode : text -> bytes.
Variable decode : bytes -> res text.
Context {json : Type}.
Variable dumps : json -> text.
Variable loads : text -> res json.

Definition send (s : session) (f : frame) : session * out unit :=
  match s with
  | None => (s, Exc AssertionError)
  | Some c => (Some {| incoming := incoming c; sent := sent c ++ [f] |}, Val tt)
  end.

Definition send_text (s : session) (t : text) : session * out unit := send s (FText t).
Definition send_bytes (s : session) (b : bytes) : session * out unit := send s (FBytes b).

Definition send_json (s : session) (data : json) (binary : bool) : session * out unit :=
  if binary then send_bytes s (encode (dumps data)) else send_text s (dumps data).

(** [recv] with [_translate_ws_error]: a closed connection without a code, or
    with code 0, counts as 1000; at the end of [incoming] the connection is
    closed normally. *)
Definition recv (s : session) : session * out (text + bytes) :=
  match s with
  | None => (s, Exc AssertionError)
  | Some c =>
      match incoming c with
      | FText t :: l => (Some {| incoming := l; sent := sent c |}, Val (inl t))
      | FBytes b :: l => (Some {| incoming := l; sent := sent c |}, Val (inr b))
      | FClosed code reason :: _ =>
          (s, WebSocketDisconnect (match code with Some 0 | None => 1000 | Some z => z end) reason)
      | FFails e :: _ => (s, Exc e)
      | [] => (s, WebSocketDisconnect 1000 [])
      end
  end.

Definition of_res {A} (r : res A) : out A := match r with Ok a => Val a | Raise e => Exc e end.

Definition map_out {A B} (f : A -> out B) (r : out A) : out B :=
  match r with
  | Val a => f a
  | WebSocketDisconnect c m => WebSocketDisconnect c m
  | Exc e => Exc e
  end.

Definition receive_text (s : session) : session * out text :=
  let '(s', r) := recv s in
  (s', map_out (fun m => match m with inl t => Val t | inr b => of_res (decode b) end) r).

Definition receive_bytes (s : session) : session * out bytes :=
  let '(s', r) := recv s in
  (s', map_out (fun m => match m with inl t => Val (encode t) | inr b => Val b end) r).

Definition receive_json (s : session) (binary : bool) : session * out json :=
  if binary then
    let '(s', r) := receive_bytes s in
    (s', map_out (fun b => of_res (t <-- decode b ;; loads t)%res) r)
  else
    let '(s', r) := receive_text s in (s', map_out (fun t => of_res (loads t)) r).

Definition close (s : session) : session := None.

End Session.

(** ** Default headers of a client with a real server *)

Definition host_header (hostname : option text) (port : option Z) : text :=
  let h := match hostname with Some (c :: t) => c :: t | _ => lit "testserver" end in
  match port with
  | None | Some 0 => h
  | Some p => h ++ lit ":" ++ dec p
  end.

Definition default_headers (host : text) (seed : list (text * text)) : list (text * text) :=
  Dicts.update
    [(lit "host", host); (lit "user-agent", lit "testclient"); (lit "accept-encoding", lit "gzip, deflate")] seed.

(** ** [AsyncTestClient] *)

(** Its fields; the server threads live on in the process. *)
Record async_client := { a_port : option nat; a_client : option nat }.

Definition async0 : async_client := {| a_port := None; a_client := None |}.

(** [_wait_for_server]: the clock in milliseconds; attempt [i] takes [took i] and
    connects or not; after a failure it sleeps for 50. *)
Fixpoint wait_for_server (fuel : nat) (took : nat -> Z) (ok : nat -> bool) (i : nat) (now deadline : Z) :
    option (res unit) :=
  match fuel with
  | O => None
  | S fuel' =>
      if now <? deadline then
        if ok i then Some (Ok tt)
        else wait_for_server fuel' took ok (S i) (now + took i + 50) deadline
      else Some (Raise (RuntimeError (lit "AsyncTestClient: server did not start within 10 seconds")))
  end.

(** [__aenter__]: the server's thread starts on the free port; [running] are the
    servers of the process, by port. *)
Definition __aenter__ (took : nat -> Z) (ok : nat -> bool) (free : nat) (c : async_client)
    (running : list nat) : res async_client * list nat :=
  let running' := running ++ [free] in
  match wait_for_server 201 took ok 0 0 10000 with
  | Some (Ok _) => (Ok {| a_port := Some free; a_client := Some free |}, running')
  | Some (Raise e) => (Raise e, running')
  | None => (Raise TimeoutError, running')
  end.

Definition __aexit__ (c : async_client) (running : list nat) : async_client * list nat :=
  ({| a_port := a_port c; a_client := None |}, running).

(** [get], [post], ... : the request goes to the server behind the client. *)
Definition request {R} (serve : nat -> R) (c : async_client) : res R :=
  match a_client c with
  | None => Raise AssertionError
  | Some p => Ok (serve p)
  end.

(** ** Theorems *)

(** *** Targets *)

(** For an absolute path both clients ask for that path; for anything else the
    in-process client still asks for a path that begins with a slash, while on a
    real server the text is put right behind the port number. *)
Theorem ws_targets urlparse p url :
  (slash url = true ->
     ws_url urlparse None url = lit "ws://testserver" ++ url /\
     ws_url urlparse (Some p) url = lit "ws://127.0.0.1:" ++ dec p ++ url) /\
  (exists path, ws_url urlparse None url = lit "ws://testserver" ++ path /\ slash path = true).
Proof.
  unfold ws_url, in_process_url. split.
  - intros H. by rewrite H, H.
  - eexists. split; [done|]. by destruct (slash (if slash url then _ else _)) eqn:E.
Qed.

(** *** Contexts *)

Lemma covered_pending evs a :
  covered (length (pending a)) evs = true ->
  exists served,
    replayed (steps a evs) = replayed a ++ zip (entered evs) (Some <$> served) /\
    length served = length (entered evs) /\
    pending a ++ created evs = served ++ pending (steps a evs).
Proof.
  revert a; induction evs as [|ev evs IH]; intros a Hc; simpl.
  { exists []. by rewrite !app_nil_r. }
  destruct ev as [s ctx|s|s|s e|s]; simpl in *.
  - destruct (IH {| pending := pending a ++ [(s, ctx)]; server_exceptions := []; replayed := replayed a |})
      as (served & -> & Hl & Hp).
    { simpl. by rewrite length_app, Nat.add_comm. }
    exists served. simpl in Hp. rewrite <-app_assoc in Hp. done.
  - destruct (pending a) as [|x q] eqn:Eq; simpl in Hc; [done|].
    destruct (IH (take_context a s)) as (served & -> & Hl & Hp).
    { unfold take_context. simpl. by rewrite Eq. }
    exists (x :: served). unfold take_context in *. simpl in *. rewrite Eq in *. simpl in *.
    rewrite <-app_assoc. split_and!; [done|by rewrite Hl|by rewrite Hp].
  - by apply IH.
  - by apply (IH {| pending := pending a; server_exceptions := _; replayed := replayed a |}).
  - by apply (IH {| pending := pending a; server_exceptions := _; replayed := replayed a |}).
Qed.

(** Contexts go by rank: the connection that enters as the k-th is given the
    context of the session that was created as the k-th, whichever connection
    that is and whatever was refused or failed in between. *)
Theorem contexts_go_by_rank evs :
  covered 0 evs = true ->
  exists rest, replayed (steps app0 evs) =
                 zip (entered evs) (Some <$> take (length (entered evs)) (created evs)) /\
               created evs = take (length (entered evs)) (created evs) ++ rest /\
               pending (steps app0 evs) = rest.
Proof.
  intros Hc. destruct (covered_pending evs app0 Hc) as (served & Hr & Hl & Hp). simpl in *.
  exists (pending (steps app0 evs)). rewrite Hp, <-Hl, take_app_length. done.
Qed.

(** So a test whose connections enter in the order their sessions were created,
    none of them refused, finds its own context in each. *)
Theorem sequential_sessions_get_their_context evs :
  covered 0 evs = true -> entered evs = fst <$> created evs ->
  forall s o, (s, o) ∈ replayed (steps app0 evs) -> exists ctx, o = Some (s, ctx).
Proof.
  intros Hc He s o Hin. destruct (contexts_go_by_rank evs Hc) as (rest & Hr & Hsplit & _).
  rewrite Hr, He, length_fmap, take_ge in Hin by done. clear -Hin.
  induction (created evs) as [|[s' c] l IH]; simpl in Hin; [by apply elem_of_nil in Hin|].
  apply elem_of_cons in Hin as [[= -> ->]|Hin]; [by exists c|by apply IH].
Qed.

(** A refused connection leaves its context behind for the next one, and two
    sessions entered in the other order have theirs exchanged. *)
Theorem contexts_go_astray c1 c2 :
  replayed (steps app0 [Create 1 c1; Refused 1; Exit 1; Create 2 c2; Enter 2; Exit 2]) =
    [(2%nat, Some (1%nat, c1))] /\
  replayed (steps app0 [Create 1 c1; Create 2 c2; Enter 2; Enter 1]) =
    [(2%nat, Some (1%nat, c1)); (1%nat, Some (2%nat, c2))].
Proof. done. Qed.

(** Replaying a context gives its variables the values they had in the test's
    thread and leaves the others. *)
Theorem replay_lookup (ctx cur : context) v :
  replay ctx cur !! v = match ctx !! v with Some x => Some x | None => cur !! v end.
Proof.
  unfold replay. destruct (ctx !! v) eqn:E; [by apply lookup_union_Some_l|by rewrite lookup_union_r].
Qed.

(** *** Exceptions *)

(** An exception the server captured for an open session is lost when another
    session is created before the first is left; without one in between it is
    raised by the session that is left first, whose it need not be. *)
Theorem captured_exception_travels a s s' e ctx :
  server_exceptions a = [] ->
  (step (step (step a (Captured s e)).1 (Create s' ctx)).1 (Exit s)).2 = None /\
  (step (step a (Captured s e)).1 (Exit s')).2 = Some (s, e) /\
  (step (step (step a (Captured s e)).1 (Exit s')).1 (Exit s)).2 = None.
Proof. simpl. by intros ->. Qed.

(** *** Frames *)

Section Frames.

Variable encode : text -> bytes.
Variable decode : bytes -> res text.
Context {json : Type}.
Variable dumps : json -> text.
Variable loads : text -> res json.

Hypothesis decode_encode : forall t, decode (encode t) = Ok t.
Hypothesis loads_dumps : forall v, loads (dumps v) = Ok v.

(** What one side sends as JSON the other receives, in whichever of the two modes
    either works. *)
Theorem json_roundtrip c v b b' s' :
  send_json encode dumps (Some c) v b = (Some s', Val tt) ->
  exists f rest, sent s' = sent c ++ [f] /\
    receive_json encode decode loads (Some {| incoming := [f]; sent := [] |}) b' = (rest, Val v).
Proof.
  unfold send_json, send_bytes, send_text, send. destruct b; intros [= <-]; simpl;
    eexists _, _; (split; [done|]); destruct b'; unfold receive_json, receive_bytes, receive_text; simpl;
    rewrite ?decode_encode; simpl; by rewrite loads_dumps.
Qed.

End Frames.

(** *** Default headers *)

(** The seed has its way exactly for the names it spells as they are here; the
    names of the result are distinct as texts only: a seed [Host] does not
    replace [host], the two go side by side. *)
Theorem default_headers_lookup host seed k :
  Dicts.get (default_headers host seed) k =
  match Dicts.get (reverse seed) k with
  | Some v => Some v
  | None => if bool_decide (k = lit "host") then Some host
            else if bool_decide (k = lit "user-agent") then Some (lit "testclient")
            else if bool_decide (k = lit "accept-encoding") then Some (lit "gzip, deflate")
            else None
  end.
Proof.
  unfold default_headers. rewrite Dicts.get_update. destruct (Dicts.get (reverse seed) k); [done|].
  rewrite !Dicts.get_cons. cbn [fst snd]. change (Dicts.get [] k) with (@None text).
  repeat case_bool_decide; by subst.
Qed.

Theorem capital_host_is_doubled host v :
  default_headers host [(lit "Host", v)] =
  [(lit "host", host); (lit "user-agent", lit "testclient"); (lit "accept-encoding", lit "gzip, deflate");
   (lit "Host", v)].
Proof. reflexivity. Qed.

(** *** [AsyncTestClient] *)

Lemma wait_ends fuel took ok i now deadline :
  (forall j, 0 <= took j) -> (0 < fuel)%nat -> deadline - now <= 50 * (Z.of_nat fuel - 1) ->
  is_Some (wait_for_server fuel took ok i now deadline).
Proof.
  intros Ht. revert i now; induction fuel as [|fuel IH]; intros i now Hp Hf; [lia|]. cbn [wait_for_server].
  destruct (Z.ltb_spec now deadline); [|done]. destruct (ok i); [done|].
  specialize (Ht i). apply IH; lia.
Qed.

Lemma wait_result fuel took ok i now deadline r :
  wait_for_server fuel took ok i now deadline = Some r ->
  r = Ok tt /\ (exists j, (i <= j)%nat /\ ok j = true) \/ exists e, r = Raise e.
Proof.
  revert i now; induction fuel as [|fuel IH]; intros i now; cbn [wait_for_server]; [done|].
  case_match; [|intros [= <-]; right; by eexists].
  destruct (ok i) eqn:E; [intros [= <-]; left; split; [done|by exists i]|].
  intros [(-> & j & Hj & Ho)|He]%IH; [left; split; [done|]; exists j; split; [lia|done]|by right].
Qed.

Lemma wait_message fuel took ok i now deadline r :
  wait_for_server fuel took ok i now deadline = Some r -> forall e, r = Raise e ->
  e = RuntimeError (lit "AsyncTestClient: server did not start within 10 seconds").
Proof.
  revert i now; induction fuel as [|fuel IH]; intros i now; cbn [wait_for_server]; [done|].
  case_match; [|by intros [= <-] e [= <-]]. destruct (ok i); [by intros [= <-]|]. apply IH.
Qed.

(** Entering ends after at most 200 attempts, with a client for the new server or
    the error of the wait; either way the server's thread has been started. *)
Theorem aenter_ends took ok free c running :
  (forall j, 0 <= took j) ->
  (__aenter__ took ok free c running).2 = running ++ [free] /\
  match (__aenter__ took ok free c running).1 with
  | Ok c' => a_client c' = Some free /\ exists j, ok j = true
  | Raise e => e = RuntimeError (lit "AsyncTestClient: server did not start within 10 seconds")
  end.
Proof.
  intros Ht. unfold __aenter__.
  destruct (wait_ends 201 took ok 0 0 10000) as [r Hr]; [done|lia..|]. rewrite Hr.
  pose proof (wait_message 201 took ok 0 0 10000 r Hr) as Hm.
  destruct (wait_result _ _ _ _ _ _ _ Hr) as [(-> & j & _ & Hj)|[e ->]]; [split; [done|]; split; [done|by exists j]|].
  split; [done|]. by apply Hm.
Qed.

(** [async with client: ...], on a new free port. *)
Definition block (took : nat -> Z) (ok : nat -> bool) (st : async_client * list nat) (free : nat) :
    async_client * list nat :=
  match __aenter__ took ok free st.1 st.2 with
  | (Ok c', running') => __aexit__ c' running'
  | (Raise _, running') => (st.1, running')
  end.

Lemma block_ready took ok st free :
  ok 0%nat = true -> block took ok st free = ({| a_port := Some free; a_client := None |}, st.2 ++ [free]).
Proof. intros Ho. unfold block, __aenter__. cbn [wait_for_server]. by rewrite Ho. Qed.

(** Leaving closes the client only: however often a client is entered and left,
    every server it started is still running, and a request after leaving is
    refused. *)
Theorem aexit_leaves_servers took ok frees :
  ok 0%nat = true ->
  (foldl (block took ok) (async0, []) frees).2 = frees /\
  forall (R : Type) (serve : nat -> R),
    request serve (foldl (block took ok) (async0, []) frees).1 = Raise AssertionError.
Proof.
  intros Ho.
  assert (forall st, a_client st.1 = None -> (foldl (block took ok) st frees).2 = st.2 ++ frees /\
    a_client (foldl (block took ok) st frees).1 = None) as H.
  { induction frees as [|free frees IH]; intros st Hst; cbn [foldl]; [by rewrite app_nil_r|].
    rewrite block_ready by done.
    destruct (IH ({| a_port := Some free; a_client := None |}, st.2 ++ [free])) as [-> H2]; [done|].
    split; [simpl; by rewrite <-app_assoc|done]. }
  destruct (H (async0, [])) as [H1 H2]; [done|]. split; [done|]. intros R serve. unfold request. by rewrite H2.
Qed.

End TestSessions.
