(* ===== verification/SentryEvents.v ===== *)
(** What the Sentry helpers do per request (_sentry_compat.py): the event
    processor that adds body and cookies to captured events, the stamping of the
    active thread, and the test for Sentry's own middleware class.

    Parsing of JSON, UTF-8 and cookies are parameters. *)

From S2P Require Import Prelude Sentry.

Module SentryEvents.

(** ** The event processor *)

Section Events.

Context {json : Type}.

(** [json.loads(b.decode("utf-8"))], and [b.decode("utf-8", errors="replace")]. *)
Variable parse : bytes -> option json.
Variable replace : bytes -> text.
(** [str.encode("utf-8")]. *)
Variable encode : text -> bytes.
(** The cookies of one [Cookie] header; [None] where loading raises. *)
Variable load_cookies : text -> option (list (text * text)).

(** The keyword arguments the processor is made from: the raw body as bytes, or
    under the second name as bytes or text; and the decodable headers. *)
Inductive body_str := BBytes (b : bytes) | BText (t : text) | BOther.

Record kwargs := {
  raw_body_bytes : option bytes;
  raw_body_str : option body_str;
  request_headers : list (text * text)
}.

Definition raw_body (k : kwargs) : option bytes :=
  match raw_body_bytes k with
  | Some b => Some b
  | None => match raw_body_str k with
            | Some (BBytes b) => Some b
            | Some (BText t) => Some (encode t)
            | _ => None
            end
  end.

(** [cookies[ck] = morsel.value]: a later value replaces an earlier one. *)
Definition cookies_of (hs : list (text * text)) : gmap text text :=
  foldl (fun jar kv => if bool_decide (lower kv.1 = lit "cookie")
                       then match load_cookies kv.2 with
                            | Some l => foldl (fun j c => <[c.1 := c.2]> j) jar l
                            | None => jar
                            end
                       else jar) ∅ hs.

Inductive data := Parsed (j : json) | Text (t : text).

(** [event["request"]]. *)
Record request_info := { d_data : option data; d_cookies : option (gmap text text); d_rest : nat }.

Definition processor := request_info -> request_info.

Definition _processor (k : kwargs) : processor := fun info =>
  let info1 := match raw_body k with
               | Some (c :: b) =>
                   {| d_data := Some (match parse (c :: b) with
                                      | Some j => Parsed j
                                      | None => Text (replace (c :: b))
                                      end);
                      d_cookies := d_cookies info; d_rest := d_rest info |}
               | _ => info
               end in
  if bool_decide (cookies_of (request_headers k) = ∅) then info1
  else {| d_data := d_data info1; d_cookies := Some (cookies_of (request_headers k)); d_rest := d_rest info1 |}.

(** The processors of an isolation scope, in the order they were added;
    [add_event_processor] may raise, which is dropped. *)
Definition maybe_install_sentry_request_event_processor (s : Sentry.sdk) (adds : bool) (k : kwargs)
    (scope : list processor) : list processor :=
  match Sentry._get_integration s with
  | None => scope
  | Some _ => if adds then scope ++ [_processor k] else scope
  end.

(** What the SDK does with an event: every processor of the scope, in order. *)
Definition capture (scope : list processor) (info : request_info) : request_info :=
  foldl (fun i p => p i) info scope.

End Events.

(** ** The active thread *)

(** The transaction and the profile with the thread each names; [None]: there is
    none.  Either update may raise. *)
Record tracked := { txn : option nat; prof : option nat }.

Definition sentry_update_active_thread (loaded txn_raises prof_raises : bool) (thread : nat) (t : tracked) : tracked :=
  if negb loaded then t
  else match txn t with
       | Some _ =>
           if txn_raises then t
           else {| txn := Some thread;
                   prof := match prof t with Some p => if prof_raises then Some p else Some thread | None => None end |}
       | None => {| txn := None;
                    prof := match prof t with Some p => if prof_raises then Some p else Some thread | None => None end |}
       end.

(** ** The middleware class *)

(** A middleware: a class with its MRO, or another callable; the door's wrapper
    around one carries it. *)
Inductive mw := MClass (mro : list nat) | MCallable | MBound (inner : mw).

(** [getattr(mw_cls, "_fastapi_turbo_wrapped_middleware", mw_cls)] *)
Definition target (m : mw) : mw := match m with MBound i => i | _ => m end.

Definition is_sentry_asgi_middleware_cls (loaded importable : bool) (Sentry_ : nat) (m : mw) : bool :=
  loaded && importable &&
  match target m with
  | MClass mro => bool_decide (Sentry_ ∈ mro)
  | _ => false
  end.

(** ** Theorems *)

Section EventTheorems.

Context {json : Type}.
Variable parse : bytes -> option json.
Variable replace : bytes -> text.
Variable encode : text -> bytes.
Variable load_cookies : text -> option (list (text * text)).

Abbreviation install := (maybe_install_sentry_request_event_processor parse replace encode load_cookies).

Lemma capture_app (scope1 scope2 : list (processor (json := json))) info :
  capture (scope1 ++ scope2) info = capture scope2 (capture scope1 info).
Proof. unfold capture. by rewrite foldl_app. Qed.

(** The scope after a sequence of requests that share it. *)
Definition serve (s : Sentry.sdk) (ks : list kwargs) : list (processor (json := json)) :=
  foldl (fun sc k => install s true k sc) [] ks.

Lemma serve_snoc s ks k i :
  Sentry._get_integration s = Some i -> serve s (ks ++ [k]) = serve s ks ++ [_processor parse replace encode load_cookies k].
Proof.
  intros Hi. unfold serve. rewrite foldl_app. simpl.
  unfold maybe_install_sentry_request_event_processor at 1. by rewrite Hi.
Qed.

(** An event of a request with a body, or with cookies, has exactly those,
    whatever requests used the scope before. *)
Theorem event_has_own_request s i ks k info :
  Sentry._get_integration s = Some i ->
  let r := capture (serve s (ks ++ [k])) info in
  (forall c b, raw_body encode k = Some (c :: b) ->
     d_data r = Some (match parse (c :: b) with Some j => Parsed j | None => Text (replace (c :: b)) end)) /\
  (cookies_of load_cookies (request_headers k) <> ∅ ->
     d_cookies r = Some (cookies_of load_cookies (request_headers k))).
Proof.
  intros Hi r. unfold r. rewrite (serve_snoc s ks k i Hi), capture_app. unfold capture at 1 3. simpl.
  unfold _processor. split.
  - intros c b ->. by case_bool_decide.
  - intros Hc. by rewrite bool_decide_eq_false_2.
Qed.

(** An event of a request with neither keeps those of the requests before it on
    the same scope. *)
Theorem empty_request_shows_the_last s i ks k info :
  Sentry._get_integration s = Some i ->
  (raw_body encode k = None \/ raw_body encode k = Some []) ->
  cookies_of load_cookies (request_headers k) = ∅ ->
  capture (serve s (ks ++ [k])) info = capture (serve s ks) info.
Proof.
  intros Hi Hb Hc. rewrite (serve_snoc s ks k i Hi), capture_app. unfold capture at 1. simpl.
  unfold _processor. rewrite Hc, bool_decide_eq_true_2 by done. by destruct Hb as [-> | ->].
Qed.

(** Without an active integration no event is changed. *)
Theorem no_integration_no_processor s ks info :
  Sentry._get_integration s = None -> capture (serve s ks) info = info.
Proof.
  intros Hi. unfold serve. assert (forall sc, foldl (fun sc k => install s true k sc) sc ks = sc) as ->; [|done].
  intros sc. revert sc. induction ks as [|k ks IH]; intros sc; simpl; [done|].
  unfold maybe_install_sentry_request_event_processor at 2. by rewrite Hi, IH.
Qed.

End EventTheorems.

(** After an update that does not raise both name the thread; an update of the
    transaction that raises leaves the profile's thread alone too. *)
Theorem update_active_thread_spec loaded tr pr thread t :
  sentry_update_active_thread loaded tr pr thread t =
  if loaded && negb (tr && bool_decide (txn t <> None))
  then {| txn := (fun _ => thread) <$> txn t; prof := (fun p => if pr then p else thread) <$> prof t |}
  else t.
Proof.
  destruct t as [[x|] [p|]], loaded, tr, pr; done.
Qed.

(** The door's wrapper counts as what it wraps; a subclass counts too. *)
Theorem sentry_class_through_wrapper l i c m mro :
  is_sentry_asgi_middleware_cls l i c (MBound (MClass mro)) = is_sentry_asgi_middleware_cls l i c (MClass mro) /\
  (is_sentry_asgi_middleware_cls true true c m = true <-> exists mro', target m = MClass mro' /\ c ∈ mro').
Proof.
  split; [done|]. unfold is_sentry_asgi_middleware_cls. simpl. destruct (target m) as [l'| |];
    rewrite ?bool_decide_eq_true; split; try done; [by exists l'|by intros (? & [= <-] & ?)|..]; by intros (? & ? & ?).
Qed.

(** Two requests on one scope: the second has no body, and its event shows the
    first one's. *)
Example body_of_another_request :
  let s := {| Sentry.loaded := true; Sentry.importable := true; Sentry.client := Some true;
              Sentry.fastapi_integration := Ok (Some {| Sentry.transaction_style := lit "url";
                Sentry.failed_codes := None; Sentry.settings := 0%nat |});
              Sentry.starlette_integration := Ok None; Sentry.transaction_from_function := fun _ => Ok [];
              Sentry.dunder_name := fun _ => []; Sentry.source_for_style := fun _ => None; Sentry.settable := true |} in
  let k b := {| raw_body_bytes := Some (lit b); raw_body_str := None; request_headers := [] |} in
  d_data (capture (serve (fun _ => None : option nat) id id (fun _ => None) s [k "secret"; k ""])
            {| d_data := None; d_cookies := None; d_rest := 0%nat |}) = Some (Text (lit "secret")).
Proof. reflexivity. Qed.

End SentryEvents.
