(* ===== verification/Construct.v ===== *)
(** Constructing an application (applications.py): the genuine classes of
    Starlette behind the shim's patches ([Shim]), the order of the middlewares
    given to the constructor ([Middleware]), the pointer to the last constructed
    application that the worker's default timeout reads ([AsyncWorker]), the
    aliases of old arguments, and absolute URLs. *)

From S2P Require Import Prelude AsyncWorker Middleware Shim.

Module Construct.

(** ** Genuine classes *)

Section Genuine.

(** [importlib.import_module("starlette." + ...)]: the module object. *)
Variable import_module : text -> option nat.

(** The loop over [_PATCHES]: the first record of the place. *)
Fixpoint first_saved (ps : list Shim.saved) (m : nat) (attr : text) : option (option text) :=
  match ps with
  | [] => None
  | (m', attr', original) :: ps' =>
      if bool_decide (m' = m) && bool_decide (attr' = attr) then Some original
      else first_saved ps' m attr
  end.

(** A record of [_MISSING] gives [None], as a missing attribute does. *)
Definition _load_real_starlette_class (s : Shim.shim) (submodule classname : text) : option text :=
  match import_module (lit "starlette." ++ submodule) with
  | None => None
  | Some m => match first_saved (Shim._PATCHES s) m classname with
              | Some original => original
              | None => Shim.attrs s !! (m, classname)
              end
  end.

Definition real_place (t : text) : option (text * text) :=
  if bool_decide (t = lit "cors") then Some (lit "middleware.cors", lit "CORSMiddleware")
  else if bool_decide (t = lit "gzip") then Some (lit "middleware.gzip", lit "GZipMiddleware")
  else if bool_decide (t = lit "httpsredirect")
       then Some (lit "middleware.httpsredirect", lit "HTTPSRedirectMiddleware")
  else None.

Definition _resolve_tower_bound_to_asgi_class (s : Shim.shim) (m : Middleware.mw_arg) : option text :=
  match Middleware._tower_type_for m with
  | Some t => match real_place t with
              | Some (sub, c) => _load_real_starlette_class s sub c
              | None => None
              end
  | None => None
  end.

End Genuine.

(** ** The constructor *)

(** The arguments that are more than stored. *)
Record args := {
  g_root_path : text;
  g_openapi_prefix : text;
  g_worker_timeout : AsyncWorker.worker_timeout;
  g_external_docs : option nat;
  g_openapi_external_docs : option nat;       (* a key of [**kwargs] *)
  g_middleware : list Middleware.mw_arg;
  g_on_startup : list nat;
  g_on_shutdown : list nat
}.

Record app := {
  root_path : text;
  worker_timeout : AsyncWorker.worker_timeout;
  external_docs : option nat;
  extra_external_docs : option nat;           (* what is left of it in [self.extra] *)
  middlewares : Middleware.mst;
  on_startup : list nat;
  on_shutdown : list nat
}.

(** [if openapi_prefix and not root_path: root_path = openapi_prefix] *)
Definition effective_root_path (root prefix : text) : text :=
  match prefix, root with _ :: _, [] => prefix | _, _ => root end.

Definition empty_mst : Middleware.mst :=
  {| Middleware.http_middlewares := []; Middleware.middleware_stack := []; Middleware.raw_asgi_middlewares := [];
     Middleware.registration_log := []; Middleware.registration_seq := 0; Middleware.hosts := [];
     Middleware.host_installed := false |}.

Definition add_all (ms : list Middleware.mw_arg) (s : Middleware.mst) : Middleware.mst :=
  foldl Middleware.add_middleware s ms.

(** [_fastapi_turbo_current_instance], as an attribute of each class that set it:
    0 is [FastAPI] itself, other numbers its subclasses. *)
Record process := { apps : list app; current : gmap nat nat }.

Definition __init__ (cls : nat) (a : args) (p : process) : process :=
  let docs := match g_external_docs a with Some d => Some d | None => g_openapi_external_docs a end in
  let left := match g_external_docs a with Some _ => g_openapi_external_docs a | None => None end in
  {| apps := apps p ++
       [{| root_path := effective_root_path (g_root_path a) (g_openapi_prefix a);
           worker_timeout := g_worker_timeout a; external_docs := docs; extra_external_docs := left;
           middlewares := add_all (g_middleware a) empty_mst;
           on_startup := g_on_startup a; on_shutdown := g_on_shutdown a |}];
     current := <[cls := length (apps p)]> (current p) |}.

(** What [_default_timeout] finds: [getattr(FastAPI, ...)] and its timeout. *)
Definition last_timeout (p : process) : option AsyncWorker.worker_timeout :=
  match current p !! 0%nat with
  | Some i => worker_timeout <$> (apps p !! i)
  | None => None
  end.

Definition process0 : process := {| apps := []; current := ∅ |}.

Definition construct (l : list (nat * args)) : process := foldl (fun p x => __init__ x.1 x.2 p) process0 l.

(** ** [URLPath] *)

Record urlpath := { u_path : text; u_protocol : text; u_host : text }.

Definition make_absolute_url (u : urlpath) (base_url : text) : text :=
  rstrip_by (fun c => bool_decide (c = "/"%char)) base_url ++ u_path u.

(** ** Theorems *)

(** *** Genuine classes *)

Lemma first_saved_origin ps m attr : first_saved ps m attr = Shim.origin ps (m, attr).
Proof.
  induction ps as [|[[m' attr'] o] ps IH]; [done|]. cbn. rewrite IH.
  repeat case_bool_decide; simpl; congruence.
Qed.

(** Whatever the shim has done before, repeated and failed installations
    included, a class is loaded as the package's own imports define it, without
    the shim's assignments; from a module that was there before, as it was
    before the first of them; nothing, where the package does not define it.
    (No module loaded meanwhile has the name of the class.) *)
Theorem genuine_class_is_loaded import_module s ops submodule classname m :
  Shim.wf s -> Shim._PATCHES s = [] -> Forall (Shim.op_unbound classname) ops ->
  import_module (lit "starlette." ++ submodule) = Some m ->
  _load_real_starlette_class import_module (fold_left Shim.run_op ops s) submodule classname =
    Shim.attrs (fold_left Shim.run_imports ops s) !! (m, classname) /\
  ((m < Shim.next_obj s)%nat ->
   _load_real_starlette_class import_module (fold_left Shim.run_op ops s) submodule classname =
     Shim.attrs s !! (m, classname)).
Proof.
  intros Hw Hp Ho Hm. unfold _load_real_starlette_class. rewrite Hm, first_saved_origin.
  rewrite <-Shim.undone_origin.
  rewrite (Shim.un_heap _ _ _ (Shim.session_unpatched classname ops s s Ho Hw (Shim.unpatched_refl _ s Hp)) m).
  split; [done|]. intros Hlt. by apply Shim.session_keeps.
Qed.

(** A marker that is bound to the Tower resolves to its genuine class, in
    whichever form it was registered; no other middleware resolves. *)
Theorem tower_bound_resolves import_module s ops m :
  Shim.wf s -> Shim._PATCHES s = [] ->
  (forall c, c ∈ [lit "CORSMiddleware"; lit "GZipMiddleware"; lit "HTTPSRedirectMiddleware"] ->
     Forall (Shim.op_unbound c) ops) ->
  (forall sub, is_Some (import_module (lit "starlette." ++ sub))) ->
  match Middleware._tower_type_for m with
  | Some t => if Middleware.tower_bound (Some t)
              then exists sub c o, real_place t = Some (sub, c) /\
                     import_module (lit "starlette." ++ sub) = Some o /\
                     _resolve_tower_bound_to_asgi_class import_module (fold_left Shim.run_op ops s) m =
                       Shim.attrs (fold_left Shim.run_imports ops s) !! (o, c)
              else _resolve_tower_bound_to_asgi_class import_module (fold_left Shim.run_op ops s) m = None
  | None => _resolve_tower_bound_to_asgi_class import_module (fold_left Shim.run_op ops s) m = None
  end.
Proof.
  intros Hw Hp Hu Hi. unfold _resolve_tower_bound_to_asgi_class.
  destruct (Middleware._tower_type_for m) as [t|]; [|done].
  destruct (real_place t) as [[sub c]|] eqn:E.
  - assert (Middleware.tower_bound (Some t) = true) as ->.
    { unfold real_place in E. unfold Middleware.tower_bound. apply bool_decide_eq_true.
      repeat case_bool_decide; simplify_eq; set_solver. }
    destruct (Hi sub) as [o Ho]. exists sub, c, o. split_and!; [done..|].
    apply genuine_class_is_loaded; [done..| |done]. apply Hu.
    unfold real_place in E. repeat case_bool_decide; simplify_eq; set_solver.
  - assert (Middleware.tower_bound (Some t) = false) as ->; [|done].
    unfold real_place in E. unfold Middleware.tower_bound. apply bool_decide_eq_false.
    repeat case_bool_decide; simplify_eq; set_solver.
Qed.

(** *** The order of the constructor's middlewares *)

(** A class that becomes a plain member of the chain. *)
Definition plain (c : Middleware.mw_cls) : Prop :=
  Middleware._tower_type_for (Middleware.Class c) = None /\ Middleware.c_base_http c = true.

Lemma add_plain s c :
  plain c -> Forall (fun m => Middleware.is_sentry m = false) (Middleware.http_middlewares s) ->
  Middleware.http_middlewares (Middleware.add_middleware s (Middleware.Class c)) =
  Middleware.http_middlewares s ++ [Middleware.Dispatch c].
Proof.
  intros [Ht Hb] Hs. unfold Middleware.add_middleware, Middleware._add_middleware_impl.
  rewrite Ht, Hb. simpl.
  assert (Forall (fun m => Middleware.is_sentry m = false)
    (Middleware.http_middlewares s ++ [Middleware.Dispatch c])) as Ha.
  { apply Forall_app. split; [done|by repeat constructor]. }
  revert Ha. generalize (Middleware.http_middlewares s ++ [Middleware.Dispatch c]). intros l Hl.
  induction Hl as [|x l Hx _ IH]; [done|].
  rewrite filter_cons_True, filter_cons_False by (by rewrite Hx). simpl. by rewrite IH.
Qed.

Lemma add_all_plain cs s :
  Forall plain cs -> Forall (fun m => Middleware.is_sentry m = false) (Middleware.http_middlewares s) ->
  Middleware.http_middlewares (add_all (Middleware.Class <$> cs) s) =
  Middleware.http_middlewares s ++ (Middleware.Dispatch <$> cs).
Proof.
  intros Hc. revert s. induction Hc as [|c cs Hp _ IH]; intros s Hs; [by rewrite app_nil_r|].
  unfold add_all in *. cbn [fmap list_fmap foldl]. rewrite IH; [rewrite add_plain by done|].
  - by rewrite <-app_assoc.
  - rewrite add_plain by done. apply Forall_app. split; [done|by repeat constructor].
Qed.

(** The list of the constructor is registered from its first to its last: its
    last member ends up where the middleware added last does, the outermost
    place; the chain is the reverse of the one that adding the members from the
    last to the first gives. *)
Theorem constructor_order cs :
  Forall plain cs ->
  Middleware.http_middlewares (add_all (Middleware.Class <$> cs) empty_mst) = Middleware.Dispatch <$> cs /\
  Middleware.http_middlewares (add_all (Middleware.Class <$> cs) empty_mst) =
  reverse (Middleware.http_middlewares (add_all (Middleware.Class <$> reverse cs) empty_mst)).
Proof.
  intros Hc. assert (Forall plain (reverse cs)) as Hr by by apply Forall_reverse.
  rewrite !add_all_plain by done. simpl. split; [done|]. by rewrite <-fmap_reverse, reverse_involutive.
Qed.

(** *** The last constructed application *)

Lemma construct_snoc l x : construct (l ++ [x]) = __init__ x.1 x.2 (construct l).
Proof. unfold construct. by rewrite foldl_app. Qed.

Lemma construct_apps l : length (apps (construct l)) = length l.
Proof.
  induction l as [|x l IH] using rev_ind; [done|].
  rewrite construct_snoc. simpl. rewrite !length_app, IH. done.
Qed.

(** The timeout the worker falls back on is that of the last application of the
    class itself: an instance of a subclass, constructed later, does not count,
    and one of the class without a timeout hides earlier ones that have it. *)
Theorem last_timeout_is_of_the_class l c a :
  last_timeout (construct (l ++ [(c, a)])) =
  if bool_decide (c = 0%nat) then Some (g_worker_timeout a) else last_timeout (construct l).
Proof.
  rewrite construct_snoc. unfold last_timeout. simpl. case_bool_decide as Hc; subst.
  - rewrite lookup_insert_eq. by rewrite lookup_app_r, Nat.sub_diag by done.
  - rewrite lookup_insert_ne by done. destruct (current (construct l) !! 0%nat) as [i|] eqn:E; [|done].
    rewrite lookup_app_l; [done|].
    assert (forall l i, current (construct l) !! 0%nat = Some i -> (i < length (apps (construct l)))%nat) as H.
    { clear. intros l. induction l as [|x l IH] using rev_ind; intros i; [done|].
      rewrite construct_snoc. simpl. rewrite length_app. simpl. rewrite lookup_insert_Some.
      intros [[_ <-]|[_ H%IH]]; lia. }
    by apply H.
Qed.

(** So the timeout of an application of a subclass never applies where the
    application is not passed along. *)
Corollary subclass_timeout_is_ignored l :
  Forall (fun x => x.1 <> 0%nat) l ->
  AsyncWorker._default_timeout None None (last_timeout (construct l)) = None.
Proof.
  intros Hl. assert (last_timeout (construct l) = None) as ->; [|done].
  induction l as [|[c a] l IH] using rev_ind; [done|].
  apply Forall_app in Hl as [Hl Hc]. rewrite last_timeout_is_of_the_class.
  inversion Hc; subst. simpl in *. by rewrite bool_decide_eq_false_2, IH.
Qed.

(** *** Arguments *)

Theorem root_path_alias root prefix :
  (root <> [] -> effective_root_path root prefix = root) /\
  (root = [] -> effective_root_path root prefix = prefix).
Proof. unfold effective_root_path. split; intros H; destruct root, prefix; done. Qed.

(** *** Absolute URLs *)

Lemma rstrip_snoc p (t : text) c : p c = true -> rstrip_by p (t ++ [c]) = rstrip_by p t.
Proof. intros Hc. unfold rstrip_by. rewrite reverse_snoc. simpl. by rewrite Hc. Qed.

(** Slashes at the end of the base do not matter, and for a base without one the
    path follows it directly; protocol and host of the path have no say. *)
Theorem absolute_url u base :
  make_absolute_url u (base ++ lit "/") = make_absolute_url u base /\
  (forall p h, make_absolute_url {| u_path := u_path u; u_protocol := p; u_host := h |} base =
               make_absolute_url u base).
Proof. unfold make_absolute_url. split; [|done]. f_equal. by apply rstrip_snoc. Qed.

(** ** On concrete values *)

(** Two middlewares in the constructor's list: the second is the outermost. *)
Definition mw0 (i : nat) : Middleware.mw_cls :=
  {| Middleware.c_id := i; Middleware.c_marker := None; Middleware.c_mro_names := [lit "M"];
     Middleware.c_base_http := true; Middleware.c_accepts_app := true; Middleware.c_sentry := false |}.

Lemma constructor_order_witness :
  Middleware.http_middlewares (add_all [Middleware.Class (mw0 1); Middleware.Class (mw0 2)] empty_mst) =
  [Middleware.Dispatch (mw0 1); Middleware.Dispatch (mw0 2)].
Proof. apply (constructor_order [mw0 1; mw0 2]). repeat constructor. Defined.

Lemma genuine_class_is_loaded_witness :
  _load_real_starlette_class (fun _ => Some 7%nat) (fold_left Shim.run_op Shim.session Shim.pristine)
    (lit "applications") (lit "FastAPI") = Some (lit "fastapi.FastAPI").
Proof.
  refine (proj2 (genuine_class_is_loaded (fun _ => Some 7%nat) Shim.pristine Shim.session (lit "applications")
           (lit "FastAPI") 7%nat Shim.pristine_wf eq_refl _ eq_refl) _); [|cbn; lia].
  repeat (apply Forall_cons_2; [first [exact Shim.import0_unbound|exact I]|]). apply Forall_nil_2.
Defined.

End Construct.
