(* ===== verification/SyncCaller.v ===== *)
(** The remaining way [_make_sync_wrapper] drives a coroutine function
    (_door_support.py): [_sync_caller], which tries one step on the calling thread,
    remembers in [needs_loop] that the worker loop is needed, and hands a
    suspended coroutine over to the loop ([_submit_partial]). *)

From S2P Require Import Prelude.

Module SyncCaller.

(** A coroutine: it returns, raises, does something, gives up its turn (a bare
    [yield]), awaits a future, or uses what needs a running loop. *)
Inductive prog :=
| Ret (v : nat)
| Err (e : exn)
| Act (n : nat) (k : prog)
| Pause (k : prog)
| Wait (f : nat) (k : prog)
| Loop (k : prog).

Inductive event := Did (n : nat) | Waited (f : nat).

Definition no_loop : exn := RuntimeError (lit "no running event loop").
Definition not_awaited : exn := RuntimeError (lit "await wasn't used with future").

Definition emit {A} (x : event) (r : list event * A) : list event * A := (x :: r.1, r.2).

(** [submit(async_func(...))]: the worker loop waits for every future. *)
Fixpoint on_loop (p : prog) : list event * res nat :=
  match p with
  | Ret v => ([], Ok v)
  | Err e => ([], Raise e)
  | Act n k => emit (Did n) (on_loop k)
  | Pause k | Loop k => on_loop k
  | Wait f k => emit (Waited f) (on_loop k)
  end.

(** How [coro.send(None)] on the calling thread ends: [StopIteration], an
    exception, or a suspension, on a future that is not done or a bare yield. *)
Inductive sent := Returned (v : nat) | Raised (e : exn) | Suspended (waiting : option nat) (k : prog).

Section Caller.

(** Which futures are done when the first step is taken, and which when the
    worker loop takes the coroutine over. *)
Variable done later : nat -> bool.
(** Does the rest of a coroutine take longer than the 30 seconds
    [fut.result(timeout=30)] waits? *)
Variable slow : prog -> bool.

Fixpoint send_none (p : prog) : list event * sent :=
  match p with
  | Ret v => ([], Returned v)
  | Err e => ([], Raised e)
  | Act n k => emit (Did n) (send_none k)
  | Pause k => ([], Suspended None k)
  | Wait f k => if done f then send_none k else ([], Suspended (Some f) k)
  | Loop _ => ([], Raised no_loop)
  end.

(** [_submit_partial]: the first step of the task sends [None] into the suspended
    coroutine; a future that is not done then raises.  After the timeout the
    coroutine goes on, unobserved. *)
Definition _submit_partial (waiting : option nat) (k : prog) : list event * res nat :=
  match waiting with
  | Some f => if later f then if slow k then ((on_loop k).1, Raise TimeoutError) else on_loop k
              else ([], Raise not_awaited)
  | None => if slow k then ((on_loop k).1, Raise TimeoutError) else on_loop k
  end.

(** One call, with [needs_loop] before and after. *)
Definition _sync_caller (p : prog) (needs_loop : bool) : bool * (list event * res nat) :=
  if needs_loop then (true, on_loop p)
  else match send_none p with
       | (t, Returned v) => (false, (t, Ok v))
       | (t, Raised _) => (true, (t ++ (on_loop p).1, (on_loop p).2))
       | (t, Suspended w k) => (true, (t ++ (_submit_partial w k).1, (_submit_partial w k).2))
       end.

(** The calls of a wrapper in their order, each with its own coroutine. *)
Fixpoint calls (ps : list prog) (needs_loop : bool) : list (list event * res nat) :=
  match ps with
  | [] => []
  | p :: ps' => (_sync_caller p needs_loop).2 :: calls ps' (_sync_caller p needs_loop).1
  end.

End Caller.

(** ** Theorems *)

Section Theorems.

Variable done later : nat -> bool.
Variable slow : prog -> bool.

(** What the first step did is a prefix of the loop's run, awaits of futures that
    were done aside. *)
Definition acts (l : list event) : list nat :=
  omap (fun x => match x with Did n => Some n | Waited _ => None end) l.

Lemma send_none_prefix p :
  match send_none done p with
  | (t, Returned v) => acts (on_loop p).1 = acts t /\ (on_loop p).2 = Ok v
  | (t, Suspended _ k) => acts (on_loop p).1 = acts t ++ acts (on_loop k).1 /\ (on_loop p).2 = (on_loop k).2
  | (t, Raised e) =>
      (acts (on_loop p).1 = acts t /\ (on_loop p).2 = Raise e) \/
      (e = no_loop /\ exists l, acts (on_loop p).1 = acts t ++ l)
  end.
Proof.
  induction p as [v|e|n k IH|k IH|f k IH|k IH]; simpl.
  - done.
  - by left.
  - destruct (send_none done k) as [t [v|e|w k']]; simpl.
    + destruct IH as [-> ->]. done.
    + destruct IH as [[-> ->]|(-> & l & ->)]; [by left|right]. split; [done|]. by exists l.
    + destruct IH as [-> ->]. done.
  - done.
  - destruct (done f); [|done]. destruct (send_none done k) as [t [v|e|w k']]; simpl; done.
  - right. split; [done|]. by eexists.
Qed.

(** A coroutine that returns or gives up its turn in its first step does on the
    first call what it does on the loop, as long as the rest is not slow. *)
Theorem first_call_agrees p :
  (forall t e, send_none done p <> (t, Raised e)) ->
  (forall t f k, send_none done p = (t, Suspended (Some f) k) -> later f = true) ->
  (forall t w k, send_none done p = (t, Suspended w k) -> slow k = false) ->
  let r := (_sync_caller done later slow p false).2 in
  acts r.1 = acts (on_loop p).1 /\ r.2 = (on_loop p).2.
Proof.
  intros He Hw Hs. unfold _sync_caller. pose proof (send_none_prefix p) as Hp.
  destruct (send_none done p) as [t [v|e|w k]] eqn:E; simpl.
  - by destruct Hp as [-> ->].
  - by destruct (He t e).
  - destruct Hp as [-> ->]. specialize (Hs t w k eq_refl). unfold _submit_partial, acts.
    destruct w as [f|]; [rewrite (Hw t f k eq_refl)|]; rewrite Hs, omap_app; done.
Qed.

(** A first step that raises, whatever it raises, is run a second time on the
    loop: what it did is done twice. *)
Theorem failing_step_runs_twice p t e :
  send_none done p = (t, Raised e) ->
  exists l, acts (_sync_caller done later slow p false).2.1 = acts t ++ acts t ++ l.
Proof.
  intros E. pose proof (send_none_prefix p) as Hp. unfold _sync_caller. rewrite E in *. simpl.
  unfold acts at 1. rewrite omap_app. fold (acts t) (acts (on_loop p).1).
  destruct Hp as [[-> _]|(_ & l & ->)]; [exists []; by rewrite app_nil_r|by exists l].
Qed.

(** A future that is not done when the loop takes over is not waited for: the
    first call fails, and a second call of the same coroutine gets its result. *)
Theorem unfinished_future_fails_once p t f k :
  send_none done p = (t, Suspended (Some f) k) -> later f = false ->
  calls done later slow [p; p] false = [(t, Raise not_awaited); on_loop p].
Proof.
  intros E Hf. simpl. unfold _sync_caller. rewrite E. simpl. rewrite Hf. simpl. by rewrite app_nil_r.
Qed.

(** Once the loop was needed every later call is the loop's run. *)
Theorem later_calls_are_on_the_loop ps : calls done later slow ps true = on_loop <$> ps.
Proof. induction ps as [|p ps IH]; simpl; [done|]. by rewrite IH. Qed.

End Theorems.

(** A coroutine that logs, then refuses with an exception: the first call logs
    twice, the second once. *)
Example refusing_dependency :
  calls (fun _ => true) (fun _ => true) (fun _ => false) [Act 1 (Err ValueError); Act 1 (Err ValueError)] false =
  [([Did 1; Did 1], Raise ValueError); ([Did 1], Raise ValueError)].
Proof. reflexivity. Qed.

Lemma first_call_agrees_witness :
  acts (_sync_caller (fun _ => false) (fun _ => false) (fun _ => false) (Act 1 (Pause (Act 2 (Ret 5)))) false).2.1 =
  [1; 2]%nat.
Proof.
  apply (first_call_agrees (fun _ => false) (fun _ => false) (fun _ => false) (Act 1 (Pause (Act 2 (Ret 5)))));
    by intros.
Defined.

End SyncCaller.
