(* ===== verification/Views.v ===== *)
(** What objects show of the scope they are made from: the accessors of
    [WebSocket] (websockets.py), the scope the 404 fallback builds
    (_frontend.py), the cookie header a session reads (middleware/sessions.py),
    and the Redis connection of an event loop (contrib_redis.py). *)

From S2P Require Import Prelude.

Module Views.

(** ** Latin-1 *)

Section Latin.

(** Characters of a [str], and the byte of those below 256. *)
Context {C : Type} (latin1 : C -> option ascii).

(** [s.encode("latin-1")] *)
Fixpoint encode (s : list C) : res bytes :=
  match s with
  | [] => Ok []
  | c :: s' => match latin1 c with
               | Some b => (t <-- encode s' ;; Ok (b :: t))%res
               | None => Raise UnicodeEncodeError
               end
  end.

(** A header's name or value, as bytes or as text. *)
Inductive part := PBytes (b : bytes) | PStr (s : list C).

Definition part_bytes (p : part) : res bytes :=
  match p with PBytes b => Ok b | PStr s => encode s end.

(** The loop of [WebSocket.headers] and of [_build_scope]. *)
Fixpoint norm_headers (hs : list (part * part)) : res (list (bytes * bytes)) :=
  match hs with
  | [] => Ok []
  | (k, v) :: hs' => (k' <-- part_bytes k ;; v' <-- part_bytes v ;; l <-- norm_headers hs' ;; Ok ((k', v') :: l))%res
  end.

(** ** The scope of the fallback *)

Record scope := {
  s_method : text;
  s_path : list C;
  s_raw_path : bytes;
  s_query_string : bytes;
  s_root_path : text;
  s_headers : list (bytes * bytes);
  s_server : text * Z;
  s_client : text * Z
}.

(** The query is bytes, text or [None]. *)
Definition _build_scope (method : text) (path : list C) (query : option part)
    (headers : list (part * part)) : res scope :=
  (hs <-- norm_headers headers ;;
   qs <-- match query with Some p => part_bytes p | None => Ok [] end ;;
   raw <-- encode path ;;
   Ok {| s_method := method; s_path := path; s_raw_path := raw; s_query_string := qs; s_root_path := [];
         s_headers := hs; s_server := (lit "testserver", 80); s_client := (lit "127.0.0.1", 0) |})%res.

End Latin.

(** ** Accessors of a WebSocket *)

(** The object, with the [State] objects of the process by their address. *)
Record ws := {
  w_state : option nat;                 (* [_state], once it was made *)
  w_app : option nat;                   (* [_app] *)
  w_scope_app : option nat;
  w_scope_state : option (gmap text nat);
  w_client : option (text * Z)
}.

Abbreviation states := (gmap nat (gmap text nat)) (only parsing).

(** The [state] property: an empty [State] made on the first access. *)
Definition ws_state (w : ws) (h : states) : nat * ws * states :=
  match w_state w with
  | Some l => (l, w, h)
  | None =>
      let l := fresh (dom h) in
      (l, {| w_state := Some l; w_app := w_app w; w_scope_app := w_scope_app w;
             w_scope_state := w_scope_state w; w_client := w_client w |}, <[l := ∅]> h)
  end.

(** [websocket.state.name] *)
Definition ws_state_get (w : ws) (h : states) (name : text) : res nat :=
  let '(l, _, h') := ws_state w h in
  match h' !! l ≫= (fun st => st !! name) with
  | Some v => Ok v
  | None => Raise AttributeError
  end.

(** [websocket.state.name = v] *)
Definition ws_state_set (w : ws) (h : states) (name : text) (v : nat) : ws * states :=
  let '(l, w', h') := ws_state w h in (w', alter (insert name v) l h').

Definition ws_app (w : ws) : option nat :=
  match w_app w with Some a => Some a | None => w_scope_app w end.

Definition ws_client (w : ws) : text * Z := default (lit "0.0.0.0", 0) (w_client w).

(** ** The cookie header *)

(** A request as the function finds it: [headers.get("cookie", "")], which may
    raise or be missing, and the headers of its scope, decoded. *)
Record request := { r_headers : option (res (option text)); r_scope_headers : list (text * text) }.

Definition scope_cookie (hs : list (text * text)) : text :=
  match list_find (fun kv => lower kv.1 = lit "cookie") hs with
  | Some (_, kv) => kv.2
  | None => []
  end.

Definition _get_cookie_header (r : request) : text :=
  match r_headers r with
  | Some (Ok v) => default [] v
  | _ => scope_cookie (r_scope_headers r)
  end.

(** ** [mux_for_loop] *)

Record target := { t_host : text; t_port : Z; t_db : Z }.

(** The connections by loop, each with the target it was made for. *)
Definition mux_for_loop (loop : nat) (t : target) (per_loop : gmap nat target) : target * gmap nat target :=
  match per_loop !! loop with
  | Some m => (m, per_loop)
  | None => (t, <[loop := t]> per_loop)
  end.

Fixpoint muxes (loop : nat) (ts : list target) (per_loop : gmap nat target) : list target :=
  match ts with
  | [] => []
  | t :: ts' => (mux_for_loop loop t per_loop).1 :: muxes loop ts' (mux_for_loop loop t per_loop).2
  end.

(** ** Theorems *)

Section LatinTheorems.

Context {C : Type} (latin1 : C -> option ascii).

Lemma encode_spec s : encode latin1 s = match mapM latin1 s with Some b => Ok b | None => Raise UnicodeEncodeError end.
Proof.
  induction s as [|c s IH]; simpl; [done|]. destruct (latin1 c); simpl; [|done].
  rewrite IH. by destruct (mapM latin1 s).
Qed.

(** Building the scope raises exactly where the path, the query or a header has
    a character outside Latin-1; else the scope has the request's path, whatever
    the application's root path is. *)
Theorem fallback_scope_needs_latin1 method path query headers :
  (exists s, _build_scope latin1 method path query headers = Ok s /\
     s_path s = path /\ s_root_path s = [] /\ mapM latin1 path = Some (s_raw_path s)) \/
  (_build_scope latin1 method path query headers = Raise UnicodeEncodeError).
Proof.
  assert (forall p, (exists b, part_bytes latin1 p = Ok b) \/ part_bytes latin1 p = Raise UnicodeEncodeError) as Hp.
  { intros [b|s]; simpl; [left; by eexists|]. rewrite encode_spec.
    destruct (mapM latin1 s); [left; by eexists|by right]. }
  assert (forall hs, (exists l, norm_headers latin1 hs = Ok l) \/
    norm_headers latin1 hs = Raise UnicodeEncodeError) as Hh.
  { intros hs. induction hs as [|[k v] hs IH]; simpl; [left; by eexists|].
    destruct (Hp k) as [[k' ->]| ->]; [|by right]. destruct (Hp v) as [[v' ->]| ->]; [|by right]. simpl.
    destruct IH as [[l ->]| ->]; [left; by eexists|by right]. }
  unfold _build_scope. destruct (Hh headers) as [[hs ->]| ->]; [|by right]. simpl.
  destruct query as [q|]; [destruct (Hp q) as [[qs ->]| ->]; [|by right]|]; simpl; rewrite encode_spec;
    (destruct (mapM latin1 path) as [raw|]; [left|by right]); by eexists.
Qed.

Theorem fallback_fails_outside_latin1 method path c query headers :
  c ∈ path -> latin1 c = None ->
  _build_scope latin1 method path query headers = Raise UnicodeEncodeError.
Proof.
  intros Hc Hn. destruct (fallback_scope_needs_latin1 method path query headers) as [(s & _ & _ & _ & Hm)|]; [|done].
  apply mapM_Some in Hm. exfalso. clear -Hc Hn Hm.
  induction Hm as [|x b xs bs Hx _ IH]; [by apply elem_of_nil in Hc|].
  apply elem_of_cons in Hc as [<-|Hc]; [congruence|by apply IH].
Qed.

(** Headers given as bytes and as their text are the same headers. *)
Theorem headers_views_agree hs (bs : list (bytes * bytes)) :
  Forall2 (fun h b => part_bytes latin1 h.1 = Ok b.1 /\ part_bytes latin1 h.2 = Ok b.2) hs bs ->
  norm_headers latin1 hs = Ok bs.
Proof. induction 1 as [|[k v] [k' v'] hs bs [Hk Hv] _ IH]; simpl in *; [done|]. by rewrite Hk, Hv; simpl; rewrite IH. Qed.

End LatinTheorems.

(** The state is one object for the life of the connection: what is set on it is
    read back, also after other names were set. *)
Theorem ws_state_roundtrip w h name v :
  let '(w', h') := ws_state_set w h name v in
  (forall l, w_state w = Some l -> is_Some (h !! l)) ->
  ws_state_get w' h' name = Ok v /\ ws_state w' h' = (default 0%nat (w_state w'), w', h').
Proof.
  unfold ws_state_set, ws_state_get, ws_state. destruct (w_state w) as [l|] eqn:E; simpl; intros Hs.
  - rewrite E. destruct (Hs l eq_refl) as [st Hst].
    rewrite lookup_alter_eq, Hst. simpl. by rewrite lookup_insert_eq.
  - rewrite lookup_alter_eq, lookup_insert_eq. simpl. by rewrite lookup_insert_eq.
Qed.

(** It starts empty, whatever the state in the scope is: nothing a lifespan or a
    middleware put there is found on it. *)
Theorem ws_state_ignores_scope w h name :
  w_state w = None -> ws_state_get w h name = Raise AttributeError.
Proof.
  intros Hw. unfold ws_state_get, ws_state. rewrite Hw, lookup_insert_eq. simpl. by rewrite lookup_empty.
Qed.

(** The header of the scope is found in whichever case it is written, when the
    request has no headers object that answers. *)
Theorem scope_cookie_any_case hs k v :
  lower k = lit "cookie" -> Forall (fun kv => lower kv.1 <> lit "cookie") hs ->
  _get_cookie_header {| r_headers := None; r_scope_headers := hs ++ [(k, v)] |} = v.
Proof.
  intros Hk Hhs. unfold _get_cookie_header, scope_cookie. simpl.
  rewrite list_find_app_r by (by apply list_find_None).
  simpl. by rewrite decide_True.
Qed.

(** A loop has one connection, that of the first call: later calls get it whatever
    host, port or database they name. *)
Theorem mux_is_of_the_first_call loop t ts per_loop :
  per_loop !! loop = None -> muxes loop (t :: ts) per_loop = replicate (S (length ts)) t.
Proof.
  intros Hn. simpl. unfold mux_for_loop at 1 2. rewrite Hn. simpl. f_equal.
  assert (forall m, m !! loop = Some t -> muxes loop ts m = replicate (length ts) t) as H.
  { induction ts as [|t' ts IH]; intros m Hm; simpl; [done|].
    unfold mux_for_loop. rewrite Hm. simpl. by rewrite IH. }
  apply H, lookup_insert_eq.
Qed.

(** Connections of different loops are independent. *)
Theorem mux_per_loop loop loop' t per_loop :
  loop <> loop' -> (mux_for_loop loop t per_loop).2 !! loop' = per_loop !! loop'.
Proof.
  intros Hne. unfold mux_for_loop. destruct (per_loop !! loop); [done|]. simpl. by rewrite lookup_insert_ne.
Qed.

Example other_database_is_not_used :
  muxes 0 [{| t_host := lit "127.0.0.1"; t_port := 6379; t_db := 0 |};
           {| t_host := lit "127.0.0.1"; t_port := 6379; t_db := 1 |}] ∅ =
  [{| t_host := lit "127.0.0.1"; t_port := 6379; t_db := 0 |};
   {| t_host := lit "127.0.0.1"; t_port := 6379; t_db := 0 |}].
Proof. reflexivity. Qed.

End Views.
